(* ===== verification/_CoqProject ===== *)
-Q . S2P
Prelude.v
Text.v
Encoding.v
Json.v
Readiness.v
Leadership.v
Schema.v
RateLimit.v
Sql.v
Store.v
Clients.v
Journal.v
StoreProofs.v
StoreSpec.v
Contract.v
Receipt.v
ReceiptSpec.v
Protocol.v
Canonical.v
ProtocolSpec.v
Near.v
JsonRpc.v
Config.v
Secrets.v
Telemetry.v
Auth.v
ClientsSpec.v
Demo.v
NearSpec.v
Scheme.v
Retry.v
Evm.v
DemoEvm.v
EvmSpec.v
Chain.v
Bootstrap.v
Keys.v
ChainProofs.v
ChainSpec.v
JsonRpcSpec.v
Service.v
Probe.v
ProbeSpec.v
Diagnostics.v
Http.v
Catalog.v
Router.v
CatalogSpec.v
Startup.v
Admin.v
DemoService.v
ConfigSpec.v
RecoverySpec.v
ServiceProofs.v
Termination.v
ProgressSpec.v
ResumeSpec.v
ReasonCodes.v
HttpProofs.v
HttpSpec.v
VerifySpec.v
RouterSpec.v
StartupSpec.v
KeysSpec.v
AdminSpec.v
Frame.v
ServiceSpec.v
