(* ===== verification/Prelude.v ===== *)
(** * Verification of the x402 facilitator

    The facilitator accepts payment requests over HTTP, verifies them against a chain
    (NEAR, or an EVM chain such as Base), journals a settlement in PostgreSQL, signs a
    sponsoring transaction, hands it to RPC nodes and answers with the outcome.  Its
    promise is that a payment is settled at most once, that its answer is stable, and
    that nothing is lost when a process dies at any point.  This library models the
    code that carries that promise and proves it.

    ** Files and the code they model

    Paths are relative to [crates/]; F is [x402-near-facilitator/src], N is
    [x402-chain-near/src], E is [x402-chain-eip155-provider/src].
    - [Prelude]: results, processes with faults and interference, rely/guarantee rules,
      tactics.  [Text]: decimal and hexadecimal text, checked and saturating arithmetic.
      [Encoding]: UTF-8, white space and IP addresses as the standard library reads them.
      [Json]: [serde_json::Value] and its accessors.
    - [Readiness]: the readiness gates and the leadership task; [Leadership]: any number of
      instances competing for the advisory lock (F/leadership.rs).
    - [Schema]: the tables, CHECK and UNIQUE constraints (migrations/).  [Sql]:
      statements and transactions.  [Store]: the settlement store (F/store.rs).
      [Journal]: the journal's invariant and order.  [StoreProofs], [StoreSpec]: that
      every call keeps them, and what follows.  [Contract]: the abstract settlement
      contract and how the journal and the wire map onto it.
    - [Clients], [ClientsSpec]: clients, keys, payees and the schema's readiness
      (F/store.rs).  [Auth]: API keys (F/auth.rs).  [RateLimit]: the request windows
      (F/service.rs).
    - [Config], [ConfigSpec], [Secrets]: configuration and secret files (F/config.rs).
      [Telemetry]: the collector's credential (F/telemetry.rs).
    - [Receipt], [ReceiptSpec]: NEAR receipt graphs (N/receipt.rs).
    - [Protocol], [Canonical], [ProtocolSpec]: request parsing, the version 1 dialect,
      canonical JSON and the fingerprint (F/protocol.rs, F/v1_compat.rs).
    - [Near], [NearSpec]: the NEAR mechanism and provider (N/mechanism.rs,
      N/provider.rs, N/types.rs, N/rpc.rs).  [JsonRpc], [JsonRpcSpec]: its JSON-RPC
      endpoint (N/rpc.rs).  [Scheme]: the handler registered with x402-rs
      (N/mechanism.rs); [VerifySpec]: what its answers mean at the HTTP boundary.
    - [Retry]: bounded retries (F/retry.rs and the twin in E/provider.rs).
    - [Evm], [EvmSpec]: the EVM mechanism (E/provider.rs, E/prepare.rs, E/settle.rs).
    - [Chain], [ChainProofs], [ChainSpec]: the chain-neutral provider (F/chain.rs).
    - [Service], [ServiceProofs], [RecoverySpec], [ProgressSpec], [ResumeSpec]: the
      settlement worker and the reconciliation (F/service.rs).  [Termination]: that they
      come to an end.  [ReasonCodes]: what they report.
    - [Probe], [ProbeSpec]: the chain part of readiness, from the endpoints to the gates
      (F/service.rs, F/chain.rs, N/provider.rs, E/provider.rs).  [Diagnostics]: what it
      logs of a failed reader (E/provider.rs, N/provider.rs).
    - [Http], [HttpProofs], [HttpSpec]: the settle, verify, supported and readiness
      handlers; [Router], [RouterSpec]: the table of routes and the static pages
      (F/service.rs).  [Catalog], [CatalogSpec]: the discovery catalog and its handler
      (F/catalog.rs).
    - [Bootstrap], [Startup], [StartupSpec]: from the configuration file to the open
      listener, and the [reconcile] command (F/main.rs, F/bootstrap.rs, E/provider.rs).
    - [Admin], [AdminSpec]: clients, payees and migrations (F/bin/admin.rs, F/store.rs);
      [Keys], [KeysSpec]: relayer keys (F/bin/admin.rs, E/provider.rs).
    - [Frame], [ServiceSpec]: all tasks together.
    - [Demo], [DemoEvm], [DemoService]: a concrete deployment, on which the theorems'
      hypotheses are shown to hold.

    ** How the model runs

    A task is a process over a [World]: the committed database, the readiness gates and
    the log of every transaction handed to a chain, each tagged with its settlement.
    Every [await] on the outside is a numbered tick at which the environment decides
    what other tasks did meanwhile, and whether the request is served, fails, takes
    effect with its acknowledgement lost, or the process dies.  Theorems quantify over
    all environments.  A database transaction is atomic: others interfere before its
    BEGIN and after its COMMIT, statements inside it may fail, and a COMMIT may be lost
    either way.  RPC nodes and third-party code are parameters: an endpoint is an oracle
    asked at a tick, and codecs, hashes and signatures are fields of [Near.External] and
    [Evm.EvmExternal], with the laws the proofs need stated as [NearSpec.FaithfulLib] and
    [EvmSpec.FaithfulEvm] and shown to hold of a concrete deployment.  Calls the code
    joins are issued one after the other.  The mutex around the relayer is not modelled;
    interference at every tick includes the schedules it excludes.

    Strings are byte strings, fixed-width integers are [N] or [Z] with their checks,
    saturation and conversions written out, NUMERIC columns are [N] with their precision,
    a CHECK that evaluates to SQL NULL passes.  The two loops of the receipt interpreter
    run on fuel: the walk on one more than the edges of the graph, the sort on the number
    of visited receipts; [ReceiptSpec] proves both suffice.  A retry makes at most three
    calls; waiting for a settlement polls every 100 milliseconds, so ten times per second of
    its deadline, whose expiry ends the wait in any case.

    ** What the theorems show

    - [ServiceSpec]: the service refines the contract of [Contract].  Whatever crashes or
      restarts with whatever configuration, every transaction on the wire is the journaled one of a row past [submitted]; no payment
      is sent as two transactions; a follower sends nothing; a revoked client stays locked
      out.  None of this assumes that there is only one leader; [Leadership] shows when
      there is.
    - [HttpSpec]: a settled request is answered with the stored bytes, every success goes
      to the authenticated client and is one the journal holds.  [RouterSpec]: nothing but an
      authenticated settle request acts.  [VerifySpec]: a payment called valid was.
    - [StoreSpec]: one settlement per payment, permanent submissions and answers, exact
      ledgers within budget, rows typed by their state, a replayable event log, and the
      answers of the calls.
    - [ClientsSpec], [RateLimit]: who gets in, and how often.
    - [RecoverySpec]: what preparation journals, recovery accepts; the reservation covers
      the cost.
    - [ProgressSpec]: no claimed settlement is left behind: workers and recovery passes
      return; a worker concludes its settlement, gives it back or calls for recovery;
      recovery opens settlement exactly when nothing is left, and after a crash before
      signing one undisturbed pass gets there.  [ResumeSpec]: after a crash behind the
      signature it does too, with the outcome of a chain that has decided: on NEAR the
      two endpoints' answers add up, on an EVM chain both readers serve one receipt at
      the row's confirmation depth, which the pass may first raise.
    - [ReasonCodes]: no outside text becomes a stored code, and so a metric's label.
    - [EvmSpec], [ChainSpec], [ReceiptSpec], [NearSpec], [JsonRpcSpec]: the evidence on
      which a payment is verified, taken for paid, failed, unknown or rejected.
    - [ProtocolSpec], [Canonical]: what an accepted request says, and that its
      fingerprint identifies it.
    - [Readiness], [ProbeSpec], [Retry]: settlement only while leading; gates that say
      what was observed; bounded waiting.
    - [ConfigSpec], [Secrets], [Telemetry], [CatalogSpec]: what passes validation.
    - [StartupSpec], [KeysSpec]: a service starts closed, from what it was configured with
      and the keys it was given, and a start that fails changes nothing.  [AdminSpec]: a
      printed key opens the service and replaces the others, an allowed payee is honoured.
    - [Diagnostics]: reporting a failed reader changes no decision and leaks no text.

    ** Not modelled

    Metrics, traces and the redacted [Debug] output, which no code reads back; the
    framework's layers that tag and trace requests; argument parsing; binding the socket,
    signals and the spawning of the tasks whose bodies are modelled (F/main.rs); the
    crates' tests. *)

From stdpp Require Import base gmap strings list numbers sorting relations.
From Stdlib Require Import Lia ZArith.

Declare Scope x402_scope.
Delimit Scope x402_scope with x402.
Open Scope x402_scope.

(** ** Results

    Rust's [Result<A, E>]; [option] is Rust's [Option]. *)

Inductive Result (A E : Type) : Type :=
| Ok (a : A)
| Err (e : E).
Arguments Ok {A E} a.
Arguments Err {A E} e.

Definition is_ok {A E} (r : Result A E) : bool :=
  match r with Ok _ => true | Err _ => false end.

Definition is_err {A E} (r : Result A E) : bool := negb (is_ok r).

Definition ok {A E} (r : Result A E) : option A :=
  match r with Ok a => Some a | Err _ => None end.

Definition ok_or {A E} (o : option A) (e : E) : Result A E :=
  match o with Some a => Ok a | None => Err e end.

Definition map_err {A E F} (f : E → F) (r : Result A E) : Result A F :=
  match r with Ok a => Ok a | Err e => Err (f e) end.

Definition result_bind {A B E} (r : Result A E) (k : A → Result B E) : Result B E :=
  match r with Ok a => k a | Err e => Err e end.

(** The [?] operator on pure results. *)
Notation "'try' x ':=' r 'in' k" := (result_bind r (λ x, k))
  (at level 10, x pattern, r at level 100, k at level 200)
  : x402_scope.

Definition is_some_and {A} (o : option A) (p : A → bool) : bool :=
  match o with Some a => p a | None => false end.

Definition is_none_or {A} (o : option A) (p : A → bool) : bool :=
  match o with Some a => p a | None => true end.

Definition filter_opt {A} (p : A → bool) (o : option A) : option A :=
  match o with Some a => if p a then Some a else None | None => None end.

Lemma result_bind_ok {A B E} (r : Result A E) (k : A → Result B E) b :
  result_bind r k = Ok b → ∃ a, r = Ok a ∧ k a = Ok b.
Proof. destruct r; simpl; [eauto | discriminate]. Qed.

(** Decomposes a successful chain of pure results. *)
Ltac result_inv :=
  repeat match goal with
  | H : result_bind _ _ = Ok _ |- _ =>
      apply result_bind_ok in H as (? & ? & H); cbv beta in H
  end.

Lemma ok_or_ok {A E} (o : option A) (e : E) a : ok_or o e = Ok a → o = Some a.
Proof. destruct o; simpl; congruence. Qed.

(** ... through its lookups and early returns. *)
Ltac checks_inv :=
  repeat match goal with
  | H : result_bind _ _ = Ok _ |- _ =>
      apply result_bind_ok in H as (? & ? & H); cbv beta in H
  | H : ok_or _ _ = Ok _ |- _ => apply ok_or_ok in H
  | H : (if ?b then Err _ else _) = Ok _ |- _ => destruct b eqn:?; [discriminate |]
  | H : (if ?b then _ else Err _) = Ok _ |- _ => destruct b eqn:?; [| discriminate]
  end.

Lemma ok_or_err {A E} (o : option A) (e e' : E) :
  ok_or o e = Err e' → o = None ∧ e = e'.
Proof. destruct o; simpl; naive_solver. Qed.

(** ** Effectful code

    The facilitator is a set of [tokio] tasks that share one PostgreSQL
    database, the readiness gates and the chain.  A task is modelled as a
    process over a world [W].  Every [await] on the outside (a SQL statement,
    a commit, an RPC call) is one numbered tick; at each tick the environment
    decides
    - what the other tasks and processes did to the shared world since the
      previous tick ([interfere]);
    - what happens to the request itself ([reply]): it is served ([Up]), it
      fails without effect ([Down]), it takes effect but its acknowledgement
      is lost ([DownApplied]), or the process dies ([Crash]).
    Theorems quantify over all environments. *)

Inductive Reply : Type :=
| Up
| Down
| DownApplied
| Crash.

Record Env (W : Type) : Type := MkEnv {
  interfere : nat → W → W;
  reply : nat → Reply;
  (** the wall clock seen at a tick, in microseconds since the epoch *)
  clock : nat → Z
}.
Arguments MkEnv {W} interfere reply clock.
Arguments interfere {W} e n w.
Arguments reply {W} e n.
Arguments clock {W} e n.

Inductive Outcome (A : Type) : Type :=
| Done (a : A)
| Crashed.
Arguments Done {A} a.
Arguments Crashed {A}.

Definition Proc (W A : Type) : Type := Env W → nat → W → Outcome A * nat * W.

Section proc.
Context {W : Type}.

Definition ret {A} (a : A) : Proc W A := λ _ n w, (Done a, n, w).

Definition bind {A B} (c : Proc W A) (k : A → Proc W B) : Proc W B := λ env n w,
  match c env n w with
  | (Done a, n', w') => k a env n' w'
  | (Crashed, n', w') => (Crashed, n', w')
  end.

(** Propagation of an [Err] out of an effectful function ([?]). *)
Definition bind_ok {A B E} (c : Proc W (Result A E)) (k : A → Proc W (Result B E))
  : Proc W (Result B E) :=
  bind c (λ r, match r with Ok a => k a | Err e => ret (Err e) end).

(** Local access to the shared world, without a tick: atomics and mutexes. *)
Definition gets {A} (f : W → A) : Proc W A := λ _ n w, (Done (f w), n, w).
Definition modify (f : W → W) : Proc W unit := λ _ n w, (Done tt, n, f w).

(** One external request: [f] is its effect when it reaches the outside, and
    [lost] the value the caller observes when it fails. *)
Definition request {A} (f : W → A * W) (lost : A) : Proc W A := λ env n w,
  let w := interfere env n w in
  match reply env n with
  | Up => let '(a, w') := f w in (Done a, S n, w')
  | Down => (Done lost, S n, w)
  | DownApplied => let '(_, w') := f w in (Done lost, S n, w')
  | Crash => (Crashed, S n, w)
  end.

(** A read-only call to a service outside the modelled world (an RPC node).  The
    service is an oracle: its answer may differ at every tick. *)
Definition consult {A} (answer : nat → A) : Proc W A := λ env n w,
  let w := interfere env n w in
  match reply env n with
  | Crash => (Crashed, S n, w)
  | _ => (Done (answer n), S n, w)
  end.

(** A call that also hands something over: [effect] happens unless the request is
    lost on the way out, whatever the answer says. *)
Definition transmit {A} (effect : W → W) (answer : nat → A) : Proc W A := λ env n w,
  let w := interfere env n w in
  match reply env n with
  | Crash => (Crashed, S n, w)
  | Down => (Done (answer n), S n, w)
  | _ => (Done (answer n), S n, effect w)
  end.

(** [result.map_err(f)] on an effectful result. *)
Definition map_err_proc {A E F} (f : E → F) (c : Proc W (Result A E)) : Proc W (Result A F) :=
  bind c (λ r, ret (map_err f r)).

(** [tokio::time::timeout]: at the first await past the deadline the inner future is
    dropped, which is what a crash at that await is to it; [None] is [Elapsed]. *)
Definition cut (deadline : Z) (env : Env W) : Env W :=
  MkEnv (interfere env) (λ n, if (deadline <=? clock env n)%Z then Crash else reply env n)
    (clock env).

Definition timeout {A} (micros : Z) (c : Proc W A) : Proc W (option A) := λ env n w,
  match c (cut (clock env n + micros) env) n w with
  | (Done a, n', w') => (Done (Some a), n', w')
  | (Crashed, n', w') =>
      match reply env (pred n') with
      | Crash => (Crashed, n', w')
      | _ => (Done None, n', w')
      end
  end.

(** Cleanup that runs when a scope is left, also when its future is dropped. *)
Definition finally {A} (c : Proc W A) (cleanup : W → W) : Proc W A := λ env n w,
  let '(o, n', w') := c env n w in (o, n', cleanup w').

(** The clock as read now. *)
Definition now : Proc W Z := λ env n w, (Done (clock env n), n, w).
End proc.

Notation "'let*' x ':=' c 'in' k" := (bind c (λ x, k))
  (at level 10, x pattern, c at level 100, k at level 200)
  : x402_scope.
Notation "'let?' x ':=' c 'in' k" := (bind_ok c (λ x, k))
  (at level 10, x pattern, c at level 100, k at level 200)
  : x402_scope.

(** A quiet environment: nobody interferes and every request is served. *)
Definition quiet_env (W : Type) : Env W := MkEnv (λ _ w, w) (λ _, Up) (λ _, 0%Z).

(** An environment without interference or failures, at any clock. *)
Definition calm {W} (env : Env W) : Prop :=
  (∀ n w, interfere env n w = w) ∧ (∀ n, reply env n = Up).

Lemma quiet_calm W : calm (quiet_env W).
Proof. done. Qed.

Lemma calm_request {W A} (f : W → A * W) (lost : A) env n w :
  calm env → request f lost env n w = (let '(a, w') := f w in (Done a, S n, w')).
Proof. intros [Hi Hr]. unfold request. by rewrite Hi, Hr. Qed.

Lemma bind_inv {W A B} (c : Proc W A) (k : A → Proc W B) env n w b n' w' :
  bind c k env n w = (Done b, n', w') →
  ∃ a n1 w1, c env n w = (Done a, n1, w1) ∧ k a env n1 w1 = (Done b, n', w').
Proof. unfold bind. destruct (c env n w) as [[[a|] n1] w1]; [| done]. intros Hk. by exists a, n1, w1. Qed.

Lemma map_err_proc_ok {W A E F} (g : E → F) (c : Proc W (Result A E)) env n w a n' w' :
  map_err_proc g c env n w = (Done (Ok a), n', w') ↔ c env n w = (Done (Ok a), n', w').
Proof.
  unfold map_err_proc, bind, ret. destruct (c env n w) as [[[[b|e]|] n1] w1]; cbn; naive_solver.
Qed.

Lemma bind_ok_inv {W A B E} (c : Proc W (Result A E)) (k : A → Proc W (Result B E)) env n w b n' w' :
  bind_ok c k env n w = (Done (Ok b), n', w') →
  ∃ a n1 w1, c env n w = (Done (Ok a), n1, w1) ∧ k a env n1 w1 = (Done (Ok b), n', w').
Proof. intros ([a|e] & n1 & w1 & Hc & Hk)%bind_inv; [by exists a, n1, w1 | done]. Qed.

Lemma bind_done {W A B} (c : Proc W A) (k : A → Proc W B) env n w a n' w' :
  c env n w = (Done a, n', w') → bind c k env n w = k a env n' w'.
Proof. intros H. unfold bind. by rewrite H. Qed.

Lemma bind_ok_done {W A B E} (c : Proc W (Result A E)) (k : A → Proc W (Result B E))
    env n w a n' w' :
  c env n w = (Done (Ok a), n', w') → bind_ok c k env n w = k a env n' w'.
Proof. intros H. unfold bind_ok. by erewrite bind_done by exact H. Qed.

(** *** Successful runs

    What a run that ends in [Ok] says of its first step. *)

Section runs.
Context {W : Type} (env : Env W).

Lemma run_ret_ok {A B E} (r : Result A E) (k : A → Proc W (Result B E)) n w b n' w' :
  bind_ok (ret r) k env n w = (Done (Ok b), n', w') ↔
  ∃ a, r = Ok a ∧ k a env n w = (Done (Ok b), n', w').
Proof. unfold bind_ok, bind, ret. destruct r; naive_solver. Qed.

Lemma run_consult {A B} (answer : nat → A) (k : A → Proc W B) n w b n' w' :
  bind (consult answer) k env n w = (Done b, n', w') ↔
  reply env n ≠ Crash ∧ k (answer n) env (S n) (interfere env n w) = (Done b, n', w').
Proof. unfold bind, consult. destruct (reply env n); naive_solver. Qed.

Lemma run_consult_ok {A B E F} (f : E → F) (answer : nat → Result A E)
    (k : A → Proc W (Result B F)) n w b n' w' :
  bind_ok (map_err_proc f (consult answer)) k env n w = (Done (Ok b), n', w') ↔
  reply env n ≠ Crash ∧ ∃ a, answer n = Ok a ∧
    k a env (S n) (interfere env n w) = (Done (Ok b), n', w').
Proof.
  unfold bind_ok, map_err_proc, bind, consult, ret.
  destruct (reply env n), (answer n); naive_solver.
Qed.
End runs.

(** *** Rely/guarantee reasoning

    [respects R c] says that [c] moves the world along the preorder [R]
    whenever the environment does: the guarantee of [c] under the rely [R]. *)

Definition rely {W} (R : relation W) (env : Env W) : Prop :=
  ∀ n w, R w (interfere env n w).

Definition respects {W A} (R : relation W) (c : Proc W A) : Prop :=
  ∀ env n w o n' w', rely R env → c env n w = (o, n', w') → R w w'.

Create HintDb respects discriminated.
#[export] Hint Constants Opaque : respects.

Section respects.
Context {W : Type} (R : relation W) `{!PreOrder R}.

Lemma respects_ret {A} (a : A) : respects R (ret a).
Proof. intros env n w o n' w' _ H. injection H as <- <- <-. reflexivity. Qed.

Lemma respects_gets {A} (f : W → A) : respects R (gets f).
Proof. intros env n w o n' w' _ H. injection H as <- <- <-. reflexivity. Qed.

Lemma respects_now : respects R now.
Proof. intros env n w o n' w' _ H. injection H as <- <- <-. reflexivity. Qed.

Lemma respects_consult {A} (answer : nat → A) : respects R (consult answer).
Proof.
  intros env n w o n' w' Hrely. unfold consult.
  destruct (reply env n); intros H; injection H as <- <- <-; apply Hrely.
Qed.

Lemma respects_modify (f : W → W) : (∀ w, R w (f w)) → respects R (modify f).
Proof. intros Hf env n w o n' w' _ H. injection H as <- <- <-. apply Hf. Qed.

Lemma respects_bind {A B} (c : Proc W A) (k : A → Proc W B) :
  respects R c → (∀ a, respects R (k a)) → respects R (bind c k).
Proof.
  intros Hc Hk env n w o n' w' Hrely. unfold bind.
  destruct (c env n w) as [[[a|] n1] w1] eqn:E; intros H.
  - transitivity w1; [eapply Hc; eauto | eapply Hk; eauto].
  - injection H as <- <- <-. eapply Hc; eauto.
Qed.

Lemma respects_bind_ok {A B E} (c : Proc W (Result A E)) (k : A → Proc W (Result B E)) :
  respects R c → (∀ a, respects R (k a)) → respects R (bind_ok c k).
Proof.
  intros Hc Hk. apply respects_bind; [done |].
  intros [a|e]; [apply Hk | apply respects_ret].
Qed.

Lemma respects_timeout {A} micros (c : Proc W A) : respects R c → respects R (timeout micros c).
Proof.
  intros Hc env n w o n' w' Hrely. unfold timeout.
  destruct (c (cut (clock env n + micros) env) n w) as [[[a|] n1] w1] eqn:E; intros H.
  - injection H as <- <- <-. eapply Hc; [| exact E]. exact Hrely.
  - assert (w1 = w') as -> by (by destruct (reply env (pred n1)); injection H).
    eapply Hc; [| exact E]. exact Hrely.
Qed.

Lemma respects_finally {A} (c : Proc W A) cleanup :
  respects R c → (∀ w, R w (cleanup w)) → respects R (finally c cleanup).
Proof.
  intros Hc Hf env n w o n' w' Hrely. unfold finally.
  destruct (c env n w) as [[o1 n1] w1] eqn:E. intros H. injection H as <- <- <-.
  transitivity w1; [by eapply Hc | apply Hf].
Qed.

Lemma respects_map_err {A E F} (f : E → F) (c : Proc W (Result A E)) :
  respects R c → respects R (map_err_proc f c).
Proof. intros Hc. apply respects_bind; [done |]. intros. apply respects_ret. Qed.

Lemma respects_request {A} (f : W → A * W) (lost : A) :
  (∀ w, R w (f w).2) → respects R (request f lost).
Proof.
  intros Hf env n w o n' w' Hrely. unfold request.
  pose proof (Hrely n w) as Hi.
  destruct (reply env n); try (destruct (f _) as [a w1] eqn:E);
    intros H; injection H as <- <- <-; try done;
    (transitivity (interfere env n w); [done |];
     specialize (Hf (interfere env n w)); rewrite E in Hf; exact Hf).
Qed.
End respects.

#[export] Hint Resolve respects_ret respects_gets respects_now respects_consult : respects.

(** Nobody interferes in a calm environment. *)
Lemma calm_rely {W} (R : relation W) `{!PreOrder R} env : calm env → rely R env.
Proof. intros [Hi _] n w. rewrite Hi. reflexivity. Qed.

(** Rule induction: an invariant of every step is an invariant of every
    reachable state. *)
Lemma rtc_invariant {A} (R : relation A) (P : A → Prop) x y :
  (∀ a b, R a b → P a → P b) → rtc R x y → P x → P y.
Proof. intros Hstep. induction 1; eauto. Qed.

(** Case analysis on the discriminee of the goal's or a hypothesis' [match]. *)
Ltac split_match :=
  match goal with
  | |- context [match ?x with _ => _ end] => destruct x eqn:?
  | H : context [match ?x with _ => _ end] |- _ => destruct x eqn:?
  end.

(** Walks through a process, one constructor at a time. *)
Ltac solve_respects :=
  repeat first
    [ solve [eauto with respects]
    | apply respects_ret; [typeclasses eauto]
    | apply respects_gets; [typeclasses eauto]
    | apply respects_now; [typeclasses eauto]
    | apply respects_consult; [typeclasses eauto]
    | apply respects_bind; [typeclasses eauto | |]
    | apply respects_bind_ok; [typeclasses eauto | |]
    | apply respects_map_err; [typeclasses eauto |]
    | progress intros
    | match goal with
      | |- respects _ (match ?x with _ => _ end) => destruct x eqn:?
      | |- respects _ (let '(_, _) := ?x in _) => destruct x eqn:?
      end ].

(** ** Two processes side by side

    They take the same steps and end alike, with results related by [P]. *)
Section related.
Context {W : Type}.

Definition related {A B} (P : A → B → Prop) (c : Proc W A) (d : Proc W B) : Prop :=
  ∀ env n w,
  match c env n w, d env n w with
  | (Done a, n1, w1), (Done b, n2, w2) => P a b ∧ n1 = n2 ∧ w1 = w2
  | (Crashed, n1, w1), (Crashed, n2, w2) => n1 = n2 ∧ w1 = w2
  | _, _ => False
  end.

Lemma related_ret {A B} (P : A → B → Prop) a b : P a b → related P (ret a) (ret b).
Proof. by intros H env n w. Qed.

Lemma related_consult {A B} (P : A → B → Prop) f g :
  (∀ n, P (f n) (g n)) → related P (consult f) (consult g).
Proof. intros H env n w. unfold consult. by destruct (reply env n). Qed.

Lemma related_bind {A B A' B'} (P : A → B → Prop) (Q : A' → B' → Prop) c d k l :
  related P c d → (∀ a b, P a b → related Q (k a) (l b)) → related Q (bind c k) (bind d l).
Proof.
  intros Hc Hk env n w. specialize (Hc env n w). unfold bind.
  destruct (c env n w) as [[[a|] n1] w1], (d env n w) as [[[b|] n2] w2]; try done.
  destruct Hc as (Hp & -> & ->). by apply Hk.
Qed.

Lemma related_eq {A} (c d : Proc W A) : related eq c d → ∀ env n w, c env n w = d env n w.
Proof.
  intros Hc env n w. specialize (Hc env n w).
  destruct (c env n w) as [[[a|] n1] w1], (d env n w) as [[[b|] n2] w2]; try done; naive_solver.
Qed.

(** Results related by their values, whatever the errors. *)
Definition same_ok {A E F} (r : Result A E) (q : Result A F) : Prop := ok r = ok q.

Lemma related_bind_ok {A B E F} (c : Proc W (Result A E)) (d : Proc W (Result A F))
    (k : A → Proc W (Result B E)) (l : A → Proc W (Result B F)) :
  related same_ok c d → (∀ a, related same_ok (k a) (l a)) →
  related same_ok (bind_ok c k) (bind_ok d l).
Proof.
  intros Hc Hk. apply (related_bind same_ok); [done |]. intros [a|e] [b|f] Hab; try done. injection Hab as <-. apply Hk.
Qed.

End related.
