(* ===== verification/Text.v ===== *)
(** * Text: ASCII strings and decimal numerals

    The parts of Rust's [str] and integer parsing the facilitator uses: bytes
    are [ascii], a [String] or a [Vec<u8>] is a [string].  [dec_value] is the
    number a digit string denotes, [parse_uint] is [str::parse] at an unsigned
    width, [to_decimal] is [Display] of an unsigned integer. *)

From stdpp Require Import base strings list numbers pretty.
From Stdlib Require Import Lia NArith ZArith Ascii String.
From S2P Require Import Prelude.

Open Scope string_scope.
Open Scope N_scope.

(** ** Bytes *)

Definition byte_val (c : ascii) : N := N_of_ascii c.

Definition in_range (lo hi : ascii) (c : ascii) : bool :=
  (byte_val lo <=? byte_val c) && (byte_val c <=? byte_val hi).

Definition is_ascii_digit (c : ascii) : bool := in_range "0" "9" c.
Definition is_ascii_lower (c : ascii) : bool := in_range "a" "z" c.
Definition is_ascii_upper (c : ascii) : bool := in_range "A" "Z" c.
Definition is_ascii_alphanumeric (c : ascii) : bool :=
  is_ascii_digit c || is_ascii_lower c || is_ascii_upper c.
Definition is_ascii_hexdigit (c : ascii) : bool :=
  is_ascii_digit c || in_range "a" "f" c || in_range "A" "F" c.
(** auth.rs [is_lower_hex] *)
Definition is_lower_hex (c : ascii) : bool := is_ascii_digit c || in_range "a" "f" c.

(** [u8::to_ascii_lowercase]: only [A..Z] move, by 32. *)
Definition ascii_lower (c : ascii) : ascii :=
  if is_ascii_upper c then ascii_of_N (byte_val c + 32) else c.

(** ** Strings *)

Fixpoint all_bytes (p : ascii → bool) (s : string) : bool :=
  match s with
  | EmptyString => true
  | String c s' => p c && all_bytes p s'
  end.

Definition is_empty (s : string) : bool :=
  match s with EmptyString => true | _ => false end.

Fixpoint to_ascii_lowercase (s : string) : string :=
  match s with
  | EmptyString => EmptyString
  | String c s' => String (ascii_lower c) (to_ascii_lowercase s')
  end.

Definition eq_ignore_ascii_case (a b : string) : bool :=
  String.eqb (to_ascii_lowercase a) (to_ascii_lowercase b).

Fixpoint strip_prefix (p s : string) : option string :=
  match p, s with
  | EmptyString, _ => Some s
  | String c p', String d s' => if Ascii.eqb c d then strip_prefix p' s' else None
  | String _ _, EmptyString => None
  end.

Definition starts_with (p s : string) : bool :=
  match strip_prefix p s with Some _ => true | None => false end.

(** [str::trim_start_matches('0')] *)
Fixpoint trim_start_zeros (s : string) : string :=
  match s with
  | String c s' => if Ascii.eqb c "0" then trim_start_zeros s' else s
  | EmptyString => EmptyString
  end.

(** Lexicographic order on bytes: [<[u8]>::cmp]. *)
Fixpoint bytes_cmp (a b : string) : comparison :=
  match a, b with
  | EmptyString, EmptyString => Eq
  | EmptyString, String _ _ => Lt
  | String _ _, EmptyString => Gt
  | String c a', String d b' =>
      match N.compare (byte_val c) (byte_val d) with
      | Eq => bytes_cmp a' b'
      | o => o
      end
  end.

(** ** Numerals *)

Definition digit_val (c : ascii) : N := byte_val c - 48.

Fixpoint dec_value_from (acc : N) (s : string) : N :=
  match s with
  | EmptyString => acc
  | String c s' => dec_value_from (acc * 10 + digit_val c) s'
  end.

Definition dec_value (s : string) : N := dec_value_from 0 s.

(** A non-empty string of ASCII digits. *)
Definition is_decimal (s : string) : bool :=
  negb (is_empty s) && all_bytes is_ascii_digit s.

Definition u8_max : N := 2 ^ 8 - 1.
Definition u16_max : N := 2 ^ 16 - 1.
Definition u32_max : N := 2 ^ 32 - 1.
Definition u64_max : N := 2 ^ 64 - 1.
Definition u128_max : N := 2 ^ 128 - 1.
Definition i16_max : N := 2 ^ 15 - 1.
Definition i32_max : N := 2 ^ 31 - 1.

(** [checked_add] and [checked_mul] at a width given by its largest value. *)
Definition checked_add (max a b : N) : option N :=
  if a + b <=? max then Some (a + b) else None.
Definition checked_mul (max a b : N) : option N :=
  if a * b <=? max then Some (a * b) else None.
Definition checked_sub (a b : N) : option N :=
  if b <=? a then Some (a - b) else None.
Definition saturating_add (max a b : N) : N := N.min max (a + b).
Definition saturating_mul (max a b : N) : N := N.min max (a * b).
(** [uN::try_from] on a wider unsigned integer. *)
Definition try_from (max a : N) : option N := if a <=? max then Some a else None.

Lemma checked_add_Some max a b c : checked_add max a b = Some c ↔ c = a + b ∧ a + b <= max.
Proof. unfold checked_add. destruct (N.leb_spec (a + b) max); naive_solver lia. Qed.
Lemma checked_mul_Some max a b c : checked_mul max a b = Some c ↔ c = a * b ∧ a * b <= max.
Proof. unfold checked_mul. destruct (N.leb_spec (a * b) max); naive_solver lia. Qed.
Lemma checked_sub_Some a b c : checked_sub a b = Some c ↔ c = a - b ∧ b <= a.
Proof. unfold checked_sub. destruct (N.leb_spec b a); naive_solver lia. Qed.
Lemma try_from_Some max a b : try_from max a = Some b ↔ b = a ∧ a <= max.
Proof. unfold try_from. destruct (N.leb_spec a max); naive_solver lia. Qed.

(** Rust's [str::parse] for an unsigned integer type of largest value [max]: an
    optional leading [+], then at least one digit, and no overflow. *)
Definition parse_uint (max : N) (s : string) : option N :=
  let digits := match s with String "+" s' => s' | _ => s end in
  if is_decimal digits then try_from max (dec_value digits) else None.

(** Hexadecimal digits of either case. *)
Definition hex_digit_val (c : ascii) : N :=
  if is_ascii_digit c then byte_val c - 48
  else if in_range "a" "f" c then byte_val c - 87
  else byte_val c - 55.

Fixpoint hex_value_from (acc : N) (s : string) : N :=
  match s with
  | EmptyString => acc
  | String c s' => hex_value_from (acc * 16 + hex_digit_val c) s'
  end.

(** [from_str_radix(s, 16)] at an unsigned width of largest value [max]. *)
Definition parse_hex_uint (max : N) (s : string) : option N :=
  let digits := match s with String "+" s' => s' | _ => s end in
  if negb (is_empty digits) && all_bytes is_ascii_hexdigit digits
  then try_from max (hex_value_from 0 digits) else None.

(** [Display] of an unsigned integer. *)
Definition to_decimal (n : N) : string := pretty n.

(** ** Lemmas *)

Create HintDb text discriminated.

Lemma is_ascii_digit_spec c :
  is_ascii_digit c = true ↔ 48 <= byte_val c <= 57.
Proof.
  unfold is_ascii_digit, in_range.
  change (byte_val "0"%char) with 48. change (byte_val "9"%char) with 57.
  rewrite andb_true_iff, !N.leb_le. done.
Qed.

Lemma byte_val_inj c d : byte_val c = byte_val d → c = d.
Proof.
  unfold byte_val. intros H.
  rewrite <- (ascii_N_embedding c), <- (ascii_N_embedding d). by rewrite H.
Qed.

Lemma dec_value_from_bound acc s :
  all_bytes is_ascii_digit s = true →
  acc * 10 ^ N.of_nat (String.length s) <= dec_value_from acc s
  < (acc + 1) * 10 ^ N.of_nat (String.length s).
Proof.
  revert acc. induction s as [|c s IH]; intros acc; cbn [all_bytes dec_value_from String.length].
  - intros _. simpl. lia.
  - intros [Hc Hs]%andb_true_iff. apply is_ascii_digit_spec in Hc.
    specialize (IH (acc * 10 + digit_val c) Hs). unfold digit_val in *.
    rewrite Nat2N.inj_succ, N.pow_succ_r' in *. nia.
Qed.

Lemma dec_value_from_split acc s :
  dec_value_from acc s = acc * 10 ^ N.of_nat (String.length s) + dec_value s.
Proof.
  unfold dec_value. revert acc. induction s as [|c s IH]; intros acc; cbn [dec_value_from String.length].
  - simpl. lia.
  - rewrite IH, (IH (0 * 10 + digit_val c)), Nat2N.inj_succ, N.pow_succ_r'. lia.
Qed.

Lemma dec_value_trim s : dec_value (trim_start_zeros s) = dec_value s.
Proof.
  induction s as [|c s IH]; cbn [trim_start_zeros]; [done |].
  destruct (Ascii.eqb_spec c "0") as [->|]; [| done].
  rewrite IH. done.
Qed.

Lemma dec_value_nonzero_bound c s :
  is_ascii_digit c = true → c ≠ "0"%char → all_bytes is_ascii_digit s = true →
  10 ^ N.of_nat (String.length s) <= dec_value (String c s).
Proof.
  intros Hc Hne Hs. apply is_ascii_digit_spec in Hc.
  assert (byte_val c ≠ 48) by (intros E; apply Hne, byte_val_inj; exact E).
  unfold dec_value. cbn [dec_value_from].
  pose proof (dec_value_from_bound (0 * 10 + digit_val c) s Hs) as [Hb _].
  unfold digit_val in *. nia.
Qed.

Lemma trim_start_zeros_digits s :
  all_bytes is_ascii_digit s = true → all_bytes is_ascii_digit (trim_start_zeros s) = true.
Proof.
  induction s as [|c s IH]; cbn [trim_start_zeros all_bytes]; [done |].
  intros [Hc Hs]%andb_true_iff. destruct (Ascii.eqb c "0"); [auto |].
  cbn. by rewrite Hc, Hs.
Qed.

Lemma trim_start_zeros_head s c s' :
  trim_start_zeros s = String c s' → c ≠ "0"%char.
Proof.
  induction s as [|d s IH]; cbn [trim_start_zeros]; [done |].
  destruct (Ascii.eqb_spec d "0"); [auto | congruence].
Qed.

(** On digit strings of one length the byte order is the numeric order. *)
Lemma bytes_cmp_dec_value acc bcc s t :
  all_bytes is_ascii_digit s = true → all_bytes is_ascii_digit t = true →
  String.length s = String.length t → acc = bcc →
  bytes_cmp s t = N.compare (dec_value_from acc s) (dec_value_from bcc t).
Proof.
  revert acc bcc t. induction s as [|c s IH]; intros acc bcc [|d t]; cbn [all_bytes bytes_cmp dec_value_from String.length];
    intros Hs Ht Hl Hab; try discriminate.
  - subst. by rewrite N.compare_refl.
  - apply andb_true_iff in Hs as [Hc Hs]. apply andb_true_iff in Ht as [Hd Ht].
    apply is_ascii_digit_spec in Hc. apply is_ascii_digit_spec in Hd.
    injection Hl as Hl. subst bcc.
    pose proof (dec_value_from_bound (acc * 10 + digit_val c) s Hs) as Bs.
    pose proof (dec_value_from_bound (acc * 10 + digit_val d) t Ht) as Bt.
    rewrite Hl in *. unfold digit_val in *.
    destruct (N.compare_spec (byte_val c) (byte_val d)) as [E|E|E].
    + apply IH; auto. by rewrite E.
    + symmetry. apply N.compare_lt_iff. nia.
    + symmetry. apply N.compare_gt_iff. nia.
Qed.

(** ** Printing and parsing are inverse *)

Lemma pretty_N_char_digit x : x < 10 →
  is_ascii_digit (pretty_N_char x) = true ∧ digit_val (pretty_N_char x) = x.
Proof.
  intros H. assert (x = 0 ∨ x = 1 ∨ x = 2 ∨ x = 3 ∨ x = 4 ∨ x = 5 ∨ x = 6 ∨ x = 7 ∨ x = 8 ∨ x = 9)
    as Hx by lia.
  repeat destruct Hx as [Hx|Hx]; subst x; by split.
Qed.

Lemma pretty_N_go_spec x s :
  all_bytes is_ascii_digit s = true →
  all_bytes is_ascii_digit (pretty_N_go x s) = true ∧
  dec_value (pretty_N_go x s) = x * 10 ^ N.of_nat (String.length s) + dec_value s.
Proof.
  revert s. induction (N.lt_wf_0 x) as [x _ IH]; intros s Hs.
  destruct (decide (x = 0)) as [->|Hx].
  - rewrite pretty_N_go_0. split; [done | lia].
  - rewrite pretty_N_go_step by lia.
    pose proof (pretty_N_char_digit (x mod 10) ltac:(apply N.mod_lt; lia)) as [Hd Hv].
    destruct (IH (x / 10) ltac:(apply N.div_lt; lia) (String (pretty_N_char (x mod 10)) s)) as [H1 H2].
    { cbn [all_bytes]. by rewrite Hd, Hs. }
    split; [exact H1 |]. rewrite H2. cbn [String.length].
    unfold dec_value at 1. cbn [dec_value_from]. rewrite dec_value_from_split, Hv.
    rewrite Nat2N.inj_succ, N.pow_succ_r'. pose proof (N.div_mod x 10 ltac:(lia)). nia.
Qed.

Lemma to_decimal_digits n : all_bytes is_ascii_digit (to_decimal n) = true.
Proof.
  unfold to_decimal, pretty, pretty_N. case_decide; [done |].
  by apply pretty_N_go_spec.
Qed.

Lemma dec_value_to_decimal n : dec_value (to_decimal n) = n.
Proof.
  unfold to_decimal, pretty, pretty_N. case_decide; [by subst |].
  pose proof (pretty_N_go_spec n "" eq_refl) as [_ H1].
  change (dec_value "") with 0 in H1. cbn [String.length] in H1. simpl in H1. lia.
Qed.

Lemma is_decimal_to_decimal n : is_decimal (to_decimal n) = true.
Proof.
  unfold is_decimal. rewrite to_decimal_digits, andb_true_r.
  destruct (to_decimal n) eqn:E; [| done].
  unfold to_decimal, pretty, pretty_N in E. case_decide; [done |].
  rewrite pretty_N_go_step in E by lia.
  assert (∀ x c s, pretty_N_go x (String c s) ≠ "") as Hne; [| by destruct (Hne _ _ _ E)].
  intros x. induction (N.lt_wf_0 x) as [x _ IH]; intros c s.
  destruct (decide (x = 0)) as [->|]; [by rewrite pretty_N_go_0 |].
  rewrite pretty_N_go_step by lia. apply IH, N.div_lt; lia.
Qed.

Lemma is_decimal_no_plus s c s' : is_decimal s = true → s = String c s' → c ≠ "+"%char.
Proof. intros H -> ->. unfold is_decimal in H. by rewrite andb_false_r in H. Qed.

Lemma parse_uint_decimal max s :
  is_decimal s = true → parse_uint max s = try_from max (dec_value s).
Proof.
  intros H. unfold parse_uint.
  assert (match s with String "+" s' => s' | _ => s end = s) as ->.
  { destruct s as [|[[] [] [] [] [] [] [] []] s]; try done. }
  by rewrite H.
Qed.

(** Parsing what [Display] printed gives the number back, at any width that
    holds it. *)
Lemma parse_uint_to_decimal max n :
  n <= max → parse_uint max (to_decimal n) = Some n.
Proof.
  intros H. rewrite parse_uint_decimal by apply is_decimal_to_decimal.
  rewrite dec_value_to_decimal. unfold try_from.
  by rewrite (proj2 (N.leb_le n max) H).
Qed.

Lemma parse_uint_bound max s n : parse_uint max s = Some n → n <= max.
Proof.
  unfold parse_uint, try_from. intros H. repeat case_match; simplify_eq.
  all: by apply N.leb_le.
Qed.

Lemma to_ascii_lowercase_idemp s :
  to_ascii_lowercase (to_ascii_lowercase s) = to_ascii_lowercase s.
Proof.
  induction s as [|c s IH]; cbn [to_ascii_lowercase]; [done |]. rewrite IH. f_equal.
  destruct c as [[] [] [] [] [] [] [] []]; vm_compute; reflexivity.
Qed.

Lemma eq_ignore_ascii_case_spec a b :
  eq_ignore_ascii_case a b = true ↔ to_ascii_lowercase a = to_ascii_lowercase b.
Proof. apply String.eqb_eq. Qed.

(** *** Concatenation *)

Lemma append_cons x (a b : string) : String x a +:+ b = String x (a +:+ b).
Proof. reflexivity. Qed.

Lemma append_nil_l (a : string) : "" +:+ a = a.
Proof. reflexivity. Qed.

Lemma append_assoc (a b c : string) : (a +:+ b) +:+ c = a +:+ (b +:+ c).
Proof. induction a as [|x a IH]; [done |]. rewrite !append_cons. by f_equal. Qed.

Lemma append_nil_r (a : string) : a +:+ "" = a.
Proof. induction a as [|x a IH]; [done |]. rewrite append_cons. by f_equal. Qed.

Lemma append_length s t : String.length (s +:+ t) = (String.length s + String.length t)%nat.
Proof. induction s as [|c s IH]; [done |]. rewrite append_cons. cbn. by rewrite IH. Qed.

Lemma all_bytes_weaken (p q : ascii → bool) s :
  (∀ c, p c = true → q c = true) → all_bytes p s = true → all_bytes q s = true.
Proof.
  intros Hpq. induction s as [|c s IH]; cbn; [done |].
  intros [Hc Hs]%andb_true_iff. by rewrite (Hpq c Hc), IH.
Qed.

Lemma strip_prefix_spec p s r : strip_prefix p s = Some r ↔ s = (p +:+ r)%string.
Proof.
  revert s. induction p as [|c p IH]; intros s; cbn [strip_prefix String.append].
  - split; [by intros [= ->] | by intros ->].
  - destruct s as [|d s]; [split; discriminate |].
    destruct (Ascii.eqb_spec c d) as [->|Hne].
    + rewrite IH. split; [by intros -> | by intros [= ->]].
    + split; [discriminate | by intros [= -> _]].
Qed.

#[export] Hint Resolve to_decimal_digits is_decimal_to_decimal : text.
