(* ===== verification/Encoding.v ===== *)
(** * Text encodings of the standard library

    [std::str::from_utf8], [char::is_control] on UTF-8 text, and [IpAddr::from_str], as
    the catalog and the secret files use them. *)

From stdpp Require Import base strings list numbers.
From Stdlib Require Import Lia NArith Ascii String.
From S2P Require Import Prelude Text.

Open Scope string_scope.
Open Scope N_scope.

Module Encoding.

(** ** UTF-8 *)

Definition between (lo hi : N) (c : ascii) : bool := (lo <=? byte_val c) && (byte_val c <=? hi).

(** A continuation byte. *)
Definition is_cont (c : ascii) : bool := between 128 191 c.

(** [std::str::from_utf8(..).is_ok()]: no overlong form, no surrogate, nothing above
    U+10FFFF. *)
Fixpoint utf8_valid (s : string) : bool :=
  match s with
  | EmptyString => true
  | String a s1 =>
      if between 0 127 a then utf8_valid s1
      else if between 194 223 a then
        match s1 with String b s2 => is_cont b && utf8_valid s2 | _ => false end
      else if between 224 239 a then
        match s1 with
        | String b (String c s3) =>
            (if byte_val a =? 224 then between 160 191 b
             else if byte_val a =? 237 then between 128 159 b
             else is_cont b) && is_cont c && utf8_valid s3
        | _ => false
        end
      else if between 240 244 a then
        match s1 with
        | String b (String c (String d s4)) =>
            (if byte_val a =? 240 then between 144 191 b
             else if byte_val a =? 244 then between 128 143 b
             else is_cont b) && is_cont c && is_cont d && utf8_valid s4
        | _ => false
        end
      else false
  end.

(** [chars().any(char::is_control)] on valid UTF-8: the category Cc is U+0000 to U+001F,
    U+007F, and U+0080 to U+009F, whose encodings are C2 80 to C2 9F. *)
Fixpoint has_control (s : string) : bool :=
  match s with
  | EmptyString => false
  | String a s1 =>
      between 0 31 a || (byte_val a =? 127)
      || ((byte_val a =? 194) && match s1 with String b _ => between 128 159 b | _ => false end)
      || has_control s1
  end.

Definition is_ascii (s : string) : bool := all_bytes (between 0 127) s.

(** [chars().any(char::is_whitespace)] on valid UTF-8: the [White_Space] characters are
    U+0009 to U+000D, U+0020, U+0085, U+00A0, U+1680, U+2000 to U+200A, U+2028, U+2029,
    U+202F, U+205F and U+3000. *)
Fixpoint has_whitespace (s : string) : bool :=
  match s with
  | EmptyString => false
  | String a s1 =>
      between 9 13 a || (byte_val a =? 32)
      || match s1 with
         | String b s2 =>
             ((byte_val a =? 194) && ((byte_val b =? 133) || (byte_val b =? 160)))
             || match s2 with
                | String c _ =>
                    let x := (byte_val a, byte_val b, byte_val c) in
                    bool_decide (x = (225, 154, 128))
                    || bool_decide (x = (227, 128, 128))
                    || bool_decide (x = (226, 129, 159))
                    || ((byte_val a =? 226) && (byte_val b =? 128)
                        && (between 128 138 c || between 168 169 c || (byte_val c =? 175)))
                | _ => false
                end
         | _ => false
         end
      || has_whitespace s1
  end.

(** ** IP addresses *)

(** The parsers return what is left of the input. *)
Definition Parser (A : Type) : Type := string → option (A * string).

Definition read_given_char (c : ascii) : Parser unit := λ s,
  match s with String d s' => if Ascii.eqb c d then Some (tt, s') else None | _ => None end.

Definition to_digit (radix : N) (c : ascii) : option N :=
  if is_ascii_hexdigit c && (hex_digit_val c <? radix) then Some (hex_digit_val c) else None.

(** The digits of [read_number]: their value and count, [None] past [max_digits] or
    [max]. *)
Fixpoint read_digits (radix max max_digits : N) (s : string) (acc count : N)
  : option (N * N * string) :=
  match s with
  | EmptyString => Some (acc, count, s)
  | String c s' =>
      match to_digit radix c with
      | None => Some (acc, count, s)
      | Some d =>
          let acc := acc * radix + d in
          if (max <? acc) || (max_digits <? count + 1) then None
          else read_digits radix max max_digits s' acc (count + 1)
      end
  end.

Definition read_number (radix max max_digits : N) (allow_zero_prefix : bool) : Parser N := λ s,
  match read_digits radix max max_digits s 0 0 with
  | None => None
  | Some (value, count, rest) =>
      if (count =? 0)
         || (negb allow_zero_prefix && starts_with "0" s && (1 <? count))
      then None else Some (value, rest)
  end.

(** [read_separator]: the separator comes before every item but the first. *)
Definition read_separator {A} (sep : ascii) (index : nat) (p : Parser A) : Parser A := λ s,
  match index with
  | O => p s
  | S _ => match read_given_char sep s with Some (_, s') => p s' | None => None end
  end.

Definition read_octet : nat → Parser N := λ i, read_separator "." i (read_number 10 u8_max 3 false).

Definition read_ipv4_addr : Parser unit := λ s,
  match read_octet 0 s with
  | Some (_, s) =>
      match read_octet 1 s with
      | Some (_, s) =>
          match read_octet 2 s with
          | Some (_, s) => match read_octet 3 s with Some (_, s) => Some (tt, s) | None => None end
          | None => None
          end
      | None => None
      end
  | None => None
  end.

(** [read_groups], [left] groups from the end: how many were read, whether the last two
    were an IPv4 address, and the rest. *)
Fixpoint read_groups (left index : nat) (s : string) : nat * bool * string :=
  match left with
  | O => (index, false, s)
  | S left' =>
      match (match left' with
             | O => None
             | S _ => read_separator ":" index read_ipv4_addr s
             end) with
      | Some (_, s') => (S (S index), true, s')
      | None =>
          match read_separator ":" index (read_number 16 u16_max 4 true) s with
          | Some (_, s') => read_groups left' (S index) s'
          | None => (index, false, s)
          end
      end
  end.

Definition read_ipv6_addr : Parser unit := λ s,
  let '(head_size, head_ipv4, s1) := read_groups 8 0 s in
  if (head_size =? 8)%nat then Some (tt, s1)
  else if head_ipv4 then None
  else
  match read_given_char ":" s1 with
  | None => None
  | Some (_, s2) =>
      match read_given_char ":" s2 with
      | None => None
      | Some (_, s3) =>
          let '(_, _, s4) := read_groups (8 - (head_size + 1)) 0 s3 in Some (tt, s4)
      end
  end.

Definition consumed (o : option (unit * string)) : bool :=
  match o with Some (_, rest) => is_empty rest | None => false end.

(** [str::parse::<IpAddr>().is_ok()] *)
Definition parses_as_ip (s : string) : bool :=
  match read_ipv4_addr s with
  | Some (_, rest) => is_empty rest
  | None => consumed (read_ipv6_addr s)
  end.

Example ip_literals :
  map parses_as_ip ["127.0.0.1"; "::1"; "2001:db8::8a2e:370:7334"; "::ffff:192.0.2.128"; "1:2:3:4:5:6:7:8"]
  = [true; true; true; true; true].
Proof. vm_compute. reflexivity. Qed.
Example not_ip_literals :
  map parses_as_ip ["127.0.0.01"; "256.1.1.1"; "1.2.3"; "[::1]"; "::1::"; "1:2:3:4:5:6:7"; "12345::";
                    "merchant.example"; ":"]
  = [false; false; false; false; false; false; false; false; false].
Proof. vm_compute. reflexivity. Qed.

Example utf8_examples :
  map (λ l, utf8_valid (string_of_list_ascii (map ascii_of_N l)))
    [[97]; [195; 169]; [226; 130; 172]; [240; 159; 146; 169]; [255]; [192; 175]; [237; 160; 128];
     [244; 144; 128; 128]; [195]]
  = [true; true; true; true; false; false; false; false; false].
Proof. vm_compute. reflexivity. Qed.

End Encoding.
