(* ===== verification/Json.v ===== *)
(** * JSON values

    [serde_json::Value] as the facilitator uses it.  The crate is built without
    [preserve_order], so an object is a [BTreeMap]: an association list kept
    sorted by the byte order of its keys.  A number is a [u64], a negative
    [i64], or a float known by the text [Display] gives it. *)

From stdpp Require Import base strings list numbers.
From Stdlib Require Import Lia NArith ZArith Ascii String.
From S2P Require Import Prelude Text.

Open Scope string_scope.
Open Scope N_scope.

Inductive Number : Type :=
| PosInt (n : N)
| NegInt (z : Z)
| Float (text : string).

Inductive Value : Type :=
| Null
| Bool (b : bool)
| Num (n : Number)
| Str (s : string)
| Array (vs : list Value)
| Object (fields : list (string * Value)).

Abbreviation Map := (list (string * Value)).

(** ** Accessors *)

(** [Map::get] *)
Fixpoint get (key : string) (m : Map) : option Value :=
  match m with
  | [] => None
  | (k, v) :: m' => if String.eqb k key then Some v else get key m'
  end.

(** [BTreeMap::insert], which replaces the value of a key already present. *)
Fixpoint insert (key : string) (value : Value) (m : Map) : Map :=
  match m with
  | [] => [(key, value)]
  | (k, v) :: m' =>
      match bytes_cmp key k with
      | Lt => (key, value) :: m
      | Eq => (key, value) :: m'
      | Gt => (k, v) :: insert key value m'
      end
  end.

Definition keys (m : Map) : list string := m.*1.

Definition as_object (v : Value) : option Map :=
  match v with Object m => Some m | _ => None end.
Definition as_str (v : Value) : option string :=
  match v with Str s => Some s | _ => None end.
Definition as_u64 (v : Value) : option N :=
  match v with Num (PosInt n) => Some n | _ => None end.
Definition as_bool (v : Value) : option bool :=
  match v with Bool b => Some b | _ => None end.
Definition as_array (v : Value) : option (list Value) :=
  match v with Array vs => Some vs | _ => None end.

Definition is_object (v : Value) : bool :=
  match v with Object _ => true | _ => false end.
Definition is_string (v : Value) : bool :=
  match v with Str _ => true | _ => false end.
Definition is_null (v : Value) : bool :=
  match v with Null => true | _ => false end.

(** [Value::get] with a string index: [None] unless the value is an object. *)
Definition value_get (key : string) (v : Value) : option Value :=
  m ← as_object v; get key m.

(** ** Lemmas *)

Lemma bytes_cmp_refl s : bytes_cmp s s = Eq.
Proof. induction s as [|c s IH]; cbn; [done |]. by rewrite N.compare_refl. Qed.

Lemma bytes_cmp_eq s t : bytes_cmp s t = Eq → s = t.
Proof.
  revert t. induction s as [|c s IH]; intros [|d t]; cbn; try discriminate; [done |].
  destruct (N.compare_spec (byte_val c) (byte_val d)) as [E| |]; try discriminate.
  apply byte_val_inj in E. intros H. by rewrite (IH _ H), E.
Qed.

Lemma bytes_cmp_antisym s t : bytes_cmp t s = CompOpp (bytes_cmp s t).
Proof.
  revert t. induction s as [|c s IH]; intros [|d t]; cbn; try done.
  rewrite N.compare_antisym. destruct (byte_val c ?= byte_val d); cbn; [apply IH | done | done].
Qed.

Lemma get_insert key value m : get key (insert key value m) = Some value.
Proof.
  induction m as [|[k v] m IH]; cbn; [by rewrite String.eqb_refl |].
  destruct (bytes_cmp key k) eqn:E; cbn; rewrite ?String.eqb_refl; try done.
  destruct (String.eqb_spec k key) as [->|]; [by rewrite bytes_cmp_refl in E | done].
Qed.

Lemma get_insert_ne key key' value m :
  key ≠ key' → get key' (insert key value m) = get key' m.
Proof.
  intros Hne. induction m as [|[k v] m IH]; cbn.
  - by rewrite (proj2 (String.eqb_neq key key') Hne).
  - destruct (bytes_cmp key k) eqn:E; cbn.
    + apply bytes_cmp_eq in E as ->. by rewrite (proj2 (String.eqb_neq k key') Hne).
    + by rewrite (proj2 (String.eqb_neq key key') Hne).
    + by rewrite IH.
Qed.
