(* ===== verification/Readiness.v ===== *)
(** * Readiness gates and leadership

    Models [crates/x402-near-facilitator/src/leadership.rs]: the five readiness
    gates behind [/readyz] and [can_settle], and the task that acquires, holds
    and loses the advisory lock that makes this process the active instance. *)

From stdpp Require Import base strings list numbers relations.
From Stdlib Require Import Lia NArith ZArith.
From S2P Require Import Prelude Text.

Open Scope string_scope.
Open Scope N_scope.

Module Readiness.

(** ** Gates *)

Inductive ReadinessGate : Type :=
| Database
| Leadership
| Reconciliation
| Rpc
| Relayer.

#[export] Instance ReadinessGate_eq_dec : EqDecision ReadinessGate.
Proof. solve_decision. Defined.

Inductive ReadinessGateState : Type :=
| Ready
| NotReady.

#[export] Instance ReadinessGateState_eq_dec : EqDecision ReadinessGateState.
Proof. solve_decision. Defined.

Definition gate_as_str (g : ReadinessGate) : string :=
  match g with
  | Database => "database"
  | Leadership => "leadership"
  | Reconciliation => "reconciliation"
  | Rpc => "rpc"
  | Relayer => "relayer"
  end.

(** chain.rs [ReadinessFailureClass] *)
Inductive ReadinessFailureClass : Type :=
| RpcUnavailable
| NearPrimaryRpcUnavailable
| NearBackupRpcUnavailable
| NearBothRpcUnavailable
| NearChainIdMismatch
| PrimaryRpcUnavailable
| BackupRpcUnavailable
| BothRpcUnavailable
| ChainIdMismatch
| PendingNonceDisagreement
| SignerHeadUnavailable
| RelayerPolicyLookupFailed
| RelayerPolicyInactive
| SignerBalanceHardStop.

#[export] Instance ReadinessFailureClass_eq_dec : EqDecision ReadinessFailureClass.
Proof. solve_decision. Defined.

Definition UNKNOWN : N := 0.
Definition NOT_READY : N := 1.
Definition READY : N := 2.

Definition from_ready (ready : bool) : ReadinessGateState :=
  if ready then Ready else NotReady.

Definition from_atomic (value : N) : option ReadinessGateState :=
  if value =? NOT_READY then Some NotReady
  else if value =? READY then Some Ready
  else None.

Definition as_atomic (s : ReadinessGateState) : N :=
  match s with Ready => READY | NotReady => NOT_READY end.

(** The five [AtomicU8] cells, all [UNKNOWN] at start. *)
Record ReadinessState : Type := MkReadiness {
  database : N;
  leadership : N;
  reconciliation : N;
  rpc : N;
  relayer : N
}.

Definition default : ReadinessState :=
  MkReadiness UNKNOWN UNKNOWN UNKNOWN UNKNOWN UNKNOWN.

Definition gate_value (g : ReadinessGate) (s : ReadinessState) : N :=
  match g with
  | Database => database s
  | Leadership => leadership s
  | Reconciliation => reconciliation s
  | Rpc => rpc s
  | Relayer => relayer s
  end.

Definition store_gate (g : ReadinessGate) (v : N) (s : ReadinessState) : ReadinessState :=
  match g with
  | Database => MkReadiness v (leadership s) (reconciliation s) (rpc s) (relayer s)
  | Leadership => MkReadiness (database s) v (reconciliation s) (rpc s) (relayer s)
  | Reconciliation => MkReadiness (database s) (leadership s) v (rpc s) (relayer s)
  | Rpc => MkReadiness (database s) (leadership s) (reconciliation s) v (relayer s)
  | Relayer => MkReadiness (database s) (leadership s) (reconciliation s) (rpc s) v
  end.

(** The transition to log, if any: a first observation or a change. *)
Definition observed (g : ReadinessGate) (previous : N) (ready : bool)
  : option (ReadinessGate * ReadinessGateState) :=
  let state := from_ready ready in
  if decide (from_atomic previous = Some state) then None else Some (g, state).

Definition set_gate (g : ReadinessGate) (ready : bool) (s : ReadinessState)
  : option (ReadinessGate * ReadinessGateState) * ReadinessState :=
  let state := from_ready ready in
  let previous := gate_value g s in
  (observed g previous ready, store_gate g (as_atomic state) s).

Definition set_database (ready : bool) (s : ReadinessState) : ReadinessState :=
  (set_gate Database ready s).2.
Definition set_reconciliation (ready : bool) (s : ReadinessState) : ReadinessState :=
  (set_gate Reconciliation ready s).2.
Definition set_rpc (ready : bool) (s : ReadinessState) : ReadinessState :=
  (set_gate Rpc ready s).2.
Definition set_relayer (ready : bool) (s : ReadinessState) : ReadinessState :=
  (set_gate Relayer ready s).2.
Definition set_leadership (ready : bool) (s : ReadinessState) : ReadinessState :=
  let s := (set_gate Leadership ready s).2 in
  if ready then s else set_reconciliation false s.

Definition atomic_gate_ready (v : N) : bool :=
  bool_decide (from_atomic v = Some Ready).

Record ReadinessSnapshot : Type := MkSnapshot {
  s_leadership : bool;
  s_reconciliation : bool;
  s_rpc : bool;
  s_relayer : bool
}.

Definition snapshot (s : ReadinessState) : ReadinessSnapshot :=
  MkSnapshot (atomic_gate_ready (leadership s)) (atomic_gate_ready (reconciliation s))
             (atomic_gate_ready (rpc s)) (atomic_gate_ready (relayer s)).

Definition can_settle (s : ReadinessState) : bool :=
  let snap := snapshot s in
  s_leadership snap && s_reconciliation snap && s_rpc snap && s_relayer snap.

(** ** The leadership task *)

Definition initial_retry : N := 250.
Definition max_retry : N := 5000.

(** Where [run_leadership] is: about to run an iteration of its loop, inside
    [hold_leadership], or past the loop. *)
Inductive Phase : Type :=
| Trying
| Holding
| Stopped.

#[export] Instance Phase_eq_dec : EqDecision Phase.
Proof. solve_decision. Defined.

Record Leader : Type := MkLeader {
  phase : Phase;
  retry : N;
  shutdown : bool;
  gates : ReadinessState
}.

(** What one iteration observes.  The flag on the waiting outcomes is the
    shutdown flag as the wait leaves it. *)
Inductive LeaderEvent : Type :=
| ConnectFailed (shutdown' : bool)
| LockAcquired
| LockDenied (shutdown' : bool)
| LockFailed (shutdown' : bool)
| HeartbeatOk
| HeartbeatFailed
| ShutdownChanged (closed : bool) (flag : bool).

Definition backoff (r : N) : N := N.min (r * 2) max_retry.

(** One turn of the [while !*shutdown.borrow()] loop up to its next wait, or one
    arm of the [select!] in [hold_leadership]. *)
Definition leadership_step (l : Leader) (ev : LeaderEvent) : Leader :=
  match phase l with
  | Stopped => l
  | Trying =>
      if shutdown l then MkLeader Stopped (retry l) true (set_leadership false (gates l))
      else
        let g := set_leadership false (gates l) in
        match ev with
        | ConnectFailed sd | LockFailed sd => MkLeader Trying (backoff (retry l)) sd g
        | LockDenied sd => MkLeader Trying (retry l) sd g
        | LockAcquired => MkLeader Holding initial_retry false (set_leadership true g)
        | _ => MkLeader Trying (retry l) (shutdown l) g
        end
  | Holding =>
      match ev with
      | HeartbeatFailed => MkLeader Trying (retry l) (shutdown l) (set_leadership false (gates l))
      | ShutdownChanged closed flag =>
          if closed || flag then
            MkLeader Stopped (retry l) flag
              (set_leadership false (set_leadership false (gates l)))
          else MkLeader Holding (retry l) flag (gates l)
      | _ => l
      end
  end.

Definition start : Leader := MkLeader Trying initial_retry false default.

(** The other tasks of the process move every gate except [Leadership]. *)
Inductive gate_write : relation ReadinessState :=
| write_database b s : gate_write s (set_database b s)
| write_reconciliation b s : gate_write s (set_reconciliation b s)
| write_rpc b s : gate_write s (set_rpc b s)
| write_relayer b s : gate_write s (set_relayer b s).

Inductive leader_step : relation Leader :=
| step_leadership l ev : leader_step l (leadership_step l ev)
| step_other l g :
    gate_write (gates l) g →
    leader_step l (MkLeader (phase l) (retry l) (shutdown l) g).

(** ** Lemmas *)

Lemma atomic_gate_ready_as_atomic b :
  atomic_gate_ready (as_atomic (from_ready b)) = b.
Proof. destruct b; reflexivity. Qed.

Lemma gate_write_leadership s s' : gate_write s s' → leadership s' = leadership s.
Proof. by destruct 1. Qed.

Lemma set_leadership_ready b s :
  atomic_gate_ready (leadership (set_leadership b s)) = b.
Proof. destruct b; reflexivity. Qed.

Lemma can_settle_spec s :
  can_settle s = true ↔
  atomic_gate_ready (leadership s) = true ∧ atomic_gate_ready (reconciliation s) = true ∧
  atomic_gate_ready (rpc s) = true ∧ atomic_gate_ready (relayer s) = true.
Proof. unfold can_settle, snapshot; cbn. rewrite !andb_true_iff. tauto. Qed.

Definition leader_inv (l : Leader) : Prop :=
  (atomic_gate_ready (leadership (gates l)) = true → phase l = Holding) ∧
  initial_retry <= retry l <= max_retry.

Lemma leadership_step_inv l ev : leader_inv l → leader_inv (leadership_step l ev).
Proof.
  intros [Hg Hr]. unfold leadership_step, leader_inv.
  destruct (phase l) eqn:Hp.
  - destruct (shutdown l); [split; [done | exact Hr] |].
    destruct ev; cbn; (split; [try done |]);
      unfold backoff, initial_retry, max_retry in *; lia.
  - destruct ev; cbn; rewrite ?Hp; try (split; [done | exact Hr]).
    destruct (_ || _); cbn; (split; [done | exact Hr]).
  - split; [rewrite Hp; exact Hg | exact Hr].
Qed.

Lemma leader_step_inv l l' : leader_step l l' → leader_inv l → leader_inv l'.
Proof.
  intros Hs Hi. destruct Hs as [l ev | l g Hw]; [by apply leadership_step_inv |].
  destruct Hi as [Hg Hr]. split; cbn; [| exact Hr].
  by rewrite (gate_write_leadership _ _ Hw).
Qed.

Lemma leader_inv_start : leader_inv start.
Proof. split; [done |]. unfold start, initial_retry, max_retry; cbn; lia. Qed.

Lemma leader_inv_reachable l : rtc leader_step start l → leader_inv l.
Proof.
  intros H. apply (rtc_invariant _ _ _ _ leader_step_inv H), leader_inv_start.
Qed.

(** ** Properties *)

(** In every reachable state of the process, settlement is
    permitted only while the leadership task is holding the advisory lock:
    [can_settle] implies that the task is inside [hold_leadership]. *)
Theorem can_settle_only_while_leader l :
  rtc leader_step start l → can_settle (gates l) = true → phase l = Holding.
Proof.
  intros Hr Hc. apply can_settle_spec in Hc as [Hl _].
  by apply (proj1 (leader_inv_reachable l Hr)).
Qed.

Lemma can_settle_only_while_leader_witness :
  let l := MkLeader Holding initial_retry false
             (set_relayer true (set_rpc true (set_reconciliation true
               (set_leadership true (set_leadership false default))))) in
  can_settle (gates l) = true ∧ phase l = Holding.
Proof.
  split; [reflexivity |]. apply can_settle_only_while_leader; [| reflexivity].
  eapply rtc_l; [apply (step_leadership start LockAcquired) |].
  eapply rtc_l; [apply step_other, (write_reconciliation true) |].
  eapply rtc_l; [apply step_other, (write_rpc true) |].
  eapply rtc_l; [apply step_other, (write_relayer true) |].
  apply rtc_refl.
Defined.

(** Losing leadership closes the settlement gate and
    invalidates reconciliation, whatever the other gates say, so that a later
    acquisition alone cannot reopen it. *)
Theorem losing_leadership_closes_settlement s b :
  can_settle (set_leadership false s) = false ∧
  can_settle (set_leadership b (set_leadership false s)) = false ∧
  can_settle default = false.
Proof. split_and!; [| destruct b |]; reflexivity. Qed.

(** [set_gate] stores exactly the observed state, leaves the
    other four gates alone, and reports a transition exactly when the gate was
    never observed or held the opposite state. *)
Theorem set_gate_spec g ready s :
  let '(t, s') := set_gate g ready s in
  atomic_gate_ready (gate_value g s') = ready ∧
  (∀ g', g' ≠ g → gate_value g' s' = gate_value g' s) ∧
  t = (if decide (from_atomic (gate_value g s) = Some (from_ready ready))
       then None else Some (g, from_ready ready)).
Proof.
  unfold set_gate, observed. split_and!.
  - destruct g, ready; reflexivity.
  - intros g' Hne. destruct g, g'; done.
  - done.
Qed.

(** In every reachable state of the leadership task, the reconnect delay stays within
    250 ms and 5 s. *)
Theorem leadership_backoff_bounded l :
  rtc leader_step start l → initial_retry <= retry l <= max_retry.
Proof. intros H. apply (leader_inv_reachable l H). Qed.

Lemma leadership_backoff_bounded_witness :
  initial_retry <= retry (fold_left leadership_step (replicate 9 (ConnectFailed false)) start)
  <= max_retry.
Proof.
  apply leadership_backoff_bounded.
  do 9 (eapply rtc_l; [apply (step_leadership _ (ConnectFailed false)) |]).
  apply rtc_refl.
Defined.

End Readiness.
