(* ===== verification/Leadership.v ===== *)
(** * Leadership among instances

    Models [LeadershipHandle], [run_leadership] and [advisory_lock_key] of
    [crates/x402-near-facilitator/src/leadership.rs] for any number of processes against
    one PostgreSQL server.  What one process does is [Readiness.leadership_step]; the
    server is the set of live sessions and, per key, the session that holds its advisory
    lock: it grants a free lock, refuses one that another session holds, and frees the
    locks of a session when it notices that the session has ended, which may be long after
    the client has lost its connection. *)

From stdpp Require Import base gmap strings list numbers relations.
From Stdlib Require Import Lia NArith ZArith Ascii String.
From S2P Require Import Prelude Text Readiness.

Open Scope string_scope.
Open Scope list_scope.
Open Scope N_scope.

Module Leadership.
Import Readiness.

(** ** The lock's key *)

(** The first [k] bytes, the most significant first. *)
Fixpoint be_bytes (k : nat) (acc : N) (s : string) : N :=
  match k, s with
  | S k, String c s => be_bytes k (acc * 256 + byte_val c) s
  | _, _ => acc
  end.

(** [i64::from_be_bytes] *)
Definition i64_from_be_bytes (s : string) : Z :=
  let n := Z.of_N (be_bytes 8 0 s) in
  (if 2 ^ 63 <=? n then n - 2 ^ 64 else n)%Z.

Definition advisory_lock_key (sha256 : string → string) (network : string) : Z :=
  i64_from_be_bytes (sha256 ("x402-near-facilitator/leader/v1/" +:+ network)).

(** ** Instances and the server *)

Record Instance_ : Type := MkInstance {
  lock_key : Z;
  leader : Leader;
  (** the session of the connection that [hold_leadership] uses *)
  session : option N
}.

Record Cluster : Type := MkCluster {
  instances : gmap nat Instance_;
  live : gset N;
  locks : gmap Z N;
  next_session : N
}.

Definition with_instance (i : nat) (x : Instance_) (c : Cluster) : Cluster :=
  MkCluster (<[ i := x ]> (instances c)) (live c) (locks c) (next_session c).

(** The server learns that a session has ended. *)
Definition end_session (k : N) (c : Cluster) : Cluster :=
  MkCluster (instances c) (live c ∖ {[ k ]}) (filter (λ kv, kv.2 ≠ k) (locks c)) (next_session c).

(** A new session, which may have been granted the lock. *)
Definition open_session (key : Z) (granted : bool) (c : Cluster) : Cluster :=
  MkCluster (instances c) ({[ next_session c ]} ∪ live c)
    (if granted then <[ key := next_session c ]> (locks c) else locks c) (N.succ (next_session c)).

Section cluster.
Context (sha256 : string → string).

(** [LeadershipHandle::spawn] *)
Definition spawn (network : string) : Instance_ :=
  MkInstance (advisory_lock_key sha256 network) Readiness.start None.

Definition advance (x : Instance_) (ev : LeaderEvent) (k : option N) : Instance_ :=
  MkInstance (lock_key x) (leadership_step (leader x) ev) k.

Definition trying (x : Instance_) : Prop := phase (leader x) = Trying ∧ shutdown (leader x) = false.

Inductive cluster_step : relation Cluster :=
| step_spawn c i network :
    instances c !! i = None → cluster_step c (with_instance i (spawn network) c)
(** the connection cannot be opened *)
| step_unconnected c i x sd :
    instances c !! i = Some x → trying x →
    cluster_step c (with_instance i (advance x (ConnectFailed sd) None) c)
(** the lock is free, and granted *)
| step_acquired c i x :
    instances c !! i = Some x → trying x → locks c !! lock_key x = None →
    cluster_step c (with_instance i (advance x LockAcquired (Some (next_session c)))
                      (open_session (lock_key x) true c))
(** another session has it; the connection is dropped *)
| step_denied c i x k sd :
    instances c !! i = Some x → trying x → locks c !! lock_key x = Some k →
    cluster_step c (with_instance i (advance x (LockDenied sd) None) (open_session (lock_key x) false c))
(** the query fails, before or after the server granted a free lock *)
| step_failed c i x granted sd :
    instances c !! i = Some x → trying x → (granted = true → locks c !! lock_key x = None) →
    cluster_step c (with_instance i (advance x (LockFailed sd) None) (open_session (lock_key x) granted c))
(** a heartbeat is answered only in a live session *)
| step_heartbeat c i x k :
    instances c !! i = Some x → phase (leader x) = Holding → session x = Some k → k ∈ live c →
    cluster_step c (with_instance i (advance x HeartbeatOk (Some k)) c)
| step_lost c i x :
    instances c !! i = Some x → phase (leader x) = Holding →
    cluster_step c (with_instance i (advance x HeartbeatFailed None) c)
| step_shutdown c i x closed flag :
    instances c !! i = Some x → phase (leader x) = Holding →
    cluster_step c (with_instance i (advance x (ShutdownChanged closed flag)
                      (if closed || flag then None else session x)) c)
(** the loop ends on a shutdown that came while waiting *)
| step_stop c i x ev :
    instances c !! i = Some x → phase (leader x) = Trying → shutdown (leader x) = true →
    cluster_step c (with_instance i (advance x ev None) c)
(** other tasks of the process move the other gates *)
| step_gates c i x g :
    instances c !! i = Some x → gate_write (gates (leader x)) g →
    cluster_step c (with_instance i
      (MkInstance (lock_key x)
         (MkLeader (phase (leader x)) (retry (leader x)) (shutdown (leader x)) g) (session x)) c)
(** the process dies *)
| step_killed c i :
    cluster_step c (MkCluster (delete i (instances c)) (live c) (locks c) (next_session c))
| step_session_ends c k : cluster_step c (end_session k c).

Definition empty : Cluster := MkCluster ∅ ∅ ∅ 0.

(** ** The invariant *)

Definition leading (x : Instance_) : bool := s_leadership (snapshot (gates (leader x))).

(** What holds of one instance: the gate is open only in [hold_leadership], there it has
    a session of its own, and while that session lives it has the lock. *)
Definition instance_inv (c : Cluster) (x : Instance_) : Prop :=
  (leading x = true → phase (leader x) = Holding) ∧
  (phase (leader x) = Holding → is_Some (session x)) ∧
  ∀ k, session x = Some k →
    k < next_session c ∧ (k ∈ live c → locks c !! lock_key x = Some k).

Record cluster_inv (c : Cluster) : Prop := MkClusterInv {
  inv_instances : ∀ i x, instances c !! i = Some x → instance_inv c x;
  inv_locks : ∀ key k, locks c !! key = Some k → k < next_session c;
  inv_sessions : ∀ i j x y k, instances c !! i = Some x → instances c !! j = Some y →
    session x = Some k → session y = Some k → i = j
}.

(** What the server may do to the sessions there are: end them. *)
Definition server_le (c c' : Cluster) : Prop :=
  next_session c <= next_session c' ∧
  (∀ k, k < next_session c → k ∈ live c' → k ∈ live c) ∧
  (∀ key k, k < next_session c → k ∈ live c' → locks c !! key = Some k → locks c' !! key = Some k) ∧
  (∀ key k, locks c' !! key = Some k → k < next_session c').

Lemma instance_inv_le c c' x : server_le c c' → instance_inv c x → instance_inv c' x.
Proof.
  intros (Hn & Hl & Hk & _) (H1 & H2 & H3). split_and!; [done | done |]. intros k Hs.
  destruct (H3 k Hs) as [Hlt Hlock]. split; [lia |]. intros Hin. apply Hk; auto.
Qed.

Lemma server_le_refl c : cluster_inv c → server_le c c.
Proof. intros [_ Hl _]. split_and!; [lia | done | done | done]. Qed.

Lemma server_le_open c key granted :
  cluster_inv c → (granted = true → locks c !! key = None) → server_le c (open_session key granted c).
Proof.
  intros [_ Hl _] Hg. split_and!; cbn; [lia | intros k Hk; rewrite elem_of_union, elem_of_singleton; lia || naive_solver lia | |].
  - intros key' k Hk _ Hlock. destruct granted; [| done].
    destruct (decide (key' = key)) as [->|]; [by rewrite Hg in Hlock |]. by rewrite lookup_insert_ne.
  - intros key' k Hlock. destruct granted; [| apply Hl in Hlock; lia].
    apply lookup_insert_Some in Hlock as [[_ <-]|[_ Hlock%Hl]]; lia.
Qed.

(** One instance moves, the server as it likes. *)
Lemma cluster_inv_update c c' i x :
  cluster_inv c → server_le c c' → instances c' = <[ i := x ]> (instances c) → instance_inv c' x →
  (∀ k, session x = Some k →
     (∃ y, instances c !! i = Some y ∧ session y = Some k) ∨ next_session c <= k) →
  cluster_inv c'.
Proof.
  intros [Hi Hl Hs] Hle Hins Hx Hk. split.
  - intros j y Hj. rewrite Hins in Hj. apply lookup_insert_Some in Hj as [[_ <-]|[_ Hj]]; [done |].
    eapply instance_inv_le; eauto.
  - apply Hle.
  - assert (∀ j y k, j ≠ i → instances c !! j = Some y → session y = Some k → session x ≠ Some k) as Hfresh.
    { intros j y k Hne Hj Hy Hxk. destruct (Hk k Hxk) as [(z & Hz & Hzk)|Hge].
      - apply Hne. by eapply Hs.
      - destruct (proj2 (proj2 (Hi j y Hj)) k Hy). lia. }
    intros a b y z k Ha Hb Hy Hz. rewrite Hins in Ha, Hb.
    apply lookup_insert_Some in Ha as [[<- <-]|[Hna Ha]], Hb as [[<- <-]|[Hnb Hb]]; [done | ..].
    + exfalso. eapply Hfresh; eauto.
    + exfalso. eapply Hfresh; eauto.
    + by eapply Hs.
Qed.

(** The task is outside [hold_leadership], its gate closed. *)
Definition out (l : Leader) : Prop :=
  atomic_gate_ready (leadership (gates l)) = false ∧ phase l ≠ Holding.

Lemma stays_out l ev :
  phase l = Trying → shutdown l = true ∨ ev ≠ LockAcquired → out (leadership_step l ev).
Proof.
  intros Hp He. unfold leadership_step. rewrite Hp. destruct (shutdown l); [done |].
  destruct He as [He|He]; [done |]. by destruct ev.
Qed.

Lemma falls_out l ev :
  phase l = Holding →
  match ev with HeartbeatFailed => True | ShutdownChanged closed flag => closed || flag = true | _ => False end →
  out (leadership_step l ev).
Proof.
  intros Hp He. unfold leadership_step. rewrite Hp. destruct ev; try done. by rewrite He.
Qed.

(** An instance that lets go of its session, and of its gate with it. *)
Lemma released_inv c x ev : out (leadership_step (leader x) ev) → instance_inv c (advance x ev None).
Proof.
  intros [Hg Hp]. split_and!; [| done | done]. unfold leading, snapshot, s_leadership.
  change (leader (advance x ev None)) with (leadership_step (leader x) ev). by rewrite Hg.
Qed.

Lemma cluster_step_inv c c' : cluster_step c c' → cluster_inv c → cluster_inv c'.
Proof.
  intros Hstep Hinv. pose proof (server_le_refl c Hinv) as Hle.
  destruct Hstep as [c i network Hi | c i x sd Hi [Hp Hsd] | c i x Hi [Hp Hsd] Hfree | c i x k sd Hi [Hp Hsd] Hheld
    | c i x granted sd Hi [Hp Hsd] Hg | c i x k Hi Hp Hs Hlive | c i x Hi Hp | c i x closed flag Hi Hp
    | c i x ev Hi Hp Hsd | c i x g Hi Hg | c i | c k].
  - apply (cluster_inv_update c _ i (spawn network)); done.
  - apply (cluster_inv_update c _ i (advance x (ConnectFailed sd) None)); try done.
    apply released_inv, stays_out; auto.
  - apply (cluster_inv_update c _ i (advance x LockAcquired (Some (next_session c)))); try done.
    + by apply server_le_open.
    + destruct x as [key [ph re sd g] ses]. cbn in Hp, Hsd. subst ph sd. split_and!; [done | by eexists |].
      intros k [= <-]. cbn. split; [lia |]. intros _. apply lookup_insert_eq.
    + intros k [= <-]. by right.
  - apply (cluster_inv_update c _ i (advance x (LockDenied sd) None)); try done.
    + by apply server_le_open.
    + apply released_inv, stays_out; auto.
  - apply (cluster_inv_update c _ i (advance x (LockFailed sd) None)); try done.
    + by apply server_le_open.
    + apply released_inv, stays_out; auto.
  - destruct (inv_instances _ Hinv _ _ Hi) as (H1 & H2 & H3).
    apply (cluster_inv_update c _ i (advance x HeartbeatOk (Some k))); try done.
    + unfold advance, leadership_step. rewrite Hp. by rewrite <- Hs.
    + intros k' [= <-]. left. by exists x.
  - apply (cluster_inv_update c _ i (advance x HeartbeatFailed None)); try done.
    by apply released_inv, falls_out.
  - destruct (inv_instances _ Hinv _ _ Hi) as (H1 & H2 & H3).
    apply (cluster_inv_update c _ i (advance x (ShutdownChanged closed flag) (if closed || flag then None else session x)));
      try done; destruct (closed || flag) eqn:E.
    + by apply released_inv, falls_out.
    + unfold instance_inv, leading, advance, leadership_step in *. rewrite Hp, E in *. cbn. eauto.
    + done.
    + intros k Hk. left. by exists x.
  - apply (cluster_inv_update c _ i (advance x ev None)); try done.
    apply released_inv, stays_out; auto.
  - destruct (inv_instances _ Hinv _ _ Hi) as (H1 & H2 & H3).
    eapply (cluster_inv_update c _ i); [done | done | reflexivity | | intros k Hk; left; by exists x].
    split_and!; [| done | done]. unfold leading, snapshot in *. cbn in *. by rewrite (gate_write_leadership _ _ Hg).
  - destruct Hinv as [Hi Hl Hs]. split; cbn; [| done |].
    + intros j x [_ Hj]%lookup_delete_Some. by apply (Hi j).
    + intros a b x y k [_ Ha]%lookup_delete_Some [_ Hb]%lookup_delete_Some. by eapply Hs.
  - destruct Hinv as [Hi Hl Hs]. split; cbn; [| | done].
    + intros j x Hj. eapply instance_inv_le; [| by apply (Hi j)]. split_and!; cbn; [lia | set_solver | |].
      * intros key k' _ Hin Hlock. apply map_lookup_filter_Some. split; [done |]. set_solver.
      * intros key k' [Hlock _]%map_lookup_filter_Some. by eapply Hl.
    + intros key k' [Hlock _]%map_lookup_filter_Some. by eapply Hl.
Qed.

Lemma cluster_inv_reachable c : rtc cluster_step empty c → cluster_inv c.
Proof.
  intros Hr. apply (rtc_invariant _ _ _ _ cluster_step_inv Hr).
  split; cbn; intros *; by rewrite lookup_empty.
Qed.

(** ** Properties *)

(** C14: One leader at a time.  However many instances start, connect, lose their connections
    and die, and however late the server notices: an instance can settle only in
    [hold_leadership], in a session of its own that either has the lock of its network or
    has already ended without the instance having noticed yet; and of two instances of one
    network that lead in live sessions, one is the other. *)
Theorem one_leader_per_network c :
  rtc cluster_step empty c →
  (∀ i x, instances c !! i = Some x → can_settle (gates (leader x)) = true →
     phase (leader x) = Holding ∧
     ∃ k, session x = Some k ∧ (k ∉ live c ∨ locks c !! lock_key x = Some k)) ∧
  (∀ i j x y k l, instances c !! i = Some x → instances c !! j = Some y →
     leading x = true → leading y = true → lock_key x = lock_key y →
     session x = Some k → session y = Some l → k ∈ live c → l ∈ live c → i = j).
Proof.
  intros Hr%cluster_inv_reachable. split.
  - intros i x Hi Hc. apply can_settle_spec in Hc as [Hg _].
    destruct (inv_instances _ Hr _ _ Hi) as (H1 & H2 & H3). specialize (H1 Hg). split; [done |].
    destruct (H2 H1) as [k Hk]. exists k. split; [done |]. destruct (H3 k Hk) as [_ Hlock].
    destruct (decide (k ∈ live c)); auto.
  - intros i j x y k l Hi Hj Hx Hy Hkey Hxs Hys Hk Hl.
    destruct (inv_instances _ Hr _ _ Hi) as (_ & _ & H1), (inv_instances _ Hr _ _ Hj) as (_ & _ & H2).
    destruct (H1 k Hxs) as [_ E1], (H2 l Hys) as [_ E2].
    specialize (E1 Hk). specialize (E2 Hl). rewrite Hkey, E2 in E1. injection E1 as <-.
    by eapply (inv_sessions _ Hr).
Qed.

End cluster.

(** ** Two instances of one network *)

Definition demo_sha (s : string) : string := s.

(** The first instance acquires the lock; the second starts and is refused. *)
Definition duel : Cluster :=
  let first := spawn demo_sha "near:mainnet" in
  let c1 := with_instance 0 first empty in
  let c2 := with_instance 0 (advance first LockAcquired (Some 0)) (open_session (lock_key first) true c1) in
  let c3 := with_instance 1 first c2 in
  with_instance 1 (advance first (LockDenied false) None) (open_session (lock_key first) false c3).

Lemma duel_reachable : rtc (cluster_step demo_sha) empty duel.
Proof.
  eapply rtc_l; [apply (step_spawn demo_sha empty 0%nat "near:mainnet"); reflexivity |].
  eapply rtc_l; [eapply (step_acquired demo_sha _ 0%nat); [reflexivity | split; reflexivity | reflexivity] |].
  eapply rtc_l; [apply (step_spawn demo_sha _ 1%nat "near:mainnet"); reflexivity |].
  eapply rtc_l; [eapply (step_denied demo_sha _ 1%nat _ 0 false);
                 [reflexivity | split; reflexivity | reflexivity] |].
  apply rtc_refl.
Qed.

(** The first leads in a live session, the second waits. *)
Example duel_won : ∃ x y, instances duel !! 0%nat = Some x ∧ instances duel !! 1%nat = Some y ∧
  leading x = true ∧ session x = Some 0 ∧ leading y = false ∧ session y = None.
Proof. do 2 eexists. split_and!; reflexivity. Qed.

(** The server drops the first session, and grants the lock to the second before the
    first has noticed: for that time both gates are open, one without its session. *)
Definition overlap : Cluster :=
  let first := spawn demo_sha "near:mainnet" in
  let c := end_session 0 duel in
  with_instance 1 (advance (advance first (LockDenied false) None) LockAcquired (Some (next_session c)))
    (open_session (lock_key first) true c).

Lemma overlap_reachable : rtc (cluster_step demo_sha) empty overlap.
Proof.
  etrans; [apply duel_reachable |].
  eapply rtc_l; [apply (step_session_ends demo_sha duel 0) |].
  eapply rtc_l; [eapply (step_acquired demo_sha _ 1%nat); [reflexivity | split; reflexivity | reflexivity] |].
  apply rtc_refl.
Qed.

Example overlap_seen : ∃ x y, instances overlap !! 0%nat = Some x ∧ instances overlap !! 1%nat = Some y ∧
  leading x = true ∧ leading y = true ∧ session x = Some 0 ∧ (0 ∉ live overlap).
Proof.
  do 2 eexists. split_and!; try reflexivity. vm_compute. intros H. discriminate H.
Qed.

(** The winner of the duel, reconciled and with its chain in sight. *)
Definition with_gate (f : ReadinessState → ReadinessState) (x : Instance_) : Instance_ :=
  MkInstance (lock_key x)
    (MkLeader (phase (leader x)) (retry (leader x)) (shutdown (leader x)) (f (gates (leader x)))) (session x).

Definition winner : Instance_ := advance (spawn demo_sha "near:mainnet") LockAcquired (Some 0).
Definition winner1 : Instance_ := with_gate (set_reconciliation true) winner.
Definition winner2 : Instance_ := with_gate (set_rpc true) winner1.
Definition winner3 : Instance_ := with_gate (set_relayer true) winner2.
Definition serving : Cluster :=
  with_instance 0 winner3 (with_instance 0 winner2 (with_instance 0 winner1 duel)).

Lemma serving_reachable : rtc (cluster_step demo_sha) empty serving.
Proof.
  etrans; [apply duel_reachable |].
  eapply rtc_l; [apply (step_gates demo_sha duel 0%nat winner); [reflexivity | apply (write_reconciliation true)] |].
  eapply rtc_l; [apply (step_gates demo_sha _ 0%nat winner1); [reflexivity | apply (write_rpc true)] |].
  eapply rtc_l; [apply (step_gates demo_sha _ 0%nat winner2); [reflexivity | apply (write_relayer true)] |].
  apply rtc_refl.
Qed.

Lemma one_leader_per_network_witness :
  can_settle (gates (leader winner3)) = true ∧ phase (leader winner3) = Holding ∧
  ∃ k, session winner3 = Some k ∧ (k ∉ live serving ∨ locks serving !! lock_key winner3 = Some k).
Proof.
  split; [reflexivity |].
  destruct (one_leader_per_network demo_sha serving serving_reachable) as [Hs _].
  apply (Hs 0%nat winner3); reflexivity.
Defined.

End Leadership.
