(* ===== verification/Schema.v ===== *)
(** * The journal schema

    The tables of [migrations/0001..0003] as the store's SQL sees them.  A
    [NUMERIC(p, 0)] column whose CHECK makes it non-negative is an [N], a nullable
    column an [option], an [INTEGER] a [Z] in its 32-bit range.  The columns of
    [settlements] are grouped by the operation that writes them: [claim] at the
    INSERT and never again, [near_submission]/[evm_submission] at prepare, and
    [terminal] at terminalization.  CHECK constraints are [check_row]; unique
    constraints and indexes are [unique_conflict]. *)

From stdpp Require Import base gmap strings list numbers.
From Stdlib Require Import Lia NArith ZArith Ascii String.
From S2P Require Import Prelude Text Json Readiness.

Open Scope string_scope.
Open Scope N_scope.

(** ** Enumerations *)

(** config.rs [ChainKind] *)
Inductive ChainKind : Type :=
| Near
| Eip155.

#[export] Instance ChainKind_eq_dec : EqDecision ChainKind.
Proof. solve_decision. Defined.

Definition chain_kind_as_str (k : ChainKind) : string :=
  match k with Near => "near" | Eip155 => "eip155" end.

Inductive SettlementState : Type :=
| Reserved
| AwaitingRetry
| Prepared
| Submitted
| Succeeded
| Failed.

#[export] Instance SettlementState_eq_dec : EqDecision SettlementState.
Proof. solve_decision. Defined.

Definition state_as_str (s : SettlementState) : string :=
  match s with
  | Reserved => "reserved"
  | AwaitingRetry => "awaiting_retry"
  | Prepared => "prepared"
  | Submitted => "submitted"
  | Succeeded => "succeeded"
  | Failed => "failed"
  end.

Definition is_terminal (s : SettlementState) : bool :=
  match s with Succeeded | Failed => true | _ => false end.

(** [state IN ('reserved', 'prepared', 'submitted')] *)
Definition is_active (s : SettlementState) : bool :=
  match s with Reserved | Prepared | Submitted => true | _ => false end.

(** ** Errors *)

(** [Database] carries the violated constraint's name, when there is one. *)
Inductive StoreError : Type :=
| Database (constraint : option string)
| Migration
| Corrupt (message : string)
| Configuration (message : string)
| InvalidInput (message : string)
| Transition (from to : string).

Definition state_from_str (value : string) : Result SettlementState StoreError :=
  if String.eqb value "reserved" then Ok Reserved
  else if String.eqb value "awaiting_retry" then Ok AwaitingRetry
  else if String.eqb value "prepared" then Ok Prepared
  else if String.eqb value "submitted" then Ok Submitted
  else if String.eqb value "succeeded" then Ok Succeeded
  else if String.eqb value "failed" then Ok Failed
  else Err (Corrupt ("unknown settlement state " +:+ value)).

Definition chain_kind_from_str (value : string) : Result ChainKind StoreError :=
  if String.eqb value "near" then Ok Near
  else if String.eqb value "eip155" then Ok Eip155
  else Err (Corrupt ("unknown settlement chain kind " +:+ value)).

(** ** Rows *)

(** Columns written by the claim's INSERT and by nothing else. *)
Record ClaimColumns : Type := MkClaim {
  api_client_id : N;
  payment_identifier : option string;
  payment_hash : string;
  request_fingerprint : string;
  anchor_scope : string;
  anchor_value : string;
  x402_version : N;
  scheme : string;
  network : string;
  asset : string;
  pay_to : string;
  amount : N;
  payer : string;
  chain_kind : ChainKind;
  delegate_public_key : option string;
  delegate_nonce : option N;
  delegate_max_block_height : option N;
  authorization_metadata : option Value;
  signer_address : option string;
  created_at : Z
}.

Record NearSubmission : Type := MkNearSubmission {
  relayer_account_id : option string;
  relayer_public_key : option string;
  relayer_nonce : option N;
  outer_transaction_bytes : option string;
  outer_transaction_hash : option string
}.

Record EvmSubmission : Type := MkEvmSubmission {
  signer_account_nonce : option N;
  submitted_tx_rlp : option string;
  submitted_tx_hash : option string;
  required_confirmations : option Z
}.

Record TerminalColumns : Type := MkTerminal {
  terminal_http_status : option N;
  terminal_response_bytes : option string;
  error_code : option string;
  error_detail : option string;
  gas_burnt : option N;
  tokens_burnt : option N;
  mined_block_number : option N;
  mined_block_hash : option string;
  confirmations : option Z;
  finalized_at : option Z
}.

Record Row : Type := MkRow {
  claim : ClaimColumns;
  state : SettlementState;
  policy_snapshot : Value;
  reservation_date : Z;
  reserved_yocto_near : N;
  attempt_count : N;
  retry_code : option string;
  near_submission : NearSubmission;
  evm_submission : EvmSubmission;
  terminal : TerminalColumns;
  prepared_at : option Z;
  submitted_at : option Z;
  last_reconciled_at : option Z;
  reconciliation_attempts : N;
  updated_at : Z
}.

Definition no_near_submission : NearSubmission := MkNearSubmission None None None None None.
Definition no_evm_submission : EvmSubmission := MkEvmSubmission None None None None.
Definition no_terminal : TerminalColumns :=
  MkTerminal None None None None None None None None None None.

(** [daily_global_sponsorship] and [daily_client_sponsorship] *)
Record Ledger : Type := MkLedger {
  ledger_reserved : N;
  ledger_spent : N
}.

Inductive RelayerStatus : Type :=
| RelayerActive
| RelayerQuarantined
| RelayerDisabled.

#[export] Instance RelayerStatus_eq_dec : EqDecision RelayerStatus.
Proof. solve_decision. Defined.

Record RelayerRow : Type := MkRelayer {
  relayer_status : RelayerStatus;
  quarantine_reason : option string;
  last_observed_nonce : option N
}.

Record ClientRow : Type := MkClient {
  client_name : string;
  client_environment : string;
  client_active : bool;
  daily_budget_yocto_near : N;
  verify_rate_per_minute : Z;
  settle_rate_per_minute : Z
}.

Record KeyRow : Type := MkKey {
  key_client_id : N;
  key_prefix : string;
  key_digest : string;
  key_active : bool;
  key_last_used_at : option Z
}.

Record Event : Type := MkEvent {
  event_settlement : N;
  event_from : option SettlementState;
  event_to : SettlementState;
  event_code : option string;
  event_metadata : Value
}.

(** Successful rows of [_sqlx_migrations] by version, with their checksum, and the
    comment on the table [settlements]. *)
Record SchemaInfo : Type := MkSchemaInfo {
  applied_migrations : gmap N string;
  settlements_comment : option string
}.

Record Database_ : Type := MkDatabase {
  settlements : gmap N Row;
  global_sponsorship : gmap Z Ledger;
  client_sponsorship : gmap (Z * N) Ledger;
  relayers : gmap (string * string * string) RelayerRow;
  api_clients : gmap N ClientRow;
  api_keys : gmap N KeyRow;
  api_client_payees : gset (N * string * string * string);
  settlement_events : list Event;
  schema_info : SchemaInfo
}.

Definition with_settlements (m : gmap N Row) (d : Database_) : Database_ :=
  MkDatabase m (global_sponsorship d) (client_sponsorship d) (relayers d)
    (api_clients d) (api_keys d) (api_client_payees d) (settlement_events d) (schema_info d).
Definition with_global (m : gmap Z Ledger) (d : Database_) : Database_ :=
  MkDatabase (settlements d) m (client_sponsorship d) (relayers d)
    (api_clients d) (api_keys d) (api_client_payees d) (settlement_events d) (schema_info d).
Definition with_client (m : gmap (Z * N) Ledger) (d : Database_) : Database_ :=
  MkDatabase (settlements d) (global_sponsorship d) m (relayers d)
    (api_clients d) (api_keys d) (api_client_payees d) (settlement_events d) (schema_info d).
Definition with_relayers (m : gmap (string * string * string) RelayerRow) (d : Database_)
  : Database_ :=
  MkDatabase (settlements d) (global_sponsorship d) (client_sponsorship d) m
    (api_clients d) (api_keys d) (api_client_payees d) (settlement_events d) (schema_info d).
Definition with_events (l : list Event) (d : Database_) : Database_ :=
  MkDatabase (settlements d) (global_sponsorship d) (client_sponsorship d) (relayers d)
    (api_clients d) (api_keys d) (api_client_payees d) l (schema_info d).

Definition with_clients (m : gmap N ClientRow) (d : Database_) : Database_ :=
  MkDatabase (settlements d) (global_sponsorship d) (client_sponsorship d) (relayers d)
    m (api_keys d) (api_client_payees d) (settlement_events d) (schema_info d).
Definition with_keys (m : gmap N KeyRow) (d : Database_) : Database_ :=
  MkDatabase (settlements d) (global_sponsorship d) (client_sponsorship d) (relayers d)
    (api_clients d) m (api_client_payees d) (settlement_events d) (schema_info d).
Definition with_payees (s : gset (N * string * string * string)) (d : Database_) : Database_ :=
  MkDatabase (settlements d) (global_sponsorship d) (client_sponsorship d) (relayers d)
    (api_clients d) (api_keys d) s (settlement_events d) (schema_info d).

(** A schema no migration has touched. *)
Definition no_schema : SchemaInfo := MkSchemaInfo ∅ None.

(** ** Constraints *)

(** [NUMERIC(p, 0)] holds fewer than [p + 1] digits. *)
Definition numeric_fits (p : N) (n : N) : bool := n <? 10 ^ p.

Definition opt_fits (p : N) (o : option N) : bool := is_none_or o (numeric_fits p).

Definition i32_min : Z := (- 2 ^ 31)%Z.
Definition in_i32 (z : Z) : bool := (i32_min <=? z)%Z && (z <=? Z.of_N i32_max)%Z.

(** [payment_identifier ~ '^[A-Za-z0-9_-]{16,128}$'] *)
Definition identifier_char (c : ascii) : bool :=
  is_ascii_alphanumeric c || Ascii.eqb c "-" || Ascii.eqb c "_".
Definition identifier_check (o : option string) : bool :=
  is_none_or o (λ s,
    let n := N.of_nat (String.length s) in
    (16 <=? n) && (n <=? 128) && all_bytes identifier_char s).

(** SQL's three-valued logic: [None] is NULL, and a CHECK accepts everything but
    a definite [false]. *)
Abbreviation sql_bool := (option bool).

Definition sql_and (a b : sql_bool) : sql_bool :=
  match a, b with
  | Some false, _ | _, Some false => Some false
  | Some true, Some true => Some true
  | _, _ => None
  end.

Definition sql_accepts (b : sql_bool) : bool := bool_decide (b ≠ Some false).

(** [jsonb_typeof(v->key) = 'string'], NULL when the key is absent. *)
Definition typeof_string (key : string) (m : Map) : sql_bool := is_string <$> get key m.

(** The metadata conjuncts of [settlements_chain_authorization_check]: an object
    whose [version], [validAfter] and [validBefore], where present, are [2] and two
    strings, and that has no other key.  An absent column or key makes its conjunct
    NULL, which a CHECK accepts. *)
Definition metadata_check (o : option Value) : sql_bool :=
  v ← o;
  match as_object v with
  | None => Some false
  | Some m =>
      sql_and ((λ x, bool_decide (as_u64 x = Some 2)) <$> get "version" m)
        (sql_and (typeof_string "validAfter" m)
          (sql_and (typeof_string "validBefore" m)
            (Some (forallb (λ k, existsb (String.eqb k) ["version"; "validAfter"; "validBefore"])
                     (keys m)))))
  end.

Definition chain_authorization_check (c : ClaimColumns) : bool :=
  match chain_kind c with
  | Near =>
      bool_decide (is_Some (delegate_public_key c)) &&
      bool_decide (is_Some (delegate_nonce c)) &&
      bool_decide (is_Some (delegate_max_block_height c)) &&
      bool_decide (authorization_metadata c = None)
  | Eip155 =>
      bool_decide (is_Some (signer_address c)) &&
      sql_accepts (metadata_check (authorization_metadata c))
  end.

(** The scope in which an EVM authorization nonce is single use. *)
Definition evm_anchor_scope (network asset payer : string) : string :=
  network +:+ ":" +:+ to_ascii_lowercase asset +:+ ":" +:+ to_ascii_lowercase payer.

Definition anchor_scope_check (c : ClaimColumns) : bool :=
  match chain_kind c with
  | Near => String.eqb (anchor_scope c) "near" && String.eqb (anchor_value c) (payment_hash c)
  | Eip155 => String.eqb (anchor_scope c) (evm_anchor_scope (network c) (asset c) (payer c))
  end.

Definition claim_check (c : ClaimColumns) : bool :=
  identifier_check (payment_identifier c) &&
  (String.length (payment_hash c) =? 32)%nat &&
  (String.length (request_fingerprint c) =? 32)%nat &&
  (String.length (anchor_value c) =? 32)%nat &&
  numeric_fits 40 (amount c) &&
  opt_fits 20 (delegate_nonce c) &&
  opt_fits 20 (delegate_max_block_height c) &&
  chain_authorization_check c &&
  anchor_scope_check c.

Definition near_submission_present (s : NearSubmission) : bool :=
  bool_decide (is_Some (relayer_account_id s)) &&
  bool_decide (is_Some (relayer_public_key s)) &&
  bool_decide (is_Some (relayer_nonce s)) &&
  bool_decide (is_Some (outer_transaction_bytes s)) &&
  bool_decide (is_Some (outer_transaction_hash s)).

Definition near_submission_absent (s : NearSubmission) : bool :=
  bool_decide (relayer_account_id s = None) &&
  bool_decide (relayer_public_key s = None) &&
  bool_decide (relayer_nonce s = None) &&
  bool_decide (outer_transaction_bytes s = None) &&
  bool_decide (outer_transaction_hash s = None).

Definition evm_submission_present (signer : option string) (s : EvmSubmission) : bool :=
  bool_decide (is_Some signer) &&
  bool_decide (is_Some (signer_account_nonce s)) &&
  bool_decide (is_Some (submitted_tx_rlp s)) &&
  bool_decide (is_Some (submitted_tx_hash s)) &&
  bool_decide (is_Some (required_confirmations s)).

Definition evm_submission_absent (s : EvmSubmission) : bool :=
  bool_decide (signer_account_nonce s = None) &&
  bool_decide (submitted_tx_rlp s = None) &&
  bool_decide (submitted_tx_hash s = None).

(** [settlements_nonterminal_submission_check] *)
Definition submission_check (r : Row) : bool :=
  match state r with
  | Reserved | AwaitingRetry | Failed => true
  | Prepared | Submitted | Succeeded =>
      match chain_kind (claim r) with
      | Near => near_submission_present (near_submission r)
      | Eip155 => evm_submission_present (signer_address (claim r)) (evm_submission r)
      end
  end.

(** [settlements_awaiting_retry_check] *)
Definition awaiting_retry_check (r : Row) : bool :=
  match state r with
  | AwaitingRetry =>
      bool_decide (is_Some (retry_code r)) && (reserved_yocto_near r =? 0) &&
      near_submission_absent (near_submission r) && evm_submission_absent (evm_submission r)
  | _ => true
  end.

(** the terminal-columns CHECK of 0001 *)
Definition terminal_check (r : Row) : bool :=
  if is_terminal (state r) then
    bool_decide (is_Some (terminal_http_status (terminal r))) &&
    bool_decide (is_Some (terminal_response_bytes (terminal r))) &&
    bool_decide (is_Some (finalized_at (terminal r)))
  else true.

(** [settlements_evm_success_confirmations_check] *)
Definition evm_success_check (r : Row) : bool :=
  match chain_kind (claim r), state r with
  | Eip155, Succeeded =>
      match confirmations (terminal r), required_confirmations (evm_submission r) with
      | Some c, Some q => (q <=? c)%Z
      | _, _ => false
      end
  | _, _ => true
  end.

Definition counters_check (r : Row) : bool :=
  is_none_or (required_confirmations (evm_submission r)) (λ z, (1 <=? z)%Z && in_i32 z) &&
  is_none_or (confirmations (terminal r)) (λ z, (0 <=? z)%Z && in_i32 z) &&
  (1 <=? attempt_count r) && (attempt_count r <=? i32_max) &&
  (reconciliation_attempts r <=? i32_max).

Definition numeric_check (r : Row) : bool :=
  numeric_fits 40 (reserved_yocto_near r) &&
  opt_fits 20 (relayer_nonce (near_submission r)) &&
  opt_fits 20 (signer_account_nonce (evm_submission r)) &&
  opt_fits 40 (gas_burnt (terminal r)) &&
  opt_fits 40 (tokens_burnt (terminal r)) &&
  opt_fits 20 (mined_block_number (terminal r)).

Definition check_row (r : Row) : bool :=
  claim_check (claim r) && submission_check r && awaiting_retry_check r &&
  terminal_check r && evm_success_check r && counters_check r && numeric_check r.

(** *** Unique constraints

    A key of [r] under an index is [None] when the row is not covered: the
    partial indexes' WHERE clauses. *)

Definition lower_signer (r : Row) : option string :=
  to_ascii_lowercase <$> signer_address (claim r).

Definition key_payment_hash (r : Row) : option string := Some (payment_hash (claim r)).

Definition key_identifier (r : Row) : option (N * string) :=
  i ← payment_identifier (claim r); Some (api_client_id (claim r), i).

Definition key_anchor (r : Row) : option (string * string) :=
  Some (anchor_scope (claim r), anchor_value (claim r)).

Definition key_relayer_nonce (r : Row) : option (string * string * string * N) :=
  a ← relayer_account_id (near_submission r);
  k ← relayer_public_key (near_submission r);
  n ← relayer_nonce (near_submission r);
  Some (network (claim r), a, k, n).

Definition key_active_signer (r : Row) : option (string * string) :=
  if bool_decide (chain_kind (claim r) = Eip155) && is_active (state r) then
    s ← lower_signer r; Some (network (claim r), s)
  else None.

Definition key_signer_nonce (r : Row) : option (string * string * N) :=
  if bool_decide (chain_kind (claim r) = Eip155) then
    s ← lower_signer r;
    n ← signer_account_nonce (evm_submission r);
    Some (network (claim r), s, n)
  else None.

(** Whether some row other than [id] has key [k] under the index [key]. *)
Definition key_taken `{EqDecision K} (key : Row → option K) (id : N) (k : option K)
  (m : gmap N Row) : bool :=
  match k with
  | None => false
  | Some k => existsb (λ '(i, r), negb (i =? id) && bool_decide (key r = Some k)) (map_to_list m)
  end.

Definition unique_conflict (m : gmap N Row) (id : N) (r : Row) : option string :=
  if key_taken key_payment_hash id (key_payment_hash r) m
  then Some "settlements_payment_hash_key"
  else if key_taken key_identifier id (key_identifier r) m
  then Some "settlements_client_payment_identifier_idx"
  else if key_taken key_relayer_nonce id (key_relayer_nonce r) m
  then Some "settlements_relayer_nonce_idx"
  else if key_taken key_anchor id (key_anchor r) m
  then Some "settlements_anchor_unique"
  else if key_taken key_active_signer id (key_active_signer r) m
  then Some "settlements_evm_active_signer_idx"
  else if key_taken key_signer_nonce id (key_signer_nonce r) m
  then Some "settlements_evm_signer_nonce_idx"
  else None.

Definition ledger_check (l : Ledger) : bool :=
  numeric_fits 40 (ledger_reserved l) && numeric_fits 40 (ledger_spent l).

(** ** The world

    What the tasks of one process share: the committed database, the readiness
    gates, the log of transactions handed to the chain, and the in-memory state of
    the process. *)

Record Sent : Type := MkSent {
  sent_settlement : N;
  sent_bytes : string
}.

Inductive Operation : Type :=
| OpVerify
| OpSettle.

#[export] Instance Operation_eq_dec : EqDecision Operation.
Proof. solve_decision. Defined.

#[export] Instance Operation_countable : Countable Operation.
Proof.
  refine (inj_countable' (λ o, match o with OpVerify => true | OpSettle => false end)
            (λ b : bool, if b then OpVerify else OpSettle) _).
  by intros [].
Defined.

Record RateWindow : Type := MkWindow {
  started : Z;
  count : N
}.

(** A task handed to [tokio::spawn]. *)
Inductive Spawned : Type :=
| SpawnWorker (settlement : N) (request : string)
| SpawnTouch (key_prefix : string).

(** The state behind the [Arc]s of [AppState]: the rate-limit windows, the free
    verification permits, the tasks started so far, and the last readiness failure
    reported. *)
Record Process : Type := MkProcess {
  windows : gmap (string * Operation) RateWindow;
  free_slots : N;
  spawned : list Spawned;
  readiness_failure : option Readiness.ReadinessFailureClass
}.

Record World : Type := MkWorld {
  db : Database_;
  gates : Readiness.ReadinessState;
  wire : list Sent;
  process : Process
}.

Definition with_db (d : Database_) (w : World) : World :=
  MkWorld d (gates w) (wire w) (process w).
Definition with_gates (g : Readiness.ReadinessState) (w : World) : World :=
  MkWorld (db w) g (wire w) (process w).
Definition with_process (p : Process) (w : World) : World :=
  MkWorld (db w) (gates w) (wire w) p.

(** A process that has just started, with its permits. *)
Definition fresh_process (slots : N) : Process := MkProcess ∅ slots [] None.

(** ** Lemmas *)

Lemma existsb_map_to_list_true (p : N * Row → bool) (m : gmap N Row) :
  existsb p (map_to_list m) = true ↔ ∃ i r, m !! i = Some r ∧ p (i, r) = true.
Proof.
  rewrite existsb_exists. split.
  - intros ([i r] & Hin & Hp). apply list_elem_of_In, elem_of_map_to_list in Hin. eauto.
  - intros (i & r & Hl & Hp). exists (i, r). split; [| done].
    by apply list_elem_of_In, elem_of_map_to_list.
Qed.

Lemma key_taken_true `{EqDecision K} (key : Row → option K) id k m :
  key_taken key id (Some k) m = true ↔
  ∃ i r, m !! i = Some r ∧ i ≠ id ∧ key r = Some k.
Proof.
  unfold key_taken. rewrite existsb_map_to_list_true. split.
  - intros (i & r & Hl & [Hi Hk]%andb_true_iff).
    exists i, r. split_and!; [done | | by apply bool_decide_eq_true in Hk].
    intros ->. by rewrite N.eqb_refl in Hi.
  - intros (i & r & Hl & Hne & Hk). exists i, r. split; [done |].
    rewrite (proj2 (N.eqb_neq i id) Hne). by apply bool_decide_eq_true.
Qed.

Lemma key_taken_false `{EqDecision K} (key : Row → option K) id k m :
  key_taken key id (Some k) m = false →
  ∀ i r, m !! i = Some r → i ≠ id → key r ≠ Some k.
Proof.
  intros H i r Hl Hne Hk. apply not_true_iff_false in H. apply H.
  apply key_taken_true. eauto.
Qed.

(** The codecs of the two TEXT enumerations are exact. *)
Lemma state_from_as_str s : state_from_str (state_as_str s) = Ok s.
Proof. by destruct s. Qed.

Lemma chain_kind_from_as_str k : chain_kind_from_str (chain_kind_as_str k) = Ok k.
Proof. by destruct k. Qed.
