(* ===== verification/RateLimit.v ===== *)
(** * The rate limiter

    Models [RateLimiter] of [crates/x402-near-facilitator/src/service.rs]: one fixed
    window of a minute per key prefix and operation, behind a mutex.  Times are
    microseconds of the monotonic clock. *)

From stdpp Require Import base gmap strings list numbers sorting.
From Stdlib Require Import Lia NArith ZArith.
From S2P Require Import Prelude Text Json Readiness Schema.

Open Scope N_scope.

Module RateLimit.

(** [Duration::from_secs(60)] *)
Definition minute : Z := 60000000.

(** The window as [entry(..).or_insert(..)] and the reset leave it. *)
Definition current_window (now : Z) (o : option RateWindow) : RateWindow :=
  match o with
  | None => MkWindow now 0
  | Some w => if (minute <=? Z.max 0 (now - started w))%Z then MkWindow now 0 else w
  end.

Definition admit_call (now : Z) (limit : N) (o : option RateWindow) : bool * RateWindow :=
  let w := current_window now o in
  if limit <=? count w then (false, w)
  else (true, MkWindow (started w) (saturating_add u32_max (count w) 1)).

Definition with_windows (m : gmap (string * Operation) RateWindow) (w : World) : World :=
  with_process (MkProcess m (free_slots (process w)) (spawned (process w))
                  (readiness_failure (process w))) w.

Definition check (key_prefix : string) (operation : Operation) (limit : N) : Proc World bool :=
  let* now := now in
  let* windows := gets (λ w, windows (process w)) in
  let '(admitted, window) := admit_call now limit (windows !! (key_prefix, operation)) in
  let* _ := modify (with_windows (<[(key_prefix, operation) := window]> windows)) in
  ret admitted.

(** ** Runs

    The calls for one key and operation: when each came, with what limit; the times
    of those let through, and the window left behind. *)

Fixpoint run (calls : list (Z * N)) (o : option RateWindow) : list Z * option RateWindow :=
  match calls with
  | [] => ([], o)
  | (now, limit) :: calls =>
      let '(admitted, w) := admit_call now limit o in
      let '(times, o') := run calls (Some w) in
      (if admitted then now :: times else times, o')
  end.

Definition within (t0 t1 t : Z) : bool := (t0 <=? t)%Z && (t <? t1)%Z.

(** How many of [times] lie in [[t0, t1)]. *)
Definition admitted_in (t0 t1 : Z) (times : list Z) : N :=
  N.of_nat (List.length (List.filter (within t0 t1) times)).

(** The clock does not run backwards, starting from [t]. *)
Fixpoint monotone (t : Z) (calls : list (Z * N)) : Prop :=
  match calls with
  | [] => True
  | (now, _) :: calls => (t <= now)%Z ∧ monotone now calls
  end.

Definition bounded (limit : N) (calls : list (Z * N)) : Prop := Forall (λ c, c.2 <= limit) calls.

Lemma admitted_in_cons t0 t1 t times :
  admitted_in t0 t1 (t :: times) = (if within t0 t1 t then 1 else 0) + admitted_in t0 t1 times.
Proof. unfold admitted_in. cbn. destruct (within t0 t1 t); cbn [List.length]; lia. Qed.

Lemma monotone_weaken t t' calls : (t' <= t)%Z → monotone t calls → monotone t' calls.
Proof. destruct calls as [|[now l] calls]; cbn; [done |]. intros ? []. split; [lia | done]. Qed.

(** Nothing is let through before the clock's start. *)
Lemma run_after t calls o t0 t1 :
  monotone t calls → (t1 <= t)%Z → admitted_in t0 t1 (run calls o).1 = 0.
Proof.
  revert t o. induction calls as [|[now l] calls IH]; intros t o; [done |].
  cbn. intros [Ht Hm] H1. destruct (admit_call now l o) as [a w].
  destruct (run calls (Some w)) as [times o'] eqn:E.
  assert (admitted_in t0 t1 times = 0) as Hz by (rewrite <- (IH now (Some w)); [by rewrite E | done | lia]).
  cbn. destruct a; [| done]. rewrite admitted_in_cons, Hz. unfold within.
  destruct (Z.ltb_spec now t1); [lia |]. by rewrite andb_false_r.
Qed.

(** What the limiter lets through from a window [w] on: the rest of the window's quota
    until it ends, and then at most [limit] more in the minute that follows the next
    call. *)
Lemma run_window_bound limit calls w t t0 :
  monotone t calls → bounded limit calls → (started w <= t)%Z → limit <= u32_max →
  admitted_in t0 (started w + minute) (run calls (Some w)).1 <= limit - count w.
Proof.
  revert w t. induction calls as [|[now l] calls IH]; intros w t Hm Hb Hs Hu; [apply N.le_0_l |].
  destruct Hm as [Ht Hm]. inversion Hb as [|? ? Hl Hb']; subst. cbn in Hl.
  destruct (Z.leb_spec minute (Z.max 0 (now - started w))) as [Hexp|Hin].
  - (* the window is over: nothing more of it is let through *)
    rewrite (run_after now); [lia | by split; [reflexivity |] |].
    unfold minute in *. lia.
  - cbn [run]. unfold admit_call, current_window.
    destruct (Z.leb_spec minute (Z.max 0 (now - started w))); [lia |].
    destruct (N.leb_spec l (count w)) as [Hfull|Hroom].
    + destruct (run calls (Some w)) as [times o'] eqn:E. cbn.
      specialize (IH w now Hm Hb' ltac:(lia) Hu). by rewrite E in IH.
    + set (w' := MkWindow (started w) (saturating_add u32_max (count w) 1)).
      destruct (run calls (Some w')) as [times o'] eqn:E. cbn. rewrite admitted_in_cons.
      specialize (IH w' now Hm Hb' ltac:(cbn; lia) Hu). rewrite E in IH.
      cbn in IH. unfold saturating_add in IH. unfold minute in *.
      destruct (within t0 _ now); lia.
Qed.

Lemma admitted_in_split t0 t1 t2 times :
  (t0 <= t1 <= t2)%Z →
  admitted_in t0 t2 times = admitted_in t0 t1 times + admitted_in t1 t2 times.
Proof.
  intros H. induction times as [|t times IH]; [done |].
  rewrite !admitted_in_cons, IH. unfold within.
  destruct (Z.leb_spec t0 t), (Z.ltb_spec t t1), (Z.leb_spec t1 t), (Z.ltb_spec t t2); cbn; lia.
Qed.

Lemma admitted_in_mono t0 t0' t1 t1' times :
  (t0' <= t0)%Z → (t1 <= t1')%Z → admitted_in t0 t1 times <= admitted_in t0' t1' times.
Proof.
  intros H0 H1. induction times as [|t times IH]; [done |].
  rewrite !admitted_in_cons. unfold within.
  destruct (Z.leb_spec t0 t), (Z.ltb_spec t t1), (Z.leb_spec t0' t), (Z.ltb_spec t t1'); cbn; lia.
Qed.

(** The first call of a run sees its current window. *)
Lemma current_window_idem now o : current_window now (Some (current_window now o)) = current_window now o.
Proof.
  unfold current_window. destruct o as [w|]; cbn.
  - destruct (Z.leb_spec minute (Z.max 0 (now - started w))) as [H|H]; cbn.
    + rewrite Z.sub_diag. by destruct (Z.leb_spec minute (Z.max 0 0)); unfold minute in *; [lia |].
    + by destruct (Z.leb_spec minute (Z.max 0 (now - started w))); [lia |].
  - rewrite Z.sub_diag. by destruct (Z.leb_spec minute (Z.max 0 0)); unfold minute in *; [lia |].
Qed.

Lemma run_current now l calls o :
  run ((now, l) :: calls) o = run ((now, l) :: calls) (Some (current_window now o)).
Proof. cbn [run]. unfold admit_call. by rewrite current_window_idem. Qed.

Lemma current_window_started now w :
  (started w <= now)%Z →
  (started (current_window now (Some w)) <= now)%Z ∧
  (now < started (current_window now (Some w)) + minute)%Z.
Proof.
  intros H. unfold current_window.
  destruct (Z.leb_spec minute (Z.max 0 (now - started w))); cbn; unfold minute in *; lia.
Qed.

Lemma admit_started now l o : started (admit_call now l o).2 = started (current_window now o).
Proof. unfold admit_call. by case_match. Qed.

(** In the minute after a window ends, one more quota at most. *)
Lemma run_next_window limit calls w t t1 :
  monotone t calls → bounded limit calls → (started w <= t)%Z → limit <= u32_max →
  (t1 <= started w + 2 * minute)%Z →
  admitted_in (started w + minute) t1 (run calls (Some w)).1 <= limit.
Proof.
  revert w t. induction calls as [|[now l] calls IH]; intros w t Hm Hb Hs Hu H1; [apply N.le_0_l |].
  destruct (Z.leb_spec minute (Z.max 0 (now - started w))) as [Hexp|Hin].
  - rewrite run_current.
    assert (current_window now (Some w) = MkWindow now 0) as ->.
    { cbn. by destruct (Z.leb_spec minute (Z.max 0 (now - started w))); [| lia]. }
    etransitivity; [apply (admitted_in_mono _ (started w + minute) _ (now + minute)); [lia |] |].
    + unfold minute in *. lia.
    + pose proof (run_window_bound limit ((now, l) :: calls) (MkWindow now 0) now
                    (started w + minute)) as Hw.
      cbn [started count] in Hw. rewrite N.sub_0_r in Hw. destruct Hm as [_ Hm].
      apply Hw; [by split; [reflexivity |] | done | reflexivity | done].
  - destruct Hm as [Ht Hm]. inversion Hb as [|? ? Hl Hb']; subst. cbn [run].
    destruct (admit_call now l (Some w)) as [a w'] eqn:Ea.
    assert (started w' = started w) as Es.
    { change w' with (a, w').2. rewrite <- Ea, admit_started. cbn.
      by destruct (Z.leb_spec minute (Z.max 0 (now - started w))); [lia |]. }
    specialize (IH w' now Hm Hb' ltac:(lia) Hu ltac:(lia)). rewrite Es in IH.
    destruct (run calls (Some w')) as [times o'] eqn:E. cbn in *. destruct a; [| done].
    rewrite admitted_in_cons. unfold within.
    destruct (Z.leb_spec (started w + minute) now); [unfold minute in *; lia |]. cbn. lia.
Qed.

Lemma run_minute_bound limit calls w t t0 :
  monotone t calls → bounded limit calls → (started w <= t)%Z → limit <= u32_max →
  admitted_in t0 (t0 + minute) (run calls (Some w)).1 <= 2 * limit.
Proof.
  revert w t. induction calls as [|[now l] calls IH]; intros w t Hm Hb Hs Hu; [apply N.le_0_l |].
  destruct (Z.ltb_spec now t0) as [Hbefore|Hat].
  - destruct Hm as [Ht Hm]. inversion Hb as [|? ? Hl Hb']; subst. cbn [run].
    destruct (admit_call now l (Some w)) as [a w'] eqn:Ea.
    assert (started w' <= now)%Z.
    { change w' with (a, w').2. rewrite <- Ea, admit_started.
      apply current_window_started. lia. }
    specialize (IH w' now Hm Hb' ltac:(done) Hu).
    destruct (run calls (Some w')) as [times o'] eqn:E. cbn in *. destruct a; [| done].
    rewrite admitted_in_cons. unfold within. by destruct (Z.leb_spec t0 now); [lia |].
  - rewrite run_current. destruct Hm as [Ht Hm].
    destruct (current_window_started now w ltac:(lia)) as [Hlo Hhi].
    set (w1 := current_window now (Some w)) in *.
    assert (monotone now ((now, l) :: calls)) as Hm' by (split; [reflexivity | done]).
    pose proof (run_window_bound limit _ w1 now t0 Hm' Hb Hlo Hu).
    destruct (Z.le_gt_cases (started w1) t0) as [Hs1|Hs1].
    2: { etransitivity; [apply (admitted_in_mono _ t0 _ (started w1 + minute)) |]; lia. }
    rewrite (admitted_in_split _ (started w1 + minute)) by (unfold minute in *; lia).
    pose proof (run_next_window limit _ w1 now (t0 + minute) Hm' Hb Hlo Hu
                  ltac:(unfold minute in *; lia)).
    lia.
Qed.


(** The burst the bound allows: a full quota at the end of one window and another at
    the start of the next. *)
Definition burst : list (Z * N) :=
  (λ t, (t, 2)) <$> [0; 59000000; 59000001; 60000000; 60000001; 60000002]%Z.

Example burst_admits :
  (run burst None).1 = [0; 59000000; 60000000; 60000001]%Z ∧
  admitted_in 59000000 (59000000 + minute) (run burst None).1 = 3.
Proof. vm_compute. split; reflexivity. Qed.


End RateLimit.
