(* ===== verification/Sql.v ===== *)
(** * SQL statements and transactions

    The semantics of the statements the store issues.  A statement is a pure
    function of a database; the pool runs one statement as its own transaction
    ([query]), [run_tx] runs a block between BEGIN and COMMIT.  Every statement
    is a tick of the environment and may fail.  The blocks take row locks
    ([FOR UPDATE], unique-index and ledger-row locks) and hold them until they
    end, so a block executes atomically with respect to the other tasks: the
    environment interferes before BEGIN and after COMMIT. *)

From stdpp Require Import base gmap strings list numbers.
From Stdlib Require Import Lia NArith ZArith Ascii String.
From S2P Require Import Prelude Text Json Readiness Schema.

Open Scope string_scope.
Open Scope N_scope.

Abbreviation Stmt A := (Database_ → Result (A * Database_) StoreError).

(** A connection-level failure: [sqlx::Error] without a constraint. *)
Definition lost_connection : StoreError := Database None.

(** ** The pool *)

Definition query {A} (f : Stmt A) : Proc World (Result A StoreError) :=
  request (λ w, match f (db w) with
                | Ok (a, d) => (Ok a, with_db d w)
                | Err e => (Err e, w)
                end)
          (Err lost_connection).

(** A statement that only reads. *)
Definition select {A} (f : Database_ → A) : Stmt A := λ d, Ok (f d, d).

(** ** Transactions *)

Definition Tx (A : Type) : Type :=
  Env World → nat → Database_ → Outcome (Result (A * Database_) StoreError) * nat.

(** How a block ends: COMMIT or ROLLBACK, with the value it returns then. *)
Inductive TxEnd (A : Type) : Type :=
| Commit (a : A)
| Rollback (a : A).
Arguments Commit {A} a.
Arguments Rollback {A} a.

Definition tx_ret {A} (a : A) : Tx A := λ _ n d, (Done (Ok (a, d)), n).

(** Leaving a block with an error drops the transaction: an implicit rollback. *)
Definition tx_fail {A} (e : StoreError) : Tx A := λ _ n _, (Done (Err e), n).

Definition tx_bind {A B} (c : Tx A) (k : A → Tx B) : Tx B := λ env n d,
  match c env n d with
  | (Done (Ok (a, d')), n') => k a env n' d'
  | (Done (Err e), n') => (Done (Err e), n')
  | (Crashed, n') => (Crashed, n')
  end.

Definition tx_stmt {A} (f : Stmt A) : Tx A := λ env n d,
  match reply env n with
  | Up => (Done (f d), S n)
  | Crash => (Crashed, S n)
  | _ => (Done (Err lost_connection), S n)
  end.

(** Observing a statement's error instead of propagating it. *)
Definition tx_attempt {A} (c : Tx A) : Tx (Result A StoreError) := λ env n d,
  match c env n d with
  | (Done (Ok (a, d')), n') => (Done (Ok (Ok a, d')), n')
  | (Done (Err e), n') => (Done (Ok (Err e, d)), n')
  | (Crashed, n') => (Crashed, n')
  end.

(** [now()] inside the block. *)
Definition tx_now : Tx Z := λ env n d, (Done (Ok (clock env n, d)), n).

Definition commit (d : Database_) : Proc World (Result unit StoreError) := λ env n w,
  match reply env n with
  | Up => (Done (Ok tt), S n, interfere env n (with_db d w))
  | Down => (Done (Err lost_connection), S n, interfere env n w)
  | DownApplied => (Done (Err lost_connection), S n, interfere env n (with_db d w))
  | Crash => (Crashed, S n, w)
  end.

(** [pool.begin()], the block, then [commit], [rollback] or a drop. *)
Definition run_tx {A} (body : Tx (TxEnd (Result A StoreError)))
  : Proc World (Result A StoreError) := λ env n w,
  let w := interfere env n w in
  match reply env n with
  | Crash => (Crashed, S n, w)
  | Up =>
      match body env (S n) (db w) with
      | (Crashed, n') => (Crashed, n', w)
      | (Done (Err e), n') => (Done (Err e), n', w)
      | (Done (Ok (Commit r, d)), n') =>
          bind (commit d) (λ c, match c with Ok _ => ret r | Err e => ret (Err e) end) env n' w
      | (Done (Ok (Rollback r, _)), n') =>
          bind (request (λ w, (Ok tt, w)) (Err lost_connection))
            (λ c, match c with Ok _ => ret r | Err e => ret (Err e) end) env n' w
      end
  | _ => (Done (Err lost_connection), S n, w)
  end.

Notation "'tx' x ':=' c 'in' k" := (tx_bind c (λ x, k))
  (at level 10, x pattern, c at level 100, k at level 200) : x402_scope.

(** ** Values *)

(** The cast [$n::numeric] of the text a caller binds.  Every caller binds the
    decimal digits of an unsigned integer; other texts make the statement fail. *)
Definition numeric_in (s : string) : Result N StoreError :=
  if is_decimal s then Ok (dec_value s) else Err (Database None).

Definition numeric_in_opt (o : option string) : Result (option N) StoreError :=
  match o with
  | None => Ok None
  | Some s => try n := numeric_in s in Ok (Some n)
  end.

(** The cast [::text] of a NUMERIC column. *)
Definition numeric_out (n : N) : string := to_decimal n.

(** [Utc::now().date_naive()] *)
Definition date_of (t : Z) : Z := (t / 86400000000)%Z.

(** ** Statements on [settlements] *)

Definition select_row (id : N) : Stmt (option Row) := select (λ d, settlements d !! id).

Definition check_violation : StoreError := Database (Some "settlements_check").

(** [UPDATE settlements SET .. WHERE id = $1 AND ..], returning [rows_affected()]. *)
Definition update_settlement (id : N) (guard : Row → bool) (f : Row → Row) : Stmt N := λ d,
  match settlements d !! id with
  | None => Ok (0, d)
  | Some r =>
      if guard r then
        let r' := f r in
        if check_row r' then
          match unique_conflict (settlements d) id r' with
          | None => Ok (1, with_settlements (<[id := r']> (settlements d)) d)
          | Some c => Err (Database (Some c))
          end
        else Err check_violation
      else Ok (0, d)
  end.

(** [INSERT INTO settlements .. ON CONFLICT DO NOTHING] *)
Definition insert_settlement (id : N) (r : Row) : Stmt N := λ d,
  if check_row r then
    if bool_decide (is_Some (settlements d !! id)) ||
       bool_decide (is_Some (unique_conflict (settlements d) id r))
    then Ok (0, d)
    else if bool_decide (is_Some (api_clients d !! api_client_id (claim r)))
    then Ok (1, with_settlements (<[id := r]> (settlements d)) d)
    else Err (Database (Some "settlements_api_client_id_fkey"))
  else Err check_violation.

Definition insert_event (id : N) (from : option SettlementState) (to : SettlementState)
  (code : option string) (metadata : Value) : Stmt unit := λ d,
  Ok (tt, with_events (settlement_events d ++ [MkEvent id from to code metadata]) d).

(** ** Reasoning about transactions *)

Lemma tx_ret_inv {A} (a : A) env n d b d' n' :
  tx_ret a env n d = (Done (Ok (b, d')), n') → b = a ∧ d' = d.
Proof. unfold tx_ret. naive_solver. Qed.

Lemma tx_fail_inv {A} e env n d (b : A) d' n' :
  tx_fail e env n d = (Done (Ok (b, d')), n') → False.
Proof. discriminate. Qed.

Lemma tx_bind_inv {A B} (c : Tx A) (k : A → Tx B) env n d b d' n' :
  tx_bind c k env n d = (Done (Ok (b, d')), n') →
  ∃ a d1 n1, c env n d = (Done (Ok (a, d1)), n1) ∧ k a env n1 d1 = (Done (Ok (b, d')), n').
Proof.
  unfold tx_bind. destruct (c env n d) as [[[[a d1]|e]|] n1]; try discriminate. eauto.
Qed.

Lemma tx_stmt_inv {A} (f : Stmt A) env n d b d' n' :
  tx_stmt f env n d = (Done (Ok (b, d')), n') → f d = Ok (b, d').
Proof. unfold tx_stmt. destruct (reply env n); naive_solver. Qed.

Lemma tx_attempt_inv {A} (c : Tx A) env n d b d' n' :
  tx_attempt c env n d = (Done (Ok (b, d')), n') →
  (∃ a, b = Ok a ∧ c env n d = (Done (Ok (a, d')), n')) ∨ (∃ e, b = Err e ∧ d' = d).
Proof.
  unfold tx_attempt. destruct (c env n d) as [[[[a d1]|e]|] n1]; try discriminate; naive_solver.
Qed.

Lemma tx_now_inv env n d b d' n' :
  tx_now env n d = (Done (Ok (b, d')), n') → d' = d.
Proof. unfold tx_now. naive_solver. Qed.

(** Decomposes a successful run of a block into its statements. *)
Ltac tx_inv :=
  repeat match goal with
  | H : tx_bind _ _ _ _ _ = (Done (Ok _), _) |- _ =>
      apply tx_bind_inv in H as (? & ? & ? & ? & H); cbv beta in H
  | H : tx_ret _ _ _ _ = (Done (Ok _), _) |- _ => apply tx_ret_inv in H as [? ?]; simplify_eq
  | H : tx_fail _ _ _ _ = (Done (Ok _), _) |- _ => by apply tx_fail_inv in H
  | H : tx_stmt _ _ _ _ = (Done (Ok _), _) |- _ => apply tx_stmt_inv in H
  | H : tx_now _ _ _ = (Done (Ok _), _) |- _ => apply tx_now_inv in H; simplify_eq
  | H : tx_attempt _ _ _ _ = (Done (Ok _), _) |- _ =>
      apply tx_attempt_inv in H as [(? & ? & H)|(? & ? & ?)]; simplify_eq
  | H : (match ?x with _ => _ end) _ _ _ = (Done (Ok _), _) |- _ => destruct x eqn:?
  | H : (if ?b then _ else _) _ _ _ = (Done (Ok _), _) |- _ => destruct b eqn:?
  end.

(** A block moves the world along [R] when each of its commits does. *)
Definition tx_respects {A} (R : relation World) (body : Tx (TxEnd A)) : Prop :=
  ∀ env n d r d' n' w,
    body env n d = (Done (Ok (Commit r, d')), n') → db w = d → R w (with_db d' w).

(** *** Runs in a calm environment *)

Lemma calm_query {A} (f : Stmt A) env n w :
  calm env →
  query f env n w = match f (db w) with
                    | Ok (a, d) => (Done (Ok a), S n, with_db d w)
                    | Err e => (Done (Err e), S n, w)
                    end.
Proof. intros Hc. unfold query. rewrite calm_request by done. by repeat case_match; simplify_eq. Qed.

Lemma with_db_id w : with_db (db w) w = w.
Proof. by destruct w. Qed.

Lemma calm_select {A} (f : Database_ → A) env n w :
  calm env → query (select f) env n w = (Done (Ok (f (db w))), S n, w).
Proof. intros Hc. rewrite calm_query by done. cbn. by rewrite with_db_id. Qed.

Lemma calm_stmt {A} (f : Stmt A) env n d :
  calm env → tx_stmt f env n d = (Done (f d), S n).
Proof. intros [_ Hr]. unfold tx_stmt. by rewrite Hr. Qed.

Lemma calm_tx_bind {A B} (c : Tx A) (k : A → Tx B) env n d a d' n' :
  c env n d = (Done (Ok (a, d')), n') → tx_bind c k env n d = k a env n' d'.
Proof. intros H. unfold tx_bind. by rewrite H. Qed.

Lemma calm_commit {A} (body : Tx (TxEnd (Result A StoreError))) env n w r d n' :
  calm env → body env (S n) (db w) = (Done (Ok (Commit r, d)), n') →
  run_tx body env n w = (Done r, S n', with_db d w).
Proof.
  intros [Hi Hr] H. unfold run_tx. rewrite Hi, Hr, H.
  unfold bind, commit. by rewrite Hi, Hr.
Qed.

Lemma calm_rollback {A} (body : Tx (TxEnd (Result A StoreError))) env n w r d n' :
  calm env → body env (S n) (db w) = (Done (Ok (Rollback r, d)), n') →
  run_tx body env n w = (Done r, S n', w).
Proof.
  intros Hc H. unfold run_tx. destruct Hc as [Hi Hr]. rewrite Hi, Hr, H.
  unfold bind. by rewrite calm_request.
Qed.

Section respects_sql.
Context (R : relation World) `{!PreOrder R}.

Lemma respects_query {A} (f : Stmt A) :
  (∀ w a d, f (db w) = Ok (a, d) → R w (with_db d w)) → respects R (query f).
Proof.
  intros Hf. apply respects_request; [done |]. intros w.
  destruct (f (db w)) as [[a d]|e] eqn:E; cbn; [eauto | reflexivity].
Qed.

Lemma respects_select {A} (f : Database_ → A) : respects R (query (select f)).
Proof.
  apply respects_query. intros w a d. unfold select. intros [= <- <-].
  destruct w; cbn. reflexivity.
Qed.

Lemma respects_run_tx {A} (body : Tx (TxEnd (Result A StoreError))) :
  tx_respects R body → respects R (run_tx body).
Proof.
  intros Hbody env n w o n' w' Hrely. unfold run_tx.
  pose proof (Hrely n w) as Hi. set (w1 := interfere env n w) in *.
  destruct (reply env n); intros H; try (injection H as <- <- <-; done).
  destruct (body env (S n) (db w1)) as [[[[[r|r] d]|e]|] n1] eqn:E;
    try (injection H as <- <- <-; done).
  - pose proof (Hbody _ _ _ _ _ _ w1 E eq_refl) as Hc.
    unfold bind, commit in H. transitivity w1; [done |].
    destruct (reply env n1); cbn in H; injection H as <- <- <-;
      [ transitivity (with_db d w1); [done | apply Hrely]
      | apply Hrely
      | transitivity (with_db d w1); [done | apply Hrely]
      | reflexivity ].
  - transitivity w1; [done |].
    eapply (respects_bind R); [| | exact Hrely | exact H].
    + apply respects_request; [done |]. reflexivity.
    + intros [|]; apply respects_ret; done.
Qed.
End respects_sql.
