(* ===== verification/Store.v ===== *)
(** * The settlement store

    Models [PgStore] of [crates/x402-near-facilitator/src/store.rs]: claiming a
    payment, the lifecycle transitions of its journal row, the sponsorship
    ledgers, relayer quarantine and payee policy.  Each function is the Rust
    method statement by statement, over the statements of [Sql]. *)

From stdpp Require Import base gmap strings list numbers sorting.
From Stdlib Require Import Lia NArith ZArith Ascii String.
From S2P Require Import Prelude Text Json Readiness Schema Sql.

Open Scope string_scope.
Open Scope N_scope.

Module Store.

(** ** Authorization metadata *)

Record EvmAuthorizationMetadata : Type := MkMetadata {
  version : N;
  valid_after : string;
  valid_before : string
}.

Definition to_json (m : EvmAuthorizationMetadata) : Value :=
  Object (insert "version" (Num (PosInt (version m)))
         (insert "validAfter" (Str (valid_after m))
         (insert "validBefore" (Str (valid_before m)) []))).

(** The derived [Deserialize] with [deny_unknown_fields]. *)
Definition metadata_from_value (v : Value) : Result EvmAuthorizationMetadata StoreError :=
  let invalid := Corrupt "authorization_metadata is invalid" in
  match as_object v with
  | None => Err invalid
  | Some m =>
      if forallb (λ k, existsb (String.eqb k) ["version"; "validAfter"; "validBefore"]) (keys m)
      then
        match (v ← get "version" m; n ← as_u64 v; try_from u8_max n),
              (v ← get "validAfter" m; as_str v), (v ← get "validBefore" m; as_str v) with
        | Some ver, Some va, Some vb => Ok (MkMetadata ver va vb)
        | _, _, _ => Err invalid
        end
      else Err invalid
  end.

(** ** The record read from a row *)

Module Rec.
Record SettlementRecord : Type := MkRecord {
  id : N;
  api_client_id : N;
  payment_identifier : option string;
  payment_hash : string;
  request_fingerprint : string;
  anchor_scope : string;
  anchor_value : string;
  state : SettlementState;
  chain_kind : ChainKind;
  network : string;
  asset : string;
  pay_to : string;
  amount : string;
  payer : string;
  authorization_metadata : option EvmAuthorizationMetadata;
  policy_snapshot : Value;
  delegate_public_key : string;
  delegate_nonce : string;
  delegate_max_block_height : string;
  reservation_date : Z;
  reserved_yocto_near : string;
  relayer_account_id : option string;
  relayer_public_key : option string;
  relayer_nonce : option string;
  outer_transaction_bytes : option string;
  outer_transaction_hash : option string;
  signer_address : option string;
  signer_account_nonce : option string;
  submitted_tx_rlp : option string;
  submitted_tx_hash : option string;
  confirmations : option Z;
  required_confirmations : option Z;
  attempt_count : N;
  retry_code : option string;
  terminal_http_status : option N;
  terminal_response_bytes : option string;
  created_at : Z
}.
End Rec.

(** [fixed_hash] *)
Definition fixed_hash (bytes field : string) : Result string StoreError :=
  if (String.length bytes =? 32)%nat then Ok bytes
  else Err (Corrupt (field +:+ " does not contain exactly 32 bytes")).

(** [COALESCE(.., '')] *)
Definition coalesce (o : option string) : string := default "" o.

Definition settlement_from_row (id : N) (r : Row) : Result Rec.SettlementRecord StoreError :=
  let c := claim r in
  let ns := near_submission r in
  let es := evm_submission r in
  let t := terminal r in
  try payment_hash := fixed_hash (payment_hash c) "payment_hash" in
  try fingerprint := fixed_hash (request_fingerprint c) "request_fingerprint" in
  try anchor := fixed_hash (anchor_value c) "anchor_value" in
  try metadata := match authorization_metadata c with
                  | None => Ok None
                  | Some v => try m := metadata_from_value v in Ok (Some m)
                  end in
  try st := state_from_str (state_as_str (state r)) in
  try kind := chain_kind_from_str (chain_kind_as_str (chain_kind c)) in
  Ok (Rec.MkRecord id (api_client_id c) (payment_identifier c) payment_hash fingerprint
        (anchor_scope c) anchor st kind (network c) (asset c) (pay_to c)
        (numeric_out (amount c)) (payer c) metadata (policy_snapshot r)
        (coalesce (delegate_public_key c))
        (coalesce (numeric_out <$> delegate_nonce c))
        (coalesce (numeric_out <$> delegate_max_block_height c))
        (reservation_date r) (numeric_out (reserved_yocto_near r))
        (relayer_account_id ns) (relayer_public_key ns) (numeric_out <$> relayer_nonce ns)
        (outer_transaction_bytes ns) (outer_transaction_hash ns)
        (signer_address c) (numeric_out <$> signer_account_nonce es)
        (submitted_tx_rlp es) (submitted_tx_hash es)
        (confirmations t) (required_confirmations es)
        (attempt_count r) (retry_code r)
        (terminal_http_status t) (terminal_response_bytes t) (created_at c)).

(** ** Inputs and outcomes *)

Record NewSettlement : Type := MkNew {
  new_id : N;
  new_api_client_id : N;
  new_payment_identifier : option string;
  new_payment_hash : string;
  new_request_fingerprint : string;
  new_anchor_scope : string;
  new_anchor_value : string;
  new_x402_version : N;
  new_scheme : string;
  new_network : string;
  new_asset : string;
  new_pay_to : string;
  new_amount : string;
  new_payer : string;
  new_chain_kind : ChainKind;
  new_delegate_public_key : option string;
  new_delegate_nonce : option string;
  new_delegate_max_block_height : option string;
  new_authorization_metadata : option EvmAuthorizationMetadata;
  new_signer_address : option string;
  new_policy_snapshot : Value;
  new_reservation_yocto_near : string;
  new_global_daily_budget_yocto_near : string;
  new_client_daily_budget_yocto_near : string
}.

Record RetryReservation : Type := MkRetry {
  retry_settlement_id : N;
  retry_policy_snapshot : Value;
  retry_reservation_yocto_near : string;
  retry_global_daily_budget_yocto_near : string;
  retry_client_daily_budget_yocto_near : string
}.

Record PreparedJournalEntry : Type := MkPrepared {
  prep_settlement_id : N;
  prep_relayer_account_id : string;
  prep_relayer_public_key : string;
  prep_relayer_nonce : string;
  prep_transaction_bytes : string;
  prep_transaction_hash : string
}.

Record EvmPreparedJournalEntry : Type := MkEvmPrepared {
  evm_settlement_id : N;
  evm_signer_account_nonce : string;
  evm_submitted_tx_rlp : string;
  evm_submitted_tx_hash : string;
  evm_required_confirmations : Z
}.

Record TerminalJournalEntry : Type := MkTerminalEntry {
  term_settlement_id : N;
  term_state : SettlementState;
  term_http_status : N;
  term_response_bytes : string;
  term_error_code : option string;
  term_error_detail : option string;
  term_gas_burnt : option string;
  term_tokens_burnt : option string;
  term_actual_yocto_near : string;
  term_mined_block_number : option string;
  term_mined_block_hash : option string;
  term_confirmations : option Z
}.

Inductive ClaimOutcome : Type :=
| New (record : Rec.SettlementRecord)
| Existing (record : Rec.SettlementRecord)
| IdentifierConflict
| DuplicateSettlement
| SettlementBusy
| BudgetExceeded.

Inductive RetryOutcome : Type :=
| Resumed (record : Rec.SettlementRecord)
| RetrySettlementBusy
| RetryBudgetExceeded.

(** ** Sponsorship ledgers *)

(** The upsert of both ledgers: the new amount alone must fit the limit, and with
    what the day already reserved and spent. *)
Definition reserve_ledger (current : option Ledger) (reservation limit : N)
  : Result (option Ledger) StoreError :=
  if reservation <=? limit then
    let next := match current with
                | None => Some (MkLedger reservation 0)
                | Some l =>
                    if ledger_reserved l + ledger_spent l + reservation <=? limit
                    then Some (MkLedger (ledger_reserved l + reservation) (ledger_spent l))
                    else None
                end in
    match next with
    | None => Ok None
    | Some l => if ledger_check l then Ok (Some l) else Err (Database None)
    end
  else Ok None.

Definition reserve_global_budget (usage_date : Z) (reservation limit : string) : Stmt bool := λ d,
  try r := numeric_in reservation in
  try lim := numeric_in limit in
  try next := reserve_ledger (global_sponsorship d !! usage_date) r lim in
  match next with
  | None => Ok (false, d)
  | Some l => Ok (true, with_global (<[usage_date := l]> (global_sponsorship d)) d)
  end.

Definition reserve_client_budget (usage_date : Z) (client_id : N) (reservation limit : string)
  : Stmt bool := λ d,
  try r := numeric_in reservation in
  try lim := numeric_in limit in
  try next := reserve_ledger (client_sponsorship d !! (usage_date, client_id)) r lim in
  match next with
  | None => Ok (false, d)
  | Some l =>
      if bool_decide (is_Some (api_clients d !! client_id)) then
        Ok (true, with_client (<[(usage_date, client_id) := l]> (client_sponsorship d)) d)
      else Err (Database (Some "daily_client_sponsorship_client_id_fkey"))
  end.

(** [UPDATE .. SET reserved = reserved - $r, spent = spent + $a WHERE .. AND
    reserved >= $r]; [None] when no row qualifies. *)
Definition release_ledger (current : option Ledger) (reservation actual : N)
  : Result (option Ledger) StoreError :=
  match current with
  | Some l =>
      if reservation <=? ledger_reserved l then
        let l' := MkLedger (ledger_reserved l - reservation) (ledger_spent l + actual) in
        if ledger_check l' then Ok (Some l') else Err (Database None)
      else Ok None
  | None => Ok None
  end.

Definition release_global (usage_date : Z) (reservation actual : string) : Stmt N := λ d,
  try r := numeric_in reservation in
  try a := numeric_in actual in
  try next := release_ledger (global_sponsorship d !! usage_date) r a in
  match next with
  | None => Ok (0, d)
  | Some l => Ok (1, with_global (<[usage_date := l]> (global_sponsorship d)) d)
  end.

Definition release_client (usage_date : Z) (client_id : N) (reservation actual : string)
  : Stmt N := λ d,
  try r := numeric_in reservation in
  try a := numeric_in actual in
  try next := release_ledger (client_sponsorship d !! (usage_date, client_id)) r a in
  match next with
  | None => Ok (0, d)
  | Some l => Ok (1, with_client (<[(usage_date, client_id) := l]> (client_sponsorship d)) d)
  end.

Definition release_budget (usage_date : Z) (client_id : N) (reservation actual : string)
  : Tx unit :=
  tx global := tx_stmt (release_global usage_date reservation actual) in
  tx client := tx_stmt (release_client usage_date client_id reservation actual) in
  if negb (global =? 1) || negb (client =? 1)
  then tx_fail (Corrupt "sponsorship reservation ledger row is missing")
  else tx_ret tt.

(** ** Lookups *)

Definition record_of (id : N) (o : option Row) : Result (option Rec.SettlementRecord) StoreError :=
  match o with
  | None => Ok None
  | Some r => try rec := settlement_from_row id r in Ok (Some rec)
  end.

Definition settlement (id : N) : Proc World (Result (option Rec.SettlementRecord) StoreError) :=
  let? row := query (select_row id) in
  ret (record_of id row).

Fixpoint records_of (rows : list (N * Row)) : Result (list Rec.SettlementRecord) StoreError :=
  match rows with
  | [] => Ok []
  | (id, r) :: rest =>
      try rec := settlement_from_row id r in
      try recs := records_of rest in
      Ok (rec :: recs)
  end.

(** [ORDER BY created_at] *)
Definition created_before (a b : N * Row) : Prop :=
  (created_at (claim a.2) <= created_at (claim b.2))%Z.
#[export] Instance created_before_dec : RelDecision created_before.
Proof. intros a b. unfold created_before. apply _. Defined.

Definition active_rows (d : Database_) : list (N * Row) :=
  merge_sort created_before
    (filter (λ ir : N * Row, is_active (state ir.2) = true) (map_to_list (settlements d))).

Definition nonterminal_settlements : Proc World (Result (list Rec.SettlementRecord) StoreError) :=
  let? rows := query (select active_rows) in
  ret (records_of rows).

(** The loop over the rows that match the identifier or the payment hash. *)
Fixpoint scan_existing (api_client_id : N) (identifier payment_hash fingerprint : string)
  (payment_hash_exists : bool) (rows : list (N * Row)) : Result (option ClaimOutcome) StoreError :=
  match rows with
  | [] => Ok (if payment_hash_exists then Some DuplicateSettlement else None)
  | (id, r) :: rest =>
      try existing := settlement_from_row id r in
      if (Rec.api_client_id existing =? api_client_id)
         && bool_decide (Rec.payment_identifier existing = Some identifier)
      then
        if String.eqb (Rec.request_fingerprint existing) fingerprint
        then Ok (Some (Existing existing))
        else Ok (Some IdentifierConflict)
      else
        scan_existing api_client_id identifier payment_hash fingerprint
          (payment_hash_exists || String.eqb (Rec.payment_hash existing) payment_hash) rest
  end.

(** [WHERE (api_client_id = $1 AND payment_identifier = $2) OR payment_hash = $3] *)
Definition rows_by_identifier_or_hash (client : N) (identifier hash : string) (d : Database_)
  : list (N * Row) :=
  filter (λ ir : N * Row,
    (api_client_id (claim ir.2) = client ∧ payment_identifier (claim ir.2) = Some identifier)
    ∨ payment_hash (claim ir.2) = hash) (map_to_list (settlements d)).

Definition rows_by_hash (hash : string) (d : Database_) : list (N * Row) :=
  filter (λ ir : N * Row, payment_hash (claim ir.2) = hash) (map_to_list (settlements d)).

Definition existing_by_hash (client : N) (fingerprint : string) (rows : list (N * Row))
  : Result (option ClaimOutcome) StoreError :=
  match rows with
  | [] => Ok None
  | (id, r) :: _ =>
      try existing := settlement_from_row id r in
      if (Rec.api_client_id existing =? client)
         && String.eqb (Rec.request_fingerprint existing) fingerprint
      then Ok (Some (Existing existing))
      else Ok (Some DuplicateSettlement)
  end.

Definition find_existing_settlement (client : N) (identifier : option string)
  (hash fingerprint : string) : Proc World (Result (option ClaimOutcome) StoreError) :=
  match identifier with
  | Some identifier =>
      let? rows := query (select (rows_by_identifier_or_hash client identifier hash)) in
      ret (scan_existing client identifier hash fingerprint false rows)
  | None =>
      let? rows := query (select (rows_by_hash hash)) in
      ret (existing_by_hash client fingerprint rows)
  end.

Definition anchor_claimed (scope value : string) (d : Database_) : bool :=
  existsb (λ ir : N * Row,
    String.eqb (anchor_scope (claim ir.2)) scope && String.eqb (anchor_value (claim ir.2)) value)
    (map_to_list (settlements d)).

Definition anchor_is_claimed (scope value : string) : Proc World (Result bool StoreError) :=
  query (select (anchor_claimed scope value)).

Definition signer_active (network_ signer : string) (d : Database_) : bool :=
  existsb (λ ir : N * Row,
    bool_decide (key_active_signer ir.2 = Some (network_, to_ascii_lowercase signer)))
    (map_to_list (settlements d)).

Definition active_evm_signer_exists (kind : ChainKind) (network_ : string)
  (signer_address : option string) : Proc World (Result bool StoreError) :=
  if negb (bool_decide (kind = Eip155)) then ret (Ok false)
  else match signer_address with
       | None => ret (Ok false)
       | Some signer => query (select (signer_active network_ signer))
       end.

(** ** Claiming a payment *)

(** The values of the claim's INSERT. *)
Definition reserved_row (new : NewSettlement) (usage_date t : Z) : Result Row StoreError :=
  try amount := numeric_in (new_amount new) in
  try nonce := numeric_in_opt (new_delegate_nonce new) in
  try height := numeric_in_opt (new_delegate_max_block_height new) in
  try reserved := numeric_in (new_reservation_yocto_near new) in
  Ok (MkRow
        (MkClaim (new_api_client_id new) (new_payment_identifier new) (new_payment_hash new)
           (new_request_fingerprint new) (new_anchor_scope new) (new_anchor_value new)
           (new_x402_version new) (new_scheme new) (new_network new) (new_asset new)
           (new_pay_to new) amount (new_payer new) (new_chain_kind new)
           (new_delegate_public_key new) nonce height
           (to_json <$> new_authorization_metadata new) (new_signer_address new) t)
        Reserved (new_policy_snapshot new) usage_date reserved 1 None
        no_near_submission no_evm_submission no_terminal None None None 0 t).

Definition insert_reserved (new : NewSettlement) (usage_date t : Z) : Stmt N := λ d,
  try row := reserved_row new usage_date t in
  insert_settlement (new_id new) row d.

Definition empty_object : Value := Object [].

(** How the claiming block ended. *)
Inductive Reservation : Type :=
| Claimed
| Conflicted
| OverBudget.

Definition claim_tx (new : NewSettlement) (usage_date : Z)
  : Tx (TxEnd (Result Reservation StoreError)) :=
  tx t := tx_now in
  tx inserted := tx_stmt (insert_reserved new usage_date t) in
  if inserted =? 0 then tx_ret (Rollback (Ok Conflicted))
  else
  tx global := tx_stmt (reserve_global_budget usage_date (new_reservation_yocto_near new)
                          (new_global_daily_budget_yocto_near new)) in
  if negb global then tx_ret (Rollback (Ok OverBudget))
  else
  tx client := tx_stmt (reserve_client_budget usage_date (new_api_client_id new)
                          (new_reservation_yocto_near new)
                          (new_client_daily_budget_yocto_near new)) in
  if negb client then tx_ret (Rollback (Ok OverBudget))
  else
  tx _ := tx_stmt (insert_event (new_id new) None Reserved (Some "claimed") empty_object) in
  tx_ret (Commit (Ok Claimed)).

Definition find_existing_for (new : NewSettlement)
  : Proc World (Result (option ClaimOutcome) StoreError) :=
  find_existing_settlement (new_api_client_id new) (new_payment_identifier new)
    (new_payment_hash new) (new_request_fingerprint new).

(** After an INSERT that did nothing: which committed row it lost to. *)
Definition claim_conflict (new : NewSettlement) : Proc World (Result ClaimOutcome StoreError) :=
  let? existing := find_existing_for new in
  match existing with
  | Some outcome => ret (Ok outcome)
  | None =>
      let? anchor := anchor_is_claimed (new_anchor_scope new) (new_anchor_value new) in
      if (anchor : bool) then ret (Ok DuplicateSettlement)
      else
      let? busy := active_evm_signer_exists (new_chain_kind new) (new_network new)
                     (new_signer_address new) in
      if (busy : bool) then ret (Ok SettlementBusy)
      else ret (Err (Corrupt
             "settlement insert conflicted but conflicting row was not visible"))
  end.

Definition claim_settlement (new : NewSettlement) : Proc World (Result ClaimOutcome StoreError) :=
  if bool_decide (new_chain_kind new = Eip155)
     && is_none_or (new_authorization_metadata new) (λ m, negb (version m =? 2))
  then ret (Err (InvalidInput "EVM authorization metadata must use canonical x402 version 2"))
  else
  let? existing := find_existing_for new in
  match existing with
  | Some outcome => ret (Ok outcome)
  | None =>
  let? anchor := anchor_is_claimed (new_anchor_scope new) (new_anchor_value new) in
  if (anchor : bool) then
    let? existing := find_existing_for new in
    ret (Ok (default DuplicateSettlement existing))
  else
  let? busy := active_evm_signer_exists (new_chain_kind new) (new_network new)
                 (new_signer_address new) in
  if (busy : bool) then
    let? existing := find_existing_for new in
    ret (Ok (default SettlementBusy existing))
  else
  let* t := now in
  let? reservation := run_tx (claim_tx new (date_of t)) in
  match reservation with
  | Conflicted => claim_conflict new
  | OverBudget => ret (Ok BudgetExceeded)
  | Claimed =>
      let? record := settlement (new_id new) in
      ret (try record := ok_or record (Corrupt "inserted settlement disappeared") in
           Ok (New record))
  end
  end.

(** ** Lifecycle transitions *)

(** [state_for_update] and the error the callers make of it. *)
Definition refuse_transition {A} (id : N) (to : SettlementState) : Tx (TxEnd (Result A StoreError)) :=
  tx row := tx_stmt (select_row id) in
  match row with
  | Some r => tx_fail (Transition (state_as_str (state r)) (state_as_str to))
  | None => tx_fail (Corrupt "settlement not found")
  end.

Definition to_awaiting_retry (code : string) (t : Z) (r : Row) : Row :=
  MkRow (claim r) AwaitingRetry (policy_snapshot r) (reservation_date r) 0 (attempt_count r)
    (Some code) (near_submission r) (evm_submission r) (terminal r) (prepared_at r)
    (submitted_at r) (last_reconciled_at r) (reconciliation_attempts r) t.

Definition awaiting_retry_tx (id : N) (code : string) : Tx (TxEnd (Result unit StoreError)) :=
  tx row := tx_stmt (select_row id) in
  match row with
  | None => tx_fail (Corrupt "retry settlement not found")
  | Some r =>
      let refused := Transition (state_as_str (state r)) (state_as_str AwaitingRetry) in
      if negb (bool_decide (state r = Reserved)) then tx_ret (Rollback (Err refused))
      else
      tx _ := release_budget (reservation_date r) (api_client_id (claim r))
                (numeric_out (reserved_yocto_near r)) "0" in
      tx t := tx_now in
      tx n := tx_stmt (update_settlement id (λ r, bool_decide (state r = Reserved))
                         (to_awaiting_retry code t)) in
      if negb (n =? 1) then tx_fail refused
      else
      tx _ := tx_stmt (insert_event id (Some Reserved) AwaitingRetry (Some code) empty_object) in
      tx_ret (Commit (Ok tt))
  end.

Definition mark_awaiting_retry (id : N) (code : string) : Proc World (Result unit StoreError) :=
  if is_empty code then ret (Err (InvalidInput "retry code must not be empty"))
  else run_tx (awaiting_retry_tx id code).

Definition to_resumed (policy : Value) (usage_date : Z) (reserved : N) (t : Z) (r : Row) : Row :=
  MkRow (claim r) Reserved policy usage_date reserved (attempt_count r + 1)
    None (near_submission r) (evm_submission r) (terminal r) (prepared_at r)
    (submitted_at r) (last_reconciled_at r) (reconciliation_attempts r) t.

Definition update_resumed (retry : RetryReservation) (usage_date t : Z) : Stmt N := λ d,
  try reserved := numeric_in (retry_reservation_yocto_near retry) in
  update_settlement (retry_settlement_id retry) (λ r, bool_decide (state r = AwaitingRetry))
    (to_resumed (retry_policy_snapshot retry) usage_date reserved t) d.

Inductive Resumption : Type :=
| ResumeReserved
| ResumeBusy
| ResumeOverBudget.

(** [constraint_name(&error) == Some("settlements_evm_active_signer_idx")] *)
Definition signer_slot_taken (e : StoreError) : bool :=
  match e with
  | Database (Some c) => String.eqb c "settlements_evm_active_signer_idx"
  | _ => false
  end.

Definition resume_tx (retry : RetryReservation) (usage_date : Z)
  : Tx (TxEnd (Result Resumption StoreError)) :=
  let id := retry_settlement_id retry in
  tx row := tx_stmt (select_row id) in
  match row with
  | None => tx_fail (Corrupt "retry settlement not found")
  | Some r =>
      let refused := Transition (state_as_str (state r)) (state_as_str Reserved) in
      if negb (bool_decide (state r = AwaitingRetry)) then tx_ret (Rollback (Err refused))
      else
      tx t := tx_now in
      tx update := tx_attempt (tx_stmt (update_resumed retry usage_date t)) in
      match update with
      | Err e => if signer_slot_taken e then tx_ret (Rollback (Ok ResumeBusy))
                 else tx_ret (Rollback (Err e))
      | Ok n =>
      if negb (n =? 1) then tx_fail refused
      else
      tx global := tx_stmt (reserve_global_budget usage_date
                              (retry_reservation_yocto_near retry)
                              (retry_global_daily_budget_yocto_near retry)) in
      if negb global then tx_ret (Rollback (Ok ResumeOverBudget))
      else
      tx client := tx_stmt (reserve_client_budget usage_date (api_client_id (claim r))
                              (retry_reservation_yocto_near retry)
                              (retry_client_daily_budget_yocto_near retry)) in
      if negb client then tx_ret (Rollback (Ok ResumeOverBudget))
      else
      tx _ := tx_stmt (insert_event id (Some AwaitingRetry) Reserved (Some "retry_resumed")
                         empty_object) in
      tx_ret (Commit (Ok ResumeReserved))
      end
  end.

Definition resume_awaiting_retry (retry : RetryReservation)
  : Proc World (Result RetryOutcome StoreError) :=
  let* t := now in
  let? resumption := run_tx (resume_tx retry (date_of t)) in
  match resumption with
  | ResumeBusy => ret (Ok RetrySettlementBusy)
  | ResumeOverBudget => ret (Ok RetryBudgetExceeded)
  | ResumeReserved =>
      let? record := settlement (retry_settlement_id retry) in
      ret (try record := ok_or record (Corrupt "resumed settlement disappeared") in
           Ok (Resumed record))
  end.

(** [GREATEST(required_confirmations, $2)], which ignores NULL. *)
Definition greatest (o : option Z) (z : Z) : Z :=
  match o with Some q => Z.max q z | None => z end.

Definition to_raised (minimum t : Z) (r : Row) : Row :=
  let es := evm_submission r in
  MkRow (claim r) (state r) (policy_snapshot r) (reservation_date r) (reserved_yocto_near r)
    (attempt_count r) (retry_code r) (near_submission r)
    (MkEvmSubmission (signer_account_nonce es) (submitted_tx_rlp es) (submitted_tx_hash es)
       (Some (greatest (required_confirmations es) minimum)))
    (terminal r) (prepared_at r) (submitted_at r) (last_reconciled_at r)
    (reconciliation_attempts r) t.

(** [state IN ('prepared', 'submitted')] *)
Definition is_signed (s : SettlementState) : bool :=
  match s with Prepared | Submitted => true | _ => false end.

Definition update_raised (id : N) (minimum t : Z) : Stmt (option Z) := λ d,
  try updated := update_settlement id
                    (λ r, bool_decide (chain_kind (claim r) = Eip155) && is_signed (state r))
                    (to_raised minimum t) d in
  let (n, d') := updated in
  if n =? 1
  then Ok ((r ← settlements d' !! id; required_confirmations (evm_submission r)), d')
  else Ok (None, d').

Definition raise_required_confirmations (id : N) (minimum : Z)
  : Proc World (Result Z StoreError) :=
  if (minimum <? 1)%Z then ret (Err (InvalidInput "required confirmations must be at least 1"))
  else
  let* t := now in
  let? updated := query (update_raised id minimum t) in
  match updated with
  | Some required => ret (Ok required)
  | None =>
      let? row := query (select_row id) in
      ret (match row with
           | Some r => Err (Transition (state_as_str (state r)) "confirmation_policy_raised")
           | None => Err (Corrupt "confirmation settlement not found")
           end)
  end.

Definition to_prepared (ns : NearSubmission) (es : EvmSubmission) (t : Z) (r : Row) : Row :=
  MkRow (claim r) Prepared (policy_snapshot r) (reservation_date r) (reserved_yocto_near r)
    (attempt_count r) (retry_code r) ns es (terminal r) (Some t)
    (submitted_at r) (last_reconciled_at r) (reconciliation_attempts r) t.

Definition is_reserved (r : Row) : bool := bool_decide (state r = Reserved).

Definition update_prepared (e : PreparedJournalEntry) (t : Z) : Stmt N := λ d,
  try nonce := numeric_in (prep_relayer_nonce e) in
  update_settlement (prep_settlement_id e) is_reserved
    (λ r, to_prepared
            (MkNearSubmission (Some (prep_relayer_account_id e)) (Some (prep_relayer_public_key e))
               (Some nonce) (Some (prep_transaction_bytes e)) (Some (prep_transaction_hash e)))
            (evm_submission r) t r) d.

Definition transaction_object (hash : string) : Value := Object [("transaction", Str hash)].

Definition prepared_tx (e : PreparedJournalEntry) : Tx (TxEnd (Result unit StoreError)) :=
  tx t := tx_now in
  tx n := tx_stmt (update_prepared e t) in
  if negb (n =? 1) then refuse_transition (prep_settlement_id e) Prepared
  else
  tx _ := tx_stmt (insert_event (prep_settlement_id e) (Some Reserved) Prepared
                     (Some "outer_transaction_persisted")
                     (transaction_object (prep_transaction_hash e))) in
  tx_ret (Commit (Ok tt)).

Definition mark_prepared (e : PreparedJournalEntry) : Proc World (Result unit StoreError) :=
  run_tx (prepared_tx e).

Definition update_prepared_evm (e : EvmPreparedJournalEntry) (t : Z) : Stmt N := λ d,
  try nonce := numeric_in (evm_signer_account_nonce e) in
  update_settlement (evm_settlement_id e) is_reserved
    (λ r, to_prepared (near_submission r)
            (MkEvmSubmission (Some nonce) (Some (evm_submitted_tx_rlp e))
               (Some (evm_submitted_tx_hash e)) (Some (evm_required_confirmations e))) t r) d.

Definition prepared_evm_tx (e : EvmPreparedJournalEntry) : Tx (TxEnd (Result unit StoreError)) :=
  tx t := tx_now in
  tx n := tx_stmt (update_prepared_evm e t) in
  if negb (n =? 1) then refuse_transition (evm_settlement_id e) Prepared
  else
  tx _ := tx_stmt (insert_event (evm_settlement_id e) (Some Reserved) Prepared
                     (Some "evm_transaction_persisted")
                     (transaction_object (evm_submitted_tx_hash e))) in
  tx_ret (Commit (Ok tt)).

Definition mark_prepared_evm (e : EvmPreparedJournalEntry) : Proc World (Result unit StoreError) :=
  if (evm_required_confirmations e <? 1)%Z
  then ret (Err (InvalidInput "required confirmations must be at least 1"))
  else run_tx (prepared_evm_tx e).

Definition to_submitted (t : Z) (r : Row) : Row :=
  MkRow (claim r) Submitted (policy_snapshot r) (reservation_date r) (reserved_yocto_near r)
    (attempt_count r) (retry_code r) (near_submission r) (evm_submission r) (terminal r)
    (prepared_at r) (Some t) (last_reconciled_at r) (reconciliation_attempts r) t.

Definition submitted_tx (id : N) : Tx (TxEnd (Result unit StoreError)) :=
  tx t := tx_now in
  tx n := tx_stmt (update_settlement id (λ r, bool_decide (state r = Prepared))
                     (to_submitted t)) in
  if negb (n =? 1) then refuse_transition id Submitted
  else
  tx _ := tx_stmt (insert_event id (Some Prepared) Submitted (Some "broadcast_started")
                     empty_object) in
  tx_ret (Commit (Ok tt)).

Definition mark_submitted (id : N) : Proc World (Result unit StoreError) :=
  run_tx (submitted_tx id).

Definition transition_allowed (from to : SettlementState) : bool :=
  match from, to with
  | Reserved, Failed => true
  | (Prepared | Submitted), (Succeeded | Failed) => true
  | _, _ => false
  end.

Definition to_terminal (to : SettlementState) (columns : TerminalColumns) (t : Z) (r : Row) : Row :=
  MkRow (claim r) to (policy_snapshot r) (reservation_date r) (reserved_yocto_near r)
    (attempt_count r) (retry_code r) (near_submission r) (evm_submission r) columns
    (prepared_at r) (submitted_at r) (last_reconciled_at r) (reconciliation_attempts r) t.

Definition update_terminal (e : TerminalJournalEntry) (status : N) (t : Z) : Stmt N := λ d,
  try gas := numeric_in (default "0" (term_gas_burnt e)) in
  try tokens := numeric_in (default "0" (term_tokens_burnt e)) in
  try block := numeric_in_opt (term_mined_block_number e) in
  update_settlement (term_settlement_id e) (λ _, true)
    (to_terminal (term_state e)
       (MkTerminal (Some status) (Some (term_response_bytes e)) (term_error_code e)
          (term_error_detail e) (Some gas) (Some tokens) block (term_mined_block_hash e)
          (term_confirmations e) (Some t)) t) d.

(** The answer to a second terminalization: [Ok] only for the very same one. *)
Definition terminal_replay (e : TerminalJournalEntry) (existing : Row) : Result unit StoreError :=
  if bool_decide (terminal_http_status (terminal existing) = try_from i16_max (term_http_status e))
     && bool_decide (terminal_response_bytes (terminal existing) = Some (term_response_bytes e))
  then Ok tt
  else Err (Transition (state_as_str (state existing)) (state_as_str (term_state e))).

Definition terminal_tx (e : TerminalJournalEntry) : Tx (TxEnd (Result unit StoreError)) :=
  let id := term_settlement_id e in
  tx row := tx_stmt (select_row id) in
  match row with
  | None => tx_fail (Corrupt "terminal settlement not found")
  | Some r =>
      if is_terminal (state r) then
        tx existing := tx_stmt (select_row id) in
        match existing with
        | None => tx_fail lost_connection
        | Some existing => tx_ret (Rollback (terminal_replay e existing))
        end
      else if negb (transition_allowed (state r) (term_state e)) then
        tx_ret (Rollback (Err (Transition (state_as_str (state r)) (state_as_str (term_state e)))))
      else
      tx _ := release_budget (reservation_date r) (api_client_id (claim r))
                (numeric_out (reserved_yocto_near r)) (term_actual_yocto_near e) in
      match try_from i16_max (term_http_status e) with
      | None => tx_fail (Corrupt "terminal HTTP status does not fit SMALLINT")
      | Some status =>
          tx t := tx_now in
          tx _ := tx_stmt (update_terminal e status t) in
          tx _ := tx_stmt (insert_event id (Some (state r)) (term_state e) (term_error_code e)
                             empty_object) in
          tx_ret (Commit (Ok tt))
      end
  end.

Definition mark_terminal (e : TerminalJournalEntry) : Proc World (Result unit StoreError) :=
  if negb (is_terminal (term_state e))
  then ret (Err (Transition "unknown" (state_as_str (term_state e))))
  else run_tx (terminal_tx e).

Definition to_reconciled (t : Z) (r : Row) : Row :=
  MkRow (claim r) (state r) (policy_snapshot r) (reservation_date r) (reserved_yocto_near r)
    (attempt_count r) (retry_code r) (near_submission r) (evm_submission r) (terminal r)
    (prepared_at r) (submitted_at r) (Some t) (reconciliation_attempts r + 1) t.

Definition note_reconciliation (id : N) : Proc World (Result unit StoreError) :=
  let* t := now in
  let? _ := query (update_settlement id (λ _, true) (to_reconciled t)) in
  ret (Ok tt).

(** ** Relayers *)

Definition insert_relayer (network_ account key : string) : Stmt unit := λ d,
  match relayers d !! (network_, account, key) with
  | Some _ => Ok (tt, d)
  | None => Ok (tt, with_relayers (<[(network_, account, key) :=
                      MkRelayer RelayerActive None None]> (relayers d)) d)
  end.

Definition upsert_relayer (network_ account key : string) : Proc World (Result unit StoreError) :=
  query (insert_relayer network_ account key).

Definition set_quarantined (network_ account key reason nonce : string) : Stmt unit := λ d,
  try n := numeric_in nonce in
  if numeric_fits 20 n then
    Ok (tt, with_relayers (<[(network_, account, key) :=
              MkRelayer RelayerQuarantined (Some reason) (Some n)]> (relayers d)) d)
  else Err (Database None).

Definition quarantine_relayer (network_ account key reason nonce : string)
  : Proc World (Result unit StoreError) :=
  query (set_quarantined network_ account key reason nonce).

Definition relayer_active (network_ account key : string) (d : Database_) : bool :=
  is_some_and (relayers d !! (network_, account, key))
    (λ r, bool_decide (relayer_status r = RelayerActive)).

Definition relayer_is_active (network_ account key : string) : Proc World (Result bool StoreError) :=
  query (select (relayer_active network_ account key)).

End Store.
