(* ===== verification/Clients.v ===== *)
(** * API clients, keys and payee policy

    The client side of [PgStore] in [crates/x402-near-facilitator/src/store.rs]:
    creating and revoking clients, rotating their keys, payee and budget policy,
    the lookups the HTTP layer makes with them, and the operational summaries.
    [created_at], [updated_at] and [revoked_at] are written and never read, and are
    left out of the rows.  [lower] is modelled on ASCII: EVM identifiers are. *)

From stdpp Require Import base gmap strings list numbers sorting.
From Stdlib Require Import Lia NArith ZArith Ascii String.
From S2P Require Import Prelude Text Json Readiness Schema Sql Store.

Open Scope string_scope.
Open Scope list_scope.
Open Scope N_scope.

Module Clients.

Module Api.
Record ApiClient : Type := MkApiClient {
  id : N;
  name : string;
  environment : string;
  daily_budget_yocto_near : string;
  verify_rate_per_minute : N;
  settle_rate_per_minute : N
}.

Record ApiKeyCandidate : Type := MkCandidate {
  client : ApiClient;
  digest : string
}.
End Api.

Definition is_eip155_network (network : string) : bool := starts_with "eip155:" network.

(** ** Lookups *)

(** [u32::try_from] on an [i32] *)
Definition rate_from_column (rate : Z) (message : string) : Result N StoreError :=
  if (rate <? 0)%Z then Err (Corrupt message) else Ok (Z.to_N rate).

Definition api_key_from_row (row : N * ClientRow * string) : Result Api.ApiKeyCandidate StoreError :=
  let '(id, c, digest) := row in
  try verify := rate_from_column (verify_rate_per_minute c) "negative verify rate" in
  try settle := rate_from_column (settle_rate_per_minute c) "negative settle rate" in
  Ok (Api.MkCandidate
        (Api.MkApiClient id (client_name c) (client_environment c)
           (numeric_out (daily_budget_yocto_near c)) verify settle) digest).

Definition active_key (prefix : string) (k : KeyRow) : bool :=
  key_active k && String.eqb (key_prefix k) prefix.

(** The join of the active key rows under a prefix with their active clients. *)
Definition key_join (prefix : string) (d : Database_) : list (N * ClientRow * string) :=
  omap (λ ik : N * KeyRow,
          if active_key prefix ik.2 then
            c ← api_clients d !! key_client_id ik.2;
            if client_active c then Some (key_client_id ik.2, c, key_digest ik.2) else None
          else None)
    (map_to_list (api_keys d)).

Definition lookup_api_key (prefix : string)
  : Proc World (Result (option Api.ApiKeyCandidate) StoreError) :=
  let? row := query (select (λ d, head (key_join prefix d))) in
  ret (match row with
       | None => Ok None
       | Some row => try c := api_key_from_row row in Ok (Some c)
       end).

Definition touched (prefix : string) (t : Z) (k : KeyRow) : KeyRow :=
  if active_key prefix k
  then MkKey (key_client_id k) (key_prefix k) (key_digest k) (key_active k) (Some t)
  else k.

Definition touch_api_key (prefix : string) : Proc World (Result unit StoreError) :=
  let* t := now in
  query (λ d, Ok (tt, with_keys (touched prefix t <$> api_keys d) d)).

Definition payee_matches (client : N) (network asset pay_to : string)
  (p : N * string * string * string) : bool :=
  let '(c, n, a, t) := p in
  (c =? client) && String.eqb n network
  && if is_eip155_network network
     then eq_ignore_ascii_case a asset && eq_ignore_ascii_case t pay_to
     else String.eqb a asset && String.eqb t pay_to.

Definition payee_allowed (client : N) (network asset pay_to : string)
  : Proc World (Result bool StoreError) :=
  query (select (λ d, existsb (payee_matches client network asset pay_to)
                        (elements (api_client_payees d)))).

Definition policy_matches (client : N) (network asset : string)
  (p : N * string * string * string) : bool :=
  let '(c, n, a, _) := p in
  (c =? client) && String.eqb n network
  && if is_eip155_network network then eq_ignore_ascii_case a asset else String.eqb a asset.

Definition policies_complete (network asset : string) (d : Database_) : bool :=
  let active := filter (λ ic : N * ClientRow, client_active ic.2 = true)
                  (map_to_list (api_clients d)) in
  bool_decide (active ≠ [])
  && forallb (λ ic, existsb (policy_matches ic.1 network asset) (elements (api_client_payees d)))
       active.

Definition active_clients_have_payee_policy (network asset : string)
  : Proc World (Result bool StoreError) :=
  query (select (policies_complete network asset)).

(** ** Operational readiness *)

Definition AUTHORIZATION_SCRUB_COMPLETE : string :=
  "x402-maintenance:0003-authorization-scrub:complete".

Definition ping : Proc World (Result unit StoreError) := query (select (λ _, tt)).

(** The embedded migrations: their versions, with the checksums [sqlx] computes. *)
Definition embedded_migrator (checksum : N → string) : list (N * string) :=
  [(1, checksum 1); (2, checksum 2); (3, checksum 3)].

Fixpoint migrations_applied (l : list (N * string)) : Proc World (Result bool StoreError) :=
  match l with
  | [] => ret (Ok true)
  | (version, checksum) :: l =>
      let? applied := query (select (λ d, applied_migrations (schema_info d) !! version)) in
      if bool_decide (applied = Some checksum) then migrations_applied l else ret (Ok false)
  end.

Definition authorization_scrub_marker : Proc World (Result (option string) StoreError) :=
  query (select (λ d, settlements_comment (schema_info d))).

Definition schema_compatible (checksum : N → string) : Proc World (Result bool StoreError) :=
  let? applied := migrations_applied (embedded_migrator checksum) in
  if negb applied then ret (Ok false)
  else
  let? marker := authorization_scrub_marker in
  ret (Ok (bool_decide (marker = Some AUTHORIZATION_SCRUB_COMPLETE))).

Definition operationally_ready (checksum : N → string) (network asset : string)
  : Proc World (Result bool StoreError) :=
  let? _ := ping in
  let? compatible := schema_compatible checksum in
  if negb compatible then ret (Ok false) else active_clients_have_payee_policy network asset.

(** ** Summaries *)

Record JournalSummary : Type := MkSummary {
  reserved : N;
  prepared : N;
  submitted : N;
  oldest_created_at : option Z
}.

Definition count_state (s : SettlementState) (rows : list (N * Row)) : N :=
  N.of_nat (List.length (filter (λ ir : N * Row, state ir.2 = s) rows)).

(** [active_rows] is ordered by [created_at], so its head holds the minimum. *)
Definition journal_summary : Proc World (Result JournalSummary StoreError) :=
  query (select (λ d,
    let rows := Store.active_rows d in
    MkSummary (count_state Reserved rows) (count_state Prepared rows) (count_state Submitted rows)
      ((λ ir : N * Row, created_at (claim ir.2)) <$> head rows))).

Definition global_sponsorship_usage_today : Proc World (Result (string * string) StoreError) :=
  let* t := now in
  query (select (λ d,
    match global_sponsorship d !! date_of t with
    | Some l => (numeric_out (ledger_reserved l), numeric_out (ledger_spent l))
    | None => ("0", "0")
    end)).

(** ** Administration *)

(** The CHECK constraints and column types of [api_clients]. *)
Definition client_check (c : ClientRow) : bool :=
  (String.eqb (client_environment c) "mainnet" || String.eqb (client_environment c) "testnet")
  && numeric_fits 40 (daily_budget_yocto_near c)
  && (0 <? verify_rate_per_minute c)%Z && (0 <? settle_rate_per_minute c)%Z.

Definition insert_client (c : Api.ApiClient) (verify settle : N) : Stmt unit := λ d,
  try budget := numeric_in (Api.daily_budget_yocto_near c) in
  let row := MkClient (Api.name c) (Api.environment c) true budget (Z.of_N verify) (Z.of_N settle) in
  if negb (client_check row) then Err (Database (Some "api_clients_check"))
  else match api_clients d !! Api.id c with
       | Some _ => Err (Database (Some "api_clients_pkey"))
       | None => Ok (tt, with_clients (<[Api.id c := row]> (api_clients d)) d)
       end.

Definition prefix_taken (prefix : string) (m : gmap N KeyRow) : bool :=
  existsb (λ ik : N * KeyRow, String.eqb (key_prefix ik.2) prefix) (map_to_list m).

Definition insert_api_key (id client : N) (prefix digest : string) : Stmt unit := λ d,
  if negb (String.length digest =? 32)%nat then Err (Database (Some "api_keys_key_digest_check"))
  else if bool_decide (is_Some (api_keys d !! id)) then Err (Database (Some "api_keys_pkey"))
  else if prefix_taken prefix (api_keys d) then Err (Database (Some "api_keys_key_prefix_key"))
  else if bool_decide (api_clients d !! client = None)
  then Err (Database (Some "api_keys_client_id_fkey"))
  else Ok (tt, with_keys (<[id := MkKey client prefix digest true None]> (api_keys d)) d).

Definition create_client_tx (c : Api.ApiClient) (key_id : N) (prefix digest : string)
  : Tx (TxEnd (Result unit StoreError)) :=
  match try_from i32_max (Api.verify_rate_per_minute c) with
  | None => tx_fail (Configuration "verify rate is too large")
  | Some verify =>
  match try_from i32_max (Api.settle_rate_per_minute c) with
  | None => tx_fail (Configuration "settle rate is too large")
  | Some settle =>
      tx _ := tx_stmt (insert_client c verify settle) in
      tx _ := tx_stmt (insert_api_key key_id (Api.id c) prefix digest) in
      tx_ret (Commit (Ok tt))
  end
  end.

Definition create_client (c : Api.ApiClient) (key_id : N) (prefix digest : string)
  : Proc World (Result unit StoreError) := run_tx (create_client_tx c key_id prefix digest).

Definition active_client (id : N) (d : Database_) : bool :=
  is_some_and (api_clients d !! id) client_active.

Definition client_environment_of (id : N) : Proc World (Result string StoreError) :=
  let? environment := query (select (λ d,
    c ← api_clients d !! id; if client_active c then Some (client_environment c) else None)) in
  ret (ok_or environment (Corrupt "active client not found")).

Definition revoked_key (client : N) (k : KeyRow) : KeyRow :=
  if (key_client_id k =? client) && key_active k
  then MkKey (key_client_id k) (key_prefix k) (key_digest k) false (key_last_used_at k)
  else k.

Definition revoke_keys (client : N) : Stmt unit := λ d,
  Ok (tt, with_keys (revoked_key client <$> api_keys d) d).

Definition rotate_tx (client key_id : N) (prefix digest : string)
  : Tx (TxEnd (Result unit StoreError)) :=
  tx _ := tx_stmt (revoke_keys client) in
  tx _ := tx_stmt (insert_api_key key_id client prefix digest) in
  tx_ret (Commit (Ok tt)).

(** The EXISTS of [rotate_client_key] locks nothing: other tasks may commit between it
    and the two writes, so it is a step of its own. *)
Definition rotate_client_key (client key_id : N) (prefix digest : string)
  : Proc World (Result unit StoreError) :=
  let? active := query (select (active_client client)) in
  if negb active then ret (Err (Corrupt "active client not found"))
  else run_tx (rotate_tx client key_id prefix digest).

(** [UPDATE api_clients SET .. WHERE id = $1 AND status = 'active'] *)
Definition update_client (id : N) (f : ClientRow → ClientRow) : Stmt N := λ d,
  match api_clients d !! id with
  | Some c => if client_active c
              then if client_check (f c)
                   then Ok (1, with_clients (<[id := f c]> (api_clients d)) d)
                   else Err (Database (Some "api_clients_check"))
              else Ok (0, d)
  | None => Ok (0, d)
  end.

Definition to_revoked (c : ClientRow) : ClientRow :=
  MkClient (client_name c) (client_environment c) false (daily_budget_yocto_near c)
    (verify_rate_per_minute c) (settle_rate_per_minute c).

Definition revoke_client_tx (id : N) : Tx (TxEnd (Result bool StoreError)) :=
  tx changed := tx_stmt (update_client id to_revoked) in
  tx _ := tx_stmt (revoke_keys id) in
  tx_ret (Commit (Ok (changed =? 1))).

Definition revoke_client (id : N) : Proc World (Result bool StoreError) :=
  run_tx (revoke_client_tx id).

Definition insert_payee (client : N) (network asset pay_to : string) : Stmt unit := λ d,
  if bool_decide (api_clients d !! client = None)
  then Err (Database (Some "api_client_payees_client_id_fkey"))
  else Ok (tt, with_payees ({[ (client, network, asset, pay_to) ]} ∪ api_client_payees d) d).

Definition allow_payee (client : N) (network asset pay_to : string)
  : Proc World (Result unit StoreError) :=
  let '(asset, pay_to) :=
    if is_eip155_network network then (to_ascii_lowercase asset, to_ascii_lowercase pay_to)
    else (asset, pay_to) in
  query (insert_payee client network asset pay_to).

Definition to_budget (budget : N) (c : ClientRow) : ClientRow :=
  MkClient (client_name c) (client_environment c) (client_active c) budget
    (verify_rate_per_minute c) (settle_rate_per_minute c).

Definition set_client_budget (id : N) (daily : string) : Proc World (Result bool StoreError) :=
  let? changed := query (λ d, try budget := numeric_in daily in
                              update_client id (to_budget budget) d) in
  ret (Ok (changed =? 1)).

End Clients.
