(* ===== verification/Journal.v ===== *)
(** * The journal's invariant

    What the settlement store keeps true of the database, and the preorder along
    which it moves it: rows are never removed, their claim columns never change,
    their state follows the lifecycle, a signed submission is never replaced, a
    terminal answer never changes, the sponsorship ledgers hold exactly what the
    active rows reserve, and the event log replays to the states of the rows. *)

From stdpp Require Import base gmap strings list numbers relations.
From Stdlib Require Import Lia NArith ZArith Ascii String.
From S2P Require Import Prelude Text Json Readiness Schema Sql Store.

Open Scope string_scope.
Open Scope N_scope.

Module Journal.

(** ** The lifecycle *)

Definition lifecycle_edge (from : option SettlementState) (to : SettlementState) : bool :=
  match from, to with
  | None, Reserved => true
  | Some Reserved, (AwaitingRetry | Prepared | Failed) => true
  | Some AwaitingRetry, Reserved => true
  | Some Prepared, (Submitted | Succeeded | Failed) => true
  | Some Submitted, (Succeeded | Failed) => true
  | _, _ => false
  end.

Definition state_step (s s' : SettlementState) : Prop := lifecycle_edge (Some s) s' = true.
Abbreviation state_le := (rtc state_step).

(** ** Submissions *)

(** The signed transaction a row carries. *)
Definition signed_bytes (r : Row) : option string :=
  match chain_kind (claim r) with
  | Near => outer_transaction_bytes (near_submission r)
  | Eip155 => submitted_tx_rlp (evm_submission r)
  end.

Definition signed_hash (r : Row) : option string :=
  match chain_kind (claim r) with
  | Near => outer_transaction_hash (near_submission r)
  | Eip155 => submitted_tx_hash (evm_submission r)
  end.

(** A row that no signed transaction exists for. *)
Definition is_dormant (s : SettlementState) : bool :=
  match s with Reserved | AwaitingRetry => true | _ => false end.

(** The confirmation depth never decreases. *)
Definition depth_le (a b : option Z) : Prop :=
  match a, b with
  | None, _ => True
  | Some x, Some y => (x <= y)%Z
  | Some _, None => False
  end.

Record row_le (r r' : Row) : Prop := MkRowLe {
  le_claim : claim r' = claim r;
  le_state : state_le (state r) (state r');
  le_bytes : ∀ b, signed_bytes r = Some b → signed_bytes r' = Some b;
  le_hash : ∀ h, signed_hash r = Some h → signed_hash r' = Some h;
  le_depth : depth_le (required_confirmations (evm_submission r))
                      (required_confirmations (evm_submission r'));
  le_terminal : is_terminal (state r) = true → state r' = state r ∧ terminal r' = terminal r;
  le_closed : is_terminal (state r) = true → signed_bytes r' = signed_bytes r
}.

Definition journal_le (d d' : Database_) : Prop :=
  (∀ id r, settlements d !! id = Some r → ∃ r', settlements d' !! id = Some r' ∧ row_le r r') ∧
  settlement_events d `prefix_of` settlement_events d'.

(** ** The invariant *)

(** The authorization metadata decodes. *)
Definition metadata_readable (c : ClaimColumns) : bool :=
  is_none_or (authorization_metadata c) (λ v, is_ok (Store.metadata_from_value v)).

(** The submission columns of the other chain are empty. *)
Definition own_chain (k : ChainKind) (ns : NearSubmission) (es : EvmSubmission) : Prop :=
  match k with Near => es = no_evm_submission | Eip155 => ns = no_near_submission end.

(** A row is consistent with its state beyond what the CHECK constraints ask. *)
Definition row_ok (r : Row) : Prop :=
  check_row r = true ∧
  (is_dormant (state r) = true →
     near_submission r = no_near_submission ∧ evm_submission r = no_evm_submission) ∧
  (is_terminal (state r) = false → terminal r = no_terminal) ∧
  metadata_readable (claim r) = true ∧
  own_chain (chain_kind (claim r)) (near_submission r) (evm_submission r).

(** No two rows share a key of an index. *)
Definition index_unique {K} (key : Row → option K) (m : gmap N Row) : Prop :=
  ∀ i j ri rj k, m !! i = Some ri → m !! j = Some rj →
    key ri = Some k → key rj = Some k → i = j.

Record unique_inv (m : gmap N Row) : Prop := MkUnique {
  uniq_hash : index_unique key_payment_hash m;
  uniq_identifier : index_unique key_identifier m;
  uniq_relayer_nonce : index_unique key_relayer_nonce m;
  uniq_anchor : index_unique key_anchor m;
  uniq_active_signer : index_unique key_active_signer m;
  uniq_signer_nonce : index_unique key_signer_nonce m
}.

(** What the rows of [m] add up to under [f]. *)
Definition total (f : Row → N) (m : gmap N Row) : N := map_fold (λ _ r acc, f r + acc) 0 m.

(** What a row holds of a day's global budget, and of a client's. *)
Definition held_global (date : Z) (r : Row) : N :=
  if is_active (state r) && (reservation_date r =? date)%Z then reserved_yocto_near r else 0.

Definition held_client (key : Z * N) (r : Row) : N :=
  if is_active (state r) && (reservation_date r =? key.1)%Z
     && (api_client_id (claim r) =? key.2)
  then reserved_yocto_near r else 0.

Definition reserved_at (l : option Ledger) : N := from_option ledger_reserved 0 l.

Record ledger_inv (d : Database_) : Prop := MkLedgerInv {
  global_balanced : ∀ date,
    reserved_at (global_sponsorship d !! date) = total (held_global date) (settlements d);
  client_balanced : ∀ key,
    reserved_at (client_sponsorship d !! key) = total (held_client key) (settlements d);
  ledgers_present : ∀ id r, settlements d !! id = Some r → is_active (state r) = true →
    is_Some (global_sponsorship d !! reservation_date r) ∧
    is_Some (client_sponsorship d !! (reservation_date r, api_client_id (claim r)));
  ledgers_checked :
    map_Forall (λ _ l, ledger_check l = true) (global_sponsorship d) ∧
    map_Forall (λ _ l, ledger_check l = true) (client_sponsorship d)
}.

(** The event log, replayed: each event continues its settlement's state along an
    edge of the lifecycle. *)
Definition replay_event (m : option (gmap N SettlementState)) (e : Event)
  : option (gmap N SettlementState) :=
  m ← m;
  if bool_decide (m !! event_settlement e = event_from e) && lifecycle_edge (event_from e) (event_to e)
  then Some (<[event_settlement e := event_to e]> m)
  else None.

Definition replay (l : list Event) : option (gmap N SettlementState) :=
  foldl replay_event (Some ∅) l.

Record db_inv (d : Database_) : Prop := MkInv {
  inv_rows : ∀ id r, settlements d !! id = Some r → row_ok r;
  inv_unique : unique_inv (settlements d);
  inv_ledgers : ledger_inv d;
  inv_events : replay (settlement_events d) = Some (state <$> settlements d)
}.

(** One step of the store: it keeps the invariant and moves up the preorder. *)
Definition db_step (d d' : Database_) : Prop := db_inv d → db_inv d' ∧ journal_le d d'.

(** ** The preorders *)

#[export] Instance depth_le_preorder : PreOrder depth_le.
Proof.
  split; [by intros [x|]; cbn |].
  intros [x|] [y|] [z|]; cbn; try tauto; lia.
Qed.

Lemma row_le_refl r : row_le r r.
Proof. split; eauto using rtc_refl. reflexivity. Qed.

#[export] Instance row_le_preorder : PreOrder row_le.
Proof.
  split; [exact row_le_refl |]. intros a b c [] []. split; eauto.
  - congruence.
  - etrans; eauto.
  - etrans; eauto.
  - intros Ht. destruct (le_terminal0 Ht) as [Hs Hc]. rewrite <- Hs in Ht.
    destruct (le_terminal1 Ht) as [Hs' Hc']. split; congruence.
  - intros Ht. rewrite <- (le_closed0 Ht). apply le_closed1. by destruct (le_terminal0 Ht) as [-> _].
Qed.

#[export] Instance journal_le_preorder : PreOrder journal_le.
Proof.
  split.
  - intros d. split; [| done]. intros id r H. exists r. split; [done | reflexivity].
  - intros a b c [H1 P1] [H2 P2]. split; [| by etrans].
    intros id r H. destruct (H1 id r H) as (r1 & Hr1 & L1).
    destruct (H2 id r1 Hr1) as (r2 & Hr2 & L2). exists r2. split; [done | by etrans].
Qed.

#[export] Instance db_step_preorder : PreOrder db_step.
Proof.
  split.
  - intros d Hd. split; [done | reflexivity].
  - intros a b c H1 H2 Ha. destruct (H1 Ha) as [Hb L1]. destruct (H2 Hb) as [Hc L2].
    split; [done | by etrans].
Qed.

(** ** Sums over the journal *)

Lemma total_insert_new f m i r :
  m !! i = None → total f (<[i := r]> m) = f r + total f m.
Proof.
  intros H. unfold total. rewrite map_fold_insert_L; [done | | done].
  intros. lia.
Qed.

Lemma total_insert f m i r :
  total f (<[i := r]> m) + from_option f 0 (m !! i) = total f m + f r.
Proof.
  destruct (m !! i) as [old|] eqn:E; cbn.
  - rewrite <- (insert_delete_eq m), total_insert_new by apply lookup_delete_eq.
    rewrite <- (insert_delete_id m i old E) at 2.
    rewrite total_insert_new by apply lookup_delete_eq. lia.
  - rewrite total_insert_new by done. lia.
Qed.

Lemma total_lookup f m i r : m !! i = Some r → f r <= total f m.
Proof.
  intros E. rewrite <- (insert_delete_id m i r E), total_insert_new by apply lookup_delete_eq. lia.
Qed.

(** ** Writing one row *)

Lemma index_unique_insert `{EqDecision K} (key : Row → option K) m id r :
  index_unique key m → key_taken key id (key r) m = false → index_unique key (<[id := r]> m).
Proof.
  intros Hu Ht i j ri rj k Hi Hj Ki Kj.
  assert (∀ j rj, j ≠ id → m !! j = Some rj → key r = Some k → key rj = Some k → False) as Hfresh.
  { intros x rx Hne Hx Kr Kx. rewrite Kr in Ht. by apply (key_taken_false _ _ _ _ Ht x rx Hx Hne). }
  apply lookup_insert_Some in Hi as [[Ei Er]|[Ni Hi]]; apply lookup_insert_Some in Hj as [[Ej Er']|[Nj Hj]];
    subst; eauto; exfalso; eauto.
Qed.

Lemma unique_inv_insert m id r :
  unique_inv m → unique_conflict m id r = None → unique_inv (<[id := r]> m).
Proof.
  intros [] Hc. unfold unique_conflict in Hc. repeat case_match; try discriminate.
  split; by apply index_unique_insert.
Qed.

Lemma rows_ok_insert (m : gmap N Row) id r :
  (∀ i x, m !! i = Some x → row_ok x) → row_ok r →
  ∀ i x, <[id := r]> m !! i = Some x → row_ok x.
Proof. intros Hm Hr i x [[_ <-]|[_ H]]%lookup_insert_Some; eauto. Qed.

(** The ledgers stay balanced when they move by what the written row's hold
    moves by. *)
Lemma ledger_inv_write d d' id r :
  ledger_inv d →
  settlements d' = <[id := r]> (settlements d) →
  (∀ date, reserved_at (global_sponsorship d' !! date)
           + from_option (held_global date) 0 (settlements d !! id)
         = reserved_at (global_sponsorship d !! date) + held_global date r) →
  (∀ key, reserved_at (client_sponsorship d' !! key)
          + from_option (held_client key) 0 (settlements d !! id)
        = reserved_at (client_sponsorship d !! key) + held_client key r) →
  (∀ date, is_Some (global_sponsorship d !! date) → is_Some (global_sponsorship d' !! date)) →
  (∀ key, is_Some (client_sponsorship d !! key) → is_Some (client_sponsorship d' !! key)) →
  (is_active (state r) = true →
     is_Some (global_sponsorship d' !! reservation_date r) ∧
     is_Some (client_sponsorship d' !! (reservation_date r, api_client_id (claim r)))) →
  (map_Forall (λ _ l, ledger_check l = true) (global_sponsorship d) →
     map_Forall (λ _ l, ledger_check l = true) (global_sponsorship d')) →
  (map_Forall (λ _ l, ledger_check l = true) (client_sponsorship d) →
     map_Forall (λ _ l, ledger_check l = true) (client_sponsorship d')) →
  ledger_inv d'.
Proof.
  intros [Hg Hc Hp [Kg Kc]] Hset HG HC PG PC Hact KG KC. split; [| | | auto].
  - intros date. specialize (HG date). rewrite Hg in HG. rewrite Hset.
    pose proof (total_insert (held_global date) (settlements d) id r). lia.
  - intros key. specialize (HC key). rewrite Hc in HC. rewrite Hset.
    pose proof (total_insert (held_client key) (settlements d) id r). lia.
  - intros i x. rewrite Hset. intros [[_ <-]|[_ H]]%lookup_insert_Some Ha; [auto |].
    destruct (Hp i x H Ha). eauto.
Qed.

Lemma replay_app l e : replay (l ++ [e]) = replay_event (replay l) e.
Proof. unfold replay. by rewrite foldl_app. Qed.

Lemma replay_extend d e :
  replay (settlement_events d) = Some (state <$> settlements d) →
  state <$> settlements d !! event_settlement e = event_from e →
  lifecycle_edge (event_from e) (event_to e) = true →
  replay (settlement_events d ++ [e]) =
    Some (<[event_settlement e := event_to e]> (state <$> settlements d)).
Proof.
  intros Hr Hf He. rewrite replay_app, Hr. cbn. rewrite lookup_fmap, Hf, He.
  by rewrite bool_decide_eq_true_2.
Qed.

Lemma journal_le_write d d' id r :
  settlements d' = <[id := r]> (settlements d) →
  settlement_events d `prefix_of` settlement_events d' →
  (∀ old, settlements d !! id = Some old → row_le old r) →
  journal_le d d'.
Proof.
  intros Hset Hev Hle. split; [| done]. intros i x Hx. rewrite Hset.
  destruct (decide (i = id)) as [->|Hne].
  - exists r. rewrite lookup_insert_eq. eauto.
  - exists x. rewrite lookup_insert_ne by done. split; [done | reflexivity].
Qed.

(** ** Lifting to the world *)

(** A world in which every transaction handed to the chain is the one its
    journal row carries, from [submitted] on. *)
Definition past_submission (s : SettlementState) : bool :=
  match s with Submitted | Succeeded | Failed => true | _ => false end.

Definition journaled (d : Database_) (s : Sent) : Prop :=
  ∃ r, settlements d !! sent_settlement s = Some r ∧
       signed_bytes r = Some (sent_bytes s) ∧ past_submission (state r) = true.

Definition wire_inv (w : World) : Prop := ∀ s, s ∈ wire w → journaled (db w) s.

(** Every worker started so far has a row to work on. *)
Definition tasks_inv (w : World) : Prop :=
  ∀ id request, SpawnWorker id request ∈ spawned (process w) → is_Some (settlements (db w) !! id).

Definition world_inv (w : World) : Prop := db_inv (db w) ∧ wire_inv w ∧ tasks_inv w.

Definition world_le (w w' : World) : Prop :=
  journal_le (db w) (db w') ∧ wire w `prefix_of` wire w'.

Definition world_step (w w' : World) : Prop := world_inv w → world_inv w' ∧ world_le w w'.

#[export] Instance world_step_preorder : PreOrder world_step.
Proof.
  split.
  - intros w Hw. split; [done |]. split; reflexivity.
  - intros a b c H1 H2 Ha. destruct (H1 Ha) as [Hb [L1 P1]].
    destruct (H2 Hb) as [Hc [L2 P2]]. split; [done |]. split; by etrans.
Qed.

Lemma state_le_past s s' : state_le s s' → past_submission s = true → past_submission s' = true.
Proof.
  intros H. apply (rtc_invariant state_step (λ s, past_submission s = true)); [| done].
  intros a b. unfold state_step. by destruct a, b.
Qed.

Lemma journaled_le d d' s : journal_le d d' → journaled d s → journaled d' s.
Proof.
  intros [Hle _] (r & Hr & Hb & Hp). destruct (Hle _ _ Hr) as (r' & Hr' & L).
  exists r'. split_and!; [done | by apply L | by eapply state_le_past; [apply L |]].
Qed.

Lemma row_kept d d' id : journal_le d d' → is_Some (settlements d !! id) → is_Some (settlements d' !! id).
Proof. intros [Hle _] [r Hr]. destruct (Hle _ _ Hr) as (r' & -> & _). eauto. Qed.

Lemma world_step_db d' w : db_step (db w) d' → world_step w (with_db d' w).
Proof.
  intros Hd (Hi & Hw & Ht). destruct (Hd Hi) as [Hi' Hle]. split; [split_and!; [done | |] | by split].
  - intros s Hs. eapply journaled_le; [done |]. by apply Hw.
  - intros id request Hs. eapply row_kept; [done |]. by eapply Ht.
Qed.

Lemma world_step_gates g w : world_step w (with_gates g w).
Proof. intros (Hi & Hw & Ht). split; [by split_and! |]. split; reflexivity. Qed.

(** A change of the process that starts no worker, or one for a row that exists. *)
Lemma world_step_process p w :
  (∀ id request, SpawnWorker id request ∈ spawned p →
     SpawnWorker id request ∈ spawned (process w) ∨ is_Some (settlements (db w) !! id)) →
  world_step w (with_process p w).
Proof.
  intros Hp (Hi & Hw & Ht). split; [split_and!; [done | done |] | split; reflexivity].
  intros id request Hin. destruct (Hp id request Hin) as [H|H]; [by eapply Ht | done].
Qed.

End Journal.
