(* ===== verification/StoreProofs.v ===== *)
(** * The store keeps the journal's invariant

    Every operation of [Store], run in any environment that keeps the invariant,
    through lost connections, lost acknowledgements and crashes, moves the
    database along [Journal.db_step]. *)

From stdpp Require Import base gmap strings list numbers relations.
From Stdlib Require Import Lia NArith ZArith Ascii String.
From S2P Require Import Prelude Text Json Readiness Schema Sql Store Journal.

Open Scope string_scope.
Open Scope N_scope.

Module StoreProofs.
Import Store Journal.

(** ** Statements *)

Lemma update_settlement_inv id guard f d n d' :
  update_settlement id guard f d = Ok (n, d') →
  (n = 0 ∧ d' = d ∧ ∀ r, settlements d !! id = Some r → guard r = false) ∨
  (n = 1 ∧ ∃ r, settlements d !! id = Some r ∧ guard r = true ∧ check_row (f r) = true ∧
     unique_conflict (settlements d) id (f r) = None ∧
     d' = with_settlements (<[id := f r]> (settlements d)) d).
Proof.
  unfold update_settlement. destruct (settlements d !! id) as [r|]; [| by intros [= <- <-]; left].
  destruct (guard r) eqn:Hg; [| intros [= <- <-]; left; split_and!; congruence].
  destruct (check_row (f r)) eqn:Hc; [| discriminate].
  destruct (unique_conflict _ _ _) eqn:Hu; [discriminate |]. intros [= <- <-].
  right. split; [done |]. by exists r.
Qed.

Lemma insert_settlement_inv id r d n d' :
  insert_settlement id r d = Ok (n, d') →
  (n = 0 ∧ d' = d) ∨
  (n = 1 ∧ settlements d !! id = None ∧ check_row r = true ∧
     unique_conflict (settlements d) id r = None ∧
     is_Some (api_clients d !! api_client_id (claim r)) ∧
     d' = with_settlements (<[id := r]> (settlements d)) d).
Proof.
  unfold insert_settlement. intros H.
  destruct (check_row r); [| discriminate].
  destruct (_ || _) eqn:E; [simplify_eq; auto |].
  apply orb_false_iff in E as [E1 E2]. apply bool_decide_eq_false in E1, E2.
  apply eq_None_not_Some in E1, E2.
  case_bool_decide; simplify_eq. right. split_and!; auto.
Qed.

Lemma reserve_ledger_inv current r lim l :
  reserve_ledger current r lim = Ok (Some l) →
  ledger_reserved l = reserved_at current + r ∧
  ledger_reserved l + ledger_spent l <= lim ∧
  ledger_check l = true.
Proof.
  unfold reserve_ledger. intros H.
  destruct (N.leb_spec r lim) as [Hr|]; [| discriminate].
  destruct current as [l0|]; repeat case_match; simplify_eq; cbn in *.
  - match goal with H : (_ <=? _) = true |- _ => apply N.leb_le in H end. split_and!; [lia | lia | done].
  - split_and!; [lia | lia | done].
Qed.

Lemma reserve_global_inv date reservation limit d d' :
  reserve_global_budget date reservation limit d = Ok (true, d') →
  ∃ l, d' = with_global (<[date := l]> (global_sponsorship d)) d ∧
    ledger_reserved l = reserved_at (global_sponsorship d !! date) + dec_value reservation ∧
    ledger_reserved l + ledger_spent l <= dec_value limit ∧ ledger_check l = true.
Proof.
  unfold reserve_global_budget, numeric_in. intros H. result_inv.
  repeat case_match; simplify_eq.
  match goal with H : reserve_ledger _ _ _ = _ |- _ => apply reserve_ledger_inv in H end.
  eexists. split_and!; [done | tauto | tauto | tauto].
Qed.

Lemma reserve_client_inv date client reservation limit d d' :
  reserve_client_budget date client reservation limit d = Ok (true, d') →
  ∃ l, d' = with_client (<[(date, client) := l]> (client_sponsorship d)) d ∧
    ledger_reserved l = reserved_at (client_sponsorship d !! (date, client)) + dec_value reservation ∧
    ledger_reserved l + ledger_spent l <= dec_value limit ∧ ledger_check l = true.
Proof.
  unfold reserve_client_budget, numeric_in. intros H. result_inv.
  repeat case_match; simplify_eq.
  match goal with H : reserve_ledger _ _ _ = _ |- _ => apply reserve_ledger_inv in H end.
  eexists. split_and!; [done | tauto | tauto | tauto].
Qed.

Lemma release_ledger_inv current r a l :
  release_ledger current r a = Ok (Some l) →
  is_Some current ∧ ledger_reserved l + r = reserved_at current ∧ ledger_check l = true.
Proof.
  unfold release_ledger. intros H. destruct current as [l0|]; [| discriminate].
  destruct (N.leb_spec r (ledger_reserved l0)) as [Hr|]; [| discriminate].
  case_match; simplify_eq. cbn. split_and!; [eauto | lia | done].
Qed.

Lemma numeric_in_inv s n : numeric_in s = Ok n → n = dec_value s.
Proof. unfold numeric_in. case_match; congruence. Qed.

Lemma release_budget_inv date client reservation actual env n d u d' n' :
  release_budget date client reservation actual env n d = (Done (Ok (u, d')), n') →
  ∃ g c,
    d' = with_client (<[(date, client) := c]> (client_sponsorship d))
           (with_global (<[date := g]> (global_sponsorship d)) d) ∧
    ledger_reserved g + dec_value reservation = reserved_at (global_sponsorship d !! date) ∧
    ledger_reserved c + dec_value reservation
      = reserved_at (client_sponsorship d !! (date, client)) ∧
    ledger_check g = true ∧ ledger_check c = true.
Proof.
  unfold release_budget. intros H. tx_inv.
  repeat match goal with
  | H : negb (_ =? 1) || negb (_ =? 1) = false |- _ =>
      apply orb_false_iff in H as [?%negb_false_iff%N.eqb_eq ?%negb_false_iff%N.eqb_eq]; subst
  end.
  unfold release_global, release_client in *. result_inv.
  repeat match goal with H : numeric_in _ = Ok _ |- _ => apply numeric_in_inv in H; subst end.
  repeat case_match; simplify_eq.
  repeat match goal with
  | H : release_ledger _ _ _ = _ |- _ => apply release_ledger_inv in H as (? & ? & ?) end.
  cbn in *. eexists _, _. split_and!; eauto.
Qed.

(** ** Writing a row together with its ledgers and its event *)

Lemma reserved_at_insert `{Countable K} (m : gmap K Ledger) k l x :
  reserved_at (<[k := l]> m !! x) = if decide (k = x) then ledger_reserved l else reserved_at (m !! x).
Proof.
  destruct (decide (k = x)) as [->|]; [by rewrite lookup_insert_eq | by rewrite lookup_insert_ne].
Qed.

Lemma is_Some_insert `{Countable K} {A} (m : gmap K A) k l x :
  is_Some (m !! x) → is_Some (<[k := l]> m !! x).
Proof. destruct (decide (k = x)) as [->|]; [by rewrite lookup_insert_eq | by rewrite lookup_insert_ne]. Qed.

(** The log grows by the event of the written row's transition, or, when the
    state stays, not at all. *)
Definition logs_write (d d' : Database_) (id : N) (r : Row) : Prop :=
  (∃ code meta, settlement_events d' = (settlement_events d ++
      [MkEvent id (state <$> settlements d !! id) (state r) code meta])%list ∧
    lifecycle_edge (state <$> settlements d !! id) (state r) = true) ∨
  (settlement_events d' = settlement_events d ∧ state <$> settlements d !! id = Some (state r)).

Lemma inv_events_write d d' id r :
  replay (settlement_events d) = Some (state <$> settlements d) →
  settlements d' = <[id := r]> (settlements d) →
  logs_write d d' id r →
  replay (settlement_events d') = Some (state <$> settlements d').
Proof.
  intros He Hset [(code & meta & -> & Hedge)|[-> Hs]]; rewrite Hset, fmap_insert.
  - by rewrite replay_extend.
  - rewrite He. f_equal. symmetry. apply insert_id. by rewrite lookup_fmap.
Qed.

Lemma logs_write_prefix d d' id r :
  logs_write d d' id r → settlement_events d `prefix_of` settlement_events d'.
Proof. intros [(? & ? & -> & _)|[-> _]]; [by apply prefix_app_r | done]. Qed.

Lemma db_step_write d d' id r :
  settlements d' = <[id := r]> (settlements d) →
  (db_inv d → row_ok r) →
  unique_conflict (settlements d) id r = None →
  (db_inv d → ∀ old, settlements d !! id = Some old → row_le old r) →
  logs_write d d' id r →
  (db_inv d → ledger_inv d') →
  db_step d d'.
Proof.
  intros Hset Hok Hu Hle Hlog Hled Hd. split; [split |].
  - rewrite Hset. apply rows_ok_insert; [apply Hd | auto].
  - rewrite Hset. by apply unique_inv_insert; [apply Hd |].
  - auto.
  - eapply inv_events_write; eauto. apply Hd.
  - eapply journal_le_write; eauto using logs_write_prefix.
Qed.

(** Rows that hold the same reservation leave the ledgers alone. *)
Definition same_hold (r r' : Row) : Prop :=
  is_active (state r') = is_active (state r) ∧ reservation_date r' = reservation_date r ∧
  reserved_yocto_near r' = reserved_yocto_near r ∧ claim r' = claim r.

Lemma ledger_inv_same d d' id old r :
  settlements d !! id = Some old → same_hold old r →
  settlements d' = <[id := r]> (settlements d) →
  global_sponsorship d' = global_sponsorship d →
  client_sponsorship d' = client_sponsorship d →
  ledger_inv d → ledger_inv d'.
Proof.
  intros Hl (Ha & Hdate & Hres & Hc) Hset Hg Hcl Hd.
  eapply (ledger_inv_write d d' id r); [done | done | | | | | | |]; rewrite ?Hg, ?Hcl, ?Hl; cbn.
  - intros date. unfold held_global. by rewrite Ha, Hdate, Hres.
  - intros key. unfold held_client. by rewrite Ha, Hdate, Hres, Hc.
  - done.
  - done.
  - intros Hact. rewrite Hdate, Hc. apply (ledgers_present d Hd id old Hl). congruence.
  - done.
  - done.
Qed.

(** A row that starts to hold: both ledgers grow by its reservation. *)
Lemma ledger_inv_reserve d d' id r g c :
  (∀ old, settlements d !! id = Some old → is_active (state old) = false) →
  is_active (state r) = true →
  settlements d' = <[id := r]> (settlements d) →
  global_sponsorship d' = <[reservation_date r := g]> (global_sponsorship d) →
  client_sponsorship d' =
    <[(reservation_date r, api_client_id (claim r)) := c]> (client_sponsorship d) →
  ledger_reserved g = reserved_at (global_sponsorship d !! reservation_date r)
                      + reserved_yocto_near r →
  ledger_reserved c = reserved_at (client_sponsorship d !! (reservation_date r, api_client_id (claim r)))
                      + reserved_yocto_near r →
  ledger_check g = true → ledger_check c = true →
  ledger_inv d → ledger_inv d'.
Proof.
  intros Hold Ha Hset Hg Hc Eg Ec Kg Kc Hd.
  eapply (ledger_inv_write d d' id r); [done | done | | | | | | |]; rewrite ?Hg, ?Hc.
  - intros date. rewrite reserved_at_insert. unfold held_global. rewrite Ha.
    destruct (settlements d !! id) as [old|] eqn:E; cbn; rewrite ?(Hold _ eq_refl); cbn;
      destruct (Z.eqb_spec (reservation_date r) date), (decide (_ = _)); subst; try done; lia.
  - intros [date cl]. rewrite reserved_at_insert. unfold held_client. rewrite Ha. cbn [fst snd].
    destruct (settlements d !! id) as [old|] eqn:E; cbn; rewrite ?(Hold _ eq_refl); cbn;
      destruct (Z.eqb_spec (reservation_date r) date), (N.eqb_spec (api_client_id (claim r)) cl),
        (decide (_ = _)); cbn; simplify_eq; try done; lia.
  - intros; by apply is_Some_insert.
  - intros; by apply is_Some_insert.
  - intros _. rewrite !lookup_insert_eq. eauto.
  - intros. by apply map_Forall_insert_2.
  - intros. by apply map_Forall_insert_2.
Qed.

(** A row that stops holding: both ledgers shrink by its reservation. *)
Lemma ledger_inv_release d d' id old r g c :
  settlements d !! id = Some old → is_active (state old) = true →
  is_active (state r) = false →
  settlements d' = <[id := r]> (settlements d) →
  global_sponsorship d' = <[reservation_date old := g]> (global_sponsorship d) →
  client_sponsorship d' =
    <[(reservation_date old, api_client_id (claim old)) := c]> (client_sponsorship d) →
  ledger_reserved g + reserved_yocto_near old
    = reserved_at (global_sponsorship d !! reservation_date old) →
  ledger_reserved c + reserved_yocto_near old
    = reserved_at (client_sponsorship d !! (reservation_date old, api_client_id (claim old))) →
  ledger_check g = true → ledger_check c = true →
  ledger_inv d → ledger_inv d'.
Proof.
  intros Hl Ho Ha Hset Hg Hc Eg Ec Kg Kc Hd.
  eapply (ledger_inv_write d d' id r); [done | done | | | | | | |]; rewrite ?Hg, ?Hc, ?Hl; cbn.
  - intros date. rewrite reserved_at_insert. unfold held_global. rewrite Ha, Ho. cbn.
    destruct (Z.eqb_spec (reservation_date old) date), (decide (_ = _)); subst; try done; lia.
  - intros [date cl]. rewrite reserved_at_insert. unfold held_client. rewrite Ha, Ho. cbn.
    destruct (Z.eqb_spec (reservation_date old) date), (N.eqb_spec (api_client_id (claim old)) cl),
      (decide (_ = _)); cbn; simplify_eq; try done; lia.
  - intros; by apply is_Some_insert.
  - intros; by apply is_Some_insert.
  - congruence.
  - intros. by apply map_Forall_insert_2.
  - intros. by apply map_Forall_insert_2.
Qed.

(** ** The rows the operations write *)

Lemma state_le_edge s s' : lifecycle_edge (Some s) s' = true → state_le s s'.
Proof. intros H. by apply rtc_once. Qed.

(** Operations that leave the submission and terminal columns alone. *)
Lemma row_le_keep old r :
  claim r = claim old → state_le (state old) (state r) →
  near_submission r = near_submission old → evm_submission r = evm_submission old →
  (is_terminal (state old) = true → state r = state old ∧ terminal r = terminal old) →
  row_le old r.
Proof.
  intros Hc Hs Hn He Ht. split; [done | done | | | | done |];
    unfold signed_bytes, signed_hash; rewrite ?Hc, ?Hn, ?He; [done | done | reflexivity | done].
Qed.

Lemma row_ok_keep old r :
  row_ok old → check_row r = true → claim r = claim old →
  (is_dormant (state r) = true → is_dormant (state old) = true) →
  near_submission r = near_submission old → evm_submission r = evm_submission old →
  (is_terminal (state r) = false → is_terminal (state old) = false ∧ terminal r = terminal old) →
  row_ok r.
Proof.
  intros (_ & Hd & Ht & Hm & Ho) Hc Hcl Hd' Hn He Ht'. split_and!; [done | | | |].
  - intros H. rewrite Hn, He. auto.
  - intros H. destruct (Ht' H) as [H1 ->]. auto.
  - by rewrite Hcl.
  - by rewrite Hcl, Hn, He.
Qed.

(** The signed transaction of a row is written once, when it leaves [reserved]. *)
Lemma row_le_prepared old ns es t :
  row_ok old → state old = Reserved → row_le old (to_prepared ns es t old).
Proof.
  intros (_ & Hd & _) Hs. rewrite Hs in Hd. destruct (Hd eq_refl) as [Hn He].
  split; cbn; rewrite ?Hs; try done.
  - by apply state_le_edge.
  - intros b. unfold signed_bytes. rewrite Hn, He. by destruct (chain_kind _).
  - intros b. unfold signed_hash. rewrite Hn, He. by destruct (chain_kind _).
  - by rewrite He.
Qed.

Lemma row_ok_prepared old ns es t :
  row_ok old → state old = Reserved → check_row (to_prepared ns es t old) = true →
  own_chain (chain_kind (claim old)) ns es →
  row_ok (to_prepared ns es t old).
Proof.
  intros (_ & _ & Ht & Hm & _) Hs Hc Ho. split_and!; [done | done | | done | done].
  cbn. intros _. apply Ht. by rewrite Hs.
Qed.

(** The CHECK on signed rows: a NEAR submission is only written to a NEAR row,
    an EVM submission to an EVM row. *)
Lemma prepared_near_own old ns t :
  row_ok old → state old = Reserved →
  check_row (to_prepared ns (evm_submission old) t old) = true →
  chain_kind (claim old) = Near ∧ own_chain (chain_kind (claim old)) ns (evm_submission old).
Proof.
  intros (_ & Hd & _) Hs Hc. rewrite Hs in Hd. destruct (Hd eq_refl) as [_ He]. rewrite He in *.
  unfold check_row, submission_check in Hc. cbn [state to_prepared claim evm_submission] in Hc.
  destruct (chain_kind (claim old)); [done |]. exfalso.
  unfold evm_submission_present in Hc. cbn [signer_account_nonce no_evm_submission] in Hc.
  by rewrite (bool_decide_eq_false_2 (is_Some (None : option N))), !andb_false_r in Hc by apply is_Some_None.
Qed.

Lemma prepared_evm_own old es t :
  row_ok old → state old = Reserved →
  check_row (to_prepared (near_submission old) es t old) = true →
  chain_kind (claim old) = Eip155 ∧ own_chain (chain_kind (claim old)) (near_submission old) es.
Proof.
  intros (_ & Hd & _) Hs Hc. rewrite Hs in Hd. destruct (Hd eq_refl) as [Hn _]. rewrite Hn in *.
  unfold check_row, submission_check in Hc. cbn [state to_prepared claim near_submission] in Hc.
  destruct (chain_kind (claim old)); [| done]. exfalso.
  unfold near_submission_present in Hc. cbn [relayer_account_id no_near_submission] in Hc.
  by rewrite (bool_decide_eq_false_2 (is_Some (None : option string))), !andb_false_r in Hc by apply is_Some_None.
Qed.

Lemma row_le_raised minimum t old :
  is_signed (state old) = true → row_le old (to_raised minimum t old).
Proof.
  intros Hs. split; cbn; try done; [].
  unfold greatest. destruct (required_confirmations _); cbn; [lia | done].
Qed.

Lemma row_le_terminal to cols t old :
  transition_allowed (state old) to = true → row_le old (to_terminal to cols t old).
Proof.
  intros Ha. apply row_le_keep; cbn; try done.
  - apply state_le_edge. by destruct (state old), to.
  - by destruct (state old).
Qed.

(** Tactics: the shape shared by the operations' proofs. *)
Ltac norm_bools :=
  repeat match goal with
  | H : negb _ = true |- _ => apply negb_true_iff in H
  | H : negb _ = false |- _ => apply negb_false_iff in H
  | H : _ && _ = true |- _ => apply andb_true_iff in H as [? ?]
  | H : bool_decide _ = true |- _ => apply bool_decide_eq_true in H
  | H : bool_decide _ = false |- _ => apply bool_decide_eq_false in H
  | H : (_ =? _) = true |- _ => apply N.eqb_eq in H
  | H : (_ =? _) = false |- _ => apply N.eqb_neq in H
  end; subst.

(** The event statement appends exactly one event. *)
Lemma insert_event_inv id from to code meta d u d' :
  insert_event id from to code meta d = Ok (u, d') →
  d' = with_events (settlement_events d ++ [MkEvent id from to code meta]) d.
Proof. unfold insert_event. congruence. Qed.

Lemma select_inv {A} (f : Database_ → A) d a d' :
  select f d = Ok (a, d') → f d = a ∧ d' = d.
Proof. unfold select. naive_solver. Qed.

(** Turns the statements of a decomposed block into facts about databases. *)
Ltac stmt_inv :=
  norm_bools;
  repeat match goal with
  | H : select_row _ _ = Ok _ |- _ => unfold select_row in H
  | H : select _ _ = Ok _ |- _ => apply select_inv in H as [? ?]; subst
  | H : insert_event _ _ _ _ _ _ = Ok _ |- _ => apply insert_event_inv in H; subst
  | H : release_budget _ _ _ _ _ _ _ = (Done (Ok _), _) |- _ =>
      apply release_budget_inv in H as (? & ? & ? & ? & ? & ? & ?); subst
  | H : reserve_global_budget _ _ _ _ = Ok (true, _) |- _ =>
      apply reserve_global_inv in H as (? & ? & ? & ? & ?); subst
  | H : reserve_client_budget _ _ _ _ _ = Ok (true, _) |- _ =>
      apply reserve_client_inv in H as (? & ? & ? & ? & ?); subst
  | H : update_settlement _ _ _ _ = Ok _ |- _ =>
      apply update_settlement_inv in H as
        [(? & ? & ?)|(? & ? & ? & ? & ? & ? & ?)]; subst; [try done |]
  end; norm_bools;
  cbn [settlements global_sponsorship client_sponsorship settlement_events
       with_settlements with_global with_client with_events] in *;
  simplify_eq.

(** ** The operations *)

(** What a block commits is a step of the journal. *)
Definition tx_steps {A} (body : Tx (TxEnd A)) : Prop :=
  ∀ env n d r d' n', body env n d = (Done (Ok (Commit r, d')), n') → db_step d d'.

Lemma run_tx_respects {A} (body : Tx (TxEnd (Result A StoreError))) :
  tx_steps body → respects world_step (run_tx body).
Proof.
  intros H. apply respects_run_tx; [typeclasses eauto |].
  intros env n d r d' n' w Hb <-. apply world_step_db. eauto.
Qed.

Lemma query_respects {A} (f : Stmt A) :
  (∀ d a d', f d = Ok (a, d') → db_step d d') → respects world_step (query f).
Proof.
  intros H. apply respects_query; [typeclasses eauto |].
  intros w a d Hf. apply world_step_db. eauto.
Qed.

Lemma select_respects {A} (f : Database_ → A) : respects world_step (query (select f)).
Proof. apply respects_select. typeclasses eauto. Qed.
#[local] Hint Resolve select_respects : respects.

Lemma settlement_respects id : respects world_step (settlement id).
Proof. unfold settlement, select_row. solve_respects. Qed.
#[local] Hint Resolve settlement_respects : respects.

Lemma find_existing_respects new : respects world_step (find_existing_for new).
Proof. unfold find_existing_for, find_existing_settlement. solve_respects. Qed.
#[local] Hint Resolve find_existing_respects : respects.

Lemma anchor_respects scope value : respects world_step (anchor_is_claimed scope value).
Proof. unfold anchor_is_claimed. solve_respects. Qed.
#[local] Hint Resolve anchor_respects : respects.

Lemma busy_respects kind network_ signer :
  respects world_step (active_evm_signer_exists kind network_ signer).
Proof. unfold active_evm_signer_exists. solve_respects. Qed.
#[local] Hint Resolve busy_respects : respects.

Lemma reserved_row_inv new date t r :
  reserved_row new date t = Ok r →
  state r = Reserved ∧ reservation_date r = date ∧
  reserved_yocto_near r = dec_value (new_reservation_yocto_near new) ∧
  api_client_id (claim r) = new_api_client_id new ∧
  near_submission r = no_near_submission ∧ evm_submission r = no_evm_submission ∧
  terminal r = no_terminal.
Proof.
  unfold reserved_row. intros H. result_inv. simplify_eq. cbn.
  split_and!; try done. by apply numeric_in_inv.
Qed.

(** The metadata written at the claim reads back. *)
Lemma metadata_roundtrip m :
  version m <= u8_max → metadata_from_value (to_json m) = Ok m.
Proof.
  intros Hv. destruct m as [ver va vb].
  assert (try_from u8_max ver = Some ver) as E
    by (unfold try_from; by rewrite (proj2 (N.leb_le ver u8_max) Hv)).
  change (to_json _) with
    (Object [("validAfter", Str va); ("validBefore", Str vb); ("version", Num (PosInt ver))]).
  unfold metadata_from_value. cbn -[try_from u8_max]. by rewrite E.
Qed.

(** The guard at the top of [claim_settlement]. *)
Definition metadata_version_ok (new : NewSettlement) : bool :=
  negb (bool_decide (new_chain_kind new = Eip155)
        && is_none_or (new_authorization_metadata new) (λ m, negb (version m =? 2))).

Lemma reserved_row_readable new date t r :
  metadata_version_ok new = true → reserved_row new date t = Ok r → check_row r = true →
  metadata_readable (claim r) = true.
Proof.
  unfold reserved_row, metadata_version_ok. intros Hv H Hc. result_inv. simplify_eq.
  unfold check_row, claim_check, chain_authorization_check, metadata_readable in *.
  cbn [claim authorization_metadata chain_kind] in *.
  destruct (new_authorization_metadata new) as [m|]; [| done].
  cbn [fmap option_fmap option_map is_none_or] in *.
  destruct (new_chain_kind new).
  - cbn in Hc. by rewrite !andb_false_r in Hc.
  - rewrite metadata_roundtrip; [done |]. apply negb_true_iff, negb_false_iff, N.eqb_eq in Hv.
    rewrite Hv. unfold u8_max. lia.
Qed.

Lemma claim_tx_steps new date : metadata_version_ok new = true → tx_steps (claim_tx new date).
Proof.
  intros Hv env n d r d' n' H. unfold claim_tx in H. tx_inv; try done. stmt_inv.
  unfold insert_reserved in *. result_inv.
  match goal with H : reserved_row _ _ _ = Ok ?r |- _ =>
    rename r into row; pose proof (reserved_row_readable _ _ _ _ Hv H) as Hread;
    apply reserved_row_inv in H as (Hs & Hd & Hr & Hc & Hn & He & Ht) end.
  match goal with H : insert_settlement _ _ _ = _ |- _ =>
    apply insert_settlement_inv in H as [[? ?]|(-> & Hnone & Hck & Hu & _ & ->)]; [done |] end.
  apply (db_step_write _ _ (new_id new) row); [reflexivity | | done | | |].
  - intros _. split_and!; auto. unfold own_chain. by destruct (chain_kind _).
  - intros _ old. by rewrite Hnone.
  - left. rewrite Hnone. cbn. rewrite Hs. eauto.
  - intros Hinv. rewrite <- Hd, <- Hc in *. eapply (ledger_inv_reserve d _ (new_id new) row);
      try reflexivity; cbn; rewrite ?Hr; eauto; [by rewrite Hnone | by rewrite Hs | apply Hinv].
Qed.

Lemma claim_settlement_respects new : respects world_step (claim_settlement new).
Proof.
  unfold claim_settlement.
  destruct (_ && _) eqn:Hguard; [solve_respects |].
  assert (metadata_version_ok new = true) as Hv by (unfold metadata_version_ok; by rewrite Hguard).
  assert (∀ date, respects world_step (run_tx (claim_tx new date))) as Htx.
  { intros date. by apply run_tx_respects, claim_tx_steps. }
  unfold claim_conflict. solve_respects.
Qed.

(** A block that rewrites one row and releases what it held. *)
Lemma db_step_release d d' id old r g c :
  settlements d !! id = Some old →
  is_active (state old) = true → is_active (state r) = false →
  claim r = claim old →
  settlements d' = <[id := r]> (settlements d) →
  global_sponsorship d' = <[reservation_date old := g]> (global_sponsorship d) →
  client_sponsorship d' =
    <[(reservation_date old, api_client_id (claim old)) := c]> (client_sponsorship d) →
  ledger_reserved g + dec_value (numeric_out (reserved_yocto_near old))
    = reserved_at (global_sponsorship d !! reservation_date old) →
  ledger_reserved c + dec_value (numeric_out (reserved_yocto_near old))
    = reserved_at (client_sponsorship d !! (reservation_date old, api_client_id (claim old))) →
  ledger_check g = true → ledger_check c = true →
  (row_ok old → row_ok r) → row_le old r →
  unique_conflict (settlements d) id r = None →
  logs_write d d' id r →
  db_step d d'.
Proof.
  unfold numeric_out. rewrite dec_value_to_decimal.
  intros Hl Ho Hr Hc Hset Hg Hcl Eg Ec Kg Kc Hok Hle Hu Hlog.
  apply (db_step_write d d' id r Hset); [| done | | done |].
  - intros Hinv. apply Hok. by apply (inv_rows d Hinv id).
  - intros _ x Hx. by simplify_eq.
  - intros Hinv. eapply ledger_inv_release; eauto. apply Hinv.
Qed.

(** A block that rewrites one row and leaves what it holds. *)
Lemma db_step_update d d' id old r :
  settlements d !! id = Some old → same_hold old r →
  settlements d' = <[id := r]> (settlements d) →
  global_sponsorship d' = global_sponsorship d →
  client_sponsorship d' = client_sponsorship d →
  (row_ok old → row_ok r) → (row_ok old → row_le old r) →
  unique_conflict (settlements d) id r = None →
  logs_write d d' id r →
  db_step d d'.
Proof.
  intros Hl Hh Hset Hg Hc Hok Hle Hu Hlog.
  apply (db_step_write d d' id r Hset); [| done | | done |].
  - intros Hinv. apply Hok. by apply (inv_rows d Hinv id).
  - intros Hinv x Hx. simplify_eq. apply Hle. by apply (inv_rows d Hinv id).
  - intros Hinv. eapply ledger_inv_same; eauto. apply Hinv.
Qed.

(** The written row's event continues from the state just read. *)
Lemma logs_event d d' id old r code meta :
  settlements d !! id = Some old → lifecycle_edge (Some (state old)) (state r) = true →
  settlement_events d' =
    (settlement_events d ++ [MkEvent id (Some (state old)) (state r) code meta])%list →
  logs_write d d' id r.
Proof. intros Hl He Hev. left. rewrite Hl. cbn. eauto. Qed.

(** Names the row a block read and its state. *)
Ltac the_row old Hl Hst :=
  match goal with H : settlements _ !! _ = Some ?x, Hs : state ?x = _ |- _ =>
    rename x into old, H into Hl, Hs into Hst end.

Lemma awaiting_retry_tx_steps id code : tx_steps (awaiting_retry_tx id code).
Proof.
  intros env n d r d' n' H. unfold awaiting_retry_tx in H. tx_inv; try done. stmt_inv.
  the_row old Hl Hst.
  eapply (db_step_release d _ id old (to_awaiting_retry code _ old)); try reflexivity; eauto.
  - by rewrite Hst.
  - intros Hok. apply (row_ok_keep old); rewrite ?Hst; done.
  - apply row_le_keep; rewrite ?Hst; try done. by apply state_le_edge.
  - eapply logs_event; rewrite ?Hst; done.
Qed.

Lemma mark_awaiting_retry_respects id code : respects world_step (mark_awaiting_retry id code).
Proof.
  pose proof (run_tx_respects _ (awaiting_retry_tx_steps id code)).
  unfold mark_awaiting_retry. solve_respects.
Qed.

Lemma resume_tx_steps retry date : tx_steps (resume_tx retry date).
Proof.
  intros env n d r d' n' H. unfold resume_tx in H. tx_inv; try done.
  unfold update_resumed in *. result_inv. stmt_inv. the_row old Hl Hst.
  match goal with H : numeric_in _ = Ok _ |- _ => apply numeric_in_inv in H end.
  eapply (db_step_write d _ (retry_settlement_id retry)
            (to_resumed (retry_policy_snapshot retry) date _ _ old)); try reflexivity; eauto.
  - intros Hinv. apply (row_ok_keep old); rewrite ?Hst; try done. by eapply inv_rows.
  - intros _ ? ?. simplify_eq. apply row_le_keep; rewrite ?Hst; try done. by apply state_le_edge.
  - eapply logs_event; rewrite ?Hst; done.
  - intros Hinv. eapply (ledger_inv_reserve d); try reflexivity; eauto.
    + intros ? ?. simplify_eq. by rewrite Hst.
    + cbn. congruence.
    + cbn. congruence.
    + apply Hinv.
Qed.

Lemma resume_awaiting_retry_respects retry : respects world_step (resume_awaiting_retry retry).
Proof.
  assert (∀ date, respects world_step (run_tx (resume_tx retry date))) as Htx.
  { intros date. apply run_tx_respects, resume_tx_steps. }
  unfold resume_awaiting_retry. solve_respects.
Qed.

(** A row that leaves [reserved] for [prepared]. *)
Lemma db_step_prepared d id old ns es t code meta :
  settlements d !! id = Some old → state old = Reserved →
  check_row (to_prepared ns es t old) = true →
  unique_conflict (settlements d) id (to_prepared ns es t old) = None →
  (row_ok old → own_chain (chain_kind (claim old)) ns es) →
  db_step d (with_events (settlement_events d ++ [MkEvent id (Some Reserved) Prepared code meta])
               (with_settlements (<[id := to_prepared ns es t old]> (settlements d)) d)).
Proof.
  intros Hl Hst Hc Hu Ho. eapply (db_step_update d _ id old); try reflexivity; eauto.
  - split_and!; try done. cbn. by rewrite Hst.
  - intros. apply row_ok_prepared; auto.
  - intros. by apply row_le_prepared.
  - eapply logs_event; rewrite ?Hst; done.
Qed.

Lemma prepared_tx_steps e : tx_steps (prepared_tx e).
Proof.
  intros env n d r d' n' H. unfold prepared_tx, refuse_transition in H. tx_inv; try done.
  unfold update_prepared, is_reserved in *. result_inv. stmt_inv.
  apply db_step_prepared; try done. intros Hok. by eapply prepared_near_own.
Qed.

Lemma mark_prepared_respects e : respects world_step (mark_prepared e).
Proof. apply run_tx_respects, prepared_tx_steps. Qed.

Lemma prepared_evm_tx_steps e : tx_steps (prepared_evm_tx e).
Proof.
  intros env n d r d' n' H. unfold prepared_evm_tx, refuse_transition in H. tx_inv; try done.
  unfold update_prepared_evm, is_reserved in *. result_inv. stmt_inv.
  apply db_step_prepared; try done. intros Hok. by eapply prepared_evm_own.
Qed.

Lemma mark_prepared_evm_respects e : respects world_step (mark_prepared_evm e).
Proof.
  pose proof (run_tx_respects _ (prepared_evm_tx_steps e)).
  unfold mark_prepared_evm. solve_respects.
Qed.

Lemma submitted_tx_steps id : tx_steps (submitted_tx id).
Proof.
  intros env n d r d' n' H. unfold submitted_tx, refuse_transition in H. tx_inv; try done.
  stmt_inv. the_row old Hl Hst.
  eapply (db_step_update d _ id old); try reflexivity; eauto.
  - split_and!; try done. cbn. by rewrite Hst.
  - intros Hok. apply (row_ok_keep old); rewrite ?Hst; done.
  - intros _. apply row_le_keep; rewrite ?Hst; try done. by apply state_le_edge.
  - eapply logs_event; rewrite ?Hst; done.
Qed.

Lemma mark_submitted_respects id : respects world_step (mark_submitted id).
Proof. apply run_tx_respects, submitted_tx_steps. Qed.

Lemma transition_allowed_inv s s' :
  transition_allowed s s' = true →
  is_active s = true ∧ is_active s' = false ∧ is_dormant s' = false ∧ is_terminal s' = true ∧
  lifecycle_edge (Some s) s' = true.
Proof. by destruct s, s'. Qed.

Lemma terminal_tx_steps e : tx_steps (terminal_tx e).
Proof.
  intros env n d r d' n' H. unfold terminal_tx in H. tx_inv; try done.
  unfold update_terminal in *. result_inv. stmt_inv.
  - match goal with Hl : settlements _ !! _ = Some ?x, H : forall r : Row, _ |- _ =>
      by pose proof (H x Hl) end.
  - match goal with H : transition_allowed (state ?x) _ = true |- _ =>
      rename x into old; pose proof H as Ha; apply transition_allowed_inv in H as (? & ? & ? & ? & ?)
    end.
    eapply (db_step_release d _ (term_settlement_id e) old (to_terminal (term_state e) _ _ old));
      try reflexivity; eauto.
    + intros Hok. apply (row_ok_keep old); cbn; try done; congruence.
    + by apply row_le_terminal.
    + by eapply logs_event.
Qed.

Lemma mark_terminal_respects e : respects world_step (mark_terminal e).
Proof.
  pose proof (run_tx_respects _ (terminal_tx_steps e)).
  unfold mark_terminal. solve_respects.
Qed.

(** ** Single statements *)

(** An UPDATE that keeps the state keeps the journal. *)
Lemma update_settlement_step id guard f d n d' :
  (∀ r, guard r = true → state (f r) = state r ∧ same_hold r (f r) ∧ row_le r (f r) ∧
        (row_ok r → check_row (f r) = true → row_ok (f r))) →
  update_settlement id guard f d = Ok (n, d') → db_step d d'.
Proof.
  intros Hf H. apply update_settlement_inv in H as
    [(-> & -> & _)|(-> & r & Hl & Hg & Hc & Hu & ->)]; [reflexivity |].
  destruct (Hf r Hg) as (Hs & Hh & Hle & Hok).
  eapply (db_step_update d _ id r); try reflexivity; eauto.
  right. split; [done |]. by rewrite Hl, Hs.
Qed.

Lemma raise_required_confirmations_respects id minimum :
  respects world_step (raise_required_confirmations id minimum).
Proof.
  assert (∀ t, respects world_step (query (update_raised id minimum t))) as Hq.
  { intros t. apply query_respects. intros d a d' H. unfold update_raised in H. result_inv.
    match goal with x : N * Database_ |- _ => destruct x as [n d1] end.
    assert (d1 = d') as -> by (case_match; simplify_eq; done).
    eapply update_settlement_step; [| eassumption].
    intros r [He Hs]%andb_true_iff. split_and!; [done | done | by apply row_le_raised |].
    intros (Hk & Hd & Ht & Hm & Ho) Hc. split_and!; [done | | done | done |].
    - cbn. by destruct (state r).
    - apply bool_decide_eq_true in He. cbn. by rewrite He in *. }
  unfold raise_required_confirmations, select_row. solve_respects.
Qed.

Lemma note_reconciliation_respects id : respects world_step (note_reconciliation id).
Proof.
  assert (∀ t, respects world_step (query (update_settlement id (λ _, true) (to_reconciled t)))) as Hq.
  { intros t. apply query_respects. intros d a d'. apply update_settlement_step.
    intros r _. split; [done | split; [done | split]].
    - by apply row_le_keep; [| apply rtc_refl | | |].
    - intros Hok Hc. by apply (row_ok_keep r). }
  unfold note_reconciliation. solve_respects.
Qed.

(** Statements on the other tables. *)
Lemma db_step_frame d d' :
  settlements d' = settlements d → global_sponsorship d' = global_sponsorship d →
  client_sponsorship d' = client_sponsorship d → settlement_events d' = settlement_events d →
  db_step d d'.
Proof.
  intros Hs Hg Hc He [H1 H2 [H3 H4 H5 H7] H6]. split.
  - split; [by rewrite Hs | by rewrite Hs | | by rewrite He, Hs].
    split; rewrite ?Hs, ?Hg, ?Hc; done.
  - split; [| by rewrite He]. intros id r Hr. rewrite Hs. exists r. split; [done | reflexivity].
Qed.

Lemma upsert_relayer_respects network_ account key :
  respects world_step (upsert_relayer network_ account key).
Proof.
  apply query_respects. intros d a d'. unfold insert_relayer.
  intros H. case_match; simplify_eq; by apply db_step_frame.
Qed.

Lemma quarantine_relayer_respects network_ account key reason nonce :
  respects world_step (quarantine_relayer network_ account key reason nonce).
Proof.
  apply query_respects. intros d a d'. unfold set_quarantined. intros H. result_inv.
  case_match; simplify_eq. by apply db_step_frame.
Qed.

End StoreProofs.
