(* ===== verification/StoreSpec.v ===== *)
(** * What the settlement store promises

    The properties of [Store] in every world its calls can reach, under any
    interleaving, failure and crash; and the answers of its lookups and
    transitions when nothing fails. *)

From stdpp Require Import base gmap strings list numbers relations.
From Stdlib Require Import Lia NArith ZArith Ascii String.
From S2P Require Import Prelude Text Json Readiness Schema Sql Store Journal StoreProofs.

Open Scope string_scope.
Open Scope N_scope.

Module StoreSpec.
Import Store Journal StoreProofs.

(** ** The calls and the worlds they reach *)

Inductive StoreCall : Type :=
| CallClaim (new : NewSettlement)
| CallAwaitRetry (id : N) (code : string)
| CallResume (retry : RetryReservation)
| CallRaise (id : N) (minimum : Z)
| CallPrepared (e : PreparedJournalEntry)
| CallPreparedEvm (e : EvmPreparedJournalEntry)
| CallSubmitted (id : N)
| CallTerminal (e : TerminalJournalEntry)
| CallNote (id : N)
| CallUpsertRelayer (network_ account key : string)
| CallQuarantine (network_ account key reason nonce : string).

Definition discard {A} (c : Proc World A) : Proc World unit := let* _ := c in ret tt.

Definition exec (call : StoreCall) : Proc World unit :=
  match call with
  | CallClaim new => discard (claim_settlement new)
  | CallAwaitRetry id code => discard (mark_awaiting_retry id code)
  | CallResume retry => discard (resume_awaiting_retry retry)
  | CallRaise id minimum => discard (raise_required_confirmations id minimum)
  | CallPrepared e => discard (mark_prepared e)
  | CallPreparedEvm e => discard (mark_prepared_evm e)
  | CallSubmitted id => discard (mark_submitted id)
  | CallTerminal e => discard (mark_terminal e)
  | CallNote id => discard (note_reconciliation id)
  | CallUpsertRelayer a b c => discard (upsert_relayer a b c)
  | CallQuarantine a b c r n => discard (quarantine_relayer a b c r n)
  end.

(** One call, finished, failed or killed half way, among others that keep the
    journal. *)
Inductive store_call : relation World :=
| run_call call env n w o n' w' :
    rely world_step env → exec call env n w = (o, n', w') → store_call w w'.

(** A freshly migrated database. *)
Definition initial (w : World) : Prop :=
  settlements (db w) = ∅ ∧ global_sponsorship (db w) = ∅ ∧ client_sponsorship (db w) = ∅ ∧
  settlement_events (db w) = [] ∧ wire w = [] ∧ spawned (process w) = [].

Inductive reachable (w : World) : Prop :=
| reach w0 : initial w0 → rtc store_call w0 w → reachable w.

Lemma discard_respects {R : relation World} `{!PreOrder R} {A} (c : Proc World A) :
  respects R c → respects R (discard c).
Proof. intros H. unfold discard. solve_respects. Qed.

Lemma exec_respects call : respects world_step (exec call).
Proof.
  destruct call; apply discard_respects;
    eauto using claim_settlement_respects, mark_awaiting_retry_respects,
      resume_awaiting_retry_respects, raise_required_confirmations_respects,
      mark_prepared_respects, mark_prepared_evm_respects, mark_submitted_respects,
      mark_terminal_respects, note_reconciliation_respects, upsert_relayer_respects,
      quarantine_relayer_respects.
Qed.

Lemma store_calls_step w w' : rtc store_call w w' → world_step w w'.
Proof.
  induction 1 as [|a b c [call env n x o n' y Hrely He] _ IH]; [reflexivity |].
  etrans; [| exact IH]. by eapply exec_respects.
Qed.

Lemma initial_inv w : initial w → world_inv w.
Proof.
  intros (Hs & Hg & Hc & He & Hw & Ht).
  split_and!; [split | intros s; rewrite Hw; set_solver | intros id request; rewrite Ht; set_solver].
  - intros id r. by rewrite Hs, lookup_empty.
  - split; intros i j ri rj k H; by rewrite Hs, lookup_empty in H.
  - split.
    + intros date. by rewrite Hg, Hs, lookup_empty.
    + intros key. by rewrite Hc, Hs, lookup_empty.
    + intros id r H. by rewrite Hs, lookup_empty in H.
    + rewrite Hg, Hc. split; apply map_Forall_empty.
  - by rewrite He, Hs, fmap_empty.
Qed.

Lemma reachable_inv w : reachable w → world_inv w.
Proof. intros [w0 Hi Hr]. by apply (store_calls_step _ _ Hr), initial_inv. Qed.

Lemma reachable_le w w' : reachable w → rtc store_call w w' → world_le w w'.
Proof. intros Hw Hr. by apply (store_calls_step _ _ Hr), reachable_inv. Qed.

(** ** A concrete journal *)

Definition client_7 : ClientRow := MkClient "acme" "testnet" true 1000 60 10.

Definition empty_db : Database_ :=
  MkDatabase ∅ ∅ ∅ ∅ {[ 7 := client_7 ]} ∅ ∅ [] no_schema.

Definition world_0 : World := MkWorld empty_db Readiness.default [] (fresh_process 64).

Definition hash_a : string := "0123456789abcdef0123456789abcdef".
Definition fingerprint_a : string := "fedcba9876543210fedcba9876543210".

Definition payment_a : NewSettlement :=
  MkNew 1 7 (Some "identifier-000000") hash_a fingerprint_a "near" hash_a 2 "exact"
    "near:testnet" "usdc.testnet" "shop.testnet" "250" "alice.testnet" Near
    (Some "ed25519:key") (Some "5") (Some "900") None None Null "40" "100" "100".

Definition after (call : StoreCall) (w : World) : World :=
  (exec call (quiet_env World) 0%nat w).2.

Lemma after_call call w : store_call w (after call w).
Proof.
  unfold after. destruct (exec call (quiet_env World) 0%nat w) as [[o n'] w'] eqn:E.
  eapply run_call; [| exact E]. intros n x. reflexivity.
Qed.

Lemma after_reachable calls : reachable (fold_left (λ w c, after c w) calls world_0).
Proof.
  exists world_0; [done |]. generalize world_0. induction calls as [|c l IH]; intros w; cbn.
  - apply rtc_refl.
  - eapply rtc_l; [apply after_call | apply IH].
Qed.

Definition submission_a : PreparedJournalEntry :=
  MkPrepared 1 "relayer.testnet" "ed25519:relayer" "17" "signed-bytes" "tx-hash".

Definition terminal_a : TerminalJournalEntry :=
  MkTerminalEntry 1 Succeeded 200 "{}" None None (Some "3") (Some "9") "12" None None None.

Definition claimed_a : list StoreCall := [CallClaim payment_a].
Definition signed_a : list StoreCall := [CallClaim payment_a; CallPrepared submission_a].
Definition settled_a : list StoreCall :=
  [CallClaim payment_a; CallPrepared submission_a; CallSubmitted 1; CallTerminal terminal_a].

Definition journal (calls : list StoreCall) : World :=
  fold_left (λ w c, after c w) calls world_0.

Example settled_a_state :
  state <$> settlements (db (journal settled_a)) !! 1 = Some Succeeded.
Proof. vm_compute. reflexivity. Qed.

Lemma journal_reachable calls : reachable (journal calls).
Proof. apply after_reachable. Qed.

Lemma journal_app calls calls' : rtc store_call (journal calls) (journal (calls ++ calls')).
Proof.
  unfold journal. rewrite fold_left_app. generalize (fold_left (λ w c, after c w) calls world_0).
  induction calls' as [|c l IH]; intros w; cbn; [apply rtc_refl |].
  eapply rtc_l; [apply after_call | apply IH].
Qed.

(** ** Safety in every reachable world *)

(** Every call of the store, in any environment that itself keeps the journal,
    whatever statements fail, whatever acknowledgements are lost and wherever the
    process dies, keeps the journal's invariant and moves it up its preorder: rows
    are never removed or rebound to another payment, states follow the lifecycle,
    signed submissions and terminal answers are permanent, the event log only
    grows. *)
Theorem store_calls_keep_journal call env n w o n' w' :
  rely world_step env → world_inv w → exec call env n w = (o, n', w') →
  world_inv w' ∧ world_le w w'.
Proof. intros Hr Hi He. by eapply exec_respects. Qed.

(** The journal survives a lost commit acknowledgement and a crash. *)
Lemma store_calls_keep_journal_witness :
  let env := MkEnv (λ _ w, w) (λ n, if (n =? 6)%nat then DownApplied else Up) (λ _, 0%Z) in
  let w' := (exec (CallClaim payment_a) env 0%nat world_0).2 in
  world_inv w' ∧ world_le world_0 w'.
Proof.
  intros env w'. destruct (exec (CallClaim payment_a) env 0%nat world_0) as [[o n'] w1] eqn:E.
  subst w'. apply (store_calls_keep_journal (CallClaim payment_a) env 0%nat world_0 o n' w1).
  - intros n w. reflexivity.
  - by apply initial_inv.
  - exact E.
Defined.

(** C17: exactly once: in every reachable world at most one settlement exists for a
    payment hash, for a chain-enforced authorization anchor (the delegate hash, or
    the authorization nonce within its token and payer), and for a client's payment
    identifier. *)
Theorem one_settlement_per_payment w i j ri rj :
  reachable w → settlements (db w) !! i = Some ri → settlements (db w) !! j = Some rj →
  payment_hash (claim ri) = payment_hash (claim rj) ∨
  (anchor_scope (claim ri) = anchor_scope (claim rj) ∧
   anchor_value (claim ri) = anchor_value (claim rj)) ∨
  (api_client_id (claim ri) = api_client_id (claim rj) ∧
   payment_identifier (claim ri) = payment_identifier (claim rj) ∧
   payment_identifier (claim ri) ≠ None) →
  i = j.
Proof.
  intros Hw Hi Hj H. destruct (reachable_inv w Hw) as [[_ [Hh Hid _ Ha _ _] _ _] _].
  destruct H as [H|[[H1 H2]|(H1 & H2 & H3)]].
  - eapply (Hh i j ri rj); eauto; unfold key_payment_hash; by rewrite H.
  - eapply (Ha i j ri rj); eauto; unfold key_anchor; by rewrite H1, H2.
  - destruct (payment_identifier (claim ri)) as [p|] eqn:Ep; [| done].
    eapply (Hid i j ri rj (api_client_id (claim rj), p)); eauto; unfold key_identifier;
      [by rewrite Ep, H1 | by rewrite <- H2].
Qed.

Lemma one_settlement_per_payment_witness :
  ∃ r, settlements (db (journal claimed_a)) !! 1 = Some r ∧ (1 : N) = 1.
Proof.
  destruct (settlements (db (journal claimed_a)) !! 1) as [r|] eqn:E;
    [| vm_compute in E; discriminate].
  exists r. split; [done |].
  apply (one_settlement_per_payment (journal claimed_a) 1 1 r r (journal_reachable _) E E).
  by left.
Defined.

(** A settlement's signed transaction is written once: whatever happens later,
    its row still carries the same bytes and hash under the same claim.  So the only
    transaction that can ever be broadcast for it is that one. *)
Theorem signed_submission_permanent w w' id r b h :
  reachable w → rtc store_call w w' → settlements (db w) !! id = Some r →
  signed_bytes r = Some b → signed_hash r = Some h →
  ∃ r', settlements (db w') !! id = Some r' ∧ signed_bytes r' = Some b ∧
        signed_hash r' = Some h ∧ claim r' = claim r.
Proof.
  intros Hw Hr Hl Hb Hh. destruct (reachable_le w w' Hw Hr) as [[Hle _] _].
  destruct (Hle id r Hl) as (r' & Hl' & L). exists r'. split_and!; [done | | |]; by apply L.
Qed.

Lemma signed_submission_permanent_witness :
  ∃ r', settlements (db (journal settled_a)) !! 1 = Some r' ∧
        signed_bytes r' = Some "signed-bytes" ∧ signed_hash r' = Some "tx-hash".
Proof.
  destruct (settlements (db (journal signed_a)) !! 1) as [r|] eqn:E;
    [| vm_compute in E; discriminate].
  destruct (signed_submission_permanent (journal signed_a) (journal settled_a) 1 r
              "signed-bytes" "tx-hash") as (r' & H1 & H2 & H3 & _).
  - apply journal_reachable.
  - apply (journal_app signed_a [CallSubmitted 1; CallTerminal terminal_a]).
  - exact E.
  - vm_compute in E. injection E as <-. reflexivity.
  - vm_compute in E. injection E as <-. reflexivity.
  - eauto.
Defined.

(** A terminal answer is permanent: once a settlement has succeeded or failed,
    no call changes its state, the stored response, its error code, its cost or the
    block it was observed in; a repeated delivery reads the same bytes. *)
Theorem terminal_answer_permanent w w' id r :
  reachable w → rtc store_call w w' →
  settlements (db w) !! id = Some r → is_terminal (state r) = true →
  ∃ r', settlements (db w') !! id = Some r' ∧ state r' = state r ∧ terminal r' = terminal r.
Proof.
  intros Hw Hr Hl Ht. destruct (reachable_le w w' Hw Hr) as [[Hle _] _].
  destruct (Hle id r Hl) as (r' & Hl' & L). exists r'. split; [done |]. by apply L.
Qed.

Lemma terminal_answer_permanent_witness :
  ∃ r', settlements (db (journal (settled_a ++ [CallTerminal terminal_a; CallSubmitted 1]))) !! 1
          = Some r' ∧ state r' = Succeeded.
Proof.
  destruct (settlements (db (journal settled_a)) !! 1) as [r|] eqn:E;
    [| vm_compute in E; discriminate].
  assert (state r = Succeeded) as Hs by (vm_compute in E; injection E as <-; reflexivity).
  destruct (terminal_answer_permanent (journal settled_a)
              (journal (settled_a ++ [CallTerminal terminal_a; CallSubmitted 1])) 1 r)
    as (r' & H1 & H2 & _); [apply journal_reachable | apply journal_app | exact E | by rewrite Hs |].
  exists r'. split; [exact H1 | congruence].
Defined.

(** C18: conservation: in every reachable world each day's global ledger, and each
    client's, holds exactly the sum of what that day's active settlements reserve:
    no reservation is leaked by a failure or a crash and none is released twice. *)
Theorem ledgers_hold_active_reservations w date client :
  reachable w →
  reserved_at (global_sponsorship (db w) !! date)
    = total (held_global date) (settlements (db w)) ∧
  reserved_at (client_sponsorship (db w) !! (date, client))
    = total (held_client (date, client)) (settlements (db w)).
Proof.
  intros Hw. destruct (reachable_inv w Hw) as [[_ _ [Hg Hc _ _] _] _]. split; [apply Hg | apply Hc].
Qed.

Lemma ledgers_hold_active_reservations_witness :
  reserved_at (global_sponsorship (db (journal signed_a)) !! 0%Z) = 40 ∧
  total (held_global 0) (settlements (db (journal signed_a))) = 40.
Proof.
  destruct (ledgers_hold_active_reservations (journal signed_a) 0 7 (journal_reachable _)) as [H _].
  rewrite <- H. split; vm_compute; reflexivity.
Defined.

(** C32: audit trail: in every reachable world the event log, replayed from the start,
    is accepted event by event along the lifecycle's edges and yields exactly the
    states of the journal's rows. *)
Theorem event_log_replays w :
  reachable w → replay (settlement_events (db w)) = Some (state <$> settlements (db w)).
Proof. intros Hw. by destruct (reachable_inv w Hw) as [[_ _ _ H] _]. Qed.

Lemma event_log_replays_witness :
  replay (settlement_events (db (journal settled_a)))
    = Some (state <$> settlements (db (journal settled_a))) ∧
  List.length (settlement_events (db (journal settled_a))) = 4%nat.
Proof. split; [apply event_log_replays, journal_reachable | vm_compute; reflexivity]. Defined.

(** An EVM payment, for the properties that concern that chain. *)
Definition payment_b : NewSettlement :=
  MkNew 2 7 None hash_a fingerprint_a "eip155:84532:0xusdc:0xalice" fingerprint_a 2 "exact"
    "eip155:84532" "0xUSDC" "0xShop" "250" "0xAlice" Eip155 None None None
    (Some (MkMetadata 2 "0" "99")) (Some "0xSigner") Null "40" "100" "100".
Definition submission_b : EvmPreparedJournalEntry := MkEvmPrepared 2 "8" "rlp" "0xhash" 3.
Definition terminal_b (depth : Z) : TerminalJournalEntry :=
  MkTerminalEntry 2 Succeeded 200 "{}" None None None None "12" (Some "77") (Some "0xblock")
    (Some depth).
Definition settled_b (depth : Z) : list StoreCall :=
  [CallClaim payment_b; CallPreparedEvm submission_b; CallSubmitted 2;
   CallTerminal (terminal_b depth)].

Example shallow_success_refused :
  state <$> settlements (db (journal (settled_b 2))) !! 2 = Some Submitted.
Proof. vm_compute. reflexivity. Qed.

(** An EVM settlement is never recorded as succeeded below its confirmation
    depth: a succeeded row carries its signed transaction, and its confirmations
    reach the depth journaled with it, which is at least one. *)
Theorem evm_success_confirmed w id r :
  reachable w → settlements (db w) !! id = Some r →
  chain_kind (claim r) = Eip155 → state r = Succeeded →
  is_Some (signed_bytes r) ∧
  ∃ c q, confirmations (terminal r) = Some c ∧ required_confirmations (evm_submission r) = Some q ∧
         (1 <= q <= c)%Z.
Proof.
  intros Hw Hl Hk Hs. destruct (reachable_inv w Hw) as [[Hrows _ _ _] _].
  destruct (Hrows id r Hl) as [Hck _].
  unfold check_row, submission_check, evm_success_check, counters_check, signed_bytes in *.
  rewrite Hk, Hs in *. norm_bools. unfold evm_submission_present in *. norm_bools. split; [done |].
  destruct (confirmations (terminal r)) as [c|], (required_confirmations (evm_submission r)) as [q|];
    try done. exists c, q. cbn in *. norm_bools. split_and!; try done; lia.
Qed.

Lemma evm_success_confirmed_witness :
  ∃ r c q, settlements (db (journal (settled_b 3))) !! 2 = Some r ∧
    confirmations (terminal r) = Some c ∧ required_confirmations (evm_submission r) = Some q ∧
    (1 <= q <= c)%Z.
Proof.
  destruct (settlements (db (journal (settled_b 3))) !! 2) as [r|] eqn:E;
    [| vm_compute in E; discriminate].
  destruct (evm_success_confirmed _ 2 r (journal_reachable _) E) as (_ & c & q & H).
  - vm_compute in E. injection E as <-. reflexivity.
  - vm_compute in E. injection E as <-. reflexivity.
  - exists r, c, q. auto.
Defined.

(** An EVM signer settles one payment at a time, and never signs two
    transactions with one account nonce: two rows of a network and signer (compared
    without case) that are both active, or that carry the same account nonce, are
    the same row. *)
Theorem evm_signer_exclusive w i j ri rj si sj :
  reachable w → settlements (db w) !! i = Some ri → settlements (db w) !! j = Some rj →
  chain_kind (claim ri) = Eip155 → chain_kind (claim rj) = Eip155 →
  network (claim ri) = network (claim rj) →
  signer_address (claim ri) = Some si → signer_address (claim rj) = Some sj →
  eq_ignore_ascii_case si sj = true →
  (is_active (state ri) = true ∧ is_active (state rj) = true) ∨
  (signer_account_nonce (evm_submission ri) = signer_account_nonce (evm_submission rj) ∧
   signer_account_nonce (evm_submission ri) ≠ None) →
  i = j.
Proof.
  intros Hw Hi Hj Ki Kj Hn Hsi Hsj He H.
  apply eq_ignore_ascii_case_spec in He.
  destruct (reachable_inv w Hw) as [[_ [_ _ _ _ Ha Hnonce] _ _] _].
  destruct H as [[Ai Aj]|[Hx Hne]].
  - eapply (Ha i j ri rj (network (claim ri), to_ascii_lowercase si)); eauto;
      unfold key_active_signer, lower_signer; rewrite ?Ki, ?Kj, ?Ai, ?Aj, ?Hsi, ?Hsj;
      rewrite bool_decide_eq_true_2 by done; cbn; congruence.
  - destruct (signer_account_nonce (evm_submission ri)) as [x|] eqn:E; [| done].
    eapply (Hnonce i j ri rj (network (claim ri), to_ascii_lowercase si, x)); eauto;
      unfold key_signer_nonce, lower_signer; rewrite ?Ki, ?Kj, ?Hsi, ?Hsj, ?E, <- ?Hx;
      rewrite bool_decide_eq_true_2 by done; cbn; congruence.
Qed.

Lemma evm_signer_exclusive_witness :
  ∃ r, settlements (db (journal [CallClaim payment_b])) !! 2 = Some r ∧
       is_active (state r) = true ∧ (2 : N) = 2.
Proof.
  destruct (settlements (db (journal [CallClaim payment_b])) !! 2) as [r|] eqn:E;
    [| vm_compute in E; discriminate].
  pose proof E as E'. vm_compute in E'. injection E' as Er.
  exists r. split; [done |]. split; [by rewrite <- Er |].
  apply (evm_signer_exclusive _ 2 2 r r "0xSigner" "0xSigner" (journal_reachable _) E E);
    try (rewrite <- Er; reflexivity); [reflexivity |].
  left. rewrite <- Er. split; reflexivity.
Defined.

(** ** Reading rows back *)

(** Every row of a consistent journal decodes, to a record with its values. *)
Lemma settlement_from_row_ok id r :
  row_ok r →
  ∃ rec, settlement_from_row id r = Ok rec ∧
    Rec.id rec = id ∧ Rec.state rec = state r ∧
    Rec.api_client_id rec = api_client_id (claim r) ∧
    Rec.payment_identifier rec = payment_identifier (claim r) ∧
    Rec.payment_hash rec = payment_hash (claim r) ∧
    Rec.request_fingerprint rec = request_fingerprint (claim r).
Proof.
  intros (Hck & _ & _ & Hm & _). unfold check_row, claim_check in Hck. norm_bools.
  unfold settlement_from_row, fixed_hash. repeat match goal with H : (_ =? _)%nat = true |- _ => rewrite H; clear H end.
  cbn [result_bind]. rewrite state_from_as_str, chain_kind_from_as_str.
  unfold metadata_readable in Hm.
  destruct (authorization_metadata (claim r)) as [v|]; cbn [is_none_or] in Hm.
  - destruct (metadata_from_value v) as [m|]; [| done]. cbn [result_bind]. eexists. split; [reflexivity |].
    done.
  - eexists. split; [reflexivity |]. done.
Qed.

(** What a decoded record repeats of its row. *)
Definition record_matches (id : N) (r : Row) (rec : Rec.SettlementRecord) : Prop :=
  Rec.id rec = id ∧ Rec.state rec = state r ∧
  Rec.payment_hash rec = payment_hash (claim r) ∧
  Rec.request_fingerprint rec = request_fingerprint (claim r).

(** The columns a state admits: nothing signed before preparation, no answer before the
    end, and nothing in the columns of the other chain. *)
Definition typed_by_state (r : Row) : Prop :=
  check_row r = true ∧
  (is_dormant (state r) = true → signed_bytes r = None ∧ signed_hash r = None) ∧
  (is_terminal (state r) = false → terminal r = no_terminal) ∧
  own_chain (chain_kind (claim r)) (near_submission r) (evm_submission r).

Lemma row_ok_typed r : row_ok r → typed_by_state r.
Proof.
  intros (Hck & Hd & Ht & _ & Ho). split; [done |]. split; [| done]. intros Hs.
  destruct (Hd Hs) as [Hn He]. unfold signed_bytes, signed_hash. rewrite Hn, He.
  by destruct (chain_kind (claim r)).
Qed.

(** Sound rows decode, record by record. *)
Lemma records_decode rows :
  Forall (λ p, row_ok p.2) rows →
  ∃ recs, records_of rows = Ok recs ∧ Forall2 (λ p rec, record_matches p.1 p.2 rec) rows recs.
Proof.
  induction 1 as [|[id r] l Hr _ (recs & Hl & Hm)]; [by exists [] |].
  destruct (settlement_from_row_ok id r Hr) as (rec & Hrec & Hid & Hst & _ & _ & Hh & Hf).
  exists (rec :: recs). cbn. rewrite Hrec. cbn. rewrite Hl. split; [done |].
  constructor; [by repeat split | exact Hm].
Qed.



(** ** Looking a payment up *)

Definition same_identifier (client : N) (identifier : string) (r : Row) : Prop :=
  api_client_id (claim r) = client ∧ payment_identifier (claim r) = Some identifier.

(** The answer the lookup owes its caller, by the rows of the journal. *)
Inductive lookup_verdict (m : gmap N Row) (client : N) (identifier : option string)
  (hash fingerprint : string) : option ClaimOutcome → Prop :=
| verdict_replay id r rec :
    m !! id = Some r → settlement_from_row id r = Ok rec →
    match identifier with
    | Some i => same_identifier client i r
    | None => payment_hash (claim r) = hash ∧ api_client_id (claim r) = client
    end →
    request_fingerprint (claim r) = fingerprint →
    lookup_verdict m client identifier hash fingerprint (Some (Existing rec))
| verdict_identifier_conflict id r i :
    identifier = Some i → m !! id = Some r → same_identifier client i r →
    request_fingerprint (claim r) ≠ fingerprint →
    lookup_verdict m client identifier hash fingerprint (Some IdentifierConflict)
| verdict_duplicate id r :
    m !! id = Some r → payment_hash (claim r) = hash →
    match identifier with
    | Some i => ∀ id' r', m !! id' = Some r' → ¬ same_identifier client i r'
    | None => api_client_id (claim r) ≠ client ∨ request_fingerprint (claim r) ≠ fingerprint
    end →
    lookup_verdict m client identifier hash fingerprint (Some DuplicateSettlement)
| verdict_fresh :
    (∀ id r, m !! id = Some r → payment_hash (claim r) ≠ hash) →
    (∀ i id r, identifier = Some i → m !! id = Some r → ¬ same_identifier client i r) →
    lookup_verdict m client identifier hash fingerprint None.

(** The scan decides on the identifier's row wherever it is in the list, and
    otherwise on whether the hash was seen. *)
Lemma scan_existing_spec (m : gmap N Row) client i hash fingerprint seen rows :
  (∀ id r, (id, r) ∈ rows → m !! id = Some r ∧ row_ok r) →
  ((∃ id r rec, (id, r) ∈ rows ∧ same_identifier client i r ∧ settlement_from_row id r = Ok rec ∧
      scan_existing client i hash fingerprint seen rows
        = Ok (Some (if String.eqb (request_fingerprint (claim r)) fingerprint
                    then Existing rec else IdentifierConflict))) ∨
   ((∀ id r, (id, r) ∈ rows → ¬ same_identifier client i r) ∧
    ((seen = true ∨ ∃ id r, (id, r) ∈ rows ∧ payment_hash (claim r) = hash) ∧
       scan_existing client i hash fingerprint seen rows = Ok (Some DuplicateSettlement) ∨
     (seen = false ∧ (∀ id r, (id, r) ∈ rows → payment_hash (claim r) ≠ hash)) ∧
       scan_existing client i hash fingerprint seen rows = Ok None))).
Proof.
  revert seen. induction rows as [|[id r] rows IH]; intros seen Hrows; cbn [scan_existing].
  - right. split; [set_solver |]. destruct seen; [left | right]; (split; [| done]);
      [by left | split; [done | set_solver]].
  - destruct (Hrows id r) as [Hl Hok]; [set_solver |].
    destruct (settlement_from_row_ok id r Hok) as (rec & Hrec & _ & _ & Hc & Hi & Hh & Hf).
    rewrite Hrec. cbn [result_bind]. rewrite Hc, Hi, Hh, Hf.
    destruct (_ && _) eqn:E.
    + norm_bools. left. exists id, r, rec. split; [set_solver |]. split; [done |]. split; [done |].
      by destruct (String.eqb _ _).
    + assert (¬ same_identifier client i r) as Hno.
      { intros [H1 H2]. rewrite H1, H2, N.eqb_refl, bool_decide_eq_true_2 in E by done. done. }
      destruct (IH (seen || String.eqb (payment_hash (claim r)) hash)) as
        [(id' & r' & rec' & Hin & H)|(Hnone & [[Hs H]|[[Hs Hn] H]])].
      { intros id' r' Hin. apply Hrows. set_solver. }
      * left. exists id', r', rec'. split; [set_solver | done].
      * right. split; [set_solver |]. left. split; [| done].
        destruct Hs as [Hs|(id' & r' & Hin & He)]; [| right; exists id', r'; set_solver].
        apply orb_true_iff in Hs as [Hs|Hs%String.eqb_eq]; [by left |].
        right. exists id, r. set_solver.
      * right. split; [set_solver |]. right. split; [| done].
        apply orb_false_iff in Hs as [-> Hs%String.eqb_neq]. split; [done | set_solver].
Qed.

Lemma elem_of_rows_by_identifier_or_hash client i hash d id r :
  (id, r) ∈ rows_by_identifier_or_hash client i hash d ↔
  settlements d !! id = Some r ∧ (same_identifier client i r ∨ payment_hash (claim r) = hash).
Proof.
  unfold rows_by_identifier_or_hash, same_identifier.
  rewrite list_elem_of_filter, elem_of_map_to_list. cbn. tauto.
Qed.

Lemma elem_of_rows_by_hash hash d id r :
  (id, r) ∈ rows_by_hash hash d ↔ settlements d !! id = Some r ∧ payment_hash (claim r) = hash.
Proof. unfold rows_by_hash. rewrite list_elem_of_filter, elem_of_map_to_list. cbn. tauto. Qed.

Lemma lookup_by_identifier d client i hash fingerprint :
  db_inv d →
  ∃ o, scan_existing client i hash fingerprint false (rows_by_identifier_or_hash client i hash d)
         = Ok o ∧ lookup_verdict (settlements d) client (Some i) hash fingerprint o.
Proof.
  intros Hd.
  destruct (scan_existing_spec (settlements d) client i hash fingerprint false
              (rows_by_identifier_or_hash client i hash d))
    as [(id & r & rec & [Hl _]%elem_of_rows_by_identifier_or_hash & Hi & Hrec & ->)
       |(Hno & [[Hs ->]|[[_ Hn] ->]])].
  - intros id r [Hl _]%elem_of_rows_by_identifier_or_hash. split; [done | by apply (inv_rows d Hd id)].
  - eexists. split; [reflexivity |]. destruct (String.eqb_spec (request_fingerprint (claim r)) fingerprint).
    + by eapply verdict_replay.
    + by eapply verdict_identifier_conflict.
  - eexists. split; [reflexivity |]. destruct Hs as [|(id & r & Hin & Hh)]; [done |].
    eapply (verdict_duplicate _ _ _ _ _ id r); [by apply elem_of_rows_by_identifier_or_hash in Hin as [? _] | done |].
    intros id' r' Hl' Hi'. eapply Hno; [| exact Hi']. apply elem_of_rows_by_identifier_or_hash. eauto.
  - eexists. split; [reflexivity |]. apply verdict_fresh.
    + intros id r Hl Hh. eapply (Hn id r); [| done]. apply elem_of_rows_by_identifier_or_hash. eauto.
    + intros i' id r [= ->] Hl Hi. eapply (Hno id r); [| done]. apply elem_of_rows_by_identifier_or_hash. eauto.
Qed.

Lemma lookup_by_hash d client hash fingerprint :
  db_inv d →
  ∃ o, existing_by_hash client fingerprint (rows_by_hash hash d) = Ok o ∧
       lookup_verdict (settlements d) client None hash fingerprint o.
Proof.
  intros Hd. destruct (rows_by_hash hash d) as [|[id r] rest] eqn:E; cbn [existing_by_hash].
  - eexists. split; [reflexivity |]. apply verdict_fresh; [| done].
    intros id r Hl Hh. assert ((id, r) ∈ rows_by_hash hash d) as Hin by by apply elem_of_rows_by_hash.
    rewrite E in Hin. set_solver.
  - assert ((id, r) ∈ rows_by_hash hash d) as [Hl Hh]%elem_of_rows_by_hash by (rewrite E; set_solver).
    destruct (settlement_from_row_ok id r (inv_rows d Hd id r Hl)) as (rec & Hrec & _ & _ & Hc & _ & _ & Hf).
    rewrite Hrec. cbn [result_bind]. rewrite Hc, Hf.
    destruct (N.eqb_spec (api_client_id (claim r)) client), (String.eqb_spec (request_fingerprint (claim r)) fingerprint);
      cbn [andb]; (eexists; split; [reflexivity |]);
      [by eapply verdict_replay | | |]; eapply (verdict_duplicate _ _ _ _ _ id r); eauto.
Qed.

Lemma find_existing_calm client identifier hash fingerprint env n w :
  calm env → db_inv (db w) →
  ∃ o, find_existing_settlement client identifier hash fingerprint env n w = (Done (Ok o), S n, w) ∧
       lookup_verdict (settlements (db w)) client identifier hash fingerprint o.
Proof.
  intros Hc Hd. unfold find_existing_settlement, bind_ok, bind.
  destruct identifier as [i|]; rewrite calm_select by done; cbn.
  - destruct (lookup_by_identifier (db w) client i hash fingerprint Hd) as (o & -> & Hv). eauto.
  - destruct (lookup_by_hash (db w) client hash fingerprint Hd) as (o & -> & Hv). eauto.
Qed.

(** The lookup that guards every settle request answers from the journal alone,
    whatever order the database returns the rows in: the stored settlement for the
    same client, key and request; a conflict for a reused identifier with another
    request; a duplicate for a payment somebody already claimed; nothing otherwise. *)
Theorem find_existing_settlement_verdict client identifier hash fingerprint env n w :
  calm env → reachable w →
  ∃ o, find_existing_settlement client identifier hash fingerprint env n w = (Done (Ok o), S n, w) ∧
       lookup_verdict (settlements (db w)) client identifier hash fingerprint o.
Proof. intros Hc [Hd _]%reachable_inv. by apply find_existing_calm. Qed.

Lemma find_existing_settlement_verdict_witness :
  ∃ o, find_existing_settlement 7 (Some "identifier-000000") hash_a "another fingerprint"
         (quiet_env World) 0%nat (journal claimed_a) = (Done (Ok o), 1%nat, journal claimed_a) ∧
       lookup_verdict (settlements (db (journal claimed_a))) 7 (Some "identifier-000000") hash_a
         "another fingerprint" o.
Proof.
  apply find_existing_settlement_verdict; [apply quiet_calm | apply journal_reachable].
Defined.

(** ** Claiming a fresh payment *)

Lemma unique_conflict_none m id r :
  unique_conflict m id r = None →
  key_taken key_payment_hash id (key_payment_hash r) m = false ∧
  key_taken key_identifier id (key_identifier r) m = false ∧
  key_taken key_anchor id (key_anchor r) m = false ∧
  key_taken key_active_signer id (key_active_signer r) m = false.
Proof. unfold unique_conflict. intros H. repeat case_match; try discriminate. done. Qed.

(** No row of the journal has the key [k]. *)
Lemma key_free `{EqDecision K} (key : Row → option K) (m : gmap N Row) id r k :
  key_taken key id (key r) m = false → m !! id = None → key r = Some k →
  ∀ i x, m !! i = Some x → key x ≠ Some k.
Proof.
  intros Ht Hn Hk i x Hx. rewrite Hk in Ht. apply (key_taken_false _ _ _ _ Ht i x Hx).
  intros ->. congruence.
Qed.

Section fresh_claim.
Context (new : NewSettlement) (t : Z) (row : Row) (d : Database_).
Context (Hrow : reserved_row new (date_of t) t = Ok row).
Context (Hfree : settlements d !! new_id new = None).
Context (Huniq : unique_conflict (settlements d) (new_id new) row = None).
Context (Hd : db_inv d).

Lemma reserved_row_claim :
  api_client_id (claim row) = new_api_client_id new ∧
  payment_identifier (claim row) = new_payment_identifier new ∧
  payment_hash (claim row) = new_payment_hash new ∧
  anchor_scope (claim row) = new_anchor_scope new ∧
  anchor_value (claim row) = new_anchor_value new ∧
  chain_kind (claim row) = new_chain_kind new ∧
  network (claim row) = new_network new ∧
  signer_address (claim row) = new_signer_address new ∧
  state row = Reserved.
Proof using Hrow. pose proof Hrow as H. unfold reserved_row in H. result_inv. injection H as H. by rewrite <- H. Qed.

Lemma fresh_lookup o :
  lookup_verdict (settlements d) (new_api_client_id new) (new_payment_identifier new)
    (new_payment_hash new) (new_request_fingerprint new) o → o = None.
Proof using Hrow Hfree Huniq.
  destruct reserved_row_claim as (Hc & Hi & Hh & _).
  destruct (unique_conflict_none _ _ _ Huniq) as (Uh & Ui & _ & _).
  assert (∀ i x, settlements d !! i = Some x → payment_hash (claim x) ≠ new_payment_hash new) as Fh.
  { intros i x Hx He. eapply (key_free _ _ _ _ _ Uh Hfree eq_refl i x Hx).
    unfold key_payment_hash. by rewrite He, Hh. }
  assert (∀ p i x, new_payment_identifier new = Some p → settlements d !! i = Some x →
            ¬ same_identifier (new_api_client_id new) p x) as Fi.
  { intros p i x Hp Hx [H1 H2].
    eapply (key_free key_identifier _ _ _ (new_api_client_id new, p) Ui Hfree) with (i := i) (x := x);
      [unfold key_identifier; by rewrite Hi, Hp, Hc | done |].
    unfold key_identifier. by rewrite H2, H1. }
  intros []; [| | | done]; exfalso.
  - destruct (new_payment_identifier new); [by eapply Fi | by eapply Fh; [| apply H1]].
  - by eapply Fi.
  - by eapply Fh.
Qed.

Lemma fresh_anchor : anchor_claimed (new_anchor_scope new) (new_anchor_value new) d = false.
Proof using Hrow Hfree Huniq.
  destruct reserved_row_claim as (_ & _ & _ & Hs & Hv & _).
  destruct (unique_conflict_none _ _ _ Huniq) as (_ & _ & Ua & _).
  apply not_true_iff_false. unfold anchor_claimed. rewrite existsb_map_to_list_true.
  intros (i & x & Hx & [H1%String.eqb_eq H2%String.eqb_eq]%andb_true_iff). cbn in *.
  eapply (key_free key_anchor _ _ _ _ Ua Hfree eq_refl i x Hx).
  unfold key_anchor. by rewrite H1, H2, Hs, Hv.
Qed.

Lemma fresh_signer s :
  new_chain_kind new = Eip155 → new_signer_address new = Some s →
  signer_active (new_network new) s d = false.
Proof using Hrow Hfree Huniq.
  intros Hk Hs. destruct reserved_row_claim as (_ & _ & _ & _ & _ & Ck & Cn & Cs & St).
  destruct (unique_conflict_none _ _ _ Huniq) as (_ & _ & _ & Us).
  apply not_true_iff_false. unfold signer_active. rewrite existsb_map_to_list_true.
  intros (i & x & Hx & H1%bool_decide_eq_true). cbn in *.
  eapply (key_free key_active_signer _ _ _ _ Us Hfree _ i x Hx H1).
  Unshelve. unfold key_active_signer, lower_signer.
  rewrite Ck, Cn, Cs, St, Hk, Hs, bool_decide_eq_true_2 by done. done.
Qed.
End fresh_claim.

(** The journal after a claim: the reserved row, both ledgers, one event. *)
Definition claimed_db (new : NewSettlement) (date : Z) (row : Row) (g c : Ledger) (d : Database_)
  : Database_ :=
  with_events (settlement_events d ++ [MkEvent (new_id new) None Reserved (Some "claimed") empty_object])
    (with_client (<[(date, new_api_client_id new) := c]> (client_sponsorship d))
      (with_global (<[date := g]> (global_sponsorship d))
        (with_settlements (<[new_id new := row]> (settlements d)) d))).

Lemma numeric_in_ok s : is_decimal s = true → numeric_in s = Ok (dec_value s).
Proof. unfold numeric_in. by intros ->. Qed.

Section fresh_claim_run.
Context (new : NewSettlement) (t : Z) (row : Row) (g c : Ledger) (env : Env World).
Context (Hcalm : calm env) (Hclock : ∀ k, clock env k = t).
Context (Hrow : reserved_row new (date_of t) t = Ok row) (Hcheck : check_row row = true).
Context (Hnum : is_decimal (new_reservation_yocto_near new) = true)
        (Hgl : is_decimal (new_global_daily_budget_yocto_near new) = true)
        (Hcl : is_decimal (new_client_daily_budget_yocto_near new) = true).

(** The claiming block commits. *)
Lemma claim_tx_fresh d n :
  settlements d !! new_id new = None →
  unique_conflict (settlements d) (new_id new) row = None →
  is_Some (api_clients d !! new_api_client_id new) →
  reserve_ledger (global_sponsorship d !! date_of t) (dec_value (new_reservation_yocto_near new))
    (dec_value (new_global_daily_budget_yocto_near new)) = Ok (Some g) →
  reserve_ledger (client_sponsorship d !! (date_of t, new_api_client_id new))
    (dec_value (new_reservation_yocto_near new))
    (dec_value (new_client_daily_budget_yocto_near new)) = Ok (Some c) →
  ∃ n', claim_tx new (date_of t) env n d
          = (Done (Ok (Commit (Ok Claimed), claimed_db new (date_of t) row g c d)), n').
Proof using Hcalm Hclock Hrow Hcheck Hnum Hgl Hcl.
  intros Hfree Hu Hcli Hg Hc. destruct (reserved_row_claim new t row Hrow) as (Ec & _).
  unfold claim_tx.
  erewrite calm_tx_bind by (unfold tx_now; rewrite Hclock; reflexivity).
  erewrite calm_tx_bind; cycle 1.
  { rewrite calm_stmt by done. unfold insert_reserved. rewrite Hrow. cbn [result_bind].
    unfold insert_settlement. rewrite Hcheck, Hfree, Hu, Ec, (bool_decide_eq_true_2 _ Hcli).
    reflexivity. }
  change (1 =? 0) with false. cbv iota.
  erewrite calm_tx_bind; cycle 1.
  { rewrite calm_stmt by done. unfold reserve_global_budget.
    rewrite !numeric_in_ok by done. cbn [result_bind]. cbn [global_sponsorship with_settlements].
    rewrite Hg. reflexivity. }
  cbn [negb].
  erewrite calm_tx_bind; cycle 1.
  { rewrite calm_stmt by done. unfold reserve_client_budget.
    rewrite !numeric_in_ok by done. cbn [result_bind].
    cbn [client_sponsorship with_settlements with_global api_clients].
    rewrite Hc. cbn [result_bind]. rewrite (bool_decide_eq_true_2 _ Hcli). reflexivity. }
  cbn [negb].
  erewrite calm_tx_bind by (rewrite calm_stmt by done; reflexivity).
  eexists. reflexivity.
Qed.
End fresh_claim_run.

(** The signer of a fresh claim is free. *)
Lemma signer_free_run new t row env n w :
  calm env → reserved_row new (date_of t) t = Ok row →
  settlements (db w) !! new_id new = None →
  unique_conflict (settlements (db w)) (new_id new) row = None →
  ∃ n', active_evm_signer_exists (new_chain_kind new) (new_network new) (new_signer_address new)
          env n w = (Done (Ok false), n', w).
Proof.
  intros Hcalm Hrow Hfree Hu. unfold active_evm_signer_exists.
  case_bool_decide as Hk; cbn [negb]; [| by eexists].
  destruct (new_signer_address new) as [s|] eqn:Hs; [| by eexists].
  rewrite calm_select by done. erewrite fresh_signer by done. by eexists.
Qed.

(** A fresh payment is claimed: when its row passes the schema's checks, none of
    its keys is taken and both budgets have room, the claim commits the reserved
    row, the two ledger entries and the [claimed] event together, and returns the
    record of that row. *)
Theorem claim_settlement_fresh new t row g c env n w :
  calm env → (∀ k, clock env k = t) → reachable w → metadata_version_ok new = true →
  reserved_row new (date_of t) t = Ok row → check_row row = true →
  is_decimal (new_reservation_yocto_near new) = true →
  is_decimal (new_global_daily_budget_yocto_near new) = true →
  is_decimal (new_client_daily_budget_yocto_near new) = true →
  settlements (db w) !! new_id new = None →
  unique_conflict (settlements (db w)) (new_id new) row = None →
  is_Some (api_clients (db w) !! new_api_client_id new) →
  reserve_ledger (global_sponsorship (db w) !! date_of t)
    (dec_value (new_reservation_yocto_near new))
    (dec_value (new_global_daily_budget_yocto_near new)) = Ok (Some g) →
  reserve_ledger (client_sponsorship (db w) !! (date_of t, new_api_client_id new))
    (dec_value (new_reservation_yocto_near new))
    (dec_value (new_client_daily_budget_yocto_near new)) = Ok (Some c) →
  ∃ rec n', claim_settlement new env n w
      = (Done (Ok (New rec)), n', with_db (claimed_db new (date_of t) row g c (db w)) w) ∧
    settlement_from_row (new_id new) row = Ok rec ∧ Rec.state rec = Reserved.
Proof.
  intros Hcalm Hclock Hw Hv Hrow Hck Hn1 Hn2 Hn3 Hfree Hu Hcli Hg Hc.
  pose proof (reachable_inv w Hw) as [Hd _].
  destruct (settlement_from_row_ok (new_id new) row) as (rec & Hrec & _ & Hst & _).
  { destruct (reserved_row_inv _ _ _ _ Hrow) as (Hs & _ & _ & _ & Hns & Hes & Ht).
    split_and!; [done | done | done | by eapply reserved_row_readable |]. rewrite Hns, Hes. by destruct (chain_kind _). }
  destruct (find_existing_calm (new_api_client_id new) (new_payment_identifier new)
              (new_payment_hash new) (new_request_fingerprint new) env n w Hcalm Hd)
    as (o & Hlook & Hverdict).
  apply (fresh_lookup new t row (db w) Hrow Hfree Hu) in Hverdict. subst o.
  destruct (signer_free_run new t row env (S (S n)) w Hcalm Hrow Hfree Hu) as (n1 & Hbusy).
  destruct (claim_tx_fresh new t row g c env Hcalm Hclock Hrow Hck Hn1 Hn2 Hn3 (db w)
              (S n1) Hfree Hu Hcli Hg Hc) as (n2 & Htx).
  unfold claim_settlement. apply negb_true_iff in Hv. rewrite Hv.
  erewrite bind_ok_done by exact Hlook. cbv iota beta.
  erewrite bind_ok_done by (unfold anchor_is_claimed; by rewrite calm_select). cbv beta.
  rewrite (fresh_anchor new t row (db w)) by done.
  erewrite bind_ok_done by exact Hbusy. cbv iota beta.
  erewrite bind_done by (unfold now; by rewrite Hclock). cbv beta.
  erewrite bind_ok_done by (by apply calm_commit). cbv iota beta.
  exists rec. eexists. split; [| split; [done | destruct (reserved_row_inv _ _ _ _ Hrow); congruence]].
  erewrite (bind_ok_done (settlement _) _ _ _ _ (Some rec)); [reflexivity |].
  unfold settlement, select_row. erewrite bind_ok_done by (by apply calm_select).
  cbn -[base.insert]. rewrite lookup_insert_eq. cbn [record_of]. rewrite Hrec. reflexivity.
Qed.

Lemma claim_settlement_fresh_witness :
  ∃ rec n' w', claim_settlement payment_a (quiet_env World) 0%nat world_0
      = (Done (Ok (New rec)), n', w') ∧ Rec.state rec = Reserved.
Proof.
  destruct (reserved_row payment_a (date_of 0) 0) as [row|] eqn:E; [| vm_compute in E; discriminate].
  assert (reachable world_0) as Hw by (exists world_0; [done | apply rtc_refl]).
  destruct (claim_settlement_fresh payment_a 0 row (MkLedger 40 0) (MkLedger 40 0)
              (quiet_env World) 0%nat world_0) as (rec & n' & H & _ & Hs);
    try exact E; try exact Hw; try apply quiet_calm; try done;
    try (vm_compute in E; injection E as <-; vm_compute; reflexivity); try (by eexists).
  eauto.
Defined.

(** ** Relinquishing a claim *)

(** A row may keep its own keys. *)
Lemma key_taken_own `{EqDecision K} (key : Row → option K) m id r r' :
  index_unique key m → m !! id = Some r → key r' = key r ∨ key r' = None →
  key_taken key id (key r') m = false.
Proof.
  intros Hu Hl Hk. apply not_true_iff_false. intros Ht.
  destruct (key r') as [k|] eqn:E; [| done].
  apply key_taken_true in Ht as (i & x & Hx & Hne & Kx).
  destruct Hk as [Hk|]; [| done]. by apply Hne, (Hu i id x r k).
Qed.

(** An update that keeps the claim and the nonces, and does not wake the row,
    takes no key of another row. *)
Lemma update_no_conflict m id r r' :
  unique_inv m → m !! id = Some r → claim r' = claim r →
  near_submission r' = near_submission r →
  signer_account_nonce (evm_submission r') = signer_account_nonce (evm_submission r) →
  state r' = state r ∨ is_active (state r') = false → unique_conflict m id r' = None.
Proof.
  intros [] Hl Hc Hn He Hs. unfold unique_conflict.
  rewrite (key_taken_own key_payment_hash m id r) by (done || left; unfold key_payment_hash; by rewrite Hc).
  rewrite (key_taken_own key_identifier m id r) by (done || left; unfold key_identifier; by rewrite Hc).
  rewrite (key_taken_own key_relayer_nonce m id r)
    by (done || left; unfold key_relayer_nonce; by rewrite Hc, Hn).
  rewrite (key_taken_own key_anchor m id r) by (done || left; unfold key_anchor; by rewrite Hc).
  rewrite (key_taken_own key_active_signer m id r); [| done | done |].
  { by rewrite (key_taken_own key_signer_nonce m id r)
      by (done || left; unfold key_signer_nonce, lower_signer; by rewrite Hc, He). }
  unfold key_active_signer, lower_signer. rewrite Hc. destruct Hs as [->| ->]; [by left |].
  right. by rewrite andb_false_r.
Qed.

Lemma relinquish_check r code t :
  row_ok r → state r = Reserved → check_row (to_awaiting_retry code t r) = true.
Proof.
  intros (Hck & Hdorm & _) Hs. rewrite Hs in Hdorm. destruct (Hdorm eq_refl) as [Hn He].
  unfold check_row in *. norm_bools.
  rewrite !andb_true_iff. split_and!; try done.
  - unfold awaiting_retry_check. cbn. by rewrite Hn, He.
  - unfold evm_success_check. cbn. by destruct (chain_kind (claim r)).
  - unfold numeric_check in *. norm_bools. rewrite !andb_true_iff. done.
Qed.

Lemma release_ledger_ok l r a :
  r <= ledger_reserved l → ledger_check l = true → numeric_fits 40 (ledger_spent l + a) = true →
  release_ledger (Some l) r a = Ok (Some (MkLedger (ledger_reserved l - r) (ledger_spent l + a))).
Proof.
  intros Hr Hck Hs. unfold release_ledger. rewrite (proj2 (N.leb_le _ _) Hr).
  assert (ledger_check (MkLedger (ledger_reserved l - r) (ledger_spent l + a)) = true) as ->; [| done].
  unfold ledger_check in *. cbn [ledger_reserved ledger_spent]. rewrite Hs, andb_true_r.
  unfold numeric_fits in *. norm_bools.
  repeat match goal with H : (_ <? _) = true |- _ => apply N.ltb_lt in H end. apply N.ltb_lt. lia.
Qed.

(** The day's ledgers have room for [actual] more. *)
Definition day_has_room (d : Database_) (r : Row) (actual : N) : Prop :=
  (∀ g, global_sponsorship d !! reservation_date r = Some g →
     numeric_fits 40 (ledger_spent g + actual) = true) ∧
  (∀ c, client_sponsorship d !! (reservation_date r, api_client_id (claim r)) = Some c →
     numeric_fits 40 (ledger_spent c + actual) = true).

Lemma nothing_has_room d r : ledger_inv d → day_has_room d r 0.
Proof.
  intros [_ _ _ [Kg Kc]].
  split; [intros g Hg; specialize (Kg _ _ Hg) as K | intros c Hc; specialize (Kc _ _ Hc) as K];
    unfold ledger_check in K; norm_bools; by rewrite N.add_0_r.
Qed.

(** The ledgers of [d'] are those of [d], having spent the same. *)
Definition same_spent (d d' : Database_) : Prop :=
  (∀ k g', global_sponsorship d' !! k = Some g' →
     ∃ g, global_sponsorship d !! k = Some g ∧ ledger_spent g' = ledger_spent g) ∧
  (∀ k c', client_sponsorship d' !! k = Some c' →
     ∃ c, client_sponsorship d !! k = Some c ∧ ledger_spent c' = ledger_spent c).

#[export] Instance same_spent_preorder : PreOrder same_spent.
Proof.
  split; [intros d; split; eauto |]. intros a b c [G1 C1] [G2 C2]. split.
  - intros k g (g1 & (g0 & Hg0 & E0)%G1 & E1)%G2. exists g0. split; [done | congruence].
  - intros k g (g1 & (g0 & Hg0 & E0)%C1 & E1)%C2. exists g0. split; [done | congruence].
Qed.

Lemma same_spent_room d d' r r' a :
  same_spent d d' → reservation_date r' = reservation_date r →
  api_client_id (claim r') = api_client_id (claim r) → day_has_room d r a → day_has_room d' r' a.
Proof.
  intros [G C] Hd Hc [Rg Rc]. unfold day_has_room. rewrite Hd, Hc.
  split; [intros g (g0 & Hg & ->)%G | intros c (c0 & Hg & ->)%C]; eauto.
Qed.

(** The ledgers of an active row cover what it holds. *)
Lemma active_row_covered d id r :
  ledger_inv d → settlements d !! id = Some r → is_active (state r) = true →
  ∃ g c, global_sponsorship d !! reservation_date r = Some g ∧
         client_sponsorship d !! (reservation_date r, api_client_id (claim r)) = Some c ∧
         reserved_yocto_near r <= ledger_reserved g ∧ reserved_yocto_near r <= ledger_reserved c ∧
         ledger_check g = true ∧ ledger_check c = true.
Proof.
  intros [Hg Hc Hp [Kg Kc]] Hl Ha. destruct (Hp id r Hl Ha) as [[g Eg] [c Ec]]. exists g, c.
  specialize (Hg (reservation_date r)). specialize (Hc (reservation_date r, api_client_id (claim r))).
  rewrite Eg in Hg. rewrite Ec in Hc. cbn in Hg, Hc.
  pose proof (total_lookup (held_global (reservation_date r)) _ _ _ Hl) as Tg.
  pose proof (total_lookup (held_client (reservation_date r, api_client_id (claim r))) _ _ _ Hl) as Tc.
  assert (held_global (reservation_date r) r = reserved_yocto_near r) as Rg
    by (unfold held_global; by rewrite Ha, Z.eqb_refl).
  assert (held_client (reservation_date r, api_client_id (claim r)) r = reserved_yocto_near r) as Rc
    by (unfold held_client; cbn; by rewrite Ha, Z.eqb_refl, N.eqb_refl).
  rewrite Rg, <- Hg in Tg. rewrite Rc, <- Hc in Tc.
  split_and!; [done | done | done | done | by apply (Kg _ _ Eg) | by apply (Kc _ _ Ec)].
Qed.

Lemma release_budget_ok d id r actual env n :
  calm env → ledger_inv d → settlements d !! id = Some r → is_active (state r) = true →
  is_decimal actual = true → day_has_room d r (dec_value actual) →
  ∃ g c n', release_budget (reservation_date r) (api_client_id (claim r))
    (numeric_out (reserved_yocto_near r)) actual env n d
    = (Done (Ok (tt, with_client (<[(reservation_date r, api_client_id (claim r)) := c]> (client_sponsorship d))
                       (with_global (<[reservation_date r := g]> (global_sponsorship d)) d))), n') ∧
    (∃ g0, global_sponsorship d !! reservation_date r = Some g0 ∧
       ledger_spent g = ledger_spent g0 + dec_value actual) ∧
    (∃ c0, client_sponsorship d !! (reservation_date r, api_client_id (claim r)) = Some c0 ∧
       ledger_spent c = ledger_spent c0 + dec_value actual).
Proof.
  intros Hcalm Hd Hl Ha Hdec [Hg Hc].
  destruct (active_row_covered d id r Hd Hl Ha) as (g & c & Eg & Ec & Lg & Lc & Kg & Kc).
  pose proof (release_ledger_ok g _ _ Lg Kg (Hg g Eg)) as Rg.
  pose proof (release_ledger_ok c _ _ Lc Kc (Hc c Ec)) as Rc.
  eexists (MkLedger _ (ledger_spent g + dec_value actual)), (MkLedger _ (ledger_spent c + dec_value actual)), _.
  split; [| split; [by exists g | by exists c]]. unfold release_budget.
  erewrite calm_tx_bind; cycle 1.
  { rewrite calm_stmt by done. unfold release_global, numeric_out.
    rewrite !numeric_in_ok by (done || apply is_decimal_to_decimal). cbn [result_bind].
    rewrite dec_value_to_decimal, Eg, Rg. reflexivity. }
  erewrite calm_tx_bind; cycle 1.
  { rewrite calm_stmt by done. unfold release_client, numeric_out.
    rewrite !numeric_in_ok by (done || apply is_decimal_to_decimal). cbn [result_bind].
    cbn [client_sponsorship with_global]. rewrite dec_value_to_decimal, Ec, Rc. reflexivity. }
  reflexivity.
Qed.

(** A claim that has not been signed can always be given back: its ledger rows are
    there and cover it, no constraint refuses it, and only its row and event change. *)
Lemma relinquish_succeeds id code r env n w :
  calm env → world_inv w → settlements (db w) !! id = Some r → state r = Reserved →
  is_empty code = false →
  ∃ n' d' t, mark_awaiting_retry id code env n w = (Done (Ok tt), n', with_db d' w) ∧
    settlements d' = <[id := to_awaiting_retry code t r]> (settlements (db w)) ∧ same_spent (db w) d'.
Proof.
  intros Hcalm [Hd _] Hl Hs Hcode.
  destruct (release_budget_ok (db w) id r "0" env (S (S n)) Hcalm (inv_ledgers _ Hd) Hl)
    as (g & c & n1 & Hrel & (g0 & Eg & Sg) & (c0 & Ec & Sc)); [by rewrite Hs | done | by apply nothing_has_room, inv_ledgers |].
  pose proof (inv_rows _ Hd id r Hl) as Hok.
  unfold mark_awaiting_retry. rewrite Hcode. do 3 eexists. split.
  - eapply calm_commit; [done |]. unfold awaiting_retry_tx.
    erewrite calm_tx_bind by (rewrite calm_stmt by done; reflexivity). cbv beta.
    rewrite Hl, Hs, bool_decide_eq_true_2 by done. cbn [negb].
    erewrite calm_tx_bind by exact Hrel.
    erewrite calm_tx_bind by (unfold tx_now; reflexivity).
    erewrite calm_tx_bind; cycle 1.
    { rewrite calm_stmt by done. unfold update_settlement. cbn [settlements with_client with_global].
      rewrite Hl, Hs, bool_decide_eq_true_2 by done. rewrite relinquish_check by done.
      rewrite (update_no_conflict _ id r) by (done || apply Hd || by right). reflexivity. }
    change (negb (1 =? 1)) with false. cbv iota.
    erewrite calm_tx_bind by (rewrite calm_stmt by done; reflexivity). reflexivity.
  - split; [reflexivity |]. change (dec_value "0") with 0 in *.
    split; cbn -[base.insert]; intros k x; rewrite lookup_insert_Some; intros [[<- <-]|[_ Hx]]; eauto;
      [exists g0 | exists c0]; split; try done; lia.
Qed.

(** *** Concluding a signed settlement *)

Lemma conclude_check r to cols t :
  row_ok r → is_signed (state r) = true → is_terminal to = true →
  is_Some (terminal_http_status cols) → is_Some (terminal_response_bytes cols) →
  is_Some (finalized_at cols) →
  opt_fits 40 (gas_burnt cols) = true → opt_fits 40 (tokens_burnt cols) = true →
  opt_fits 20 (mined_block_number cols) = true →
  is_none_or (confirmations cols) (λ z, (0 <=? z)%Z && in_i32 z) = true →
  evm_success_check (to_terminal to cols t r) = true →
  check_row (to_terminal to cols t r) = true.
Proof.
  intros (Hck & _) Hs Ht H1 H2 H3 Hg Hk Hb Hc He. unfold check_row in *. norm_bools.
  rewrite !andb_true_iff. split_and!; try done.
  - unfold submission_check in *. cbn. destruct (state r), to; done.
  - unfold awaiting_retry_check. cbn. by destruct to.
  - unfold terminal_check. cbn. rewrite Ht. by rewrite !bool_decide_eq_true_2.
  - unfold counters_check in *. cbn in *. norm_bools. rewrite !andb_true_iff.
    repeat match goal with H : is_none_or _ _ = true |- _ => rewrite H; clear H end. done.
  - unfold numeric_check in *. cbn in *. norm_bools. rewrite !andb_true_iff. done.
Qed.

(** What a terminal entry needs to be stored on [r]. *)
Record storable (d : Database_) (r : Row) (e : TerminalJournalEntry) (status : N)
  (cols : Z → TerminalColumns) : Prop := MkStorable {
  st_state : is_terminal (term_state e) = true;
  st_status : try_from i16_max (term_http_status e) = Some status;
  st_actual : is_decimal (term_actual_yocto_near e) = true;
  st_room : day_has_room d r (dec_value (term_actual_yocto_near e));
  st_values : ∃ gas tokens block,
    numeric_in (default "0" (term_gas_burnt e)) = Ok gas ∧
    numeric_in (default "0" (term_tokens_burnt e)) = Ok tokens ∧
    numeric_in_opt (term_mined_block_number e) = Ok block ∧
    (∀ t, cols t = MkTerminal (Some status) (Some (term_response_bytes e)) (term_error_code e)
       (term_error_detail e) (Some gas) (Some tokens) block (term_mined_block_hash e)
       (term_confirmations e) (Some t));
  st_check : ∀ t, check_row (to_terminal (term_state e) (cols t) t r) = true
}.

Lemma conclude_succeeds e r status cols env n w :
  calm env → world_inv w → settlements (db w) !! term_settlement_id e = Some r →
  is_signed (state r) = true → storable (db w) r e status cols →
  ∃ n' d' t, mark_terminal e env n w = (Done (Ok tt), n', with_db d' w) ∧
    settlements d' = <[term_settlement_id e := to_terminal (term_state e) (cols t) t r]> (settlements (db w)).
Proof.
  intros Hcalm [Hd _] Hl Hs [Ht Hst Hdec Hroom (gas & tokens & block & Hg & Hk & Hb & Hcols) Hck].
  destruct (release_budget_ok (db w) _ r (term_actual_yocto_near e) env (S (S n)) Hcalm
              (inv_ledgers _ Hd) Hl) as (g & c & n1 & Hrel & _); [by destruct (state r) | done | done |].
  unfold mark_terminal. rewrite Ht. cbn [negb]. do 3 eexists. split.
  - eapply calm_commit; [done |]. unfold terminal_tx.
    erewrite calm_tx_bind by (rewrite calm_stmt by done; reflexivity). cbv beta. rewrite Hl.
    replace (is_terminal (state r)) with false by (by destruct (state r)).
    replace (transition_allowed (state r) (term_state e)) with true
      by (by destruct (state r), (term_state e)). cbn [negb].
    erewrite calm_tx_bind by exact Hrel. cbv beta. rewrite Hst.
    erewrite calm_tx_bind by (unfold tx_now; reflexivity).
    erewrite calm_tx_bind; cycle 1.
    { rewrite calm_stmt by done. unfold update_terminal. rewrite Hg, Hk, Hb. cbn [result_bind].
      rewrite <- Hcols. unfold update_settlement. cbn [settlements with_client with_global]. rewrite Hl, Hck.
      rewrite (update_no_conflict _ _ r) by (done || apply Hd || (right; by destruct (term_state e))).
      reflexivity. }
    erewrite calm_tx_bind by (rewrite calm_stmt by done; reflexivity). reflexivity.
  - reflexivity.
Qed.

(** C30: the daily budgets are never exceeded by a reservation: whenever the claiming
    block commits, what the day has reserved and spent, globally and for the client,
    this claim included, is within the configured limits. *)
Theorem claim_within_budgets new date env n d r d' n' :
  claim_tx new date env n d = (Done (Ok (Commit r, d')), n') →
  ∃ g c, global_sponsorship d' !! date = Some g ∧
    client_sponsorship d' !! (date, new_api_client_id new) = Some c ∧
    ledger_reserved g + ledger_spent g <= dec_value (new_global_daily_budget_yocto_near new) ∧
    ledger_reserved c + ledger_spent c <= dec_value (new_client_daily_budget_yocto_near new) ∧
    ledger_reserved g = reserved_at (global_sponsorship d !! date)
                        + dec_value (new_reservation_yocto_near new).
Proof.
  intros H. unfold claim_tx in H. tx_inv; try done. stmt_inv.
  unfold insert_reserved in *. result_inv.
  match goal with H : insert_settlement _ _ _ = _ |- _ =>
    apply insert_settlement_inv in H as [[? ?]|(-> & _ & _ & _ & _ & ->)]; [done |] end.
  eexists _, _. cbn -[base.insert]. rewrite !lookup_insert_eq. eauto.
Qed.

Lemma claim_within_budgets_witness :
  ∃ r d' n', claim_tx payment_a 0 (quiet_env World) 0%nat empty_db = (Done (Ok (Commit r, d')), n') ∧
    ∃ g, global_sponsorship d' !! 0%Z = Some g ∧ ledger_reserved g + ledger_spent g <= 100.
Proof.
  destruct (claim_tx payment_a 0 (quiet_env World) 0%nat empty_db) as [[[[[r|r] d']|]|] n'] eqn:E;
    try (vm_compute in E; discriminate).
  exists r, d', n'. split; [done |].
  destruct (claim_within_budgets _ _ _ _ _ _ _ _ E) as (g & c & H1 & _ & H2 & _). eauto.
Defined.

End StoreSpec.
