(* ===== verification/Contract.v ===== *)
(** * The settlement contract

    What the facilitator promises about payments, as a transition system of its own: a
    book of claims, each in a phase, and the list of what was handed to a chain.  The
    journal and the wire of every world map onto it, and moving up the journal's order
    between consistent worlds is a run of it. *)

From stdpp Require Import base gmap strings list numbers relations.
From Stdlib Require Import Lia NArith ZArith Ascii String.
From S2P Require Import Prelude Text Json Readiness Schema Sql Store Journal StoreProofs.

Open Scope string_scope.
Open Scope list_scope.
Open Scope N_scope.

Module Contract.
Import Journal StoreProofs.

(** ** The contract *)

(** The stored answer: its status and its bytes. *)
Definition Answer : Type := option N * option string.

Inductive Phase : Type :=
| Open
| Dormant
| Signed (transaction : string)
| Launched (transaction : string)
| Closed (transaction : option string) (success : bool) (answer : Answer).

Inductive phase_step : relation Phase :=
| relinquish : phase_step Open Dormant
| resume : phase_step Dormant Open
| refuse answer : phase_step Open (Closed None false answer)
| sign t : phase_step Open (Signed t)
| launch t : phase_step (Signed t) (Launched t)
| conclude_signed t success answer : phase_step (Signed t) (Closed (Some t) success answer)
| conclude_launched t success answer : phase_step (Launched t) (Closed (Some t) success answer).

(** The transaction that may be handed to a chain in a phase. *)
Definition sendable (p : Phase) : option string :=
  match p with Launched t | Closed (Some t) _ _ => Some t | _ => None end.

(** Two claims to the same payment: the same payload, the same authorization, or the
    same identifier of one client. *)
Definition same_payment (c c' : ClaimColumns) : Prop :=
  payment_hash c = payment_hash c' ∨
  (anchor_scope c = anchor_scope c' ∧ anchor_value c = anchor_value c') ∨
  (api_client_id c = api_client_id c' ∧
   is_Some (payment_identifier c) ∧ payment_identifier c = payment_identifier c').

Record Ledgerbook : Type := MkBook {
  entries : gmap N (ClaimColumns * Phase);
  sent : list Sent
}.

Definition empty_book : Ledgerbook := MkBook ∅ [].

Inductive contract_step : relation Ledgerbook :=
| claim_payment m l id c :
    m !! id = None → (∀ j c' p, m !! j = Some (c', p) → ¬ same_payment c c') →
    contract_step (MkBook m l) (MkBook (<[id := (c, Open)]> m) l)
| advance m l id c p p' :
    m !! id = Some (c, p) → phase_step p p' →
    contract_step (MkBook m l) (MkBook (<[id := (c, p')]> m) l)
| send m l id c p t :
    m !! id = Some (c, p) → sendable p = Some t →
    contract_step (MkBook m l) (MkBook m (l ++ [MkSent id t])).

(** *** What the contract guarantees on its own *)

Record honoured (b : Ledgerbook) : Prop := MkHonoured {
  one_claim : ∀ i j ci pi cj pj, entries b !! i = Some (ci, pi) → entries b !! j = Some (cj, pj) →
    same_payment ci cj → i = j;
  sent_signed : ∀ x, x ∈ sent b →
    ∃ c p, entries b !! sent_settlement x = Some (c, p) ∧ sendable p = Some (sent_bytes x)
}.

Lemma same_payment_sym c c' : same_payment c c' → same_payment c' c.
Proof.
  intros [?|[[? ?]|(? & ? & E)]]; [by left | by right; left |].
  right. right. rewrite <- E. done.
Qed.

Lemma sendable_step p p' t : phase_step p p' → sendable p = Some t → sendable p' = Some t.
Proof. by destruct 1. Qed.

Lemma contract_step_honoured b b' : contract_step b b' → honoured b → honoured b'.
Proof.
  intros Hstep [H1 H2]. destruct Hstep as [m l id c Hfree Hnew|m l id c p p' Hl Hp|m l id c p t Hl Ht];
    cbn in *.
  - split; cbn.
    + intros i j ci pi cj pj. rewrite !lookup_insert_Some.
      intros [[<- [= <- <-]]|[Hi Li]] [[<- [= <- <-]]|[Hj Lj]] Hs; [done | | | by eapply H1].
      * by destruct (Hnew _ _ _ Lj).
      * by destruct (Hnew _ _ _ Li); apply same_payment_sym.
    + intros x (c' & q & Hx & Hq)%H2. exists c', q. rewrite lookup_insert_ne; [done |]. congruence.
  - split; cbn.
    + intros i j ci pi cj pj. rewrite !lookup_insert_Some.
      intros [[<- [= <- <-]]|[Hi Li]] [[<- [= <- <-]]|[Hj Lj]] Hs; eauto.
    + intros x (c' & q & Hx & Hq)%H2. destruct (decide (sent_settlement x = id)) as [E|Hne].
      * rewrite E in *. rewrite Hl in Hx. simplify_eq. exists c', p'. rewrite lookup_insert_eq.
        split; [done | by eapply sendable_step].
      * exists c', q. by rewrite lookup_insert_ne.
  - split; cbn; [done |]. intros x [Hx|Hx]%elem_of_app; [by apply H2 |].
    apply list_elem_of_singleton in Hx as ->. by exists c, p.
Qed.

(** Whatever follows the contract sends one transaction per payment. *)
Lemma contract_sends_once b x y cx px cy py :
  rtc contract_step empty_book b → x ∈ sent b → y ∈ sent b →
  entries b !! sent_settlement x = Some (cx, px) → entries b !! sent_settlement y = Some (cy, py) →
  same_payment cx cy → x = y.
Proof.
  intros Hr Hx Hy Lx Ly Hs. assert (honoured b) as [H1 H2].
  { eapply (rtc_invariant contract_step honoured); [| exact Hr |]; [intros ? ?; apply contract_step_honoured |].
    split; cbn; [by intros ?????? ?%lookup_empty_Some | by intros ? ?%elem_of_nil]. }
  pose proof (H1 _ _ _ _ _ _ Lx Ly Hs) as E.
  destruct (H2 x Hx) as (c & p & Lc & Hp), (H2 y Hy) as (c' & p' & Lc' & Hp').
  destruct x as [i t], y as [j t']. cbn in *. subst j. congruence.
Qed.

(** ** How a world maps onto it *)

Definition phase_of (r : Row) : Phase :=
  match state r with
  | Reserved => Open
  | AwaitingRetry => Dormant
  | Prepared => Signed (default "" (signed_bytes r))
  | Submitted => Launched (default "" (signed_bytes r))
  | Succeeded => Closed (signed_bytes r) true
                   (terminal_http_status (terminal r), terminal_response_bytes (terminal r))
  | Failed => Closed (signed_bytes r) false
                (terminal_http_status (terminal r), terminal_response_bytes (terminal r))
  end.

Definition book_of (w : World) : Ledgerbook :=
  MkBook ((λ r, (claim r, phase_of r)) <$> settlements (db w)) (wire w).

(** A row past preparation that is not a refusal carries its transaction. *)
Lemma signed_row r :
  row_ok r → match state r with Prepared | Submitted | Succeeded => is_Some (signed_bytes r) | _ => True end.
Proof.
  intros (Hc & _). unfold check_row in Hc. norm_bools.
  unfold submission_check, near_submission_present, evm_submission_present, signed_bytes in *.
  destruct (state r), (chain_kind (claim r)); norm_bools; done.
Qed.

Lemma dormant_unsigned r : row_ok r → is_dormant (state r) = true → signed_bytes r = None.
Proof.
  intros (_ & Hd & _) Hs. destruct (Hd Hs) as [Hn He]. unfold signed_bytes. rewrite Hn, He.
  by destruct (chain_kind (claim r)).
Qed.

Lemma signed_stays st st' : state_le st st' → is_dormant st = false → is_dormant st' = false.
Proof.
  intros Hs. eapply (rtc_invariant state_step (λ st, is_dormant st = false)); [| exact Hs].
  intros a b. unfold state_step. by destruct a, b.
Qed.

(** Any row is one its claim could have become. *)
Lemma open_reaches r : row_ok r → rtc phase_step Open (phase_of r).
Proof.
  intros Hok. pose proof (signed_row r Hok) as Hs. unfold phase_of.
  assert (∀ t p, rtc phase_step (Signed t) p → rtc phase_step Open p) as Hsign
    by (intros t p Hp; eapply rtc_l; [apply (sign t) | exact Hp]).
  destruct (state r) eqn:E.
  - apply rtc_refl.
  - apply rtc_once, relinquish.
  - eapply Hsign, rtc_refl.
  - eapply Hsign, rtc_once, launch.
  - destruct Hs as [t ->]. eapply Hsign, rtc_once, conclude_signed.
  - destruct (signed_bytes r) as [t|]; [eapply Hsign, rtc_once, conclude_signed | apply rtc_once, refuse].
Qed.

(** Along the journal's order a row moves through the contract's phases. *)
Lemma row_le_phases r r' :
  row_ok r → row_ok r' → row_le r r' → rtc phase_step (phase_of r) (phase_of r').
Proof.
  intros Hok Hok' L. pose proof (signed_row r Hok) as Hs. pose proof (open_reaches r' Hok') as Hopen.
  destruct (state r) eqn:E; unfold phase_of at 1; rewrite E.
  - exact Hopen.
  - eapply rtc_l; [apply resume | exact Hopen].
  - destruct Hs as [t Ht]. rewrite Ht. cbn. pose proof (le_bytes _ _ L t Ht) as Ht'.
    pose proof (le_state _ _ L) as Hst. rewrite E in Hst. apply signed_stays in Hst; [| done].
    unfold phase_of. rewrite Ht'. destruct (state r'); try done; cbn.
    + apply rtc_once, launch.
    + apply rtc_once, conclude_signed.
    + apply rtc_once, conclude_signed.
  - destruct Hs as [t Ht]. rewrite Ht. cbn. pose proof (le_bytes _ _ L t Ht) as Ht'.
    pose proof (state_le_past _ _ (le_state _ _ L)) as Hst. rewrite E in Hst. specialize (Hst eq_refl).
    unfold phase_of. rewrite Ht'. destruct (state r'); try done; cbn; apply rtc_once, conclude_launched.
  - destruct (le_terminal _ _ L) as [E' Et]; [by rewrite E |].
    unfold phase_of. rewrite E', E, Et, (le_closed _ _ L) by (by rewrite E). apply rtc_refl.
  - destruct (le_terminal _ _ L) as [E' Et]; [by rewrite E |].
    unfold phase_of. rewrite E', E, Et, (le_closed _ _ L) by (by rewrite E). apply rtc_refl.
Qed.

(** ** Books *)

Section books.
Context (l : list Sent).
Implicit Types m : gmap N (ClaimColumns * Phase).

Lemma advance_path m id c p p' :
  m !! id = Some (c, p) → rtc phase_step p p' →
  rtc contract_step (MkBook m l) (MkBook (<[id := (c, p')]> m) l).
Proof.
  intros Hl Hp. revert m Hl. induction Hp as [p|p q p' Hq _ IH]; intros m Hl.
  - rewrite insert_id by done. apply rtc_refl.
  - eapply rtc_l; [by eapply advance |].
    rewrite <- (insert_insert_eq m id (c, p') (c, q)). apply IH, lookup_insert_eq.
Qed.

(** [m'] on the settlements of [X], [m] elsewhere. *)
Definition mix (X : gset N) m m' : gmap N (ClaimColumns * Phase) :=
  filter (λ ir, ir.1 ∈ X) m' ∪ filter (λ ir, ir.1 ∉ X) m.

Lemma lookup_mix X m m' i : mix X m m' !! i = if decide (i ∈ X) then m' !! i else m !! i.
Proof.
  unfold mix. case_decide as Hi.
  - destruct (m' !! i) as [x|] eqn:E.
    + apply lookup_union_Some_l. by apply map_lookup_filter_Some.
    + rewrite lookup_union_r by (apply map_lookup_filter_None; by left).
      apply map_lookup_filter_None. right. by intros x _ ?.
  - rewrite lookup_union_r by (apply map_lookup_filter_None; right; by intros x _ ?).
    destruct (m !! i) as [x|] eqn:E; [by apply map_lookup_filter_Some |].
    apply map_lookup_filter_None. by left.
Qed.

Lemma mix_insert X m m' id e :
  m' !! id = Some e → mix ({[id]} ∪ X) m m' = <[id := e]> (mix X m m').
Proof.
  intros He. apply map_eq. intros i. rewrite lookup_mix. destruct (decide (i = id)) as [->|Hne].
  - by rewrite lookup_insert_eq, decide_True by set_solver.
  - rewrite lookup_insert_ne, lookup_mix by done.
    destruct (decide (i ∈ X)); [rewrite decide_True by set_solver | rewrite decide_False by set_solver]; done.
Qed.

(** Two books, the later of which keeps the claims, moves each along the phases and
    holds each payment once. *)
Context m m'.
Hypothesis Hkeep : ∀ id c p, m !! id = Some (c, p) → ∃ p', m' !! id = Some (c, p') ∧ rtc phase_step p p'.
Hypothesis Hopen : ∀ id c p, m' !! id = Some (c, p) → rtc phase_step Open p.
Hypothesis Hunique : ∀ i j ci pi cj pj,
  m' !! i = Some (ci, pi) → m' !! j = Some (cj, pj) → same_payment ci cj → i = j.

Lemma mix_step X id c p' :
  id ∉ X → m' !! id = Some (c, p') →
  rtc contract_step (MkBook (mix X m m') l) (MkBook (<[id := (c, p')]> (mix X m m')) l).
Proof.
  intros Hid Hid'. destruct (m !! id) as [[c0 p]|] eqn:E.
  - destruct (Hkeep _ _ _ E) as (q & Hq & Hp). rewrite Hid' in Hq. injection Hq as -> ->.
    eapply advance_path; [| exact Hp]. by rewrite lookup_mix, decide_False.
  - eapply rtc_l; [apply (claim_payment _ _ id c); [by rewrite lookup_mix, decide_False |] |].
    + intros j cj pj. rewrite lookup_mix. intros Hj Hs. assert (j ≠ id) as Hne.
      { intros ->. rewrite decide_False in Hj by done. congruence. }
      assert (∃ q, m' !! j = Some (cj, q)) as [q Hq].
      { case_decide; [by eexists | by destruct (Hkeep _ _ _ Hj) as (q & ? & _); exists q]. }
      by eapply Hne, eq_sym, (Hunique id j).
    + rewrite <- (insert_insert_eq (mix X m m') id (c, p') (c, Open)).
      apply (advance_path _ id c Open p'); [apply lookup_insert_eq | by eapply Hopen].
Qed.

Lemma book_path : rtc contract_step (MkBook m l) (MkBook m' l).
Proof.
  assert (∀ X : gset N, X ⊆ dom m' → rtc contract_step (MkBook m l) (MkBook (mix X m m') l)) as Hmix.
  { apply (set_ind (λ X, X ⊆ dom m' → rtc contract_step (MkBook m l) (MkBook (mix X m m') l)));
      [by intros X Y ->%leibniz_equiv | |].
    - intros _. replace (mix ∅ m m') with m; [apply rtc_refl |].
      apply map_eq. intros i. by rewrite lookup_mix, decide_False by set_solver.
    - intros id X Hid IH Hsub. etrans; [apply IH; set_solver |].
      assert (is_Some (m' !! id)) as [[c p'] Hid'] by (apply elem_of_dom; set_solver).
      rewrite (mix_insert X m m' id _ Hid'). by apply mix_step. }
  replace m' with (mix (dom m') m m') at 1; [by apply Hmix |].
  apply map_eq. intros i. rewrite lookup_mix. case_decide as Hi; [done |].
  apply not_elem_of_dom in Hi. destruct (m !! i) as [[c p]|] eqn:E; [| done].
  destruct (Hkeep _ _ _ E) as (? & ? & _). congruence.
Qed.
End books.

Lemma send_path m l l' :
  (∀ x, x ∈ l' → ∃ c p, m !! sent_settlement x = Some (c, p) ∧ sendable p = Some (sent_bytes x)) →
  rtc contract_step (MkBook m l) (MkBook m (l ++ l')).
Proof.
  revert l. induction l' as [|[id t] l' IH]; intros l Hl; [rewrite app_nil_r; apply rtc_refl |].
  destruct (Hl (MkSent id t)) as (c & p & Hc & Hp); [left |].
  eapply rtc_l; [by eapply (send m l id c p t) |].
  rewrite (cons_middle _ l l'), app_assoc.
  apply IH. intros x Hx. apply Hl. by right.
Qed.

(** ** Worlds *)

Lemma journaled_sendable w x :
  journaled (db w) x →
  ∃ c p, entries (book_of w) !! sent_settlement x = Some (c, p) ∧ sendable p = Some (sent_bytes x).
Proof.
  intros (r & Hr & Hb & Hp). exists (claim r), (phase_of r). cbn. rewrite lookup_fmap, Hr.
  split; [done |]. unfold phase_of. rewrite Hb. by destruct (state r).
Qed.

Lemma same_payment_unique d i j ri rj :
  db_inv d → settlements d !! i = Some ri → settlements d !! j = Some rj →
  same_payment (claim ri) (claim rj) → i = j.
Proof.
  intros [_ Hu _ _] Hi Hj [Hs|[[H1 H2]|(H1 & [k Hk] & H2)]].
  - eapply (uniq_hash _ Hu); [exact Hi | exact Hj | reflexivity |]. unfold key_payment_hash. by rewrite Hs.
  - eapply (uniq_anchor _ Hu); [exact Hi | exact Hj | reflexivity |]. unfold key_anchor. by rewrite H1, H2.
  - eapply (uniq_identifier _ Hu); [exact Hi | exact Hj | |]; unfold key_identifier.
    + by rewrite Hk.
    + by rewrite <- H2, Hk, H1.
Qed.

(** Between consistent worlds, the journal's order is a run of the contract. *)
Lemma world_le_contract w w' :
  world_inv w → world_inv w' → world_le w w' → rtc contract_step (book_of w) (book_of w').
Proof.
  intros (Hd & _) (Hd' & Hw' & _) [[Hrows _] [l' Hwire]]. unfold book_of. rewrite Hwire.
  etrans; [| apply (send_path _ (wire w))].
  - apply book_path.
    + intros id c p. rewrite !lookup_fmap, fmap_Some. intros (r & Hr & [= -> ->]).
      destruct (Hrows _ _ Hr) as (r' & Hr' & L). exists (phase_of r'). rewrite Hr'. cbn.
      rewrite (le_claim _ _ L). split; [done |].
      apply row_le_phases; [by eapply (inv_rows _ Hd) | by eapply (inv_rows _ Hd') | done].
    + intros id c p. rewrite lookup_fmap, fmap_Some. intros (r & Hr & [= -> ->]).
      by eapply open_reaches, (inv_rows _ Hd').
    + intros i j ci pi cj pj. rewrite !lookup_fmap, !fmap_Some.
      intros (ri & Hi & [= -> ->]) (rj & Hj & [= -> ->]). by eapply same_payment_unique.
  - intros x Hx. apply (journaled_sendable w'), Hw'. rewrite Hwire. apply elem_of_app. by right.
Qed.

Lemma initial_book w : settlements (db w) = ∅ ∧ wire w = [] → book_of w = empty_book.
Proof. intros [Hs Hw]. unfold book_of. by rewrite Hs, Hw, fmap_empty. Qed.

End Contract.
