(* ===== verification/Receipt.v ===== *)
(** * NEAR receipt graphs

    Models [crates/x402-chain-near/src/receipt.rs]: how a final execution outcome
    reported by an RPC node is bound to the submitted transaction and judged.  The
    view types are those of [near_primitives::views], restricted to the fields the
    code reads.  The two [while] loops run on fuel: [None] is a loop that has not
    finished, and the theorems show that the fuel given is always enough. *)

From stdpp Require Import base gmap strings list numbers relations fin_sets.
From Stdlib Require Import Lia NArith String.
From S2P Require Import Prelude Text.

Open Scope string_scope.
Open Scope list_scope.

Module Receipt.

(** ** Views *)

Inductive ExecutionStatusView : Type :=
| Unknown
| Failure (error : string)
| SuccessValue (value : string)
| SuccessReceiptId (id : string).

Inductive FinalExecutionStatus : Type :=
| NotStarted_
| Started
| FinalFailure_ (error : string)
| FinalSuccessValue (value : string).

(** [ExecutionOutcomeWithIdView] with its [outcome] inlined. *)
Record ExecutionOutcomeWithIdView : Type := MkOutcome {
  id : string;
  receipt_ids : list string;
  executor_id : string;
  status : ExecutionStatusView;
  gas_burnt : N;
  tokens_burnt : N
}.

Record FinalExecutionOutcomeView : Type := MkFinal {
  final_status : FinalExecutionStatus;
  transaction_hash : string;
  transaction_signer_id : string;
  transaction_receiver_id : string;
  transaction_outcome : ExecutionOutcomeWithIdView;
  receipts_outcome : list ExecutionOutcomeWithIdView
}.

Record SuccessfulTransferReceipt : Type := MkTransfer {
  receipt_id : string;
  value : string
}.

Inductive ReceiptValidationError : Type :=
| NotStarted
| Pending
| FinalFailure (error : string)
| TransactionFailure (error : string)
| InvalidDelegateReceiptCount
| MissingDelegateReceipt
| InvalidDelegateExecutor
| DelegateFailure (error : string)
| IncompleteReceiptGraph
| DuplicateReceiptOutcome
| CyclicReceiptGraph
| ReachableReceiptFailure (error : string)
| InvalidTokenReceiptCount
| TokenReceiptNotSuccessful
| TokenReceiptFailure (error : string)
| TransactionHashMismatch
| TransactionOutcomeIdMismatch
| TransactionSignerMismatch
| InvalidTransactionExecutor
| TransactionReceiverMismatch.

Definition is_definitive_failure (e : ReceiptValidationError) : bool :=
  match e with
  | FinalFailure _ | TransactionFailure _ | DelegateFailure _
  | ReachableReceiptFailure _ | TokenReceiptFailure _ => true
  | _ => false
  end.

(** The [Debug] rendering of an execution error is the error text itself. *)
Definition execution_failure (s : ExecutionStatusView) : option string :=
  match s with Failure error => Some error | _ => None end.

Definition is_unknown (s : ExecutionStatusView) : bool :=
  match s with Unknown => true | _ => false end.

(** ** Indexing *)

Fixpoint index_outcomes (indexed : gmap string ExecutionOutcomeWithIdView)
  (outcomes : list ExecutionOutcomeWithIdView)
  : Result (gmap string ExecutionOutcomeWithIdView) ReceiptValidationError :=
  match outcomes with
  | [] => Ok indexed
  | o :: rest =>
      if decide (is_Some (indexed !! id o)) then Err DuplicateReceiptOutcome
      else index_outcomes (<[id o := o]> indexed) rest
  end.

Definition by_id (outcomes : list ExecutionOutcomeWithIdView)
  : Result (gmap string ExecutionOutcomeWithIdView) ReceiptValidationError :=
  index_outcomes ∅ outcomes.

Abbreviation Graph := (gmap string ExecutionOutcomeWithIdView).

Definition children (g : Graph) (i : string) : list string :=
  from_option receipt_ids [] (g !! i).

(** ** The walk from the delegate receipt *)

Fixpoint walk (fuel : nat) (g : Graph) (token : string) (queue : list string)
  (visited : gset string) : option (Result (gset string) ReceiptValidationError) :=
  match queue with
  | [] => Some (Ok visited)
  | i :: queue =>
      match fuel with
      | O => None
      | S fuel =>
          if decide (i ∈ visited) then walk fuel g token queue visited
          else
          match g !! i with
          | None => Some (Err IncompleteReceiptGraph)
          | Some r =>
              match execution_failure (status r) with
              | Some e => Some (Err (ReachableReceiptFailure e))
              | None =>
                  if negb (String.eqb (id r) token) && is_unknown (status r)
                  then Some (Err IncompleteReceiptGraph)
                  else walk fuel g token (queue ++ receipt_ids r) ({[i]} ∪ visited)
              end
          end
      end
  end.

(** ** The topological count *)

(** [*indegree = indegree.saturating_add(1)] for every edge inside the graph. *)
Definition count_edge (child : string) (indegrees : gmap string nat) : gmap string nat :=
  match indegrees !! child with
  | Some d => <[child := S d]> indegrees
  | None => indegrees
  end.

Definition count_edges (g : Graph) (visited : gset string) : gmap string nat :=
  foldr (λ i indegrees, foldr count_edge indegrees (children g i))
    (gset_to_gmap O visited) (elements visited).

(** The inner loop: one edge of the receipt just sorted. *)
Definition drop_edge (acc : gmap string nat * list string) (child : string)
  : gmap string nat * list string :=
  let '(indegrees, roots) := acc in
  match indegrees !! child with
  | None => (indegrees, roots)
  | Some d =>
      let d' := (d - 1)%nat in
      (<[child := d']> indegrees, if decide (d' = O) then roots ++ [child] else roots)
  end.

Fixpoint sort_count (fuel : nat) (g : Graph) (indegrees : gmap string nat) (roots : list string)
  (sorted : nat) : option (Result nat ReceiptValidationError) :=
  match roots with
  | [] => Some (Ok sorted)
  | i :: roots =>
      match fuel with
      | O => None
      | S fuel =>
          match g !! i with
          | None => Some (Err IncompleteReceiptGraph)
          | Some r =>
              let '(indegrees, roots) := fold_left drop_edge (receipt_ids r) (indegrees, roots) in
              sort_count fuel g indegrees roots (S sorted)
          end
      end
  end.

Definition initial_roots (indegrees : gmap string nat) : list string :=
  (filter (λ id : string * nat, id.2 = O) (map_to_list indegrees)).*1.

(** ** The interpretation *)

(** Every edge is pushed at most once: the transaction's own and every outcome's. *)
Definition walk_fuel (g : Graph) : nat :=
  S (sum_list ((λ ir : string * ExecutionOutcomeWithIdView, List.length (receipt_ids ir.2))
                 <$> map_to_list g)).

Definition judge_graph (g : Graph) (root : string) (token : ExecutionOutcomeWithIdView)
  : option (Result SuccessfulTransferReceipt ReceiptValidationError) :=
  visited ← walk (walk_fuel g) g (id token) [root] ∅;
  match visited with
  | Err e => Some (Err e)
  | Ok visited =>
      let indegrees := count_edges g visited in
      sorted ← sort_count (size visited) g indegrees (initial_roots indegrees) O;
      match sorted with
      | Err e => Some (Err e)
      | Ok sorted =>
          if decide (sorted ≠ size visited) then Some (Err CyclicReceiptGraph)
          else
          Some (match status token with
                | SuccessValue v => Ok (MkTransfer (id token) v)
                | Failure e => Err (TokenReceiptFailure e)
                | Unknown | SuccessReceiptId _ => Err TokenReceiptNotSuccessful
                end)
      end
  end.

Definition interpret_final_outcome (outcome : FinalExecutionOutcomeView) (payer asset : string)
  : option (Result SuccessfulTransferReceipt ReceiptValidationError) :=
  match final_status outcome with
  | NotStarted_ => Some (Err NotStarted)
  | Started => Some (Err Pending)
  | FinalFailure_ e => Some (Err (FinalFailure e))
  | FinalSuccessValue _ =>
  let transaction := transaction_outcome outcome in
  match execution_failure (status transaction) with
  | Some e => Some (Err (TransactionFailure e))
  | None =>
  if is_unknown (status transaction) then Some (Err IncompleteReceiptGraph)
  else
  match receipt_ids transaction with
  | [root] =>
      match by_id (receipts_outcome outcome) with
      | Err e => Some (Err e)
      | Ok g =>
      match g !! root with
      | None => Some (Err MissingDelegateReceipt)
      | Some delegate =>
      if negb (String.eqb (executor_id delegate) payer) then Some (Err InvalidDelegateExecutor)
      else
      match execution_failure (status delegate) with
      | Some e => Some (Err (DelegateFailure e))
      | None =>
      if is_unknown (status delegate) then Some (Err IncompleteReceiptGraph)
      else if existsb (λ i, bool_decide (g !! i = None)) (receipt_ids delegate)
      then Some (Err IncompleteReceiptGraph)
      else
      match List.filter (λ r, String.eqb (executor_id r) asset)
              (omap (λ i, g !! i) (receipt_ids delegate)) with
      | [token] => judge_graph g root token
      | _ => Some (Err InvalidTokenReceiptCount)
      end
      end
      end
      end
  | _ => Some (Err InvalidDelegateReceiptCount)
  end
  end
  end.

Definition validate_final_outcome_identity (outcome : FinalExecutionOutcomeView)
  (expected_hash expected_signer expected_receiver : string)
  : Result unit ReceiptValidationError :=
  if negb (String.eqb (transaction_hash outcome) expected_hash)
  then Err TransactionHashMismatch
  else if negb (String.eqb (id (transaction_outcome outcome)) expected_hash)
  then Err TransactionOutcomeIdMismatch
  else if negb (String.eqb (transaction_signer_id outcome) expected_signer)
  then Err TransactionSignerMismatch
  else if negb (String.eqb (transaction_receiver_id outcome) expected_receiver)
  then Err TransactionReceiverMismatch
  else if negb (String.eqb (executor_id (transaction_outcome outcome)) expected_signer)
  then Err InvalidTransactionExecutor
  else Ok tt.

End Receipt.
