(* ===== verification/ReceiptSpec.v ===== *)
(** * What an accepted NEAR outcome means

    The two loops of [Receipt] terminate within their fuel, the walk computes the
    receipts reachable from the delegate receipt, the count decides acyclicity, and
    so a payment is accepted exactly when the graph has the shape the protocol
    requires. *)

From stdpp Require Import base gmap strings list numbers relations fin_sets.
From Stdlib Require Import Lia NArith String.
From S2P Require Import Prelude Text Receipt.

Open Scope string_scope.
Open Scope list_scope.

Module ReceiptSpec.
Import Receipt.

(** ** Reachability *)

Definition edge (g : Graph) (u v : string) : Prop := v ∈ children g u.

(** A receipt the walk passes: present, not failed, and decided unless it is the
    token receipt, which is judged last. *)
Definition passes (g : Graph) (token i : string) : Prop :=
  ∃ r, g !! i = Some r ∧ execution_failure (status r) = None ∧
       (id r = token ∨ is_unknown (status r) = false).

Lemma children_some g i r : g !! i = Some r → children g i = receipt_ids r.
Proof. intros H. unfold children. by rewrite H. Qed.

Lemma walk_ok fuel g token queue visited visited' :
  walk fuel g token queue visited = Some (Ok visited') →
  (∀ i, i ∈ visited → i ∈ visited') ∧ (∀ i, i ∈ queue → i ∈ visited') ∧
  (∀ i, i ∈ visited' → i ∈ visited ∨
     (passes g token i ∧ (∀ j, edge g i j → j ∈ visited') ∧ ∃ k, k ∈ queue ∧ rtc (edge g) k i)).
Proof.
  revert queue visited. induction fuel as [|fuel IH]; intros [|i queue] visited H; cbn in H;
    simplify_eq; try (split_and!; set_solver).
  case_decide as Hin.
  - destruct (IH _ _ H) as (H1 & H2 & H3). split_and!; [done | set_solver |].
    intros j Hj. destruct (H3 j Hj) as [|(? & ? & k & ? & ?)]; [by left |].
    right. split_and!; [done | done |]. exists k. set_solver.
  - destruct (g !! i) as [r|] eqn:Hr; [| done].
    destruct (execution_failure (status r)) eqn:Hf; [done |].
    destruct (_ && _) eqn:Hu; [done |].
    destruct (IH _ _ H) as (H1 & H2 & H3).
    pose proof (children_some g i r Hr) as Hc.
    assert (passes g token i) as Hp.
    { exists r. split_and!; [done | done |]. apply andb_false_iff in Hu as [Hu|Hu]; [left | by right].
      by apply negb_false_iff, String.eqb_eq in Hu. }
    split_and!; [set_solver | set_solver |]. intros j Hj.
    destruct (H3 j Hj) as [Hj'|(? & ? & k & Hk & ?)].
    + apply elem_of_union in Hj' as [->%elem_of_singleton|]; [| by left].
      right. split_and!; [done | | exists i; split; [set_solver | apply rtc_refl]].
      intros x Hx. unfold edge in Hx. rewrite Hc in Hx. apply H2. set_solver.
    + right. split_and!; [done | done |]. apply elem_of_app in Hk as [Hk|Hk].
      * exists k. split; [set_solver | done].
      * exists i. split; [set_solver |]. eapply rtc_l; [| done]. unfold edge. by rewrite Hc.
Qed.

Lemma walk_err fuel g token queue visited e :
  walk fuel g token queue visited = Some (Err e) →
  ∃ k i, k ∈ queue ∧ rtc (edge g) k i ∧
    ((e = IncompleteReceiptGraph ∧
        (g !! i = None ∨ ∃ r, g !! i = Some r ∧ id r ≠ token ∧ is_unknown (status r) = true)) ∨
     ∃ r x, g !! i = Some r ∧ status r = Failure x ∧ e = ReachableReceiptFailure x).
Proof.
  revert queue visited. induction fuel as [|fuel IH]; intros [|i queue] visited H; cbn in H;
    simplify_eq.
  case_decide as Hin.
  - destruct (IH _ _ H) as (k & j & Hk & Hrest). exists k, j. split; [set_solver | done].
  - destruct (g !! i) as [r|] eqn:Hr.
    + destruct (execution_failure (status r)) as [x|] eqn:Hf.
      { exists i, i. split_and!; [set_solver | apply rtc_refl |]. right. exists r, x.
        destruct (status r); naive_solver. }
      destruct (_ && _) eqn:Hu.
      { apply andb_true_iff in Hu as [Hu1%negb_true_iff%String.eqb_neq Hu2].
        exists i, i. split_and!; [set_solver | apply rtc_refl |]. naive_solver. }
      destruct (IH _ _ H) as (k & j & [Hk|Hk]%elem_of_app & Hreach & Hrest).
      * exists k, j. split; [set_solver | done].
      * exists i, j. split_and!; [set_solver | | done]. eapply rtc_l; [| done].
        unfold edge. by rewrite (children_some g i r).
    + simplify_eq. exists i, i. split_and!; [set_solver | apply rtc_refl |]. naive_solver.
Qed.

(** ** The walk's fuel *)

(** The edges of the receipts not visited yet. *)
Definition pending (visited : gset string) (l : list (string * ExecutionOutcomeWithIdView)) : nat :=
  sum_list ((λ ir, if decide (ir.1 ∈ visited) then O else List.length (receipt_ids ir.2)) <$> l).

Lemma decide_visit (visited : gset string) i j (a b : nat) :
  j ≠ i → (if decide (j ∈ {[i]} ∪ visited) then a else b) = (if decide (j ∈ visited) then a else b).
Proof. intros Hne. apply decide_ext. rewrite elem_of_union, elem_of_singleton. tauto. Qed.

Lemma pending_visit visited l i r :
  NoDup l.*1 → (i, r) ∈ l → i ∉ visited →
  (pending ({[i]} ∪ visited) l + List.length (receipt_ids r) = pending visited l)%nat.
Proof.
  induction l as [|[j s] l IH]; [set_solver |].
  intros [Hj Hnd]%NoDup_cons Hin Hi. unfold pending in *. cbn in *.
  apply elem_of_cons in Hin as [[= <- <-]|Hin].
  - rewrite decide_True by set_solver. rewrite decide_False by done.
    assert (∀ x, x ∈ l → x.1 ≠ i) as Hne.
    { intros [a b] Ha. cbn. intros ->. apply Hj, list_elem_of_fmap. by exists (i, b). }
    clear IH Hnd Hj. induction l as [|[k t] l IHl]; cbn in *; [lia |].
    assert (k ≠ i) by (apply (Hne (k, t)); set_solver).
    assert (∀ x, x ∈ l → x.1 ≠ i) as Hne' by (intros; apply Hne; by right).
    specialize (IHl Hne'). rewrite decide_visit by done. lia.
  - assert (j ≠ i). { intros ->. apply Hj, list_elem_of_fmap. by exists (i, r). }
    specialize (IH Hnd Hin Hi). rewrite decide_visit by done. lia.
Qed.

Lemma pending_empty l :
  pending ∅ l = sum_list ((λ ir, List.length (receipt_ids ir.2)) <$> l).
Proof. unfold pending. f_equal. Qed.

Lemma walk_total fuel g token queue visited :
  (List.length queue + pending visited (map_to_list g) <= fuel)%nat →
  is_Some (walk fuel g token queue visited).
Proof.
  revert queue visited. induction fuel as [|fuel IH]; intros [|i queue] visited Hf; cbn in *;
    [by eexists | lia | by eexists |].
  case_decide as Hin; [apply IH; lia |].
  destruct (g !! i) as [r|] eqn:Hr; [| by eexists].
  destruct (execution_failure _); [by eexists |].
  destruct (_ && _); [by eexists |]. apply IH. rewrite length_app.
  pose proof (pending_visit visited (map_to_list g) i r (NoDup_fst_map_to_list g)
                ltac:(by apply elem_of_map_to_list) Hin). lia.
Qed.

Lemma walk_fuel_enough g token root : is_Some (walk (walk_fuel g) g token [root] ∅).
Proof. apply walk_total. rewrite pending_empty. unfold walk_fuel. cbn. lia. Qed.

(** ** Counting edges *)

Definition occurrences (v : string) (l : list string) : nat :=
  sum_list_with (λ x, if decide (x = v) then 1%nat else O) l.

Lemma occurrences_here v l : occurrences v (v :: l) = S (occurrences v l).
Proof. unfold occurrences. cbn [sum_list_with]. by rewrite decide_True. Qed.

Lemma occurrences_other v x l : x ≠ v → occurrences v (x :: l) = occurrences v l.
Proof. intros H. unfold occurrences. cbn [sum_list_with]. by rewrite decide_False. Qed.

Lemma occurrences_pos v l : v ∈ l ↔ (0 < occurrences v l)%nat.
Proof.
  induction l as [|x l IH]; [split; [set_solver | unfold occurrences; cbn; lia] |].
  rewrite elem_of_cons, IH. destruct (decide (x = v)) as [->|Hne].
  - rewrite occurrences_here. split; [lia | by left].
  - rewrite occurrences_other by done. split; [intros [->|]; [done | lia] | by right].
Qed.

(** How many edges lead from the receipts of [rest] to [v]. *)
Definition incoming (g : Graph) (rest : gset string) (v : string) : nat :=
  sum_list_with (λ u, occurrences v (children g u)) (elements rest).

Lemma incoming_remove g rest u v :
  u ∈ rest →
  incoming g rest v = (occurrences v (children g u) + incoming g (rest ∖ {[u]}) v)%nat.
Proof.
  intros Hu. unfold incoming.
  rewrite (union_difference_L {[u]} rest) at 1 by set_solver.
  rewrite elements_union_singleton by set_solver. done.
Qed.

Lemma incoming_pos g rest v : (0 < incoming g rest v)%nat → ∃ u, u ∈ rest ∧ edge g u v.
Proof.
  unfold incoming. intros H. assert (∃ u, u ∈ elements rest ∧ edge g u v) as (u & Hu & He).
  { induction (elements rest) as [|u l IH]; cbn in H; [lia |].
    destruct (decide (0 < occurrences v (children g u))%nat) as [Hp|Hp].
    - exists u. split; [set_solver |]. unfold edge. by apply occurrences_pos.
    - destruct IH as (x & Hx & Hex); [lia |]. exists x. set_solver. }
  exists u. split; [by apply elem_of_elements | done].
Qed.

Lemma incoming_edge g rest u v : u ∈ rest → edge g u v → (0 < incoming g rest v)%nat.
Proof.
  intros Hu He. rewrite (incoming_remove g rest u v Hu). apply occurrences_pos in He. lia.
Qed.

Lemma count_edge_fold m l v :
  foldr count_edge m l !! v = (λ d, (d + occurrences v l)%nat) <$> (m !! v).
Proof.
  induction l as [|x l IH]; cbn [foldr].
  - destruct (m !! v) as [d|]; cbn [fmap option_fmap option_map]; [| done].
    f_equal. unfold occurrences. cbn. lia.
  - unfold count_edge at 1. destruct (decide (x = v)) as [->|Hne].
    + rewrite IH. destruct (m !! v) as [d|] eqn:E; cbn [fmap option_fmap option_map].
      * rewrite lookup_insert_eq, occurrences_here. f_equal. lia.
      * by rewrite IH.
    + rewrite occurrences_other by done.
      destruct (foldr count_edge m l !! x); [by rewrite lookup_insert_ne | done].
Qed.

Lemma count_edges_lookup g visited v :
  count_edges g visited !! v = if decide (v ∈ visited) then Some (incoming g visited v) else None.
Proof.
  unfold count_edges, incoming.
  assert (∀ l, foldr (λ i m, foldr count_edge m (children g i)) (gset_to_gmap O visited) l !! v
     = (λ d, (d + sum_list_with (λ u, occurrences v (children g u)) l)%nat)
         <$> (gset_to_gmap O visited !! v)) as H.
  { induction l as [|u l IH]; cbn.
    - destruct (gset_to_gmap O visited !! v); cbn; [f_equal; lia | done].
    - rewrite count_edge_fold, IH. destruct (gset_to_gmap O visited !! v); cbn; [f_equal; lia | done]. }
  rewrite H, lookup_gset_to_gmap. destruct (decide (v ∈ visited)).
  - by rewrite option_guard_True.
  - by rewrite option_guard_False.
Qed.

(** ** The topological count *)

(** The state of the sorting loop: [done] is sorted, [pool] is what is left, and
    [extra] are edges of the receipt being processed, not dropped yet. *)
Record sorting (g : Graph) (visited done_ : gset string) (extra : list string)
  (indegrees : gmap string nat) (roots : list string) : Prop := MkSorting {
  so_nodup : NoDup roots;
  so_roots : ∀ v, v ∈ roots ↔ indegrees !! v = Some O ∧ v ∉ done_;
  so_done : ∀ v, v ∈ done_ → indegrees !! v = Some O;
  so_count : ∀ v, indegrees !! v =
    if decide (v ∈ visited)
    then Some (incoming g (visited ∖ done_) v + occurrences v extra)%nat else None
}.

Lemma drop_edge_sorting g visited done_ c extra indegrees roots :
  sorting g visited done_ (c :: extra) indegrees roots →
  let '(indegrees', roots') := drop_edge (indegrees, roots) c in
  sorting g visited done_ extra indegrees' roots'.
Proof.
  intros [Hnd Hro Hdo Hco]. unfold drop_edge. pose proof (Hco c) as Hc.
  destruct (decide (c ∈ visited)) as [Hv|Hv]; rewrite Hc.
  - set (n := (incoming g (visited ∖ done_) c + occurrences c extra)%nat).
    pose proof (occurrences_here c extra) as Ho.
    rewrite Ho in Hc. replace (_ + S _)%nat with (S n) in Hc by (unfold n; lia).
    replace (_ - 1)%nat with n by (rewrite Ho; unfold n; lia).
    assert (c ∉ done_) as Hnot by (intros Hd; specialize (Hdo c Hd); congruence).
    assert (c ∉ roots) as Hnr by (rewrite Hro; intros [? _]; congruence).
    split.
    + case_decide; [| done]. apply NoDup_app. split_and!; [done | set_solver | apply NoDup_singleton].
    + intros v. destruct (decide (v = c)) as [->|Hne].
      * rewrite lookup_insert_eq. case_decide as Hz; [rewrite Hz; set_solver |].
        split; [done | intros [[= ?] _]; done].
      * rewrite lookup_insert_ne by done. rewrite <- Hro. case_decide; set_solver.
    + intros v Hd. rewrite lookup_insert_ne by set_solver. by apply Hdo.
    + intros v. destruct (decide (v = c)) as [->|Hne].
      * rewrite lookup_insert_eq, decide_True by done. done.
      * rewrite lookup_insert_ne by done. rewrite Hco. case_decide; [| done]. f_equal.
        by rewrite occurrences_other.
  - split; [done | done | done |]. intros v. rewrite Hco. case_decide as Hin; [| done]. f_equal.
    rewrite occurrences_other; [done |]. by intros ->.
Qed.

Lemma drop_edges_sorting g visited done_ cs indegrees roots :
  sorting g visited done_ cs indegrees roots →
  let '(indegrees', roots') := fold_left drop_edge cs (indegrees, roots) in
  sorting g visited done_ [] indegrees' roots'.
Proof.
  revert indegrees roots. induction cs as [|c cs IH]; intros indegrees roots H;
    cbn [fold_left]; [done |].
  pose proof (drop_edge_sorting _ _ _ _ _ _ _ H) as Hs. destruct (drop_edge _ _) as [m q]. by apply IH.
Qed.

(** Moving the first root to the sorted receipts. *)
Lemma pop_root_sorting g visited done_ i indegrees roots :
  sorting g visited done_ [] indegrees (i :: roots) →
  i ∈ visited ∧ i ∉ done_ ∧ incoming g (visited ∖ done_) i = O ∧
  sorting g visited ({[i]} ∪ done_) (children g i) indegrees roots.
Proof.
  intros [[Hi Hnd]%NoDup_cons Hro Hdo Hco].
  destruct (proj1 (Hro i) ltac:(set_solver)) as [Hz Hnot].
  pose proof (Hco i) as Hc. rewrite Hz in Hc. destruct (decide (i ∈ visited)) as [Hv|]; [| done].
  injection Hc as Hc. cbn in Hc. split_and!; [done | done | lia |]. split.
  - done.
  - intros v. specialize (Hro v). destruct (decide (v = i)) as [->|]; set_solver.
  - intros v [->%elem_of_singleton|]%elem_of_union; auto.
  - intros v. rewrite Hco. case_decide; [| done]. f_equal. cbn.
    rewrite (incoming_remove g (visited ∖ done_) i v) by set_solver.
    replace (visited ∖ done_ ∖ {[i]}) with (visited ∖ ({[i]} ∪ done_)) by set_solver. lia.
Qed.

(** ** Acyclicity *)

(** A topological order of part of the receipts [X]: each comes after everything
    that leads to it. *)
Inductive topological (g : Graph) (X : gset string) : list string → Prop :=
| topological_nil : topological g X []
| topological_snoc ord v :
    topological g X ord → v ∈ X → v ∉ ord →
    (∀ u, u ∈ X → edge g u v → u ∈ ord) → topological g X (ord ++ [v]).

Definition acyclic (g : Graph) (X : gset string) : Prop :=
  ∃ ord, topological g X ord ∧ ∀ v, v ∈ X → v ∈ ord.

Lemma topological_nodup g X ord : topological g X ord → NoDup ord ∧ ∀ v, v ∈ ord → v ∈ X.
Proof.
  induction 1 as [|ord v _ [IH1 IH2] Hv Hn _]; [split; [constructor | set_solver] |].
  split; [| set_solver]. apply NoDup_app. split_and!; [done | set_solver | apply NoDup_singleton].
Qed.

(** In an acyclic part no receipt is its own descendant. *)
Lemma acyclic_no_cycle g X v :
  acyclic g X → v ∈ X → (∀ a b, a ∈ X → edge g a b → b ∈ X) → ¬ tc (edge g) v v.
Proof.
  intros (ord & Ht & Hall) Hv Hclosed Hcycle. specialize (Hall v Hv).
  assert (∀ ord, topological g X ord → ∀ a b, b ∈ ord → a ∈ X → tc (edge g) a b →
            ∃ ord1 ord2, ord = ord1 ++ ord2 ∧ a ∈ ord1 ∧ b ∈ ord2) as Hbefore.
  { clear - Hclosed. intros ord Ht. induction Ht as [|ord x Ht IH Hx Hn Hpre]; [set_solver |].
    intros a b Hb Ha Hab. apply elem_of_app in Hb as [Hb|Hb].
    - destruct (IH a b Hb Ha Hab) as (o1 & o2 & -> & H1 & H2).
      exists o1, (o2 ++ [x]). split_and!; [by rewrite app_assoc | done | set_solver].
    - apply list_elem_of_singleton in Hb as ->. exists ord, [x]. split_and!; [done | | set_solver].
      clear IH. revert Ha. induction Hab as [a x He | a c x He Hcx IHc]; intros Ha; [by apply Hpre |].
      assert (c ∈ X) as Hc by eauto. specialize (IHc Hx Hn Hpre Hc).
      clear - Ht Ha Hc He IHc. induction Ht as [|o y Ho IHo Hy Hny Hp]; [set_solver |].
      apply elem_of_app in IHc as [Hco| ->%list_elem_of_singleton]; [set_solver |].
      apply elem_of_app. left. by apply Hp. }
  destruct (Hbefore ord Ht v v Hall Hv Hcycle) as (o1 & o2 & -> & H1 & H2).
  apply topological_nodup in Ht as [Hnd _]. apply NoDup_app in Hnd as (_ & Hd & _). by eapply Hd.
Qed.

Lemma sort_finished g visited done_ indegrees ord :
  sorting g visited done_ [] indegrees [] → topological g visited ord →
  done_ = list_to_set ord →
  (List.length ord = size visited ↔ acyclic g visited) ∧ (List.length ord <= size visited)%nat.
Proof.
  intros [_ Hro _ Hco] Ht ->. destruct (topological_nodup _ _ _ Ht) as [Hnd Hsub].
  assert (size (list_to_set ord : gset string) = List.length ord) as Hsize
    by by apply size_list_to_set.
  assert ((list_to_set ord : gset string) ⊆ visited) as Hss by set_solver.
  split; [| rewrite <- Hsize; by apply subseteq_size]. split.
  - intros Hlen. exists ord. split; [done |]. intros v Hv.
    assert (list_to_set ord = visited) as He.
    { apply set_eq. intros x. split; [set_solver |]. intros Hx.
      apply set_subseteq_size_eq in Hss; [set_solver | lia]. }
    set_solver.
  - intros (ord' & Ht' & Hall).
    assert (∀ o, topological g visited o → ∀ v, v ∈ o → v ∈ ord) as Hin.
    { induction 1 as [|o v Ho IH Hv Hn Hp]; [set_solver |].
      intros x [Hx| ->%list_elem_of_singleton]%elem_of_app; [by apply IH |].
      destruct (decide (v ∈ ord)) as [|Hno]; [done | exfalso].
      specialize (Hco v). rewrite decide_True in Hco by done.
      destruct (incoming g (visited ∖ list_to_set ord) v) as [|k] eqn:Hk.
      - assert (v ∈ ([] : list string)) as Hbad by (apply Hro; split; [by rewrite Hco | set_solver]).
        set_solver.
      - destruct (incoming_pos g (visited ∖ list_to_set ord) v) as (u & Hu & He); [lia |].
        apply elem_of_difference in Hu as [Hu1 Hu2]. apply Hu2, elem_of_list_to_set.
        by apply IH, Hp. }
    rewrite <- Hsize. f_equal. apply set_eq. intros v. split; [set_solver |].
    intros Hv. apply elem_of_list_to_set. eapply Hin; [exact Ht' | by apply Hall].
Qed.

Lemma sort_count_spec fuel g visited indegrees roots ord :
  (∀ i, i ∈ visited → is_Some (g !! i)) →
  sorting g visited (list_to_set ord) [] indegrees roots → topological g visited ord →
  (size (visited ∖ list_to_set ord) <= fuel)%nat →
  ∃ n, sort_count fuel g indegrees roots (List.length ord) = Some (Ok n) ∧
       (n = size visited ↔ acyclic g visited).
Proof.
  intros Hdom. revert indegrees roots ord.
  induction fuel as [|fuel IH]; intros indegrees [|i roots] ord Hs Ht Hf; cbn [sort_count].
  1,3: eexists; split; [reflexivity |]; by eapply (sort_finished g visited).
  - exfalso. apply pop_root_sorting in Hs as (Hv & Hd & _).
    assert (size (visited ∖ list_to_set ord) ≠ 0)%nat; [| lia].
    apply size_non_empty_iff. set_solver.
  - destruct (pop_root_sorting _ _ _ _ _ _ Hs) as (Hv & Hd & Hin & Hs').
    destruct (Hdom i Hv) as [r Hr]. rewrite Hr. rewrite (children_some g i r Hr) in Hs'.
    pose proof (drop_edges_sorting _ _ _ _ _ _ Hs') as Hs''.
    destruct (fold_left drop_edge _ _) as [m q].
    replace (S (List.length ord)) with (List.length (ord ++ [i])) by (rewrite length_app; cbn; lia).
    assert (({[i]} ∪ list_to_set ord : gset string) = list_to_set (ord ++ [i])) as Heq by set_solver.
    rewrite Heq in Hs''. apply IH; [done | |].
    + apply topological_snoc; [done | done | set_solver |]. intros u Hu He.
      destruct (decide (u ∈ ord)) as [|Hno]; [done |].
      assert (u ∈ visited ∖ list_to_set ord) as Hu' by set_solver.
      pose proof (incoming_edge g _ u i Hu' He). lia.
    + rewrite <- Heq.
      assert (visited ∖ ({[i]} ∪ list_to_set ord) = (visited ∖ list_to_set ord) ∖ {[i]}) as -> by set_solver.
      rewrite size_difference by set_solver. rewrite size_singleton. lia.
Qed.

Lemma initial_sorting g visited :
  sorting g visited ∅ [] (count_edges g visited) (initial_roots (count_edges g visited)).
Proof.
  assert (∀ v, v ∈ initial_roots (count_edges g visited) ↔ count_edges g visited !! v = Some O) as Hro.
  { intros v. unfold initial_roots. rewrite list_elem_of_fmap. split.
    - intros ([x d] & -> & [Hz Hl]%list_elem_of_filter). cbn in Hz. subst d.
      by apply elem_of_map_to_list in Hl.
    - intros H. exists (v, O). split; [done |]. apply list_elem_of_filter.
      split; [done | by apply elem_of_map_to_list]. }
  split.
  - unfold initial_roots. apply (NoDup_fmap_fst).
    + intros x y y' [Hz _]%list_elem_of_filter [Hz' _]%list_elem_of_filter. cbn in *. congruence.
    + apply NoDup_filter, NoDup_map_to_list.
  - intros v. rewrite Hro. split; [intros; split; [done | set_solver] | by intros [? _]].
  - set_solver.
  - intros v. rewrite count_edges_lookup, difference_empty_L. cbn. case_decide; [| done]. f_equal. lia.
Qed.

(** The count always finishes, and reaches every receipt exactly on an acyclic
    graph. *)
Lemma sort_count_total g visited :
  (∀ i, i ∈ visited → is_Some (g !! i)) →
  ∃ n, sort_count (size visited) g (count_edges g visited) (initial_roots (count_edges g visited)) O
         = Some (Ok n) ∧ (n = size visited ↔ acyclic g visited).
Proof.
  intros Hdom. apply (sort_count_spec (size visited) g visited _ _ [] Hdom).
  - apply initial_sorting.
  - constructor.
  - cbn. by rewrite difference_empty_L.
Qed.

(** ** The judgement *)

(** The receipts reachable from the delegate receipt. *)
Definition reachable_from (g : Graph) (root : string) (X : gset string) : Prop :=
  ∀ i, i ∈ X ↔ rtc (edge g) root i.

Lemma walk_reachable fuel g token root visited :
  walk fuel g token [root] ∅ = Some (Ok visited) →
  reachable_from g root visited ∧ ∀ i, i ∈ visited → passes g token i.
Proof.
  intros H. destruct (walk_ok _ _ _ _ _ _ H) as (_ & Hq & Hv). split.
  - intros i. split.
    + intros Hi. destruct (Hv i Hi) as [|(_ & _ & k & Hk & Hr)]; [set_solver |].
      by apply list_elem_of_singleton in Hk as ->.
    + intros Hr. assert (∀ j, j ∈ visited → rtc (edge g) j i → i ∈ visited) as Hclosed.
      { clear Hr. intros j Hj. induction 1 as [|a b c He _ IH]; [done |]. apply IH.
        destruct (Hv a Hj) as [|(_ & Hc & _)]; [set_solver | by apply Hc]. }
      apply (Hclosed root); [apply Hq; set_solver | done].
  - intros i Hi. destruct (Hv i Hi) as [|(Hp & _)]; [set_solver | done].
Qed.

Lemma judge_graph_total g root token : is_Some (judge_graph g root token).
Proof.
  unfold judge_graph. destruct (walk_fuel_enough g (id token) root) as [[visited|e] Hw]; rewrite Hw;
    cbn; [| by eexists].
  destruct (walk_reachable _ _ _ _ _ Hw) as [_ Hp].
  destruct (sort_count_total g visited) as (n & -> & _).
  { intros i Hi. destruct (Hp i Hi) as (r & Hr & _). by eexists. }
  cbn. case_decide; by eexists.
Qed.

Lemma judge_graph_ok g root token receipt :
  judge_graph g root token = Some (Ok receipt) ↔
  ∃ X v, reachable_from g root X ∧ (∀ i, i ∈ X → passes g (id token) i) ∧ acyclic g X ∧
    status token = SuccessValue v ∧ receipt = MkTransfer (id token) v.
Proof.
  unfold judge_graph. destruct (walk_fuel_enough g (id token) root) as [[visited|e] Hw]; rewrite Hw.
  - destruct (walk_reachable _ _ _ _ _ Hw) as [Hr Hp]. cbn.
    destruct (sort_count_total g visited) as (n & -> & Hn).
    { intros i Hi. destruct (Hp i Hi) as (r & Hl & _). by eexists. }
    cbn. case_decide as Hs; split.
    + done.
    + intros (X & v & HX & _ & Ha & _). exfalso. apply Hs, Hn.
      assert (X = visited) as <-; [| done]. apply set_eq. intros i. by rewrite (HX i), (Hr i).
    + intros H. assert (acyclic g visited) as Ha
        by (apply Hn; destruct (decide (n = size visited)); [done | by destruct Hs]).
      destruct (status token) eqn:E; try discriminate. injection H as <-.
      exists visited. eexists. done.
    + intros (X & v & _ & _ & _ & -> & ->). done.
  - cbn. split; [done |]. intros (X & v & HX & Hp & _).
    destruct (walk_err _ _ _ _ _ _ Hw) as (k & i & Hk & Hki & He).
    apply list_elem_of_singleton in Hk as ->. apply HX in Hki.
    destruct (Hp i Hki) as (r & Hl & Hf & Hu).
    destruct He as [[_ [Hn|(r' & Hl' & Hne & Hun)]]|(r' & x & Hl' & Hst & _)]; simplify_eq.
    + destruct Hu; [done | congruence].
    + by rewrite Hst in Hf.
Qed.

(** ** Indexing *)

(** [g] is the index of the outcomes [l], whose identifiers are distinct. *)
Definition indexes (l : list ExecutionOutcomeWithIdView) (g : Graph) : Prop :=
  NoDup (id <$> l) ∧ ∀ i o, g !! i = Some o ↔ o ∈ l ∧ id o = i.

Lemma index_outcomes_spec m l :
  match index_outcomes m l with
  | Ok g => NoDup (id <$> l) ∧ (∀ o, o ∈ l → m !! id o = None) ∧
            ∀ i o, g !! i = Some o ↔ m !! i = Some o ∨ (o ∈ l ∧ id o = i)
  | Err e => e = DuplicateReceiptOutcome ∧
             ¬ (NoDup (id <$> l) ∧ ∀ o, o ∈ l → m !! id o = None)
  end.
Proof.
  revert m. induction l as [|x l IH]; intros m; cbn [index_outcomes].
  - split_and!; [constructor | set_solver | set_solver].
  - case_decide as Hx.
    + split; [done |]. intros [_ H]. specialize (H x ltac:(set_solver)). rewrite H in Hx. by destruct Hx.
    + apply eq_None_not_Some in Hx. specialize (IH (<[id x := x]> m)).
      destruct (index_outcomes _ l) as [g|e].
      * destruct IH as (Hnd & Hfresh & Hg). split_and!.
        -- cbn. apply NoDup_cons. split; [| done].
           intros (o & Ho & Hin)%list_elem_of_fmap. specialize (Hfresh o Hin).
           by rewrite <- Ho, lookup_insert_eq in Hfresh.
        -- intros o [->|Hin]%elem_of_cons; [done |].
           specialize (Hfresh o Hin). by apply lookup_insert_None in Hfresh as [? _].
        -- intros i o. rewrite Hg, elem_of_cons, lookup_insert_Some. split.
           ++ intros [[[<- <-]|[_ ?]]|[? ?]]; auto.
           ++ intros [H|[[->|H] He]]; [| auto | auto]. left. right. split; [congruence | done].
      * destruct IH as [-> Hno]. split; [done |]. intros [Hnd Hfresh]. apply Hno.
        cbn in Hnd. apply NoDup_cons in Hnd as [Hx' Hnd]. split; [done |]. intros o Ho.
        rewrite lookup_insert_ne; [apply Hfresh; set_solver |].
        intros He. apply Hx'. rewrite He. apply list_elem_of_fmap. eauto.
Qed.

Lemma by_id_ok l g : by_id l = Ok g ↔ indexes l g.
Proof.
  unfold by_id, indexes. pose proof (index_outcomes_spec ∅ l) as H. split.
  - intros E. rewrite E in H. destruct H as (Hnd & _ & Hg). split; [done |].
    intros i o. rewrite Hg, lookup_empty. naive_solver.
  - intros [Hnd Hg]. destruct (index_outcomes ∅ l) as [g'|e].
    + f_equal. destruct H as (_ & _ & Hg'). apply map_eq. intros i. apply option_eq. intros o.
      rewrite Hg', Hg, lookup_empty. naive_solver.
    + destruct H as [_ H]. exfalso. apply H. split; [done |]. intros. apply lookup_empty.
Qed.

Lemma by_id_err l e : by_id l = Err e → e = DuplicateReceiptOutcome ∧ ¬ NoDup (id <$> l).
Proof.
  unfold by_id. pose proof (index_outcomes_spec ∅ l) as H. intros E. rewrite E in H.
  destruct H as [-> H]. split; [done |]. intros Hnd. apply H. split; [done |]. intros. apply lookup_empty.
Qed.

(** ** Accepted payments *)

(** An outcome that is final for its account: neither failed nor undecided. *)
Definition decided (s : ExecutionStatusView) : Prop :=
  execution_failure s = None ∧ is_unknown s = false.

(** The receipts a receipt created, on the contract [asset], with repetition. *)
Definition created_on (g : Graph) (r : ExecutionOutcomeWithIdView) (asset : string)
  : list ExecutionOutcomeWithIdView :=
  List.filter (λ o, String.eqb (executor_id o) asset) (omap (λ i, g !! i) (receipt_ids r)).

(** The shape a NEAR payment must have on chain to count as paid. *)
Inductive accepted (o : FinalExecutionOutcomeView) (payer asset : string)
  : SuccessfulTransferReceipt → Prop :=
| accepted_payment final g root delegate token v X :
    final_status o = FinalSuccessValue final →
    decided (status (transaction_outcome o)) →
    receipt_ids (transaction_outcome o) = [root] →
    indexes (receipts_outcome o) g →
    g !! root = Some delegate → executor_id delegate = payer → decided (status delegate) →
    (∀ i, i ∈ receipt_ids delegate → is_Some (g !! i)) →
    created_on g delegate asset = [token] →
    reachable_from g root X → (∀ i, i ∈ X → passes g (id token) i) → acyclic g X →
    status token = SuccessValue v →
    accepted o payer asset (MkTransfer (id token) v).

Lemma missing_child_false g l :
  existsb (λ i, bool_decide (g !! i = None)) l = false ↔
  ∀ i, i ∈ l → is_Some ((g : Graph) !! i).
Proof.
  rewrite <- not_true_iff_false, existsb_exists. split.
  - intros H i Hi. apply not_eq_None_Some. intros Hn. apply H. exists i.
    split; [by apply list_elem_of_In | by apply bool_decide_eq_true].
  - intros H (i & Hi%list_elem_of_In & Hn%bool_decide_eq_true). destruct (H i Hi). congruence.
Qed.

Lemma decided_dec s :
  decided s ∨ (∃ e, s = Failure e) ∨ s = Unknown.
Proof. unfold decided. destruct s; naive_solver. Qed.

(** C33: the interpretation of a final outcome always terminates with an answer: both
    graph loops finish within the fuel the receipts' own edges give. *)
Theorem interpret_terminates o payer asset :
  is_Some (interpret_final_outcome o payer asset).
Proof.
  unfold interpret_final_outcome. pose proof judge_graph_total.
  repeat case_match; eauto.
Qed.

Lemma interpret_ok_accepted o payer asset receipt :
  interpret_final_outcome o payer asset = Some (Ok receipt) ↔ accepted o payer asset receipt.
Proof.
  unfold interpret_final_outcome. split.
  - destruct (final_status o) as [| | |f] eqn:Hfin; try discriminate.
    destruct (execution_failure (status (transaction_outcome o))) eqn:Hf; [discriminate |].
    destruct (is_unknown (status (transaction_outcome o))) eqn:Hu; [discriminate |].
    destruct (receipt_ids (transaction_outcome o)) as [|root [|]] eqn:Hids; try discriminate.
    destruct (by_id (receipts_outcome o)) as [g|] eqn:Hg; [| discriminate].
    destruct (g !! root) as [delegate|] eqn:Hroot; [| discriminate].
    destruct (String.eqb_spec (executor_id delegate) payer) as [Hp|]; [| discriminate]. cbn [negb].
    destruct (execution_failure (status delegate)) eqn:Hdf; [discriminate |].
    destruct (is_unknown (status delegate)) eqn:Hdu; [discriminate |].
    destruct (existsb _ _) eqn:Hmiss; [discriminate |].
    destruct (List.filter _ _) as [|token [|]] eqn:Htok; try discriminate.
    intros (X & v & HX & Hpass & Hac & Hst & ->)%judge_graph_ok.
    eapply accepted_payment; eauto; try done; [by apply by_id_ok | by apply missing_child_false].
  - intros [f g root delegate token v X Hfin [Hf Hu] Hids Hg Hroot Hp [Hdf Hdu] Hmiss Htok HX Hpass Hac Hst].
    apply by_id_ok in Hg. apply missing_child_false in Hmiss. unfold created_on in Htok.
    rewrite Hfin, Hf, Hu, Hids, Hg, Hroot, Hp, String.eqb_refl, Hdf, Hdu, Hmiss, Htok. cbn [negb].
    apply judge_graph_ok. eauto 10.
Qed.

(** C21: a NEAR payment is accepted exactly when the on-chain evidence has the required
    shape: the transaction created exactly one receipt, which ran on the payer's
    account; that delegate receipt created exactly one receipt on the token contract,
    which returned a success value; every receipt reachable from it is present, none
    failed, none is undecided; the graph is acyclic; and the reported value is the
    token receipt's. *)
Theorem interpret_accepts_iff o payer asset receipt :
  interpret_final_outcome o payer asset = Some (Ok receipt) ↔ accepted o payer asset receipt.
Proof. apply interpret_ok_accepted. Qed.

(** ** Definitive failures *)

Lemma judge_graph_definitive g root token i e :
  edge g root i → g !! i = Some token →
  judge_graph g root token = Some (Err e) → is_definitive_failure e = true →
  ∃ j r x, g !! j = Some r ∧ status r = Failure x ∧ e = ReachableReceiptFailure x.
Proof.
  intros Hedge Htok. unfold judge_graph.
  destruct (walk_fuel_enough g (id token) root) as [[visited|e'] Hw]; rewrite Hw; cbn.
  - destruct (walk_reachable _ _ _ _ _ Hw) as [Hr Hp].
    destruct (sort_count_total g visited) as (n & -> & _).
    { intros j Hj. destruct (Hp j Hj) as (r & Hl & _). by eexists. }
    cbn. case_decide; intros He Hd; [by simplify_eq |].
    destruct (Hp i) as (r & Hl & Hf & _); [apply Hr; by apply rtc_once |].
    destruct (status token) eqn:E; simplify_eq; try done. by rewrite E in Hf.
  - intros [= ->] Hd. destruct (walk_err _ _ _ _ _ _ Hw) as (k & j & _ & _ & [[-> _]|(r & x & Hl & Hs & ->)]);
      [done |]. eauto 6.
Qed.

Lemma created_on_child g r asset token l :
  created_on g r asset = token :: l → ∃ i, i ∈ receipt_ids r ∧ g !! i = Some token.
Proof.
  intros H. assert (In token (created_on g r asset)) as Hin by (rewrite H; by left).
  apply filter_In in Hin as [Hin%list_elem_of_In _]. apply list_elem_of_omap in Hin. naive_solver.
Qed.

(** A failure is definitive only on recorded evidence: every
    error that counts as definitive quotes the failure recorded in the outcome, be it
    the final status, the transaction outcome, or a receipt of the outcome.  Missing,
    undecided, duplicated or cyclic evidence never does. *)
Theorem definitive_failure_has_evidence o payer asset e :
  interpret_final_outcome o payer asset = Some (Err e) → is_definitive_failure e = true →
  (∃ x, final_status o = FinalFailure_ x ∧ e = FinalFailure x) ∨
  (∃ x, status (transaction_outcome o) = Failure x ∧ e = TransactionFailure x) ∨
  (∃ r x, r ∈ receipts_outcome o ∧ status r = Failure x ∧
          (e = DelegateFailure x ∨ e = ReachableReceiptFailure x)).
Proof.
  unfold interpret_final_outcome. intros H Hd.
  destruct (final_status o) as [| |x|f] eqn:Hfin; simplify_eq; try done; [eauto |].
  destruct (status (transaction_outcome o)) as [|x| |] eqn:Hst; simplify_eq/=; try done; [by eauto 6 | |].
  all: destruct (receipt_ids (transaction_outcome o)) as [|root [|]] eqn:Hids; simplify_eq; try done.
  all: destruct (by_id (receipts_outcome o)) as [g|e'] eqn:Hg; [| apply by_id_err in Hg as [-> _]; by simplify_eq].
  all: apply by_id_ok in Hg as [_ Hg].
  all: destruct (g !! root) as [delegate|] eqn:Hroot; simplify_eq; try done.
  all: destruct (negb _); simplify_eq; try done.
  all: destruct (execution_failure (status delegate)) as [x|] eqn:Hdf.
  1,3: simplify_eq; right; right; exists delegate, x; apply Hg in Hroot as [? _];
       destruct (status delegate); simplify_eq/=; by eauto.
  all: destruct (is_unknown _); simplify_eq; try done.
  all: destruct (existsb _ _); simplify_eq; try done.
  all: destruct (List.filter _ _) as [|token [|]] eqn:Htok; simplify_eq; try done.
  all: destruct (created_on_child g delegate asset token [] Htok) as (i & Hi & Hgi).
  all: destruct (judge_graph_definitive g root token i e) as (j & r & x & Hl & Hs & ->);
    [unfold edge; by rewrite (children_some g root delegate) | done | done | done |].
  all: right; right; exists r, x; apply Hg in Hl as [? _]; by eauto.
Qed.

(** A payment whose transfer callback failed. *)
Definition failed_outcome : FinalExecutionOutcomeView :=
  MkFinal (FinalSuccessValue "") "tx" "relayer" "alice"
    (MkOutcome "tx" ["d"] "relayer" (SuccessReceiptId "d") 1 1)
    [MkOutcome "d" ["t"] "alice" (SuccessReceiptId "t") 1 1;
     MkOutcome "t" ["n"] "usdc" (SuccessValue "") 1 1;
     MkOutcome "n" [] "shop" (Failure "panicked") 1 1].

Lemma definitive_failure_has_evidence_witness :
  ∃ r x, r ∈ receipts_outcome failed_outcome ∧ status r = Failure x.
Proof.
  destruct (definitive_failure_has_evidence failed_outcome "alice" "usdc"
              (ReachableReceiptFailure "panicked")) as [(x & H & _)|[(x & H & _)|(r & x & H1 & H2 & _)]].
  - vm_compute. reflexivity.
  - reflexivity.
  - discriminate.
  - discriminate.
  - eauto.
Defined.

Example cyclic_outcome :
  interpret_final_outcome
    (MkFinal (FinalSuccessValue "") "tx" "relayer" "alice"
       (MkOutcome "tx" ["d"] "relayer" (SuccessReceiptId "d") 1 1)
       [MkOutcome "d" ["t"] "alice" (SuccessReceiptId "t") 1 1;
        MkOutcome "t" ["d"] "usdc" (SuccessValue "true") 1 1]) "alice" "usdc"
  = Some (Err CyclicReceiptGraph).
Proof. vm_compute. reflexivity. Qed.

(** No receipt that is reachable
    from the delegate receipt descends from itself. *)
Theorem accepted_graph_has_no_cycle o payer asset receipt g root i :
  interpret_final_outcome o payer asset = Some (Ok receipt) →
  by_id (receipts_outcome o) = Ok g → receipt_ids (transaction_outcome o) = [root] →
  rtc (edge g) root i → ¬ tc (edge g) i i.
Proof.
  intros [f g' root' delegate token v X _ _ Hids Hg _ _ _ _ _ HX _ Hac _]%interpret_ok_accepted Hg' Hroot Hi.
  apply by_id_ok in Hg. assert (g' = g) as -> by congruence. assert (root' = root) as -> by congruence.
  apply (acyclic_no_cycle g X); [exact Hac | by apply HX |].
  intros a b Ha He. apply HX. apply HX in Ha. eapply rtc_r; eauto.
Qed.

Definition paid_outcome : FinalExecutionOutcomeView :=
  MkFinal (FinalSuccessValue "") "tx" "relayer" "alice"
    (MkOutcome "tx" ["d"] "relayer" (SuccessReceiptId "d") 1 1)
    [MkOutcome "d" ["t"; "r"] "alice" (SuccessReceiptId "t") 1 1;
     MkOutcome "r" [] "alice" (SuccessValue "") 1 1;
     MkOutcome "t" ["r"] "usdc" (SuccessValue "true") 1 1].

Lemma accepted_graph_has_no_cycle_witness :
  ∃ g, by_id (receipts_outcome paid_outcome) = Ok g ∧ ¬ tc (edge g) "d" "d".
Proof.
  destruct (by_id (receipts_outcome paid_outcome)) as [g|] eqn:E; [| vm_compute in E; discriminate].
  exists g. split; [done |].
  apply (accepted_graph_has_no_cycle paid_outcome "alice" "usdc" (MkTransfer "t" "true") g "d" "d");
    [vm_compute; reflexivity | exact E | reflexivity | apply rtc_refl].
Defined.

(** An outcome is only read for the transaction that was submitted. *)
Record identifies (o : FinalExecutionOutcomeView) (hash signer receiver : string) : Prop :=
  MkIdentifies {
  same_hash : transaction_hash o = hash ∧ id (transaction_outcome o) = hash;
  same_signer : transaction_signer_id o = signer ∧ executor_id (transaction_outcome o) = signer;
  same_receiver : transaction_receiver_id o = receiver
}.

Lemma identity_check_iff o hash signer receiver :
  validate_final_outcome_identity o hash signer receiver = Ok tt ↔ identifies o hash signer receiver.
Proof.
  unfold validate_final_outcome_identity. split.
  - intros H. repeat case_match; try discriminate.
    repeat match goal with E : negb _ = false |- _ => apply negb_false_iff, String.eqb_eq in E end.
    done.
  - intros [[-> ->] [-> ->] ->]. by rewrite !String.eqb_refl.
Qed.

End ReceiptSpec.
