(* ===== verification/Protocol.v ===== *)
(** * Wire requests

    Models [crates/x402-near-facilitator/src/protocol.rs] and [v1_compat.rs]: the
    strict parser of verify and settle requests, the translation of legacy v1
    requests, the payment-identifier extension, decimal comparison, and the
    canonical JSON whose hash is the request fingerprint.  [serde_json]'s reader and
    SHA-256 are parameters of the functions that use them. *)

From stdpp Require Import base strings list numbers.
From Stdlib Require Import Lia NArith ZArith Ascii String.
From S2P Require Import Prelude Text Json.

Open Scope string_scope.
Open Scope N_scope.

Module Protocol.

Inductive RequestError : Type :=
| NotObject
| Field (path : string)
| PaymentIdentifier (message : string)
| JsonError.

Record PaymentIdentifierConfig : Type := MkIdentifierConfig {
  required : bool;
  min_length : N;
  max_length : N
}.

(** ** Field access *)

Definition ensure_allowed_keys (object : Map) (allowed : list string) (path : string)
  : Result unit RequestError :=
  if existsb (λ key, negb (existsb (String.eqb key) allowed)) (keys object)
  then Err (Field path) else Ok tt.

Definition required_u8 (object : Map) (key path : string) : Result N RequestError :=
  ok_or (v ← get key object; n ← as_u64 v; try_from u8_max n) (Field path).

Definition required_string (object : Map) (key path : string) : Result string RequestError :=
  ok_or (filter_opt (λ s, negb (is_empty s)) (v ← get key object; as_str v)) (Field path).

Definition required_decimal_string (object : Map) (key path : string) : Result string RequestError :=
  try value := required_string object key path in
  if all_bytes is_ascii_digit value then Ok value else Err (Field path).

Definition required_object (object : Map) (key path : string) : Result Map RequestError :=
  ok_or (v ← get key object; as_object v) (Field path).

(** ** Decimal comparison *)

Definition compare_decimal (left right : string) : comparison :=
  let left := trim_start_zeros left in
  let right := trim_start_zeros right in
  let left := if is_empty left then "0" else left in
  let right := if is_empty right then "0" else right in
  match Nat.compare (String.length left) (String.length right) with
  | Eq => bytes_cmp left right
  | o => o
  end.

Definition decimal_is_at_least (value minimum : string) : bool :=
  match compare_decimal value minimum with Lt => false | _ => true end.

(** ** The payment identifier *)

Definition identifier_byte (c : ascii) : bool :=
  is_ascii_alphanumeric c || Ascii.eqb c "-" || Ascii.eqb c "_".

Definition validate_identifier (identifier : string) (policy : PaymentIdentifierConfig)
  : Result unit RequestError :=
  let n := N.of_nat (String.length identifier) in
  if (n <? min_length policy) || (max_length policy <? n)
  then Err (PaymentIdentifier ("id length must be " +:+ to_decimal (min_length policy) +:+ "..="
              +:+ to_decimal (max_length policy)))
  else if negb (all_bytes identifier_byte identifier)
  then Err (PaymentIdentifier "id contains characters outside [A-Za-z0-9_-]")
  else Ok tt.

Definition PAYMENT_IDENTIFIER_EXTENSION : string := "payment-identifier".

Definition identifier_required : RequestError :=
  PaymentIdentifier "an id is required by this facilitator".

Definition extract_payment_identifier (payload : Map) (policy : PaymentIdentifierConfig)
  : Result (option string) RequestError :=
  match (e ← get "extensions" payload; m ← as_object e; get PAYMENT_IDENTIFIER_EXTENSION m) with
  | None => if required policy then Err identifier_required else Ok None
  | Some extension =>
      try extension := ok_or (as_object extension)
                         (PaymentIdentifier "extension must be an object") in
      try _ := ensure_allowed_keys extension ["info"; "schema"]
                 "paymentPayload.extensions.payment-identifier" in
      try info := ok_or (v ← get "info" extension; as_object v)
                    (PaymentIdentifier "extension.info must be an object") in
      try _ := ensure_allowed_keys info ["required"; "id"]
                 "paymentPayload.extensions.payment-identifier.info" in
      match (v ← get "required" info; as_bool v) with
      | None => Err (PaymentIdentifier "extension.info.required must be a boolean")
      | Some _ =>
      if negb (is_some_and (get "schema" extension) is_object)
      then Err (PaymentIdentifier "extension.schema must be an object")
      else
      match get "id" info with
      | Some (Str identifier) =>
          try _ := validate_identifier identifier policy in Ok (Some identifier)
      | Some _ => Err (PaymentIdentifier "extension.info.id must be a string")
      | None => if required policy then Err identifier_required else Ok None
      end
      end
  end.

(** ** Shapes *)

Definition validate_requirements_shape (object : Map) (path : string) : Result unit RequestError :=
  try _ := ensure_allowed_keys object
             ["scheme"; "network"; "asset"; "amount"; "payTo"; "maxTimeoutSeconds"; "extra"] path in
  match filter_opt (λ timeout, 0 <? timeout) (v ← get "maxTimeoutSeconds" object; as_u64 v) with
  | None => Err (Field path)
  | Some _ =>
      if is_some_and (get "extra" object) (λ extra, negb (is_object extra))
      then Err (Field path) else Ok tt
  end.

Definition validate_resource (resource : option Value) : Result unit RequestError :=
  match resource with
  | None => Ok tt
  | Some resource =>
      try resource := ok_or (as_object resource) (Field "paymentPayload.resource") in
      try _ := ensure_allowed_keys resource
                 ["url"; "description"; "mimeType"; "serviceName"; "tags"; "iconUrl"]
                 "paymentPayload.resource" in
      try _ := required_string resource "url" "paymentPayload.resource.url" in
      if existsb (λ field, is_some_and (get field resource) (λ v, negb (is_string v)))
           ["description"; "mimeType"; "serviceName"; "iconUrl"]
      then Err (Field "paymentPayload.resource")
      else
      match get "tags" resource with
      | None => Ok tt
      | Some tags =>
          try tags := ok_or (as_array tags) (Field "paymentPayload.resource.tags") in
          if existsb (λ tag, negb (is_string tag)) tags
          then Err (Field "paymentPayload.resource.tags") else Ok tt
      end
  end.

(** ** The mechanism payload *)

Definition authorization_path : string := "paymentPayload.payload.authorization".

Definition valid_nonce (nonce : string) : bool :=
  is_some_and (strip_prefix "0x" nonce)
    (λ hex, (String.length hex =? 64)%nat && all_bytes is_ascii_hexdigit hex).

Definition validate_eip155_authorization (authorization : Map) : Result unit RequestError :=
  try _ := ensure_allowed_keys authorization
             ["from"; "to"; "value"; "validAfter"; "validBefore"; "nonce"] authorization_path in
  try _ := required_string authorization "from" authorization_path in
  try _ := required_string authorization "to" authorization_path in
  try _ := required_decimal_string authorization "value" authorization_path in
  try _ := required_decimal_string authorization "validAfter" authorization_path in
  try _ := required_decimal_string authorization "validBefore" authorization_path in
  try nonce := required_string authorization "nonce" authorization_path in
  if negb (valid_nonce nonce) then Err (Field authorization_path) else Ok tt.

Definition parse_mechanism_payload (mechanism_payload : Map) (network : string)
  : Result (option string) RequestError :=
  if starts_with "eip155:" network then
    try _ := ensure_allowed_keys mechanism_payload ["authorization"; "signature"]
               "paymentPayload.payload" in
    try authorization := required_object mechanism_payload "authorization" authorization_path in
    try _ := validate_eip155_authorization authorization in
    try _ := required_string mechanism_payload "signature" "paymentPayload.payload.signature" in
    Ok None
  else
    try _ := ensure_allowed_keys mechanism_payload ["signedDelegateAction"]
               "paymentPayload.payload" in
    try action := required_string mechanism_payload "signedDelegateAction"
                    "paymentPayload.payload.signedDelegateAction" in
    Ok (Some action).

Inductive NearAssetTransferMethod : Type :=
| Delegate
| Unsupported.

Definition parse_near_asset_transfer_method (requirements : Map) (path : string)
  : Result (option string) RequestError :=
  match get "extra" requirements with
  | None => Ok None
  | Some extra =>
      try extra := ok_or (as_object extra) (Field path) in
      match get "assetTransferMethod" extra with
      | None => Ok None
      | Some (Str method) => Ok (Some method)
      | Some _ => Err (Field path)
      end
  end.

Definition parse_routed_mechanism_payload (accepted requirements mechanism_payload : Map)
  (network : string) : Result (option string * option NearAssetTransferMethod) RequestError :=
  if negb (starts_with "near:" network) then
    try action := parse_mechanism_payload mechanism_payload network in
    Ok (action, None)
  else
  try accepted_method := parse_near_asset_transfer_method accepted
                           "paymentPayload.accepted.extra.assetTransferMethod" in
  try requirements_method := parse_near_asset_transfer_method requirements
                               "paymentRequirements.extra.assetTransferMethod" in
  match accepted_method, requirements_method with
  | None, None =>
      try action := parse_mechanism_payload mechanism_payload network in
      Ok (action, Some Delegate)
  | _, _ => Ok (None, Some Unsupported)
  end.

(** ** The legacy wire dialect *)

Inductive WireVersion : Type :=
| V1
| V2.

Definition V1_NETWORKS : list (string * string) :=
  [("base", "eip155:8453"); ("base-sepolia", "eip155:84532")].

Definition caip2_for_v1_network (name : string) : option string :=
  snd <$> List.find (λ ac, String.eqb ac.1 name) V1_NETWORKS.

Definition v1_network_name (network : string) : option string :=
  fst <$> List.find (λ ac, String.eqb ac.2 network) V1_NETWORKS.

Definition is_v1_request (object : Map) : bool :=
  bool_decide ((v ← get "x402Version" object; as_u64 v) = Some 1).

Definition translate_requirements (requirements : Map) : Result Value RequestError :=
  try _ := ensure_allowed_keys requirements
             ["scheme"; "network"; "maxAmountRequired"; "resource"; "description"; "mimeType";
              "outputSchema"; "payTo"; "maxTimeoutSeconds"; "asset"; "extra"]
             "paymentRequirements" in
  try network := required_string requirements "network" "paymentRequirements.network" in
  try caip2 := ok_or (caip2_for_v1_network network) (Field "paymentRequirements.network") in
  try scheme := required_string requirements "scheme" "paymentRequirements.scheme" in
  try asset := required_string requirements "asset" "paymentRequirements.asset" in
  try amount := required_string requirements "maxAmountRequired"
                  "paymentRequirements.maxAmountRequired" in
  try pay_to := required_string requirements "payTo" "paymentRequirements.payTo" in
  try max_timeout := ok_or (get "maxTimeoutSeconds" requirements)
                       (Field "paymentRequirements.maxTimeoutSeconds") in
  let translated := insert "scheme" (Str scheme) [] in
  let translated := insert "network" (Str caip2) translated in
  let translated := insert "asset" (Str asset) translated in
  let translated := insert "amount" (Str amount) translated in
  let translated := insert "payTo" (Str pay_to) translated in
  let translated := insert "maxTimeoutSeconds" max_timeout translated in
  Ok (Object (match get "extra" requirements with
              | Some extra => insert "extra" extra translated
              | None => translated
              end)).

Definition translate_v1_to_v2 (object : Map) : Result Value RequestError :=
  try _ := ensure_allowed_keys object ["x402Version"; "paymentPayload"; "paymentRequirements"]
             "request" in
  try requirements := required_object object "paymentRequirements" "paymentRequirements" in
  try requirements_scheme := required_string requirements "scheme" "paymentRequirements.scheme" in
  try requirements_network := required_string requirements "network" "paymentRequirements.network" in
  try translated_requirements := translate_requirements requirements in
  try payload := required_object object "paymentPayload" "paymentPayload" in
  try _ := ensure_allowed_keys payload ["x402Version"; "scheme"; "network"; "payload"]
             "paymentPayload" in
  if negb (is_v1_request payload) then Err (Field "paymentPayload.x402Version")
  else
  try scheme := required_string payload "scheme" "paymentPayload.scheme" in
  if negb (String.eqb scheme requirements_scheme) then Err (Field "paymentPayload.scheme")
  else
  try network := required_string payload "network" "paymentPayload.network" in
  if negb (String.eqb network requirements_network) then Err (Field "paymentPayload.network")
  else
  try mechanism := required_object payload "payload" "paymentPayload.payload" in
  let payment_payload := insert "x402Version" (Num (PosInt 2)) [] in
  let payment_payload := insert "accepted" translated_requirements payment_payload in
  let payment_payload := insert "payload" (Object mechanism) payment_payload in
  let translated := insert "x402Version" (Num (PosInt 2)) [] in
  let translated := insert "paymentPayload" (Object payment_payload) translated in
  Ok (Object (insert "paymentRequirements" translated_requirements translated)).

(** [value.get_mut("network")] rewritten in place. *)
Definition translate_response_value_to_v1 (value : Value) : Value :=
  match value with
  | Object m =>
      match (v ← get "network" m; s ← as_str v; v1_network_name s) with
      | Some name => Object (insert "network" (Str name) m)
      | None => value
      end
  | _ => value
  end.

(** ** The parser *)

Record RequestMeta : Type := MkMeta {
  x402_version : N;
  scheme : string;
  network : string;
  asset : string;
  amount : string;
  pay_to : string;
  signed_delegate_action : option string;
  near_asset_transfer_method : option NearAssetTransferMethod;
  payment_identifier : option string
}.

Record ParsedRequest : Type := MkParsed {
  value : Value;
  wire : WireVersion;
  meta : RequestMeta
}.

(** The walk over the canonical v2 object. *)
Definition parse_canonical (object : Map) (policy : PaymentIdentifierConfig)
  : Result RequestMeta RequestError :=
  try _ := ensure_allowed_keys object ["x402Version"; "paymentPayload"; "paymentRequirements"]
             "request" in
  try version := required_u8 object "x402Version" "x402Version" in
  try payload := required_object object "paymentPayload" "paymentPayload" in
  try _ := ensure_allowed_keys payload
             ["x402Version"; "resource"; "accepted"; "payload"; "extensions"] "paymentPayload" in
  try _ := required_u8 payload "x402Version" "paymentPayload.x402Version" in
  try _ := validate_resource (get "resource" payload) in
  try requirements := required_object object "paymentRequirements" "paymentRequirements" in
  try _ := validate_requirements_shape requirements "paymentRequirements" in
  try accepted := required_object payload "accepted" "paymentPayload.accepted" in
  try _ := validate_requirements_shape accepted "paymentPayload.accepted" in
  try mechanism := required_object payload "payload" "paymentPayload.payload" in
  if is_some_and (get "extensions" payload) (λ e, negb (is_object e))
  then Err (Field "paymentPayload.extensions")
  else
  try scheme := required_string requirements "scheme" "paymentRequirements.scheme" in
  try network := required_string requirements "network" "paymentRequirements.network" in
  try asset := required_string requirements "asset" "paymentRequirements.asset" in
  try amount := required_decimal_string requirements "amount" "paymentRequirements.amount" in
  try pay_to := required_string requirements "payTo" "paymentRequirements.payTo" in
  try _ := required_string accepted "scheme" "paymentPayload.accepted.scheme" in
  try _ := required_string accepted "network" "paymentPayload.accepted.network" in
  try _ := required_string accepted "asset" "paymentPayload.accepted.asset" in
  try _ := required_decimal_string accepted "amount" "paymentPayload.accepted.amount" in
  try _ := required_string accepted "payTo" "paymentPayload.accepted.payTo" in
  try routed := parse_routed_mechanism_payload accepted requirements mechanism network in
  try identifier := extract_payment_identifier payload policy in
  Ok (MkMeta version scheme network asset amount pay_to routed.1 routed.2 identifier).

Definition parse_value (policy : PaymentIdentifierConfig) (accept_v1 : bool) (value : Value)
  : Result ParsedRequest RequestError :=
  let wire := if accept_v1 && is_some_and (as_object value) is_v1_request then V1 else V2 in
  try value := match wire with
               | V1 => try object := ok_or (as_object value) NotObject in translate_v1_to_v2 object
               | V2 => Ok value
               end in
  try object := ok_or (as_object value) NotObject in
  try meta := parse_canonical object policy in
  Ok (MkParsed value wire meta).

Definition parse_request (from_slice : string → option Value) (body : string)
  (policy : PaymentIdentifierConfig) (accept_v1 : bool) : Result ParsedRequest RequestError :=
  try value := ok_or (from_slice body) JsonError in
  parse_value policy accept_v1 value.

End Protocol.
