(* ===== verification/Canonical.v ===== *)
(** * Canonical JSON and the request fingerprint

    Models [write_canonical_json] and [request_fingerprint] of [protocol.rs], with the
    string escapes of [serde_json::to_string], and shows that the canonical text
    determines the value it was written from.  SHA-256 is a parameter. *)

From stdpp Require Import base strings list numbers.
From Stdlib Require Import Lia NArith ZArith Ascii String.
From S2P Require Import Prelude Text Json.

Open Scope string_scope.
Open Scope N_scope.

Module Canonical.

(** ** Writing *)

Definition quote : ascii := Ascii false true false false false true false false.
Definition backslash : ascii := Ascii false false true true true false true false.

Definition hex_digit (n : N) : ascii :=
  if n <? 10 then ascii_of_N (48 + n) else ascii_of_N (87 + n).

(** One character inside a JSON string literal. *)
Definition escape_char (c : ascii) : string :=
  let n := byte_val c in
  let short (x : ascii) := String backslash (String x "") in
  if n =? 34 then short quote
  else if n =? 92 then short backslash
  else if n =? 8 then short "b"%char
  else if n =? 9 then short "t"%char
  else if n =? 10 then short "n"%char
  else if n =? 12 then short "f"%char
  else if n =? 13 then short "r"%char
  else if n <? 32
  then String backslash ("u00" +:+ String (hex_digit (n / 16)) (String (hex_digit (n mod 16)) ""))
  else String c "".

Fixpoint escape (s : string) : string :=
  match s with
  | EmptyString => ""
  | String c s' => escape_char c +:+ escape s'
  end.

(** [serde_json::to_string] of a string *)
Definition json_string (s : string) : string := String quote (escape s +:+ String quote "").

(** [Number]'s [Display] *)
Definition number_text (n : Number) : string :=
  match n with
  | PosInt n => to_decimal n
  | NegInt z => String "-"%char (to_decimal (Z.abs_N z))
  | Float text => text
  end.

(** The members of an array or object after the first, each preceded by a comma. *)
Fixpoint join (parts : list string) : string :=
  match parts with
  | [] => ""
  | [p] => p
  | p :: rest => p +:+ String ","%char (join rest)
  end.

(** Insertion into a list of rendered members sorted by key. *)
Fixpoint insert_member (k t : string) (l : list (string * string)) : list (string * string) :=
  match l with
  | [] => [(k, t)]
  | (k', t') :: l' =>
      match bytes_cmp k k' with
      | Gt => (k', t') :: insert_member k t l'
      | _ => (k, t) :: l
      end
  end.

Definition sort_members (l : list (string * string)) : list (string * string) :=
  foldr (λ kt acc, insert_member kt.1 kt.2 acc) [] l.

(** Each member's text goes with its key; sorting the keys and looking each child up
    again visits them in the same order, since an object's keys are distinct. *)
Fixpoint write_canonical_json (v : Value) : string :=
  match v with
  | Null => "null"
  | Bool true => "true"
  | Bool false => "false"
  | Num n => number_text n
  | Str s => json_string s
  | Array vs => String "["%char (join (map write_canonical_json vs) +:+ "]")
  | Object fields =>
      let members := map (λ kv, (kv.1, write_canonical_json kv.2)) fields in
      String "{"%char (join (map (λ kt, json_string kt.1 +:+ String ":"%char kt.2) (sort_members members))
                  +:+ "}")
  end.

Definition REQUEST_FINGERPRINT_DOMAIN : string := "x402-near/request/v1" +:+ String "000"%char "".

Definition request_fingerprint (sha256 : string → string) (request : Value) (payment_hash : string)
  : string :=
  sha256 (REQUEST_FINGERPRINT_DOMAIN +:+ write_canonical_json request +:+ payment_hash).

(** ** Well-formed values *)

(** The byte order of keys is strict: what a [BTreeMap] keeps. *)
Fixpoint keys_sorted (m : Map) : bool :=
  match m with
  | [] => true
  | (k, _) :: m' =>
      match m' with
      | [] => true
      | (k', _) :: _ => match bytes_cmp k k' with Lt => true | _ => false end
      end && keys_sorted m'
  end.

Definition number_byte (c : ascii) : bool :=
  is_ascii_digit c || existsb (Ascii.eqb c) ["-"%char; "+"%char; "."%char; "e"%char].

Definition number_ok (n : Number) : bool :=
  match n with
  | PosInt _ => true
  | NegInt z => (z <? 0)%Z
  | Float text =>
      all_bytes number_byte text
      && negb (all_bytes (λ c, is_ascii_digit c || Ascii.eqb c "-"%char) text)
  end.

Fixpoint value_ok (v : Value) : bool :=
  match v with
  | Num n => number_ok n
  | Array vs => forallb value_ok vs
  | Object fields => keys_sorted fields && forallb (λ kv, value_ok kv.2) fields
  | _ => true
  end.

(** ** Reading characters back *)

Ltac app_norm := repeat (progress rewrite ?append_assoc, ?append_cons, ?append_nil_l).

Definition hex_value (c : ascii) : N :=
  if is_ascii_digit c then byte_val c - 48 else byte_val c - 87.

(** The character an escape stands for, and what follows it. *)
Definition unescape_char (s : string) : option (ascii * string) :=
  match s with
  | String c s1 =>
      if Ascii.eqb c backslash then
        match s1 with
        | String x s2 =>
            if Ascii.eqb x "u" then
              match s2 with
              | String _ (String _ (String h (String l s3))) =>
                  Some (ascii_of_N (16 * hex_value h + hex_value l), s3)
              | _ => None
              end
            else if Ascii.eqb x "b" then Some (ascii_of_N 8, s2)
            else if Ascii.eqb x "t" then Some (ascii_of_N 9, s2)
            else if Ascii.eqb x "n" then Some (ascii_of_N 10, s2)
            else if Ascii.eqb x "f" then Some (ascii_of_N 12, s2)
            else if Ascii.eqb x "r" then Some (ascii_of_N 13, s2)
            else Some (x, s2)
        | EmptyString => None
        end
      else Some (c, s1)
  | EmptyString => None
  end.

Lemma unescape_escape c r : unescape_char (escape_char c +:+ r) = Some (c, r).
Proof. destruct c as [[] [] [] [] [] [] [] []]; reflexivity. Qed.

Lemma escape_char_head c : ∃ x t, escape_char c = String x t ∧ x ≠ quote.
Proof. destruct c as [[] [] [] [] [] [] [] []]; eexists _, _; (split; [reflexivity | done]). Qed.

(** A string literal ends at its closing quote. *)
Lemma escape_inj s s' r r' :
  escape s +:+ String quote r = escape s' +:+ String quote r' → s = s' ∧ r = r'.
Proof.
  revert s'. induction s as [|c s IH]; intros [|c' s']; cbn [escape].
  - app_norm. by intros [= ->].
  - destruct (escape_char_head c') as (x & t & -> & Hx). app_norm. intros H. injection H as Hq _. destruct Hx. congruence.
  - destruct (escape_char_head c) as (x & t & -> & Hx). app_norm. intros H. injection H as Hq _. destruct Hx. congruence.
  - rewrite !append_assoc. intros H. apply (f_equal unescape_char) in H.
    rewrite !unescape_escape in H. injection H as -> H. destruct (IH s' H) as [-> ->]. done.
Qed.

Lemma json_string_inj s s' r r' : json_string s +:+ r = json_string s' +:+ r' → s = s' ∧ r = r'.
Proof.
  unfold json_string. app_norm. intros [= H]. by apply escape_inj.
Qed.

(** ** Numbers end at a delimiter *)

(** What may follow a value: nothing, or a comma or closing bracket. *)
Definition delimited (r : string) : Prop :=
  match r with
  | EmptyString => True
  | String c _ => number_byte c = false ∧ c ≠ quote
  end.

Lemma span_inj s s' r r' :
  all_bytes number_byte s = true → all_bytes number_byte s' = true →
  delimited r → delimited r' → s +:+ r = s' +:+ r' → s = s' ∧ r = r'.
Proof.
  revert s'. induction s as [|c s IH]; intros [|c' s']; cbn [all_bytes]; app_norm;
    intros Hs Hs' Hr Hr' H.
  - done.
  - subst r. cbn in Hr. apply andb_true_iff in Hs' as [Hc _]. destruct Hr. congruence.
  - subst r'. cbn in Hr'. apply andb_true_iff in Hs as [Hc _]. destruct Hr'. congruence.
  - apply andb_true_iff in Hs as [_ Hs]. apply andb_true_iff in Hs' as [_ Hs'].
    injection H as -> H. destruct (IH s' Hs Hs' Hr Hr' H) as [-> ->]. done.
Qed.

Lemma number_text_bytes n : number_ok n = true → all_bytes number_byte (number_text n) = true.
Proof.
  assert (∀ k, all_bytes number_byte (to_decimal k) = true) as Hd.
  { intros k. apply (all_bytes_weaken is_ascii_digit); [| apply to_decimal_digits].
    intros c Hc. unfold number_byte. by rewrite Hc. }
  destruct n as [k|z|text]; cbn; [done | by rewrite Hd |]. by intros [? _]%andb_true_iff.
Qed.

Lemma to_decimal_inj a b : to_decimal a = to_decimal b → a = b.
Proof. intros H. by rewrite <- (dec_value_to_decimal a), <- (dec_value_to_decimal b), H. Qed.

(** Integers have only digits and a sign; floats do not. *)
Lemma integer_text n :
  match n with Float _ => True | _ =>
    all_bytes (λ c, is_ascii_digit c || Ascii.eqb c "-"%char) (number_text n) = true end.
Proof.
  assert (∀ k, all_bytes (λ c, is_ascii_digit c || Ascii.eqb c "-"%char) (to_decimal k) = true) as Hd.
  { intros k. apply (all_bytes_weaken is_ascii_digit); [| apply to_decimal_digits].
    intros c Hc. by rewrite Hc. }
  destruct n as [k|z|text]; cbn; [done | by rewrite Hd | done].
Qed.

Lemma number_text_inj n n' :
  number_ok n = true → number_ok n' = true → number_text n = number_text n' → n = n'.
Proof.
  intros Hn Hn' H.
  assert (∀ k z, to_decimal k ≠ String "-" (to_decimal z)) as Hsign.
  { intros k z Hkz. pose proof (is_decimal_to_decimal k) as Hd. rewrite Hkz in Hd. done. }
  pose proof (integer_text n) as Hi. pose proof (integer_text n') as Hi'.
  destruct n as [k|z|t], n' as [k'|z'|t']; cbn in *; try congruence.
  - by rewrite (to_decimal_inj _ _ H).
  - by apply Hsign in H.
  - subst t'. apply andb_true_iff in Hn' as [_ Hn']. by rewrite Hi in Hn'.
  - symmetry in H. by apply Hsign in H.
  - injection H as H. apply to_decimal_inj in H. f_equal. lia.
  - subst t'. cbn in Hn'. apply andb_true_iff in Hn' as [_ Hn']. by rewrite Hi in Hn'.
  - subst t. apply andb_true_iff in Hn as [_ Hn]. by rewrite Hi' in Hn.
  - subst t. cbn in Hn. apply andb_true_iff in Hn as [_ Hn]. by rewrite Hi' in Hn.
Qed.

(** ** Members *)

Lemma insert_member_front k t l :
  match l with [] => True | (k', _) :: _ => bytes_cmp k k' = Lt end →
  insert_member k t l = (k, t) :: l.
Proof. destruct l as [|[k' t'] l]; cbn; [done |]. by intros ->. Qed.

(** The keys of an object are already in order. *)
Lemma sort_members_sorted (f : Value → string) (fields : Map) :
  keys_sorted fields = true →
  sort_members (map (λ kv, (kv.1, f kv.2)) fields) = map (λ kv, (kv.1, f kv.2)) fields.
Proof.
  induction fields as [|[k v] fields IH]; [done |]. cbn [keys_sorted map sort_members foldr fst snd].
  intros [Hk Hs]%andb_true_iff. unfold sort_members in IH. rewrite IH by done.
  apply insert_member_front. destruct fields as [|[k' v'] fields]; cbn; [done |].
  by destruct (bytes_cmp k k').
Qed.

Lemma join_cons p rest :
  join (p :: rest) = p +:+ match rest with [] => "" | _ => String ","%char (join rest) end.
Proof. destruct rest; cbn [join]; [by rewrite append_nil_r | done]. Qed.

(** The members between two brackets are determined by their text. *)
Lemma join_inj {A} (ok : A → Prop) (render : A → string) (close : ascii) l l' r r' :
  number_byte close = false → close ≠ quote → close ≠ ","%char →
  (∀ a, ok a → ∃ x t, render a = String x t ∧ x ≠ close) →
  Forall (λ a, ok a → ∀ a' r r', ok a' → delimited r → delimited r' →
            render a +:+ r = render a' +:+ r' → a = a' ∧ r = r') l →
  Forall ok l → Forall ok l' →
  join (map render l) +:+ String close r = join (map render l') +:+ String close r' →
  l = l' ∧ r = r'.
Proof.
  intros Hnum Hq Hcomma Hhead. revert l'.
  assert (∀ (l : list A) r, delimited (match map render l with [] => "" | _ => String ","%char (join (map render l)) end
            +:+ String close r)) as Hdel.
  { intros [|a l0] r0; cbn [map]; app_norm; cbn; done. }
  induction l as [|a l IH]; intros [|a' l'] Hl Hok Hok'.
  - cbn [map join]. app_norm. by intros [= ->].
  - cbn [map]. rewrite join_cons. app_norm. apply Forall_cons_1 in Hok' as [Ha' _].
    destruct (Hhead a' Ha') as (x & t & -> & Hx). app_norm. intros H. injection H as H _. by destruct Hx.
  - cbn [map]. rewrite join_cons. app_norm. apply Forall_cons_1 in Hok as [Ha _].
    destruct (Hhead a Ha) as (x & t & -> & Hx). app_norm. intros H. injection H as H _. by destruct Hx.
  - apply Forall_cons_1 in Hl as [Hla Hl]. apply Forall_cons_1 in Hok as [Ha Hok].
    apply Forall_cons_1 in Hok' as [Ha' Hok']. cbn [map]. rewrite !join_cons, !append_assoc. intros H.
    destruct (Hla Ha a' _ _ Ha' (Hdel l r) (Hdel l' r') H) as [-> Ht].
    destruct l as [|b l], l' as [|b' l']; cbn [map] in Ht; app_norm.
    + cbn in Ht. by injection Ht as ->.
    + exfalso. rewrite append_nil_l, append_cons in Ht. injection Ht as Ht _. done.
    + exfalso. rewrite append_nil_l, append_cons in Ht. injection Ht as Ht _. congruence.
    + rewrite !append_cons in Ht. injection Ht as Ht.
      destruct (IH (b' :: l') Hl Hok Hok' Ht) as [-> ->]. done.
Qed.

(** ** Values *)

Section value_ind.
Context (P : Value → Prop) (HNull : P Null) (HBool : ∀ b, P (Bool b)) (HNum : ∀ n, P (Num n))
  (HStr : ∀ s, P (Str s)) (HArray : ∀ vs, Forall P vs → P (Array vs))
  (HObject : ∀ fields, Forall (λ kv : string * Value, P kv.2) fields → P (Object fields)).

Fixpoint value_nested_ind (v : Value) : P v :=
  match v with
  | Null => HNull
  | Bool b => HBool b
  | Num n => HNum n
  | Str s => HStr s
  | Array vs => HArray vs ((fix go l : Forall P l :=
      match l with [] => @List.Forall_nil _ P | x :: l => @List.Forall_cons _ P x l (value_nested_ind x) (go l) end) vs)
  | Object fields => HObject fields ((fix go l : Forall (λ kv : string * Value, P kv.2) l :=
      match l with
      | [] => @List.Forall_nil _ (λ kv : string * Value, P kv.2)
      | x :: l => @List.Forall_cons _ (λ kv : string * Value, P kv.2) x l (value_nested_ind x.2) (go l)
      end) fields)
  end.
End value_ind.

(** The first byte of a value's text tells its kind. *)
Definition kind (v : Value) : N :=
  match v with
  | Null => 0 | Bool true => 1 | Bool false => 2 | Num _ => 3 | Str _ => 4 | Array _ => 5 | Object _ => 6
  end.

Definition head_kind (c : ascii) : N :=
  if number_byte c then 3
  else if Ascii.eqb c "n" then 0
  else if Ascii.eqb c "t" then 1
  else if Ascii.eqb c "f" then 2
  else if Ascii.eqb c quote then 4
  else if Ascii.eqb c "[" then 5
  else if Ascii.eqb c "{" then 6
  else 7.

Lemma number_text_head n :
  number_ok n = true → ∃ x t, number_text n = String x t ∧ number_byte x = true.
Proof.
  intros Hn. pose proof (number_text_bytes n Hn) as Hb.
  destruct (number_text n) as [|x t] eqn:E.
  - exfalso. destruct n as [k|z|text]; cbn in E; [| done |].
    + pose proof (is_decimal_to_decimal k) as Hd. by rewrite E in Hd.
    + subst text. done.
  - apply andb_true_iff in Hb as [Hx _]. eauto.
Qed.

Lemma value_head v :
  value_ok v = true → ∃ x t, write_canonical_json v = String x t ∧ head_kind x = kind v.
Proof.
  destruct v as [|[]|n|s|vs|fields]; cbn; intros Hok; try (eexists _, _; split; reflexivity).
  destruct (number_text_head n Hok) as (x & t & -> & Hx). exists x, t. split; [done |].
  unfold head_kind. by rewrite Hx.
Qed.

(** What has to hold of a value for its text to determine it in any context. *)
Definition determined (v : Value) : Prop :=
  value_ok v = true → ∀ v' r r', value_ok v' = true → delimited r → delimited r' →
  write_canonical_json v +:+ r = write_canonical_json v' +:+ r' → v = v' ∧ r = r'.

Definition render_member (kv : string * Value) : string :=
  json_string kv.1 +:+ String ":"%char (write_canonical_json kv.2).

Lemma write_object fields :
  keys_sorted fields = true →
  write_canonical_json (Object fields) = String "{"%char (join (map render_member fields) +:+ "}").
Proof.
  intros Hs. cbn [write_canonical_json]. rewrite sort_members_sorted by done.
  rewrite map_map. done.
Qed.

Lemma member_determined kv :
  determined kv.2 → value_ok kv.2 = true → ∀ kv' r r', value_ok kv'.2 = true →
  delimited r → delimited r' → render_member kv +:+ r = render_member kv' +:+ r' →
  kv = kv' ∧ r = r'.
Proof.
  intros Hd Hok [k' v'] r r' Hok' Hr Hr' H. destruct kv as [k v]. unfold render_member in H. cbn in *.
  rewrite !append_assoc in H. apply json_string_inj in H as [-> H].
  rewrite !append_cons in H. injection H as H.
  destruct (Hd Hok v' r r' Hok' Hr Hr' H) as [-> ->]. done.
Qed.

Lemma forallb_holds {A} (f : A → bool) l : forallb f l = true → Forall (λ x, f x = true) l.
Proof. intros H. apply List.Forall_forall. by apply forallb_forall. Qed.

Lemma canonical_determined v : determined v.
Proof.
  induction v as [|b|n|s|vs IH|fields IH] using value_nested_ind; intros Hok v' r r' Hok' Hr Hr' H.
  all: pose proof (value_head _ Hok) as (x & t & Hx & Kx);
       pose proof (value_head _ Hok') as (x' & t' & Hx' & Kx');
       assert (kind v' = head_kind x) as Hkind
         by (rewrite Hx, Hx', !append_cons in H; injection H as Hxx _; by rewrite Hxx);
       rewrite Kx in Hkind; clear x t x' t' Hx Kx Hx' Kx'.
  - destruct v' as [|[]| | | |]; try discriminate Hkind. split; [done |].
    cbn [write_canonical_json] in H. by apply (inj (String.append _)) in H.
  - destruct b, v' as [|[]| | | |]; try discriminate Hkind; (split; [done |]);
      cbn [write_canonical_json] in H; by apply (inj (String.append _)) in H.
  - destruct v' as [|[]|n'| | |]; try discriminate Hkind. cbn [write_canonical_json] in H.
    apply span_inj in H as [H ->]; try done; try by apply number_text_bytes.
    by apply number_text_inj in H as ->.
  - destruct v' as [|[]| |s'| |]; try discriminate Hkind. cbn [write_canonical_json] in H.
    by apply json_string_inj in H as [-> ->].
  - destruct v' as [|[]| | |vs'|]; try discriminate Hkind. cbn [write_canonical_json value_ok] in *.
    rewrite !append_cons, !append_assoc, !append_cons, !append_nil_l in H. injection H as H.
    apply (join_inj (λ v, value_ok v = true)) in H as [-> ->]; try done.
    + intros v Hv. destruct (value_head v Hv) as (x & t & -> & Hx). exists x, t. split; [done |].
      intros ->. by destruct v as [|[]| | | |].
    + by apply forallb_holds.
    + by apply forallb_holds.
  - destruct v' as [|[]| | | |fields']; try discriminate Hkind. cbn [value_ok] in *.
    apply andb_true_iff in Hok as [Hs Hok]. apply andb_true_iff in Hok' as [Hs' Hok'].
    rewrite !write_object in H by done.
    rewrite !append_cons, !append_assoc, !append_cons, !append_nil_l in H. injection H as H.
    apply (join_inj (λ kv, value_ok kv.2 = true)) in H as [-> ->]; try done.
    + intros kv Hv. unfold render_member, json_string. eexists _, _. split; [by app_norm | done].
    + eapply Forall_impl; [| exact IH]. intros kv Hkv Hv. by apply member_determined.
    + by apply forallb_holds.
    + by apply forallb_holds.
Qed.

(** Canonical text determines the value: two well-formed JSON values (objects
    with sorted keys, numbers as [serde_json] prints them) with the same canonical text
    are the same value. *)
Theorem canonical_json_injective v v' :
  value_ok v = true → value_ok v' = true →
  write_canonical_json v = write_canonical_json v' → v = v'.
Proof.
  intros Hv Hv' H. destruct (canonical_determined v Hv v' "" "" Hv') as [-> _]; [done | done | | done].
  by rewrite H.
Qed.

Definition sample : Value :=
  Object [("amount", Str "25"); ("extra", Array [Null; Num (NegInt (-3)); Str (String quote "x")])].

Lemma canonical_json_injective_witness :
  value_ok sample = true ∧
  (∀ v, value_ok v = true → write_canonical_json v = write_canonical_json sample → v = sample).
Proof.
  split; [reflexivity |]. intros v Hv H.
  apply (canonical_json_injective v sample); [exact Hv | reflexivity | exact H].
Defined.

Lemma length_append_r (a b : string) : (String.length b <= String.length (a +:+ b))%nat.
Proof. induction a as [|x a IH]; [done |]. rewrite append_cons. cbn [String.length]. lia. Qed.

Lemma append_same_length (a b c d : string) :
  String.length c = String.length d → a +:+ c = b +:+ d → a = b ∧ c = d.
Proof.
  revert b. induction a as [|x a IH]; intros [|y b] Hl H; rewrite ?append_cons, ?append_nil_l in H.
  - done.
  - pose proof (length_append_r b d). subst c. cbn [String.length] in Hl. lia.
  - pose proof (length_append_r a c). subst d. cbn [String.length] in Hl. lia.
  - injection H as -> H. destruct (IH b Hl H) as [-> ->]. done.
Qed.

(** C35: the request fingerprint identifies the request and the payment: equal
    fingerprints of two well-formed requests and 32-byte payment hashes come from the
    same request and the same payment, unless SHA-256 maps two different inputs to one
    digest. *)
Theorem fingerprint_identifies sha256 v v' hash hash' :
  value_ok v = true → value_ok v' = true →
  String.length hash = 32%nat → String.length hash' = 32%nat →
  request_fingerprint sha256 v hash = request_fingerprint sha256 v' hash' →
  (v = v' ∧ hash = hash') ∨ (∃ a b, a ≠ b ∧ sha256 a = sha256 b).
Proof.
  intros Hv Hv' Hh Hh' H. unfold request_fingerprint in H.
  destruct (decide (write_canonical_json v +:+ hash = write_canonical_json v' +:+ hash')) as [E|E].
  - left. apply append_same_length in E as [E ->]; [| congruence]. split; [| done].
    destruct (canonical_determined v Hv v' "" "" Hv') as [-> _]; [done | done | by rewrite E | done].
  - right. eexists _, _. split; [| exact H]. intros Heq.
    by apply (inj (String.append REQUEST_FINGERPRINT_DOMAIN)) in Heq.
Qed.

Lemma fingerprint_identifies_witness :
  (sample = sample ∧ "0123456789abcdef0123456789abcdef" = "0123456789abcdef0123456789abcdef") ∨
  (∃ a b : string, a ≠ b ∧ a = b).
Proof.
  apply (fingerprint_identifies (λ s, s) sample sample "0123456789abcdef0123456789abcdef"
           "0123456789abcdef0123456789abcdef"); reflexivity.
Defined.

End Canonical.
