(* ===== verification/ProtocolSpec.v ===== *)
(** * What the request parser guarantees *)

From stdpp Require Import base strings list numbers.
From Stdlib Require Import Lia NArith ZArith Ascii String.
From S2P Require Import Prelude Text Json Readiness Schema Protocol.

Open Scope string_scope.
Open Scope N_scope.

Module ProtocolSpec.
Import Protocol.

(** ** Decimal comparison *)

Lemma trimmed_digits s :
  all_bytes is_ascii_digit s = true →
  let t := trim_start_zeros s in
  let t := if is_empty t then "0" else t in
  all_bytes is_ascii_digit t = true ∧ dec_value t = dec_value s ∧
  (t = "0" ∨ ∃ c t', t = String c t' ∧ c ≠ "0"%char).
Proof.
  intros Hs. pose proof (trim_start_zeros_digits s Hs) as Hd. pose proof (dec_value_trim s) as Hv.
  destruct (trim_start_zeros s) as [|c t] eqn:E; cbn [is_empty].
  - split_and!; [done | | by left]. by rewrite <- Hv.
  - split_and!; [done | done |]. right. exists c, t. split; [done |]. by eapply trim_start_zeros_head.
Qed.

(** A shorter numeral without leading zeros is the smaller number. *)
Lemma shorter_is_less s t :
  all_bytes is_ascii_digit s = true → all_bytes is_ascii_digit t = true →
  (t = "0" ∨ ∃ c t', t = String c t' ∧ c ≠ "0"%char) →
  s ≠ "" → (String.length s < String.length t)%nat → dec_value s < dec_value t.
Proof.
  intros Hs Ht [->|(c & t' & -> & Hc)] Hne Hl; cbn [String.length] in Hl.
  - destruct s; [done | cbn in Hl; lia].
  - cbn [all_bytes] in Ht. apply andb_true_iff in Ht as [Hcd Ht].
    pose proof (dec_value_nonzero_bound c t' Hcd Hc Ht) as Hlow.
    pose proof (dec_value_from_bound 0 s Hs) as [_ Hhigh]. fold (dec_value s) in Hhigh.
    assert (10 ^ N.of_nat (String.length s) <= 10 ^ N.of_nat (String.length t')) by (apply N.pow_le_mono_r; lia).
    lia.
Qed.

Lemma compare_decimal_numeric l r :
  all_bytes is_ascii_digit l = true → all_bytes is_ascii_digit r = true →
  compare_decimal l r = N.compare (dec_value l) (dec_value r).
Proof.
  intros Hl Hr. unfold compare_decimal.
  destruct (trimmed_digits l Hl) as (Dl & Vl & Cl). destruct (trimmed_digits r Hr) as (Dr & Vr & Cr).
  rewrite <- Vl, <- Vr. clear Vl Vr.
  set (a := if is_empty (trim_start_zeros l) then "0" else trim_start_zeros l) in *.
  set (b := if is_empty (trim_start_zeros r) then "0" else trim_start_zeros r) in *.
  assert (a ≠ "") by (destruct Cl as [->|(? & ? & -> & _)]; done).
  assert (b ≠ "") by (destruct Cr as [->|(? & ? & -> & _)]; done).
  destruct (Nat.compare_spec (String.length a) (String.length b)) as [E|E|E].
  - by apply (bytes_cmp_dec_value 0 0).
  - symmetry. apply N.compare_lt_iff. by apply shorter_is_less.
  - symmetry. apply N.compare_gt_iff. by apply shorter_is_less.
Qed.

(** The minimum-amount test on decimal strings of any length, with or without
    leading zeros, is the test on the numbers they denote. *)
Theorem decimal_is_at_least_numeric value minimum :
  all_bytes is_ascii_digit value = true → all_bytes is_ascii_digit minimum = true →
  decimal_is_at_least value minimum = (dec_value minimum <=? dec_value value).
Proof.
  intros Hv Hm. unfold decimal_is_at_least. rewrite compare_decimal_numeric by done.
  destruct (N.compare_spec (dec_value value) (dec_value minimum)), (N.leb_spec (dec_value minimum) (dec_value value));
    (done || lia).
Qed.

Lemma decimal_is_at_least_numeric_witness :
  decimal_is_at_least "0010000000000000000000000" "9999999999999999999999" = true.
Proof. rewrite decimal_is_at_least_numeric; vm_compute; reflexivity. Defined.

(** ** Fields *)

Lemma required_string_ok object key path s :
  required_string object key path = Ok s → get key object = Some (Str s) ∧ s ≠ "".
Proof.
  unfold required_string. intros H. checks_inv.
  destruct (get key object) as [v|]; cbn in H; [| done].
  destruct v as [|b|n|t|vs|m]; cbn in H; try done. destruct t; cbn in H; [done |].
  injection H as <-. done.
Qed.

Lemma required_decimal_string_ok object key path s :
  required_decimal_string object key path = Ok s →
  get key object = Some (Str s) ∧ is_decimal s = true.
Proof.
  unfold required_decimal_string. intros H. checks_inv. simplify_eq.
  match goal with H : required_string _ _ _ = Ok _ |- _ => apply required_string_ok in H as [? ?] end.
  split; [done |]. unfold is_decimal. by destruct s.
Qed.

Lemma required_object_ok object key path m :
  required_object object key path = Ok m → get key object = Some (Object m).
Proof.
  unfold required_object. intros H. checks_inv.
  destruct (get key object) as [v|]; cbn in H; [| done]. destruct v; cbn in H; congruence.
Qed.

Lemma required_u8_ok object key path n :
  required_u8 object key path = Ok n → get key object = Some (Num (PosInt n)) ∧ n <= u8_max.
Proof.
  unfold required_u8. intros H. checks_inv.
  destruct (get key object) as [v|]; cbn in H; [| done].
  destruct v as [|b|[k| |]|t|vs|m]; cbn -[u8_max] in H; try done.
  unfold try_from in H. destruct (N.leb_spec k u8_max); [| done]. by injection H as <-.
Qed.

Lemma ensure_allowed_keys_ok object allowed path :
  ensure_allowed_keys object allowed path = Ok tt → ∀ k, k ∈ keys object → k ∈ allowed.
Proof.
  unfold ensure_allowed_keys. intros H k Hk. checks_inv.
  destruct (decide (k ∈ allowed)) as [|Hno]; [done |]. exfalso.
  match goal with E : existsb _ _ = false |- _ => apply not_true_iff_false in E; apply E end.
  apply existsb_exists. exists k. split; [by apply list_elem_of_In |]. apply negb_true_iff, not_true_iff_false.
  intros (x & Hx & ->%String.eqb_eq)%existsb_exists. by apply Hno, list_elem_of_In.
Qed.

(** ** Identifiers *)

Lemma extract_identifier_valid payload policy identifier :
  extract_payment_identifier payload policy = Ok (Some identifier) →
  validate_identifier identifier policy = Ok tt.
Proof.
  unfold extract_payment_identifier.
  destruct (e ← get "extensions" payload; _) as [ext|]; [| by destruct (required policy)].
  intros H. checks_inv.
  destruct (v ← get "required" _; as_bool v); [| done]. checks_inv.
  destruct (get "id" _) as [v|]; [| by destruct (required policy)].
  destruct v; try discriminate. checks_inv. simplify_eq.
  by match goal with x : unit |- _ => destruct x end.
Qed.

Lemma extract_identifier_required payload policy :
  required policy = true → extract_payment_identifier payload policy ≠ Ok None.
Proof.
  intros Hr. unfold extract_payment_identifier. rewrite Hr.
  destruct (e ← get "extensions" payload; _) as [ext|]; [| done].
  intros H. checks_inv.
  destruct (v ← get "required" _; as_bool v); [| done]. checks_inv.
  destruct (get "id" _) as [v|]; [| done].
  destruct v; try discriminate. checks_inv. simplify_eq.
Qed.

Lemma validated_identifier_storable identifier req :
  validate_identifier identifier (MkIdentifierConfig req 16 128) = Ok tt →
  identifier_check (Some identifier) = true.
Proof.
  unfold validate_identifier. cbn [min_length max_length]. intros H. checks_inv.
  repeat match goal with
  | E : _ || _ = false |- _ => apply orb_false_iff in E as [?%N.ltb_ge ?%N.ltb_ge]
  | E : negb _ = false |- _ => apply negb_false_iff in E
  end.
  unfold identifier_check. cbn [is_none_or]. rewrite !andb_true_iff, !N.leb_le. done.
Qed.

(** A payment identifier the parser accepts under the 16..=128 policy always
    satisfies the journal's CHECK on the column it is stored in, so accepting it can
    never make the claim's INSERT fail. *)
Theorem accepted_identifier_is_storable payload req identifier :
  extract_payment_identifier payload (MkIdentifierConfig req 16 128) = Ok (Some identifier) →
  identifier_check (Some identifier) = true.
Proof. intros H%extract_identifier_valid. by eapply validated_identifier_storable. Qed.

Definition identified_payload : Map :=
  [("extensions", Object [("payment-identifier",
     Object [("info", Object [("id", Str "order-0000000001"); ("required", Bool true)]);
             ("schema", Object [])])])].

Lemma accepted_identifier_is_storable_witness :
  identifier_check (Some "order-0000000001") = true.
Proof.
  apply (accepted_identifier_is_storable identified_payload true). vm_compute. reflexivity.
Defined.

(** ** The parsed request *)

(** What a parsed request says, by the object it was read from. *)
Record well_read (object : Map) (policy : PaymentIdentifierConfig) (m : RequestMeta) : Prop :=
  MkWellRead {
  wr_keys : ∀ k, k ∈ keys object → k ∈ ["x402Version"; "paymentPayload"; "paymentRequirements"];
  wr_version : get "x402Version" object = Some (Num (PosInt (x402_version m))) ∧ x402_version m <= 255;
  wr_requirements : ∃ r, get "paymentRequirements" object = Some (Object r) ∧
    get "scheme" r = Some (Str (scheme m)) ∧ get "network" r = Some (Str (network m)) ∧
    get "asset" r = Some (Str (asset m)) ∧ get "amount" r = Some (Str (amount m)) ∧
    get "payTo" r = Some (Str (pay_to m));
  wr_amount : is_decimal (amount m) = true;
  wr_nonempty : scheme m ≠ "" ∧ network m ≠ "" ∧ asset m ≠ "" ∧ pay_to m ≠ "";
  wr_identifier : match payment_identifier m with
                  | Some i => validate_identifier i policy = Ok tt
                  | None => required policy = false
                  end;
  wr_mechanism :
    if starts_with "near:" (network m)
    then match near_asset_transfer_method m with
         | Some Delegate => ∃ a, signed_delegate_action m = Some a ∧ a ≠ ""
         | Some Unsupported => signed_delegate_action m = None
         | None => False
         end
    else near_asset_transfer_method m = None ∧
         (starts_with "eip155:" (network m) = true → signed_delegate_action m = None)
}.

Lemma parse_mechanism_near payload network a :
  parse_mechanism_payload payload network = Ok a → starts_with "eip155:" network = false →
  ∃ s, a = Some s ∧ s ≠ "".
Proof.
  unfold parse_mechanism_payload. intros H He. rewrite He in H. checks_inv. simplify_eq.
  match goal with H : required_string _ _ _ = Ok _ |- _ => apply required_string_ok in H as [_ ?] end.
  eauto.
Qed.

Lemma near_not_eip155 network :
  starts_with "near:" network = true → starts_with "eip155:" network = false.
Proof.
  unfold starts_with. destruct network as [|c s]; [done |]. cbn [strip_prefix].
  destruct (Ascii.eqb_spec "n" c) as [<-|]; [reflexivity | discriminate].
Qed.

Lemma routed_mechanism accepted requirements mechanism network a method :
  parse_routed_mechanism_payload accepted requirements mechanism network = Ok (a, method) →
  if starts_with "near:" network
  then match method with
       | Some Delegate => ∃ s, a = Some s ∧ s ≠ ""
       | Some Unsupported => a = None
       | None => False
       end
  else method = None ∧ (starts_with "eip155:" network = true → a = None).
Proof.
  unfold parse_routed_mechanism_payload.
  destruct (starts_with "near:" network) eqn:En; cbn [negb]; intros H; checks_inv.
  - repeat case_match; simplify_eq; checks_inv; simplify_eq; try done.
    eapply parse_mechanism_near; [done | by apply near_not_eip155].
  - simplify_eq. split; [done |]. intros He.
    match goal with H : parse_mechanism_payload _ _ = _ |- _ => unfold parse_mechanism_payload in H; rewrite He in H end.
    checks_inv. congruence.
Qed.

(** Reads the facts off the field accessors of a successful parse. *)
Ltac field_facts :=
  repeat match goal with
  | H : required_string _ _ _ = Ok _ |- _ => apply required_string_ok in H as [? ?]
  | H : required_decimal_string _ _ _ = Ok _ |- _ => apply required_decimal_string_ok in H as [? ?]
  | H : required_object _ _ _ = Ok _ |- _ => apply required_object_ok in H
  | H : required_u8 _ _ _ = Ok _ |- _ => apply required_u8_ok in H as [? ?]
  end.

Lemma parse_canonical_well_read object policy m :
  parse_canonical object policy = Ok m → well_read object policy m.
Proof.
  unfold parse_canonical. intros H. checks_inv. injection H as <-.
  repeat match goal with x : unit |- _ => destruct x end.
  match goal with H : ensure_allowed_keys object _ _ = Ok tt |- _ =>
    pose proof (ensure_allowed_keys_ok _ _ _ H) as Hkeys; clear H end.
  match goal with H : parse_routed_mechanism_payload _ _ _ _ = Ok ?x |- _ =>
    destruct x as [a method]; apply routed_mechanism in H as Hrouted; clear H end.
  match goal with H : extract_payment_identifier _ _ = Ok ?o |- _ =>
    assert (match o with Some i => validate_identifier i policy = Ok tt
                       | None => required policy = false end) as Hident;
    [destruct o; [by apply extract_identifier_valid in H |];
     destruct (required policy) eqn:Er; [by apply extract_identifier_required in H | done] |] end.
  field_facts. split; cbn; try done; eauto 10.
Qed.


Definition sample_requirements : Map :=
  [("amount", Str "100"); ("asset", Str "usdc.near"); ("maxTimeoutSeconds", Num (PosInt 60));
   ("network", Str "near:mainnet"); ("payTo", Str "shop.near"); ("scheme", Str "exact")].

Definition sample_request : Value :=
  Object [("paymentPayload",
             Object [("accepted", Object sample_requirements);
                     ("payload", Object [("signedDelegateAction", Str "AAAA")]);
                     ("x402Version", Num (PosInt 2))]);
          ("paymentRequirements", Object sample_requirements);
          ("x402Version", Num (PosInt 2))].


(** ** The legacy dialect *)

Lemma translated_is_v2 object v :
  translate_v1_to_v2 object = Ok v → ∃ m, v = Object m ∧ is_v1_request m = false.
Proof.
  unfold translate_v1_to_v2. intros H. checks_inv. injection H as <-. eexists. split; reflexivity.
Qed.


Definition v1_requirements : Map :=
  [("asset", Str "0xusdc"); ("maxAmountRequired", Str "100"); ("maxTimeoutSeconds", Num (PosInt 60));
   ("network", Str "base-sepolia"); ("payTo", Str "0xshop"); ("scheme", Str "exact")].

Definition v1_nonce : string := "0x0123456789abcdef0123456789abcdef0123456789abcdef0123456789ABCDEF".

Definition v1_sample : Value :=
  Object [("paymentPayload",
     Object [("network", Str "base-sepolia");
             ("payload", Object [("authorization",
                Object [("from", Str "0xa"); ("nonce", Str v1_nonce); ("to", Str "0xb");
                        ("validAfter", Str "0"); ("validBefore", Str "9"); ("value", Str "100")]);
              ("signature", Str "0xsig")]);
             ("scheme", Str "exact"); ("x402Version", Num (PosInt 1))]);
          ("paymentRequirements", Object v1_requirements);
          ("x402Version", Num (PosInt 1))].


(** Legacy network aliases and CAIP-2 identifiers translate back and forth
    without loss, so that the network in a response to a legacy request is the alias the
    client used. *)
Theorem v1_network_roundtrip name caip2 :
  caip2_for_v1_network name = Some caip2 ↔ v1_network_name caip2 = Some name.
Proof.
  unfold caip2_for_v1_network, v1_network_name, V1_NETWORKS. cbn [List.find fst snd]. split.
  - destruct (String.eqb_spec "base" name) as [<-|]; [by intros [= <-] |].
    destruct (String.eqb_spec "base-sepolia" name) as [<-|]; [by intros [= <-] | done].
  - destruct (String.eqb_spec "eip155:8453" caip2) as [<-|]; [by intros [= <-] |].
    destruct (String.eqb_spec "eip155:84532" caip2) as [<-|]; [by intros [= <-] | done].
Qed.

End ProtocolSpec.
