(* ===== verification/Near.v ===== *)
(** * The NEAR mechanism

    Models [crates/x402-chain-near/src]: [types.rs], the [NearRpc] trait of [rpc.rs],
    the verification of a signed delegate in [mechanism.rs] and the provider of
    [provider.rs].  [near_primitives], [near_crypto], [borsh], [base64], [sha2] and
    [serde_json] are not part of the repository: their functions are the fields of
    [External].  An RPC endpoint is an oracle that may answer differently at every
    tick ([NearRpc]).  An [AccountId] is its text, a [CryptoHash] its 32 bytes. *)

From stdpp Require Import base gmap strings list numbers.
From Stdlib Require Import Lia NArith ZArith Ascii String.
From S2P Require Import Prelude Text Json Readiness Schema Receipt.

Open Scope string_scope.
Open Scope list_scope.
Open Scope N_scope.

Module Near.

(** ** Types of [near_primitives] and [near_crypto] *)

Inductive KeyType : Type :=
| ED25519
| SECP256K1
| MLDSA65.

#[export] Instance KeyType_eq_dec : EqDecision KeyType.
Proof. solve_decision. Defined.

(** A public key and a signature, by their curve and their text. *)
Record PublicKey : Type := MkPublicKey {
  key_type : KeyType;
  key_text : string
}.

#[export] Instance PublicKey_eq_dec : EqDecision PublicKey.
Proof. solve_decision. Defined.

Record Signature : Type := MkSignature {
  signature_type : KeyType;
  signature_bytes : string
}.

Record FunctionCallAction : Type := MkFunctionCall {
  method_name : string;
  args : string;
  gas : N;
  deposit : N
}.

(** [NonDelegateAction]: the actions a delegate may carry. *)
Inductive InnerAction : Type :=
| FunctionCall (call : FunctionCallAction)
| OtherInner (kind : string).

Record DelegateAction : Type := MkDelegateAction {
  sender_id : string;
  receiver_id : string;
  actions : list InnerAction;
  nonce : N;
  max_block_height : N;
  public_key : PublicKey
}.

Record SignedDelegateAction : Type := MkSignedDelegate {
  delegate_action : DelegateAction;
  delegate_signature : Signature
}.

Inductive Action : Type :=
| Delegate (delegate : SignedDelegateAction)
| OtherAction (kind : string).

Record TransactionV0 : Type := MkTransactionV0 {
  tx_signer_id : string;
  tx_public_key : PublicKey;
  tx_nonce : N;
  tx_receiver_id : string;
  tx_block_hash : string;
  tx_actions : list Action
}.

Inductive Transaction : Type :=
| V0 (transaction : TransactionV0)
| V1 (key : PublicKey) (body : string).

Definition transaction_public_key (t : Transaction) : PublicKey :=
  match t with V0 t => tx_public_key t | V1 key _ => key end.

Record SignedTransaction : Type := MkSignedTransaction {
  transaction : Transaction;
  signature : Signature
}.

Inductive AccessKeyPermissionView : Type :=
| FullAccess
| FunctionCallPermission
| GasKeyFunctionCall
| GasKeyFullAccess.

Record AccessKeyView : Type := MkAccessKey {
  access_key_nonce : N;
  permission : AccessKeyPermissionView
}.

(** [CryptoHash::default()] *)
Definition default_hash : string := string_of_list_ascii (repeat Ascii.zero 32).

Record AccountView : Type := MkAccount {
  account_amount : N;
  code_hash : string
}.

Record FinalBlock : Type := MkFinalBlock {
  block_height : N;
  block_hash : string
}.

(** ** Wire types of [mechanism.rs] *)

Record WireRequirements : Type := MkRequirements {
  scheme : string;
  network : string;
  amount : string;
  pay_to : string;
  max_timeout_seconds : Value;
  asset : string
}.

Record WireRequest : Type := MkWireRequest {
  x402_version : Value;
  payload_x402_version : Value;
  accepted : WireRequirements;
  payload : Value;
  payment_requirements : WireRequirements
}.

Record FtTransferArgs : Type := MkFtTransferArgs {
  ft_receiver_id : string;
  ft_amount : string
}.

(** ** External code *)

Class External : Type := {
  base64_decode : string → option string;
  sha256 : string → string;
  (** borsh on signed delegates and transactions; decoding rejects trailing bytes *)
  delegate_from_slice : string → option SignedDelegateAction;
  delegate_to_vec : SignedDelegateAction → option string;
  transaction_from_slice : string → option SignedTransaction;
  transaction_to_vec : SignedTransaction → option string;
  (** [SignedDelegateAction::verify] *)
  delegate_verify : SignedDelegateAction → bool;
  (** [Transaction::get_hash_and_size().0] *)
  transaction_get_hash : Transaction → string;
  signature_verify : Signature → string → PublicKey → bool;
  (** [str::parse::<AccountId>().is_ok()] *)
  account_id_valid : string → bool;
  hash_to_string : string → string;
  hash_from_str : string → option string;
  (** [serde_json] at the derived [Deserialize] of the wire types *)
  wire_request_from_str : string → option WireRequest;
  ft_transfer_args_from_slice : string → option FtTransferArgs;
  string_from_slice : string → option string;
  value_from_slice : string → option Value;
  to_vec : Value → option string
}.

Definition parse_account_id `{External} (s : string) : option string :=
  if account_id_valid s then Some s else None.

(** ** Errors *)

Inductive NearRpcError : Type :=
| AccountNotFound
| RpcAccessKeyNotFound
| MethodNotFound
| TransactionUnknown
| TransactionRejected
| TransactionTemporarilyRejected
| Timeout
| InvalidResponse (detail : string)
| InvalidSignedTransaction
| Request (detail : string).

(** The [thiserror] messages. *)
Definition rpc_error_to_string (e : NearRpcError) : string :=
  match e with
  | AccountNotFound => "account not found"
  | RpcAccessKeyNotFound => "access key not found"
  | MethodNotFound => "contract method not found"
  | TransactionUnknown => "transaction is unknown"
  | TransactionRejected => "transaction was definitively rejected"
  | TransactionTemporarilyRejected => "transaction was temporarily rejected"
  | Timeout => "RPC request timed out"
  | InvalidResponse detail => "invalid RPC response: " +:+ detail
  | InvalidSignedTransaction => "invalid signed transaction bytes"
  | Request _ => "RPC request failed"
  end.

Inductive VerificationFailure : Type :=
| InvalidX402Version
| UnsupportedScheme
| InvalidNetwork
| NetworkMismatch
| AssetMismatch
| PayToMismatch
| AmountMismatch
| InvalidMaxTimeout
| InvalidPayloadShape
| InvalidSignedDelegateAction
| InvalidSignature
| NoRelayerConfigured
| RelayerCannotBePayer
| InvalidActionCount
| InvalidActionKind
| InvalidMethodName
| TokenContractMismatch
| InvalidFtTransferArgs
| RecipientMismatch
| TransferAmountMismatch
| InvalidAttachedDeposit
| GasLimitExceeded
| CurrentBlockHeightUnavailable
| DelegateActionExpired
| TimeoutWindowExceedsMaximum
| DelegateNonceOutOfRange
| AccessKeyLookupFailed
| AccessKeyNotFound
| DelegateNonceAlreadyUsed
| FunctionCallKeyNotAllowed
| UnsupportedAccessKeyPermission
| AccountLookupFailed
| SenderAccountNotFound
| TokenAccountLookupFailed
| TokenAccountNotFound
| TokenContractHasNoCode
| BalanceCheckFailed
| InsufficientFunds
| StorageCheckFailed
| RecipientNotRegisteredForStorage.

Definition reason (f : VerificationFailure) : string :=
  match f with
  | InvalidX402Version => "invalid_x402_version"
  | UnsupportedScheme => "unsupported_scheme"
  | InvalidNetwork => "invalid_network"
  | NetworkMismatch => "invalid_exact_near_network_mismatch"
  | AssetMismatch => "invalid_exact_near_asset_mismatch"
  | PayToMismatch => "invalid_exact_near_pay_to_mismatch"
  | AmountMismatch => "invalid_exact_near_amount_mismatch"
  | InvalidMaxTimeout => "invalid_exact_near_max_timeout"
  | InvalidPayloadShape => "invalid_exact_near_payload_shape"
  | InvalidSignedDelegateAction => "invalid_exact_near_payload_signed_delegate_action"
  | InvalidSignature => "invalid_exact_near_payload_signature"
  | NoRelayerConfigured => "invalid_exact_near_no_relayer_configured"
  | RelayerCannotBePayer => "invalid_exact_near_relayer_cannot_be_payer"
  | InvalidActionCount => "invalid_exact_near_payload_action_count"
  | InvalidActionKind => "invalid_exact_near_payload_action_kind"
  | InvalidMethodName => "invalid_exact_near_payload_method_name"
  | TokenContractMismatch => "invalid_exact_near_payload_token_contract_mismatch"
  | InvalidFtTransferArgs => "invalid_exact_near_payload_ft_transfer_args"
  | RecipientMismatch => "invalid_exact_near_payload_recipient_mismatch"
  | TransferAmountMismatch => "invalid_exact_near_payload_amount_mismatch"
  | InvalidAttachedDeposit => "invalid_exact_near_payload_attached_deposit"
  | GasLimitExceeded => "invalid_exact_near_payload_gas_limit_exceeded"
  | CurrentBlockHeightUnavailable => "invalid_exact_near_current_block_height_unavailable"
  | DelegateActionExpired => "invalid_exact_near_payload_delegate_action_expired"
  | TimeoutWindowExceedsMaximum =>
      "invalid_exact_near_payload_delegate_action_timeout_window_exceeds_max_timeout"
  | DelegateNonceOutOfRange => "invalid_exact_near_payload_delegate_action_nonce_out_of_range"
  | AccessKeyLookupFailed => "invalid_exact_near_access_key_lookup_failed"
  | AccessKeyNotFound => "invalid_exact_near_access_key_not_found"
  | DelegateNonceAlreadyUsed => "invalid_exact_near_payload_delegate_action_nonce_already_used"
  | FunctionCallKeyNotAllowed => "invalid_exact_near_function_call_key_not_allowed"
  | UnsupportedAccessKeyPermission => "invalid_exact_near_unsupported_access_key_permission"
  | AccountLookupFailed => "invalid_exact_near_account_lookup_failed"
  | SenderAccountNotFound => "invalid_exact_near_sender_account_not_found"
  | TokenAccountLookupFailed => "invalid_exact_near_token_account_lookup_failed"
  | TokenAccountNotFound => "invalid_exact_near_token_account_not_found"
  | TokenContractHasNoCode => "invalid_exact_near_token_contract_no_code"
  | BalanceCheckFailed => "invalid_exact_near_balance_check_failed"
  | InsufficientFunds => "insufficient_funds"
  | StorageCheckFailed => "invalid_exact_near_storage_check_failed"
  | RecipientNotRegisteredForStorage => "invalid_exact_near_recipient_not_registered_for_storage"
  end.

(** ** Networks, endpoints and the relayer's key *)

Inductive NearNetwork : Type :=
| Mainnet
| Testnet.

#[export] Instance NearNetwork_eq_dec : EqDecision NearNetwork.
Proof. solve_decision. Defined.

Definition NEAR_MAINNET : string := "near:mainnet".
Definition NEAR_TESTNET : string := "near:testnet".

Definition network_as_str (n : NearNetwork) : string :=
  match n with Mainnet => NEAR_MAINNET | Testnet => NEAR_TESTNET end.

Definition network_try_from (value : string) : Result NearNetwork VerificationFailure :=
  if String.eqb value NEAR_MAINNET then Ok Mainnet
  else if String.eqb value NEAR_TESTNET then Ok Testnet
  else Err InvalidNetwork.

Inductive TransactionLookup : Type :=
| LookupUnknown
| LookupPending (status : string)
| LookupFinal (outcome : Receipt.FinalExecutionOutcomeView).

(** The [NearRpc] trait; the first argument of a method is the tick of the call. *)
Record NearRpc : Type := MkNearRpc {
  rpc_network_id : nat → Result string NearRpcError;
  final_block : nat → Result FinalBlock NearRpcError;
  view_account : nat → string → string → Result AccountView NearRpcError;
  view_access_key : nat → string → string → PublicKey → Result AccessKeyView NearRpcError;
  call_function : nat → string → string → string → string → Result string NearRpcError;
  send_transaction_final : nat → SignedTransaction → Result TransactionLookup NearRpcError;
  transaction_status_final : nat → string → string → Result TransactionLookup NearRpcError
}.

Record NearRelayerSigner : Type := MkSigner {
  account_id : string;
  relayer_key : PublicKey;
  sign : string → Signature
}.

Record NearChainProvider : Type := MkProvider {
  provider_network : NearNetwork;
  rpc : NearRpc;
  backup_rpc : option NearRpc;
  relayer : NearRelayerSigner
}.

Definition relayer_account_id (p : NearChainProvider) : string := account_id (relayer p).
Definition relayer_public_key (p : NearChainProvider) : PublicKey := relayer_key (relayer p).

Record VerificationPolicy : Type := MkPolicy { max_sponsored_gas : N }.

Record VerifiedRequirements : Type := MkVerifiedRequirements {
  req_network : NearNetwork;
  req_asset : string;
  req_pay_to : string;
  req_amount : N;
  req_amount_decimal : string;
  req_max_timeout_seconds : N
}.

Record VerifiedPayment : Type := MkVerified {
  payer : string;
  payer_public_key : PublicKey;
  delegate_nonce : N;
  verified_max_block_height : N;
  requirements : VerifiedRequirements;
  signed_delegate : SignedDelegateAction;
  signed_delegate_bytes : string;
  payment_hash : string
}.

Definition new_verified (requirements : VerifiedRequirements) (d : SignedDelegateAction)
  (bytes hash : string) : VerifiedPayment :=
  let delegate := delegate_action d in
  MkVerified (sender_id delegate) (public_key delegate) (nonce delegate)
    (max_block_height delegate) requirements d bytes hash.

Record PreparedTransaction : Type := MkPreparedTransaction {
  transaction_hash : string;
  relayer_nonce : N;
  signer_id : string;
  signer_public_key : PublicKey;
  signed_transaction_bytes : string
}.

Record RelayerHead : Type := MkHead {
  head_block_height : N;
  head_block_hash : string;
  head_access_key_nonce : N
}.

Record RelayerStatus : Type := MkStatus {
  status_head : RelayerHead;
  status_account : AccountView
}.

(** ** Verification ([mechanism.rs]) *)

Definition PAYMENT_HASH_DOMAIN : string := "x402-near/signed-delegate/v1".
Definition ONE_YOCTO : N := 1.
Definition NONCE_RANGE_MULTIPLIER : N := 1000000.
Definition FT_TRANSFER : string := "ft_transfer".
Definition FT_BALANCE_OF : string := "ft_balance_of".
Definition STORAGE_BALANCE_OF : string := "storage_balance_of".

Record DecodedSignedDelegate : Type := MkDecoded {
  decoded_bytes : string;
  decoded_delegate : SignedDelegateAction;
  decoded_payment_hash : string
}.

(** The negation of an [if] guard that returns an error. *)
Definition ensure {E} (b : bool) (e : E) : Result unit E := if b then Ok tt else Err e.

Section mechanism.
Context `{External}.

Definition hash_signed_delegate_bytes (bytes : string) : string :=
  sha256 (PAYMENT_HASH_DOMAIN +:+ bytes).

Definition supported_curves (key sig : KeyType) : bool :=
  match key, sig with
  | ED25519, ED25519 | SECP256K1, SECP256K1 => true
  | _, _ => false
  end.

Definition decode_signed_delegate (encoded : string)
  : Result DecodedSignedDelegate VerificationFailure :=
  try bytes := ok_or (base64_decode encoded) InvalidSignedDelegateAction in
  try d := ok_or (delegate_from_slice bytes) InvalidSignedDelegateAction in
  try _ := ensure (supported_curves (key_type (public_key (delegate_action d)))
                     (signature_type (delegate_signature d))) InvalidSignature in
  Ok (MkDecoded bytes d (hash_signed_delegate_bytes bytes)).

Definition signed_delegate_hash (d : SignedDelegateAction) : Result string VerificationFailure :=
  try bytes := ok_or (delegate_to_vec d) InvalidSignedDelegateAction in
  Ok (hash_signed_delegate_bytes bytes).

Definition decode_ft_transfer_args (input : string)
  : Result (string * string) VerificationFailure :=
  try transfer := ok_or (ft_transfer_args_from_slice input) InvalidFtTransferArgs in
  if is_empty (ft_receiver_id transfer) || is_empty (ft_amount transfer)
     || negb (all_bytes is_ascii_digit (ft_amount transfer))
  then Err InvalidFtTransferArgs
  else Ok (ft_receiver_id transfer, ft_amount transfer).

Definition value_is_two (v : Value) : bool := bool_decide (as_u64 v = Some 2).

Definition timeout_seconds (r : WireRequirements) : Result N VerificationFailure :=
  ok_or (filter_opt (λ seconds, 0 <? seconds) (as_u64 (max_timeout_seconds r))) InvalidMaxTimeout.

Definition parse_decimal (value : string) : option N :=
  if is_empty value || negb (all_bytes is_ascii_digit value) then None
  else parse_uint u128_max value.

(** What the checks before the first RPC call establish. *)
Record Offline : Type := MkOffline {
  off_network : NearNetwork;
  off_requirements : WireRequirements;
  off_timeout : N;
  off_decoded : DecodedSignedDelegate
}.

Definition verify_envelope (p : NearChainProvider) (request : string)
  : Result (WireRequest * NearNetwork * N) VerificationFailure :=
  try wire := ok_or (wire_request_from_str request) InvalidPayloadShape in
  try _ := ensure (value_is_two (x402_version wire) && value_is_two (payload_x402_version wire))
             InvalidX402Version in
  let accepted := accepted wire in
  let requirements := payment_requirements wire in
  try _ := ensure (String.eqb (scheme accepted) "exact" && String.eqb (scheme requirements) "exact")
             UnsupportedScheme in
  try net := network_try_from (network requirements) in
  try _ := ensure (bool_decide (net = provider_network p)) InvalidNetwork in
  try _ := ensure (String.eqb (network accepted) (network requirements)) NetworkMismatch in
  try _ := ensure (String.eqb (asset accepted) (asset requirements)) AssetMismatch in
  try _ := ensure (String.eqb (pay_to accepted) (pay_to requirements)) PayToMismatch in
  try _ := ensure (String.eqb (amount accepted) (amount requirements)) AmountMismatch in
  try timeout := timeout_seconds requirements in
  Ok (wire, net, timeout).

Definition verify_delegate (p : NearChainProvider) (policy : VerificationPolicy)
  (wire : WireRequest) : Result DecodedSignedDelegate VerificationFailure :=
  let requirements := payment_requirements wire in
  try encoded := ok_or (m ← as_object (payload wire); v ← get "signedDelegateAction" m; as_str v)
                   InvalidPayloadShape in
  try decoded := decode_signed_delegate encoded in
  try _ := ensure (delegate_verify (decoded_delegate decoded)) InvalidSignature in
  let delegate := delegate_action (decoded_delegate decoded) in
  try _ := ensure (negb (String.eqb (sender_id delegate) (relayer_account_id p)))
             RelayerCannotBePayer in
  try _ := ensure (List.length (actions delegate) =? 1)%nat InvalidActionCount in
  try call := match actions delegate with
              | FunctionCall call :: _ => Ok call
              | _ => Err InvalidActionKind
              end in
  try _ := ensure (String.eqb (method_name call) FT_TRANSFER) InvalidMethodName in
  try _ := ensure (String.eqb (receiver_id delegate) (asset requirements)) TokenContractMismatch in
  try transfer := decode_ft_transfer_args (args call) in
  try _ := ensure (String.eqb transfer.1 (pay_to requirements)) RecipientMismatch in
  try _ := ensure (String.eqb transfer.2 (amount requirements)) TransferAmountMismatch in
  try _ := ensure (deposit call =? ONE_YOCTO) InvalidAttachedDeposit in
  try _ := ensure (gas call <=? max_sponsored_gas policy) GasLimitExceeded in
  Ok decoded.

(** The first half of [verify_proto_request]: everything before the first RPC call. *)
Definition verify_offline (p : NearChainProvider) (policy : VerificationPolicy) (request : string)
  : Result Offline VerificationFailure :=
  try envelope := verify_envelope p request in
  let '(wire, net, timeout) := envelope in
  try decoded := verify_delegate p policy wire in
  Ok (MkOffline net (payment_requirements wire) timeout decoded).

(** The delegate's expiry window and nonce range at a final block. *)
Definition verify_window (delegate : DelegateAction) (timeout height : N)
  : Result unit VerificationFailure :=
  try remaining := ok_or (checked_sub (max_block_height delegate) height) DelegateActionExpired in
  try _ := ensure (negb (remaining =? 0)) DelegateActionExpired in
  try _ := ensure (remaining <=? N.max timeout 1) TimeoutWindowExceedsMaximum in
  ensure (nonce delegate <? saturating_mul u64_max height NONCE_RANGE_MULTIPLIER)
    DelegateNonceOutOfRange.

Definition verify_access_key (delegate : DelegateAction) (key : AccessKeyView)
  : Result unit VerificationFailure :=
  try _ := ensure (negb (nonce delegate <=? access_key_nonce key)) DelegateNonceAlreadyUsed in
  match permission key with
  | FullAccess => Ok tt
  | FunctionCallPermission => Err FunctionCallKeyNotAllowed
  | GasKeyFunctionCall | GasKeyFullAccess => Err UnsupportedAccessKeyPermission
  end.

Definition access_key_failure (e : NearRpcError) : VerificationFailure :=
  match e with RpcAccessKeyNotFound => AccessKeyNotFound | _ => AccessKeyLookupFailed end.
Definition sender_failure (e : NearRpcError) : VerificationFailure :=
  match e with AccountNotFound => SenderAccountNotFound | _ => AccountLookupFailed end.
Definition token_failure (e : NearRpcError) : VerificationFailure :=
  match e with AccountNotFound => TokenAccountNotFound | _ => TokenAccountLookupFailed end.

(** [{ "account_id": account }] *)
Definition account_args (account : string) : option string :=
  to_vec (Object [("account_id", Str account)]).

Definition verify_balance (balance_bytes amount : string) : Result N VerificationFailure :=
  try decimal := ok_or (string_from_slice balance_bytes) BalanceCheckFailed in
  try balance := ok_or (parse_decimal decimal) BalanceCheckFailed in
  try amount := ok_or (parse_decimal amount) BalanceCheckFailed in
  try _ := ensure (amount <=? balance) InsufficientFunds in
  Ok amount.

Definition verify_storage (lookup : Result string NearRpcError) : Result unit VerificationFailure :=
  match lookup with
  | Ok bytes =>
      try storage := ok_or (value_from_slice bytes) StorageCheckFailed in
      ensure (negb (is_null storage)) RecipientNotRegisteredForStorage
  | Err MethodNotFound => Ok tt
  | Err _ => Err StorageCheckFailed
  end.

Definition verify_proto_request (p : NearChainProvider) (request : string)
  (policy : VerificationPolicy) : Proc World (Result VerifiedPayment VerificationFailure) :=
  let? off := ret (verify_offline p policy request) in
  let requirements := off_requirements off in
  let decoded := off_decoded off in
  let delegate := delegate_action (decoded_delegate decoded) in
  let payer := sender_id delegate in
  let? block := map_err_proc (λ _, CurrentBlockHeightUnavailable)
                  (consult (λ n, final_block (rpc p) n)) in
  let? _ := ret (verify_window delegate (off_timeout off) (block_height block)) in
  let? key := map_err_proc access_key_failure
                (consult (λ n, view_access_key (rpc p) n (block_hash block) payer
                                 (public_key delegate))) in
  let? _ := ret (verify_access_key delegate key) in
  let? _ := map_err_proc sender_failure
              (consult (λ n, view_account (rpc p) n (block_hash block) payer)) in
  let? asset := ret (ok_or (parse_account_id (asset requirements)) TokenAccountLookupFailed) in
  let? token := map_err_proc token_failure
                  (consult (λ n, view_account (rpc p) n (block_hash block) asset)) in
  let? _ := ret (ensure (negb (String.eqb (code_hash token) default_hash)) TokenContractHasNoCode) in
  let? balance_args := ret (ok_or (account_args payer) BalanceCheckFailed) in
  let? balance_bytes := map_err_proc (λ _, BalanceCheckFailed)
      (consult (λ n, call_function (rpc p) n (block_hash block) asset FT_BALANCE_OF balance_args)) in
  let? amount_ := ret (verify_balance balance_bytes (amount requirements)) in
  let? pay_to := ret (ok_or (parse_account_id (pay_to requirements)) StorageCheckFailed) in
  let? storage_args := ret (ok_or (account_args pay_to) StorageCheckFailed) in
  let* storage := consult (λ n, call_function (rpc p) n (block_hash block) asset
                                  STORAGE_BALANCE_OF storage_args) in
  let? _ := ret (verify_storage storage) in
  ret (Ok (new_verified
             (MkVerifiedRequirements (off_network off) asset pay_to amount_ (amount requirements)
                (off_timeout off))
             (decoded_delegate decoded) (decoded_bytes decoded) (decoded_payment_hash decoded))).

(** ** The provider ([provider.rs]) *)

Definition decode_signed_transaction (bytes : string) : Result SignedTransaction NearRpcError :=
  try t := ok_or (transaction_from_slice bytes) InvalidSignedTransaction in
  try _ := ensure (signature_verify (signature t) (transaction_get_hash (transaction t))
                     (transaction_public_key (transaction t))) InvalidSignedTransaction in
  Ok t.

Definition signed_transaction_hash (bytes : string) : Result string NearRpcError :=
  try t := decode_signed_transaction bytes in
  Ok (transaction_get_hash (transaction t)).

Definition prepare_outer_transaction (p : NearChainProvider) (payment : VerifiedPayment)
  (head : RelayerHead) : Result PreparedTransaction NearRpcError :=
  try nonce := ok_or (checked_add u64_max (head_access_key_nonce head) 1)
                 (InvalidResponse "relayer nonce overflow") in
  let signer_id := relayer_account_id p in
  let signer_public_key := relayer_public_key p in
  let t := V0 (MkTransactionV0 signer_id signer_public_key nonce (payer payment)
                 (head_block_hash head) [Delegate (signed_delegate payment)]) in
  let hash := transaction_get_hash t in
  let signed := MkSignedTransaction t (sign (relayer p) hash) in
  try bytes := ok_or (transaction_to_vec signed) InvalidSignedTransaction in
  Ok (MkPreparedTransaction hash nonce signer_id signer_public_key bytes).

(** The log of transactions handed to the chain grows by one; the settlement the
    caller works on is recorded with the bytes. *)
Definition log_sent (settlement : N) (bytes : string) (w : World) : World :=
  MkWorld (db w) (gates w) (wire w ++ [MkSent settlement bytes]) (process w).

Definition broadcast_exact (p : NearChainProvider) (settlement : N) (bytes : string)
  : Proc World (Result TransactionLookup NearRpcError) :=
  let? t := ret (decode_signed_transaction bytes) in
  transmit (log_sent settlement bytes) (λ n, send_transaction_final (rpc p) n t).

Definition query_transaction (p : NearChainProvider) (hash signer : string)
  : Proc World (Result TransactionLookup NearRpcError) :=
  consult (λ n, transaction_status_final (rpc p) n hash signer).

Definition backup_not_configured : NearRpcError := InvalidResponse "backup RPC is not configured".

Definition query_transaction_backup (p : NearChainProvider) (hash signer : string)
  : Proc World (Result TransactionLookup NearRpcError) :=
  let? backup := ret (ok_or (backup_rpc p) backup_not_configured) in
  consult (λ n, transaction_status_final backup n hash signer).

Definition require_full_access (key : AccessKeyView) : Result unit NearRpcError :=
  match permission key with
  | FullAccess => Ok tt
  | _ => Err (InvalidResponse "relayer key is not full access")
  end.

Definition relayer_head_from (p : NearChainProvider) (r : NearRpc)
  : Proc World (Result RelayerHead NearRpcError) :=
  let? block := consult (final_block r) in
  let? key := consult (λ n, view_access_key r n (block_hash block) (relayer_account_id p)
                              (relayer_public_key p)) in
  let? _ := ret (require_full_access key) in
  ret (Ok (MkHead (block_height block) (block_hash block) (access_key_nonce key))).

Definition backup_relayer_head (p : NearChainProvider)
  : Proc World (Result RelayerHead NearRpcError) :=
  let? backup := ret (ok_or (backup_rpc p) backup_not_configured) in
  relayer_head_from p backup.

Definition relayer_status (p : NearChainProvider)
  : Proc World (Result RelayerStatus NearRpcError) :=
  let? block := consult (final_block (rpc p)) in
  let? key := consult (λ n, view_access_key (rpc p) n (block_hash block) (relayer_account_id p)
                              (relayer_public_key p)) in
  let? _ := ret (require_full_access key) in
  let? account := consult (λ n, view_account (rpc p) n (block_hash block) (relayer_account_id p)) in
  ret (Ok (MkStatus (MkHead (block_height block) (block_hash block) (access_key_nonce key)) account)).

End mechanism.

End Near.
