(* ===== verification/JsonRpc.v ===== *)
(** * The NEAR JSON-RPC endpoint

    Models [JsonRpcNearRpc] of [crates/x402-chain-near/src/rpc.rs], the implementation of
    the [NearRpc] trait: one call to the client of [near-jsonrpc-client] under a deadline,
    and what its answer or error means.  The client is a parameter; an elapsed deadline
    is its answer [None].  [Display] texts of errors come with them. *)

From stdpp Require Import base strings list numbers.
From Stdlib Require Import Lia NArith Ascii String.
From S2P Require Import Prelude Text Json Readiness Schema Receipt Near.

Open Scope string_scope.

Module JsonRpc.
Import Near.

(** ** Errors and answers of the client *)

Inductive JsonRpcError (E : Type) : Type :=
| HandlerError (error : E)
| OtherRpcError (display : string).
Arguments HandlerError {E} error.
Arguments OtherRpcError {E} display.

Inductive RpcQueryError : Type :=
| UnknownAccount
| UnknownAccessKey
| ContractMethodNotFound
| OtherQueryError (display : string).

Inductive InvalidTxError : Type :=
| InvalidSignerId
| InvalidReceiverId
| InvalidTxSignature
| CostOverflow
| ActionsValidation
| TransactionSizeExceeded
| InvalidTransactionVersion
| InvalidNonceIndex
| InvalidAccessKeyError
| SignerDoesNotExist
| InvalidNonce
| NonceTooLarge
| NotEnoughBalance
| LackBalanceForState
| InvalidChain
| Expired
| StorageError
| ShardCongested
| ShardStuck
| NotEnoughGasKeyBalance
| NotEnoughBalanceForDeposit.

Inductive RpcTransactionError : Type :=
| UnknownTransaction
| InvalidTransaction (context : InvalidTxError)
| TimeoutError
| OtherTransactionError (display : string).

Inductive QueryResponseKind : Type :=
| ViewAccountKind (account : AccountView)
| AccessKeyKind (key : AccessKeyView)
| CallResultKind (result : string)
| OtherKind.

Inductive TxExecutionStatus : Type :=
| StatusNone
| StatusIncluded
| StatusExecutedOptimistic
| StatusIncludedFinal
| StatusExecuted
| StatusFinal.

#[export] Instance TxExecutionStatus_eq_dec : EqDecision TxExecutionStatus.
Proof. solve_decision. Defined.

Definition status_text (s : TxExecutionStatus) : string :=
  match s with
  | StatusNone => "NONE"
  | StatusIncluded => "INCLUDED"
  | StatusExecutedOptimistic => "EXECUTED_OPTIMISTIC"
  | StatusIncludedFinal => "INCLUDED_FINAL"
  | StatusExecuted => "EXECUTED"
  | StatusFinal => "FINAL"
  end.

Inductive FinalExecutionOutcomeViewEnum : Type :=
| FinalExecutionOutcome (outcome : Receipt.FinalExecutionOutcomeView)
| FinalExecutionOutcomeWithReceipt (outcome : Receipt.FinalExecutionOutcomeView).

Record RpcTransactionResponse : Type := MkTransactionResponse {
  final_execution_status : TxExecutionStatus;
  final_execution_outcome : option FinalExecutionOutcomeViewEnum
}.

Inductive QueryRequest : Type :=
| ViewAccount (account_id : string)
| ViewAccessKey (account_id : string) (public_key : PublicKey)
| CallFunction (account_id method_name args : string).

(** The answer of a call within [RPC_CALL_TIMEOUT]. *)
Definition Call (A E : Type) : Type := option (Result A E).

Record JsonRpcClient : Type := MkClient {
  call_status : nat → Call string string;
  call_block : nat → Call FinalBlock string;
  call_query : nat → string → QueryRequest → Call QueryResponseKind (JsonRpcError RpcQueryError);
  call_send_tx : nat → SignedTransaction → Call RpcTransactionResponse (JsonRpcError RpcTransactionError);
  call_tx : nat → string → string → Call RpcTransactionResponse (JsonRpcError RpcTransactionError)
}.

(** ** What they mean *)

Definition query_error (e : JsonRpcError RpcQueryError) : NearRpcError :=
  match e with
  | HandlerError UnknownAccount => AccountNotFound
  | HandlerError UnknownAccessKey => RpcAccessKeyNotFound
  | HandlerError ContractMethodNotFound => MethodNotFound
  | HandlerError (OtherQueryError display) | OtherRpcError display => Request display
  end.

Definition classify_invalid_transaction (e : InvalidTxError) : NearRpcError :=
  match e with
  | InvalidSignerId | InvalidReceiverId | InvalidTxSignature | CostOverflow | ActionsValidation
  | TransactionSizeExceeded | InvalidTransactionVersion | InvalidNonceIndex => TransactionRejected
  | InvalidAccessKeyError | SignerDoesNotExist | InvalidNonce | NonceTooLarge | NotEnoughBalance
  | LackBalanceForState | InvalidChain | Expired | StorageError | ShardCongested | ShardStuck
  | NotEnoughGasKeyBalance | NotEnoughBalanceForDeposit => TransactionTemporarilyRejected
  end.

Definition transaction_error (e : JsonRpcError RpcTransactionError) : NearRpcError :=
  match e with
  | HandlerError UnknownTransaction => TransactionUnknown
  | HandlerError (InvalidTransaction context) => classify_invalid_transaction context
  | HandlerError TimeoutError => Timeout
  | HandlerError (OtherTransactionError display) | OtherRpcError display => Request display
  end.

Definition classify_transaction (response : RpcTransactionResponse)
  : Result TransactionLookup NearRpcError :=
  if negb (bool_decide (final_execution_status response = StatusFinal))
  then Ok (LookupPending (status_text (final_execution_status response)))
  else
  try outcome := ok_or (final_execution_outcome response)
        (InvalidResponse "FINAL transaction response has no execution outcome") in
  Ok (LookupFinal (match outcome with
                   | FinalExecutionOutcome outcome | FinalExecutionOutcomeWithReceipt outcome => outcome
                   end)).

(** [timeout(..).await.map_err(|_| Timeout)?] and the error's meaning. *)
Definition within_deadline {A E} (meaning : E → NearRpcError) (call : Call A E) : Result A NearRpcError :=
  match call with
  | None => Err Timeout
  | Some answer => map_err meaning answer
  end.

(** ** The trait *)

Section endpoint.
Context (c : JsonRpcClient).

Definition json_network_id (n : nat) : Result string NearRpcError :=
  within_deadline Request (call_status c n).

Definition json_final_block (n : nat) : Result FinalBlock NearRpcError :=
  within_deadline Request (call_block c n).

Definition json_view_account (n : nat) (block_hash account_id : string) : Result AccountView NearRpcError :=
  try kind := within_deadline query_error (call_query c n block_hash (ViewAccount account_id)) in
  match kind with
  | ViewAccountKind account => Ok account
  | _ => Err (InvalidResponse "view_account returned another response kind")
  end.

Definition json_view_access_key (n : nat) (block_hash account_id : string) (public_key : PublicKey)
  : Result AccessKeyView NearRpcError :=
  try kind := within_deadline query_error (call_query c n block_hash (ViewAccessKey account_id public_key)) in
  match kind with
  | AccessKeyKind key => Ok key
  | _ => Err (InvalidResponse "view_access_key returned another response kind")
  end.

Definition json_call_function (n : nat) (block_hash contract_id method_name args : string)
  : Result string NearRpcError :=
  try kind := within_deadline query_error
        (call_query c n block_hash (CallFunction contract_id method_name args)) in
  match kind with
  | CallResultKind result => Ok result
  | _ => Err (InvalidResponse "call_function returned another response kind")
  end.

Definition json_send_transaction_final (n : nat) (t : SignedTransaction)
  : Result TransactionLookup NearRpcError :=
  try response := within_deadline transaction_error (call_send_tx c n t) in
  classify_transaction response.

Definition json_transaction_status_final (n : nat) (hash signer_id : string)
  : Result TransactionLookup NearRpcError :=
  match call_tx c n hash signer_id with
  | None => Err Timeout
  | Some (Ok response) => classify_transaction response
  | Some (Err error) =>
      match transaction_error error with
      | TransactionUnknown => Ok LookupUnknown
      | other => Err other
      end
  end.

Definition json_rpc_near_rpc : NearRpc :=
  MkNearRpc json_network_id json_final_block json_view_account json_view_access_key json_call_function
    json_send_transaction_final json_transaction_status_final.

End endpoint.

End JsonRpc.
