(* ===== verification/Config.v ===== *)
(** * Configuration

    Models [crates/x402-near-facilitator/src/config.rs]: the launch policy an
    instance is configured with, its validation and the policy snapshot every claim
    journals; the secret files are in [Secrets].  JSON deserialization of the file
    is not modelled; a [ServiceConfig] is the value it produces.  Messages of
    [ConfigError] are kept where they are constant. *)

From stdpp Require Import base gmap strings list numbers.
From Stdlib Require Import Lia NArith ZArith Ascii String.
From S2P Require Import Prelude Text Json Readiness Schema Protocol Near.

Open Scope string_scope.
Open Scope list_scope.
Open Scope N_scope.

Module Config.

(** ** Networks and assets *)

Definition MAINNET : string := "near:mainnet".
Definition TESTNET : string := "near:testnet".

Definition NEAR_MAINNET_USDC : string :=
  "17208628f84f5d6ad33f0da3bbbeb27ffcb398eac501a31bd6ad2011e36133a1".
Definition NEAR_TESTNET_USDC : string :=
  "3e2210e1184b45b64c8a434c0a7e7b23cc04ea7eb7a6c3c32520d03d4afcb8af".
Definition BASE_MAINNET_USDC : string := "0x833589fcd6edb6e08f4c7c32d4f71b54bda02913".
Definition BASE_SEPOLIA_USDC : string := "0x036cbd53842c5426634e7929541ec2318f3dcf7e".

Definition canonical_usdc_asset (network : string) : option string :=
  if String.eqb network MAINNET then Some NEAR_MAINNET_USDC
  else if String.eqb network TESTNET then Some NEAR_TESTNET_USDC
  else if String.eqb network "eip155:8453" then Some BASE_MAINNET_USDC
  else if String.eqb network "eip155:84532" then Some BASE_SEPOLIA_USDC
  else None.

Definition canonical_eip712_domain (network : string) : option (string * string) :=
  if String.eqb network "eip155:8453" then Some ("USD Coin", "2")
  else if String.eqb network "eip155:84532" then Some ("USDC", "2")
  else None.

Inductive Environment : Type :=
| Mainnet
| Testnet.

#[export] Instance Environment_eq_dec : EqDecision Environment.
Proof. solve_decision. Defined.

Definition environment_network (e : Environment) : string :=
  match e with Mainnet => MAINNET | Testnet => TESTNET end.

Definition api_key_label (e : Environment) : string :=
  match e with Mainnet => "live" | Testnet => "test" end.

Definition default_client_budget (e : Environment) : string :=
  match e with
  | Mainnet => "100000000000000000000000"
  | Testnet => "1000000000000000000000000"
  end.

Definition network_environment (network : string) : option Environment :=
  if String.eqb network MAINNET || String.eqb network "eip155:8453" then Some Mainnet
  else if String.eqb network TESTNET || String.eqb network "eip155:84532" then Some Testnet
  else None.

(** ** URLs and addresses

    The parts of a parsed [url::Url] the service looks at; two URLs are equal when
    their serializations are. *)

Record Url : Type := MkUrl {
  serialization : string;
  url_scheme : string;
  host_str : option string;
  url_path : string;
  url_query : option string;
  url_fragment : option string;
  url_username : string;
  url_password : option string
}.

Definition url_eqb (a b : Url) : bool := String.eqb (serialization a) (serialization b).

(** [std::net::IpAddr]: four octets, or the value of a 128-bit address. *)
Inductive IpAddr : Type :=
| V4 (a b c d : N)
| V6 (bits : N).

Definition is_loopback (ip : IpAddr) : bool :=
  match ip with V4 a _ _ _ => a =? 127 | V6 bits => bits =? 1 end.

(** ** The configuration *)

Record RequestLimits : Type := MkLimits {
  body_bytes : N;
  verify_per_minute : N;
  settle_per_minute : N;
  verify_timeout_seconds : N;
  settle_timeout_seconds : N;
  max_concurrent_verify : N
}.

Definition default_request_limits : RequestLimits := MkLimits 65536 60 10 15 60 64.

Record SponsorshipConfig : Type := MkSponsorship {
  global_daily_yocto_near : string;
  default_client_daily_yocto_near : string;
  reservation_yocto_near : string;
  balance_warning_yocto_near : string;
  balance_hard_stop_yocto_near : string
}.

(** [policy_confirmations] is the field [required_confirmations]. *)
Record Eip155Config : Type := MkEip155 {
  chain_id : N;
  policy_confirmations : N;
  gas_limit : N;
  max_fee_per_gas_wei : string
}.

Definition default_payment_identifier : Protocol.PaymentIdentifierConfig :=
  Protocol.MkIdentifierConfig false 16 128.

Record ServiceConfig : Type := MkConfig {
  environment : Environment;
  chain_kind : ChainKind;
  network : string;
  bind_address : IpAddr * N;
  primary_rpc_url : Url;
  backup_rpc_url : Url;
  asset : string;
  asset_symbol : string;
  minimum_amount : string;
  relayer_account_id : string;
  max_inner_gas : N;
  database_max_connections : N;
  request_limits : RequestLimits;
  sponsorship : SponsorshipConfig;
  payment_identifier : Protocol.PaymentIdentifierConfig;
  accept_v1 : bool;
  eip155 : option Eip155Config
}.

Inductive ConfigError : Type :=
| Read
| Json
| MissingEnvironment (name : string)
| EnvironmentError (name message : string)
| Invalid (message : string)
| InsecureSecretMode (path : string)
| InvalidSecretFileType (path : string).

(** ** Validation *)

Definition invalid_if (b : bool) (message : string) : Result unit ConfigError :=
  if b then Err (Invalid message) else Ok tt.

Definition is_evm_address (value : string) : bool :=
  is_some_and (strip_prefix "0x" value)
    (λ hex, (String.length hex =? 40)%nat && all_bytes is_ascii_hexdigit hex).

Definition validate_unsigned_decimal (name value : string) : Result unit ConfigError :=
  invalid_if (is_empty value || negb (all_bytes is_ascii_digit value))
    (name +:+ " must be an unsigned base-10 integer string").

Fixpoint validate_decimals (fields : list (string * string)) : Result unit ConfigError :=
  match fields with
  | [] => Ok tt
  | (name, value) :: fields =>
      try _ := validate_unsigned_decimal name value in validate_decimals fields
  end.

Definition decimal_fields (c : ServiceConfig) : list (string * string) :=
  let s := sponsorship c in
  [("minimum_amount", minimum_amount c);
   ("sponsorship.global_daily_yocto_near", global_daily_yocto_near s);
   ("sponsorship.default_client_daily_yocto_near", default_client_daily_yocto_near s);
   ("sponsorship.reservation_yocto_near", reservation_yocto_near s);
   ("sponsorship.balance_warning_yocto_near", balance_warning_yocto_near s);
   ("sponsorship.balance_hard_stop_yocto_near", balance_hard_stop_yocto_near s)].

Definition is_lt (c : comparison) : bool := match c with Lt => true | _ => false end.
Definition is_gt (c : comparison) : bool := match c with Gt => true | _ => false end.

Definition MAX_INNER_GAS : N := 30000000000000.
Definition MAX_JOURNALED_CONFIRMATIONS : N := 2147483647.

Definition environment_debug (e : Environment) : string :=
  match e with Mainnet => "Mainnet" | Testnet => "Testnet" end.

Section validate.
Context `{Near.External}.

Definition validate_near (c : ServiceConfig) : Result unit ConfigError :=
  try _ := invalid_if (negb (String.eqb (network c) (environment_network (environment c))))
             ("network " +:+ network c +:+ " does not match environment "
              +:+ environment_debug (environment c)) in
  let expected_asset :=
    match environment c with Mainnet => NEAR_MAINNET_USDC | Testnet => NEAR_TESTNET_USDC end in
  try _ := invalid_if (negb (String.eqb (asset c) expected_asset))
             ("asset must be the canonical Circle USDC contract for " +:+ network c) in
  try _ := ok_or (Near.parse_account_id (asset c)) (Invalid "invalid asset account ID") in
  try _ := ok_or (Near.parse_account_id (relayer_account_id c))
             (Invalid "invalid relayer_account_id") in
  invalid_if (negb (max_inner_gas c =? MAX_INNER_GAS))
    "max_inner_gas must be exactly 30000000000000 for the launch policy".

Definition expected_chain_id (e : Environment) : N :=
  match e with Mainnet => 8453 | Testnet => 84532 end.
Definition expected_usdc (e : Environment) : string :=
  match e with Mainnet => BASE_MAINNET_USDC | Testnet => BASE_SEPOLIA_USDC end.

Definition validate_eip155 (c : ServiceConfig) : Result unit ConfigError :=
  let e := environment c in
  let id := to_decimal (expected_chain_id e) in
  try eip155 := ok_or (eip155 c)
                  (Invalid "eip155 chain_kind requires an eip155 configuration block") in
  try _ := invalid_if (negb (chain_id eip155 =? expected_chain_id e))
             ("eip155.chain_id must be " +:+ id +:+ " for environment " +:+ environment_debug e) in
  try _ := invalid_if (negb (String.eqb (network c) ("eip155:" +:+ id)))
             ("network must be eip155:" +:+ id +:+ " for environment " +:+ environment_debug e) in
  try _ := invalid_if (negb (eq_ignore_ascii_case (asset c) (expected_usdc e)))
             ("asset must be the canonical Circle USDC contract " +:+ expected_usdc e
              +:+ " for " +:+ network c) in
  try _ := invalid_if (negb (is_evm_address (relayer_account_id c)))
             "relayer_account_id must be the EVM signer's 0x address" in
  try _ := invalid_if (negb (max_inner_gas c =? 0))
             "max_inner_gas must be 0 for eip155 (EVM has no inner-gas ceiling)" in
  try _ := invalid_if (policy_confirmations eip155 =? 0)
             "eip155.required_confirmations must be at least 1" in
  try _ := invalid_if (MAX_JOURNALED_CONFIRMATIONS <? policy_confirmations eip155)
             "eip155.required_confirmations must fit a signed 32-bit journal field" in
  try _ := invalid_if (negb ((21000 <=? gas_limit eip155) && (gas_limit eip155 <=? 1000000)))
             "eip155.gas_limit must be between 21000 and 1000000" in
  try _ := validate_unsigned_decimal "eip155.max_fee_per_gas_wei" (max_fee_per_gas_wei eip155) in
  try max_fee_per_gas := ok_or (parse_uint u128_max (max_fee_per_gas_wei eip155))
      (Invalid "eip155.max_fee_per_gas_wei must fit an unsigned 128-bit integer") in
  try _ := invalid_if (max_fee_per_gas =? 0) "eip155.max_fee_per_gas_wei must be positive" in
  try maximum_l2_fee := ok_or (checked_mul u128_max (gas_limit eip155) max_fee_per_gas)
      (Invalid "eip155 gas limit multiplied by max fee per gas overflows") in
  try reservation := ok_or (parse_uint u128_max (reservation_yocto_near (sponsorship c)))
      (Invalid "eip155 sponsorship reservation must fit an unsigned 128-bit integer") in
  invalid_if (reservation <=? maximum_l2_fee)
    "eip155 sponsorship reservation must exceed gas_limit × max_fee_per_gas_wei so L1 data fees remain reserved".

(** The twin of the one in [protocol.rs]. *)
Definition compare_decimal (left right : string) : comparison :=
  let left := trim_start_zeros left in
  let right := trim_start_zeros right in
  let left := if is_empty left then "0" else left in
  let right := if is_empty right then "0" else right in
  match Nat.compare (String.length left) (String.length right) with
  | Eq => bytes_cmp left right
  | o => o
  end.

Definition validate (c : ServiceConfig) : Result unit ConfigError :=
  let s := sponsorship c in
  let l := request_limits c in
  try _ := invalid_if (url_eqb (primary_rpc_url c) (backup_rpc_url c))
             "primary_rpc_url and backup_rpc_url must be independent" in
  try _ := invalid_if (bool_decide (host_str (primary_rpc_url c) = host_str (backup_rpc_url c)))
             "primary_rpc_url and backup_rpc_url must use different hosts" in
  try _ := invalid_if (negb (String.eqb (url_scheme (primary_rpc_url c)) "https")
                       || negb (String.eqb (url_scheme (backup_rpc_url c)) "https"))
             "production RPC URLs must use HTTPS" in
  try _ := invalid_if (negb (is_loopback (bind_address c).1))
             "bind_address must be loopback; expose the service through the hardened proxy" in
  try _ := validate_decimals (decimal_fields c) in
  try _ := invalid_if (negb (String.eqb (asset_symbol c) "USDC"))
             "asset_symbol must be USDC for the launch policy" in
  try _ := invalid_if (is_lt (compare_decimal (minimum_amount c) "1000"))
             "minimum_amount must be at least 1000 atomic USDC" in
  try _ := invalid_if (negb (is_lt (compare_decimal (balance_hard_stop_yocto_near s)
                                      (balance_warning_yocto_near s))))
             "sponsorship.balance_hard_stop_yocto_near must be below the warning threshold" in
  try _ := invalid_if (is_gt (compare_decimal (reservation_yocto_near s)
                                (default_client_daily_yocto_near s))
                       || is_gt (compare_decimal (reservation_yocto_near s)
                                   (global_daily_yocto_near s)))
             "sponsorship reservation must not exceed either daily cap" in
  try _ := invalid_if (negb (body_bytes l =? 65536))
             "request_limits.body_bytes must be exactly 65536" in
  try _ := invalid_if ((database_max_connections c =? 0) || (verify_per_minute l =? 0)
                       || (settle_per_minute l =? 0) || (verify_timeout_seconds l =? 0)
                       || (settle_timeout_seconds l =? 0) || (max_concurrent_verify l =? 0))
             "database and request limits must be positive" in
  try _ := invalid_if (negb (Protocol.min_length (payment_identifier c) =? 16)
                       || negb (Protocol.max_length (payment_identifier c) =? 128))
             "payment_identifier bounds must match the x402 extension (16..=128)" in
  try _ := invalid_if (accept_v1 c && bool_decide (chain_kind c = Near))
             "accept_v1 requires an eip155 chain_kind (x402 v1 never covered NEAR)" in
  match chain_kind c with
  | Near => validate_near c
  | Eip155 => validate_eip155 c
  end.

(** *** Credential overrides of the RPC URLs *)

Context (url_parse : string → option Url).

Definition parse_secret_rpc_url (name value : string) : Result Url ConfigError :=
  try url := ok_or (url_parse value)
               (EnvironmentError name "credential must contain one valid absolute URL") in
  if negb (String.eqb (url_scheme url) "https")
  then Err (EnvironmentError name "credential URL must use HTTPS")
  else Ok url.

Definition with_rpc_urls (primary backup : Url) (c : ServiceConfig) : ServiceConfig :=
  MkConfig (environment c) (chain_kind c) (network c) (bind_address c) primary backup (asset c)
    (asset_symbol c) (minimum_amount c) (relayer_account_id c) (max_inner_gas c)
    (database_max_connections c) (request_limits c) (sponsorship c) (payment_identifier c)
    (accept_v1 c) (eip155 c).

Definition url_override (name : string) (value : option string) (url : Url)
  : Result Url ConfigError :=
  match value with Some value => parse_secret_rpc_url name value | None => Ok url end.

(** The configuration after [&mut self] and [Ok(())], or the error. *)
Definition apply_rpc_url_overrides (c : ServiceConfig) (primary backup : option string)
  : Result ServiceConfig ConfigError :=
  try primary := url_override "PRIMARY_RPC_URL_FILE" primary (primary_rpc_url c) in
  try backup := url_override "BACKUP_RPC_URL_FILE" backup (backup_rpc_url c) in
  let c := with_rpc_urls primary backup c in
  try _ := validate c in Ok c.

End validate.

Definition validate_otel_endpoint (endpoint : Url) : Result unit ConfigError :=
  try _ := invalid_if (negb (String.eqb (url_scheme endpoint) "https"))
             "OTEL_EXPORTER_OTLP_ENDPOINT must use HTTPS" in
  invalid_if (negb (String.eqb (url_path endpoint) "/")
              || bool_decide (is_Some (url_query endpoint))
              || bool_decide (is_Some (url_fragment endpoint))
              || negb (is_empty (url_username endpoint))
              || bool_decide (is_Some (url_password endpoint)))
    "OTEL_EXPORTER_OTLP_ENDPOINT must be an HTTPS origin without credentials, a path, query, or fragment".

(** ** The journaled policy *)

(** [serde_json::json!] on an object literal: insertion in any order sorts. *)
Definition json_object (fields : list (string * Value)) : Value :=
  Object (foldr (λ kv m, insert kv.1 kv.2 m) [] fields).

Definition policy_snapshot (c : ServiceConfig) : Value :=
  let block :=
    match eip155 c with
    | None => Null
    | Some e =>
        json_object
          [("chainId", Num (PosInt (chain_id e)));
           ("requiredConfirmations", Num (PosInt (policy_confirmations e)));
           ("gasLimit", Num (PosInt (gas_limit e)));
           ("maxFeePerGasWei", Str (max_fee_per_gas_wei e))]
    end in
  json_object
    [("chainKind", Str (chain_kind_as_str (chain_kind c)));
     ("network", Str (network c));
     ("asset", Str (asset c));
     ("minimumAmount", Str (minimum_amount c));
     ("maxInnerGas", Num (PosInt (max_inner_gas c)));
     ("reservationYoctoNear", Str (reservation_yocto_near (sponsorship c)));
     ("eip155", block)].

End Config.
