(* ===== verification/Secrets.v ===== *)
(** * Secret files

    Models [SecretFiles], [RuntimeSecrets], [OtelConfig], [read_secret] and
    [ensure_private_mode] of [crates/x402-near-facilitator/src/config.rs].  The
    environment and the file system as one start-up sees them are an argument: paths are
    their text, a resolved path is its list of components. *)

From stdpp Require Import base strings list numbers.
From Stdlib Require Import Lia NArith Ascii String.
From S2P Require Import Prelude Text Encoding Json Readiness Schema Protocol Near Config.

Open Scope string_scope.
Open Scope list_scope.
Open Scope N_scope.

Module Secrets.
Import Config.

(** What [symlink_metadata] reports: whether the path itself is a regular file, and its
    permission bits. *)
Record Metadata : Type := MkMetadata {
  is_file : bool;
  mode : N
}.

Record Host : Type := MkHost {
  var_os : string → option string;
  symlink_metadata : string → option Metadata;
  read_file : string → option string;
  canonicalize : string → option (list string)
}.

(** ** Suffixes *)

Fixpoint strip_suffix (p s : string) : option string :=
  if String.eqb s p then Some EmptyString
  else match s with
       | EmptyString => None
       | String c s' => String c <$> strip_suffix p s'
       end.

Definition newline : string := String "010" EmptyString.
Definition crlf : string := String "013" newline.

Section host.
Context (h : Host).

(** ** Modes *)

Fixpoint starts_with_components (prefix path : list string) : bool :=
  match prefix, path with
  | [], _ => true
  | a :: prefix, b :: path => String.eqb a b && starts_with_components prefix path
  | _ :: _, [] => false
  end.

Definition path_is_within (directory path : string) : bool :=
  if is_empty directory then false
  else
  match canonicalize h directory, canonicalize h path with
  | Some directory, Some path => starts_with_components directory path
  | _, _ => false
  end.

Definition is_within_systemd_credentials (path : string) : bool :=
  match var_os h "CREDENTIALS_DIRECTORY" with
  | Some directory => path_is_within directory path
  | None => false
  end.

Definition ensure_private_mode (path : string) : Result unit ConfigError :=
  try metadata := ok_or (symlink_metadata h path) Read in
  if negb (is_file metadata) then Err (InvalidSecretFileType path)
  else if is_within_systemd_credentials path then Ok tt
  else if negb (N.land (mode metadata) 63 =? 0) then Err (InsecureSecretMode path)
  else Ok tt.

(** ** Reading *)

Definition terminal_line (value : string) : option string :=
  match strip_suffix crlf value with
  | Some value => Some value
  | None => strip_suffix newline value
  end.

Definition read_secret (path : string) : Result string ConfigError :=
  try _ := ensure_private_mode path in
  try bytes := ok_or (read_file h path) Read in
  if 65536 <? N.of_nat (String.length bytes)
  then Err (Invalid ("secret file " +:+ path +:+ " is unexpectedly large"))
  else if negb (Encoding.utf8_valid bytes)
  then Err (Invalid ("secret file " +:+ path +:+ " is not UTF-8"))
  else
  try value := ok_or (terminal_line bytes)
        (Invalid ("secret file " +:+ path +:+ " must end with exactly one newline")) in
  if is_empty value || Encoding.has_whitespace value
  then Err (Invalid ("secret file " +:+ path +:+ " is empty or contains non-terminal whitespace"))
  else Ok value.

(** ** Locations *)

Definition optional_path (name : string) : option string :=
  filter_opt (λ value, negb (is_empty value)) (var_os h name).

Definition required_path (name : string) : Result string ConfigError :=
  ok_or (optional_path name) (MissingEnvironment name).

Record SecretFiles : Type := MkSecretFiles {
  database_url_file : string;
  database_direct_url_file : string;
  relayer_key_file : string;
  api_key_pepper_file : string;
  primary_rpc_url_file : option string;
  backup_rpc_url_file : option string
}.

Record RuntimeSecrets : Type := MkRuntimeSecrets {
  database_url : string;
  database_direct_url : string;
  relayer_key : string;
  api_key_pepper : string;
  primary_rpc_secret : option string;
  backup_rpc_secret : option string
}.

Definition from_environment : Result SecretFiles ConfigError :=
  try database_url := required_path "DATABASE_URL_FILE" in
  let database_direct_url := default database_url (optional_path "DATABASE_DIRECT_URL_FILE") in
  try relayer_key := required_path "RELAYER_KEY_FILE" in
  try api_key_pepper := required_path "API_KEY_PEPPER_FILE" in
  Ok (MkSecretFiles database_url database_direct_url relayer_key api_key_pepper
        (optional_path "PRIMARY_RPC_URL_FILE") (optional_path "BACKUP_RPC_URL_FILE")).

(** [map(read_secret).transpose()] *)
Definition read_optional (path : option string) : Result (option string) ConfigError :=
  match path with
  | None => Ok None
  | Some path => try value := read_secret path in Ok (Some value)
  end.

Definition load (f : SecretFiles) : Result RuntimeSecrets ConfigError :=
  try database_url := read_secret (database_url_file f) in
  try database_direct_url := read_secret (database_direct_url_file f) in
  try relayer_key := read_secret (relayer_key_file f) in
  try api_key_pepper := read_secret (api_key_pepper_file f) in
  try primary := read_optional (primary_rpc_url_file f) in
  try backup := read_optional (backup_rpc_url_file f) in
  Ok (MkRuntimeSecrets database_url database_direct_url relayer_key api_key_pepper primary backup).

(** ** Telemetry *)

Context (url_parse : string → option Url).

Definition otel_from_environment : Result (option (Url * string)) ConfigError :=
  match var_os h "OTEL_EXPORTER_OTLP_ENDPOINT", optional_path "OTEL_EXPORTER_OTLP_HEADERS_FILE" with
  | None, None => Ok None
  | Some endpoint, Some headers_file =>
      try endpoint := ok_or (url_parse endpoint)
            (EnvironmentError "OTEL_EXPORTER_OTLP_ENDPOINT" "invalid URL") in
      try _ := validate_otel_endpoint endpoint in
      Ok (Some (endpoint, headers_file))
  | _, _ =>
      Err (Invalid "OTLP is enabled only when both OTEL_EXPORTER_OTLP_ENDPOINT and OTEL_EXPORTER_OTLP_HEADERS_FILE are set")
  end.

(** ** What a secret that was read is *)

Lemma strip_suffix_app p r : strip_suffix p (r +:+ p) = Some r.
Proof.
  induction r as [|c r IH].
  - change (EmptyString +:+ p) with p. destruct p; cbn [strip_suffix]; by rewrite String.eqb_refl.
  - rewrite append_cons. cbn [strip_suffix].
    destruct (String.eqb_spec (String c (r +:+ p)) p) as [E|_]; [| by rewrite IH].
    apply (f_equal String.length) in E. cbn in E. rewrite append_length in E. lia.
Qed.

Lemma strip_suffix_spec p s r : strip_suffix p s = Some r ↔ s = r +:+ p.
Proof.
  split; [| intros ->; apply strip_suffix_app].
  revert r. induction s as [|c s IH]; intros r; cbn [strip_suffix].
  - destruct (String.eqb_spec EmptyString p) as [<-|]; [| done]. by intros [= <-].
  - destruct (String.eqb_spec (String c s) p) as [<-|]; [by intros [= <-] |].
    destruct (strip_suffix p s) as [t|]; [| done]. intros [= <-]. by rewrite append_cons, <- (IH t).
Qed.

Lemma whitespace_at_end s : Encoding.has_whitespace (s +:+ String "013" EmptyString) = true.
Proof.
  induction s as [|c s IH]; [done |].
  change (String c s +:+ String "013" EmptyString) with (String c (s +:+ String "013" EmptyString)).
  cbn [Encoding.has_whitespace]. rewrite IH. by rewrite !orb_true_r.
Qed.

(** The file is a regular one that nobody else can read, or that the service manager
    guards. *)
Definition private_file (path : string) : Prop :=
  ∃ metadata, symlink_metadata h path = Some metadata ∧ is_file metadata = true ∧
    (N.land (mode metadata) 63 = 0 ∨ is_within_systemd_credentials path = true).

Lemma ensure_private_mode_ok path : ensure_private_mode path = Ok tt ↔ private_file path.
Proof.
  unfold ensure_private_mode, private_file. destruct (symlink_metadata h path) as [m|]; cbn.
  - destruct (is_file m) eqn:Ef; cbn.
    + destruct (is_within_systemd_credentials path); [split; eauto |].
      destruct (N.eqb_spec (N.land (mode m) 63) 0); cbn; split; eauto; [done |].
      intros (m' & [= <-] & _ & [?|?]); done.
    + split; [done |]. intros (m' & [= <-] & E & _). congruence.
  - split; [done |]. by intros (m & ? & _).
Qed.

Lemma terminal_line_ok bytes value :
  Encoding.has_whitespace value = false →
  terminal_line bytes = Some value ↔ bytes = value +:+ newline ∨ bytes = value +:+ crlf.
Proof.
  intros Hw. unfold terminal_line. destruct (strip_suffix crlf bytes) as [v|] eqn:Ec.
  - apply strip_suffix_spec in Ec as ->. split; [intros [= ->]; by right |].
    intros [E|E].
    + assert (value = v +:+ String "013" EmptyString) as ->; [| by rewrite whitespace_at_end in Hw].
      apply (f_equal (strip_suffix newline)) in E. rewrite strip_suffix_app in E.
      change crlf with (String "013" EmptyString +:+ newline) in E.
      rewrite <- append_assoc, strip_suffix_app in E. by injection E.
    + apply (f_equal (strip_suffix crlf)) in E. by rewrite !strip_suffix_app in E.
  - rewrite strip_suffix_spec. split; [by left |]. intros [E|E]; [done |].
    by rewrite E, strip_suffix_app in Ec.
Qed.

(** A secret is accepted exactly when it is private and well formed: the path itself
    is a regular file, not a symbolic link, closed to group and others (or inside the
    service manager's resolved credentials directory), and it holds, in at most 64 KiB of
    UTF-8, one non-empty value without any white space followed by exactly one line
    ending. *)
Theorem secret_accepted_iff path value :
  read_secret path = Ok value ↔
  private_file path ∧ value ≠ EmptyString ∧ Encoding.has_whitespace value = false ∧
  ∃ bytes, read_file h path = Some bytes ∧ N.of_nat (String.length bytes) <= 65536 ∧
    Encoding.utf8_valid bytes = true ∧ (bytes = value +:+ newline ∨ bytes = value +:+ crlf).
Proof.
  unfold read_secret. rewrite <- ensure_private_mode_ok.
  destruct (ensure_private_mode path) as [[]|e]; cbn; [| split; [done |]; by intros [? _]].
  destruct (read_file h path) as [bytes|]; cbn; [| split; [done |]; by intros (_ & _ & _ & b & ? & _)].
  destruct (N.ltb_spec 65536 (N.of_nat (String.length bytes))).
  { split; [done |]. intros (_ & _ & _ & b & [= <-] & ? & _). lia. }
  destruct (Encoding.utf8_valid bytes) eqn:Eu; cbn.
  2: { split; [done |]. intros (_ & _ & _ & b & [= <-] & _ & ? & _). congruence. }
  split.
  - intros Hv. destruct (terminal_line bytes) as [v|] eqn:Et; [| done]. cbn in Hv.
    destruct (is_empty v) eqn:Ee; [done |]. destruct (Encoding.has_whitespace v) eqn:Ew; [done |].
    cbn in Hv. injection Hv as ->. apply terminal_line_ok in Et; [| done].
    split_and!; try done; [by intros -> |]. by exists bytes.
  - intros (_ & Hne & Hw & b & [= <-] & _ & _ & Hb). apply terminal_line_ok in Hb as ->; [| done].
    cbn. rewrite Hw. by destruct value.
Qed.

End host.

(** ** A host *)

Definition host (contents : string) (bits : N) : Host :=
  MkHost (λ name, if String.eqb name "CREDENTIALS_DIRECTORY" then Some "/run/credentials" else None)
    (λ _, Some (MkMetadata true bits)) (λ _, Some contents)
    (λ path, if String.eqb path "/run/credentials" then Some ["run"; "credentials"]
             else if String.eqb path "/run/credentials/../x" then Some ["run"; "x"]
             else if String.eqb path "/run/credentials/key" then Some ["run"; "credentials"; "key"]
             else None).

Example secret_file_tests :
  map (λ contents, read_secret (host contents 384) "/etc/key")
    ["secret" +:+ newline; "secret" +:+ crlf; "secret"; "secret" +:+ newline +:+ newline; " secret" +:+ newline]
  = [Ok "secret"; Ok "secret";
     Err (Invalid "secret file /etc/key must end with exactly one newline");
     Err (Invalid "secret file /etc/key is empty or contains non-terminal whitespace");
     Err (Invalid "secret file /etc/key is empty or contains non-terminal whitespace")].
Proof. vm_compute. reflexivity. Qed.

(** The mode exception is for the credentials directory only. *)
Example credentials_directory_scopes_the_exception :
  map (λ path, is_ok (read_secret (host ("secret" +:+ newline) 416) path))
    ["/run/credentials/key"; "/run/credentials/../x"; "/etc/key"] = [true; false; false].
Proof. vm_compute. reflexivity. Qed.

End Secrets.
