(* ===== verification/Telemetry.v ===== *)
(** * Starting telemetry

    Models what of [crates/x402-near-facilitator/src/telemetry.rs] can stop a start:
    the credential file of the collector, its parsing into headers, and the endpoints
    derived from the configured one.  Building an exporter and installing the process's
    subscriber are fields of [TelemetryExternal]; recording a metric has no effect that
    the program reads back and is dropped. *)

From stdpp Require Import base gmap strings list numbers.
From Stdlib Require Import Lia NArith Ascii String.
From S2P Require Import Prelude Text Encoding Json Readiness Schema Protocol Near Config Secrets.

Open Scope string_scope.
Open Scope list_scope.
Open Scope N_scope.

Module Telemetry.
Import Config.

Inductive TelemetryError : Type :=
| TelemetrySecret (e : ConfigError)
| TelemetryHeaders
| TelemetryExporter
| TelemetrySubscriber.

Class TelemetryExternal : Type := {
  (** [Url::set_path], then [Url::to_string] *)
  url_with_path : Url → string → string;
  (** building the span or metric exporter for an endpoint and its headers *)
  exporter_builds : string → gmap string string → bool;
  (** [tracing_subscriber::registry()..try_init().is_ok()] *)
  subscriber_free : bool
}.

(** ** Pieces of [str] *)

(** [split(c)]: never empty. *)
Fixpoint split (c : ascii) (s : string) : list string :=
  match s with
  | EmptyString => [EmptyString]
  | String d s' =>
      if Ascii.eqb c d then EmptyString :: split c s'
      else match split c s' with
           | piece :: rest => String d piece :: rest
           | [] => [String d EmptyString]
           end
  end.

(** [split_once(c)] *)
Fixpoint split_once (c : ascii) (s : string) : option (string * string) :=
  match s with
  | EmptyString => None
  | String d s' =>
      if Ascii.eqb c d then Some (EmptyString, s')
      else '(before, after) ← split_once c s'; Some (String d before, after)
  end.

(** What follows a leading [White_Space] character. *)
Definition white_prefix (s : string) : option string :=
  match s with
  | EmptyString => None
  | String a s1 =>
      if Encoding.between 9 13 a || (byte_val a =? 32) then Some s1
      else
      match s1 with
      | EmptyString => None
      | String b s2 =>
          if (byte_val a =? 194) && ((byte_val b =? 133) || (byte_val b =? 160)) then Some s2
          else
          match s2 with
          | EmptyString => None
          | String c s3 =>
              let x := (byte_val a, byte_val b, byte_val c) in
              if bool_decide (x = (225, 154, 128)) || bool_decide (x = (227, 128, 128))
                 || bool_decide (x = (226, 129, 159))
                 || ((byte_val a =? 226) && (byte_val b =? 128)
                     && (Encoding.between 128 138 c || Encoding.between 168 169 c || (byte_val c =? 175)))
              then Some s3 else None
          end
      end
  end.

(** [trim_start], on fuel: each round drops at least a byte. *)
Fixpoint trim_start_from (fuel : nat) (s : string) : string :=
  match fuel with
  | O => s
  | S fuel => match white_prefix s with Some rest => trim_start_from fuel rest | None => s end
  end.

Definition trim_start (s : string) : string := trim_start_from (String.length s) s.

(** [trim_end]: a tail of white space only is dropped. *)
Fixpoint trim_end (s : string) : string :=
  if is_empty (trim_start s) then EmptyString
  else match s with
       | EmptyString => EmptyString
       | String c s' => String c (trim_end s')
       end.

Definition trim (s : string) : string := trim_end (trim_start s).

(** ** The collector's headers *)

Definition is_header_byte (c : ascii) : bool :=
  is_ascii_alphanumeric c || Ascii.eqb c "-" || Ascii.eqb c "_" || Ascii.eqb c ".".

Definition is_line_break (c : ascii) : bool := Ascii.eqb c "013" || Ascii.eqb c "010".

Definition parse_entry (entry : string) : Result (string * string) TelemetryError :=
  try both := ok_or (split_once "=" entry) TelemetryHeaders in
  let name := trim both.1 in
  let value := trim both.2 in
  if is_empty name || is_empty value || negb (all_bytes is_header_byte name)
     || negb (all_bytes (λ c, negb (is_line_break c)) value)
  then Err TelemetryHeaders
  else Ok (name, value).

Fixpoint insert_entries (entries : list string) (headers : gmap string string)
  : Result (gmap string string) TelemetryError :=
  match entries with
  | [] => Ok headers
  | entry :: entries =>
      try header := parse_entry entry in
      if bool_decide (is_Some (headers !! header.1)) then Err TelemetryHeaders
      else insert_entries entries (<[ header.1 := header.2 ]> headers)
  end.

Definition parse_headers (value : string) : Result (gmap string string) TelemetryError :=
  try headers := insert_entries (split "," value) ∅ in
  if bool_decide (headers = ∅) then Err TelemetryHeaders else Ok headers.

Section telemetry.
Context `{TelemetryExternal}.
Context (h : Secrets.Host).

Definition signal_endpoint (base : Url) (signal : string) : string :=
  url_with_path base ("/v1/" +:+ signal).

(** [TelemetryGuard::initialize], for a configured collector or none. *)
Definition initialize (otel : option (Url * string)) : Result unit TelemetryError :=
  match otel with
  | None => if subscriber_free then Ok tt else Err TelemetrySubscriber
  | Some (endpoint, headers_file) =>
      try headers_secret := map_err TelemetrySecret (Secrets.read_secret h headers_file) in
      try headers := parse_headers headers_secret in
      try _ := if exporter_builds (signal_endpoint endpoint "traces") headers then Ok tt
               else Err TelemetryExporter in
      try headers := parse_headers headers_secret in
      try _ := if exporter_builds (signal_endpoint endpoint "metrics") headers then Ok tt
               else Err TelemetryExporter in
      if subscriber_free then Ok tt else Err TelemetrySubscriber
  end.

End telemetry.

(** ** What the headers are *)

(** The pieces of a list, joined by a separator. *)
Fixpoint join (c : ascii) (l : list string) : string :=
  match l with
  | [] => EmptyString
  | [s] => s
  | s :: l => s +:+ String c (join c l)
  end.

Lemma split_join c s : join c (split c s) = s ∧ Forall (λ p, all_bytes (λ d, negb (Ascii.eqb c d)) p = true) (split c s).
Proof.
  induction s as [|d s IH]; [by split; [| repeat constructor] |]. cbn [split].
  destruct IH as [IH1 IH2].
  destruct (Ascii.eqb_spec c d) as [->|Hne].
  - destruct (split d s) as [|p l] eqn:E; [by destruct s; cbn in E; repeat case_match |].
    split; [| by constructor]. change (String d (join d (p :: l)) = String d s). by rewrite IH1.
  - destruct (split c s) as [|p l] eqn:E; [by destruct s; cbn in E; repeat case_match |].
    apply Forall_cons_1 in IH2 as [Hp Hl]. rewrite <- IH1. split; [by destruct l |].
    constructor; [| done]. cbn [all_bytes]. apply andb_true_iff. split; [| done].
    by destruct (Ascii.eqb_spec c d).
Qed.

Lemma split_piece c p s :
  all_bytes (λ d, negb (Ascii.eqb c d)) p = true →
  split c (p +:+ String c s) = p :: split c s.
Proof.
  induction p as [|d p IH]; cbn [all_bytes].
  - intros _. change (EmptyString +:+ String c s) with (String c s). cbn [split].
    by rewrite Ascii.eqb_refl.
  - intros [Hd Hp]%andb_true_iff. rewrite append_cons. cbn [split].
    apply negb_true_iff in Hd. by rewrite Hd, IH.
Qed.

Lemma split_one c p : all_bytes (λ d, negb (Ascii.eqb c d)) p = true → split c p = [p].
Proof.
  induction p as [|d p IH]; cbn [all_bytes split]; [done |].
  intros [Hd Hp]%andb_true_iff. apply negb_true_iff in Hd. by rewrite Hd, IH.
Qed.

Lemma join_split c l :
  l ≠ [] → Forall (λ p, all_bytes (λ d, negb (Ascii.eqb c d)) p = true) l → split c (join c l) = l.
Proof.
  intros Hne Hl. induction Hl as [|p l Hp Hl IH]; [done |]. destruct l as [|q l]; [by apply split_one |].
  change (join c (p :: q :: l)) with (p +:+ String c (join c (q :: l))). rewrite split_piece by done.
  by rewrite IH.
Qed.

(** One header that the credential file spells. *)
Definition header_of (entry : string) (header : string * string) : Prop :=
  ∃ before after, split_once "=" entry = Some (before, after) ∧
    header = (trim before, trim after) ∧ header.1 ≠ EmptyString ∧ header.2 ≠ EmptyString ∧
    all_bytes is_header_byte header.1 = true ∧
    all_bytes (λ c, negb (is_line_break c)) header.2 = true.

Lemma is_empty_spec s : is_empty s = true ↔ s = EmptyString.
Proof. by destruct s. Qed.

Lemma parse_entry_ok entry header : parse_entry entry = Ok header ↔ header_of entry header.
Proof.
  unfold parse_entry, header_of. destruct (split_once "=" entry) as [[before after]|]; cbn [ok_or result_bind fst snd]; cbv beta zeta.
  2: { split; [done |]. by intros (b & a & ? & _). }
  destruct (is_empty (trim before) || is_empty (trim after)
    || negb (all_bytes is_header_byte (trim before))
    || negb (all_bytes (λ c, negb (is_line_break c)) (trim after))) eqn:E.
  - split; [done |]. intros (b & a & [= <- <-] & -> & H1 & H2 & H3 & H4). cbn in *.
    rewrite H3, H4 in E. cbn in E. rewrite !orb_false_r, orb_true_iff, !is_empty_spec in E. tauto.
  - rewrite !orb_false_iff, !negb_false_iff in E. destruct E as [[[E1 E2] E3] E4].
    split; [intros [= <-] | intros (b & a & [= <- <-] & -> & _); done].
    exists before, after. split_and!; try done; cbn; intros Hx; [rewrite Hx in E1 | rewrite Hx in E2]; done.
Qed.

Lemma insert_entries_ok entries m0 m :
  insert_entries entries m0 = Ok m ↔
  ∃ headers, Forall2 header_of entries headers ∧ NoDup (headers.*1) ∧
    (∀ name, name ∈ headers.*1 → m0 !! name = None) ∧ m = list_to_map headers ∪ m0.
Proof.
  revert m0. induction entries as [|entry entries IH]; intros m0; cbn [insert_entries].
  { split.
    - intros [= ->]. exists []. split_and!; [done | apply NoDup_nil_2 | by intros ? ?%elem_of_nil | cbn; by rewrite (left_id_L ∅ (∪))].
    - intros (headers & Hf & _ & _ & ->). apply Forall2_nil_inv_l in Hf as ->. cbn. by rewrite (left_id_L ∅ (∪)). }
  destruct (parse_entry entry) as [header|e] eqn:Ep; cbn.
  2: { split; [done |]. intros (hs & Hf & _). inversion Hf as [|? header ? ? Hh]; subst.
       apply parse_entry_ok in Hh. congruence. }
  apply parse_entry_ok in Ep. case_bool_decide as Hin.
  { split; [done |]. intros (hs & Hf & _ & Hnone & _). inversion Hf as [|? header' ? ? Hh]; subst.
    apply parse_entry_ok in Hh, Ep. rewrite Hh in Ep. injection Ep as <-.
    rewrite Hnone in Hin by (cbn; set_solver). by destruct Hin. }
  rewrite IH. split.
  - intros (hs & Hf & Hnd & Hnone & ->). exists (header :: hs). split_and!; [by constructor | | |].
    + cbn. constructor; [| done]. intros Hx%Hnone. by rewrite lookup_insert_eq in Hx.
    + intros name [->|Hx]%elem_of_cons; [by apply eq_None_not_Some |].
      apply Hnone in Hx. by apply lookup_insert_None in Hx as [? _].
    + destruct header as [k v]. cbn. rewrite <- insert_union_r; [by rewrite insert_union_l |].
      apply not_elem_of_list_to_map_1. intros Hx%Hnone. by rewrite lookup_insert_eq in Hx.
  - intros (hs & Hf & Hnd & Hnone & ->). inversion Hf as [|? header' ? hs' Hh Hf']; subst.
    apply parse_entry_ok in Hh, Ep. rewrite Hh in Ep. injection Ep as <-. cbn in Hnd.
    inversion Hnd as [|? ? Hni Hnd']; subst. exists hs'. split_and!; [done | done | |].
    + intros name Hx. apply lookup_insert_None. split; [apply Hnone; cbn; set_solver | set_solver].
    + destruct header' as [k v]. cbn. rewrite <- insert_union_r; [by rewrite insert_union_l |].
      by apply not_elem_of_list_to_map_1.
Qed.

(** The collector's credential is read as it is written: it is accepted exactly when it
    is a comma-separated list, without repeated names, of names and values in which no
    name has a byte outside a header token and no value a line break; and what is sent is
    exactly that list. *)
Theorem headers_accepted_iff value m :
  parse_headers value = Ok m ↔
  ∃ entries headers, entries ≠ [] ∧ join "," entries = value ∧
    Forall (λ p, all_bytes (λ d, negb (Ascii.eqb "," d)) p = true) entries ∧
    Forall2 header_of entries headers ∧ NoDup (headers.*1) ∧ m = list_to_map headers.
Proof.
  unfold parse_headers. split.
  - intros Hm. apply result_bind_ok in Hm as (m' & Hi & Hm). case_bool_decide; [done |].
    injection Hm as <-. apply insert_entries_ok in Hi as (headers & Hf & Hnd & _ & ->).
    destruct (split_join "," value) as [Hj Hc]. exists (split "," value), headers.
    split_and!; try done; [| by rewrite (right_id_L ∅ (∪))].
    intros E. by rewrite E in Hj, Hf; apply Forall2_nil_inv_l in Hf as ->.
  - intros (entries & headers & Hne & <- & Hc & Hf & Hnd & ->). rewrite join_split by done.
    assert (insert_entries entries ∅ = Ok (list_to_map headers)) as ->.
    { apply insert_entries_ok. exists headers. split_and!; [done | done | by intros; apply lookup_empty |].
      by rewrite (right_id_L ∅ (∪)). }
    cbn. case_bool_decide as E; [| done]. destruct Hf as [|e hd es hs]; [done |].
    apply (f_equal (λ m, m !! hd.1)) in E. destruct hd. cbn in E. by rewrite lookup_insert_eq in E.
Qed.

End Telemetry.
