(* ===== verification/Auth.v ===== *)
(** * API-key authentication

    Models [crates/x402-near-facilitator/src/auth.rs]: key extraction from the
    headers, the key's shape, the peppered digest, the constant-time comparison with
    the stored digest, and key generation.  HMAC-SHA-256, hexadecimal encoding and the
    system's entropy are external. *)

From stdpp Require Import base gmap strings list numbers.
From Stdlib Require Import Lia NArith ZArith Ascii String.
From S2P Require Import Prelude Text Json Readiness Schema Sql Store Clients Near Config.

Open Scope string_scope.
Open Scope list_scope.
Open Scope N_scope.

Module Auth.
Import Clients.

Class AuthExternal : Type := {
  (** [HmacSha256::new_from_slice(pepper)] then [update] and [finalize] *)
  hmac_sha256 : string → string → option string;
  hex_encode : string → string;
  (** [SysRng::try_fill_bytes] of a buffer of [n] bytes, at a tick *)
  fill_bytes : nat → nat → option string
}.

(** What their documentation says of them. *)
Class AuthLaws `{AuthExternal} : Prop := {
  hmac_total : ∀ pepper s, ∃ d, hmac_sha256 pepper s = Some d ∧ String.length d = 32%nat;
  hex_length : ∀ s, String.length (hex_encode s) = (2 * String.length s)%nat;
  hex_lower : ∀ s, all_bytes is_lower_hex (hex_encode s) = true;
  fill_length : ∀ n tick s, fill_bytes n tick = Some s → String.length s = n
}.

Inductive AuthError : Type :=
| Invalid
| StoreFailure (e : StoreError)
| Configuration
| Entropy.

(** ** Headers

    A header's value is the text [HeaderValue::to_str] gives, [None] when it has bytes
    outside visible ASCII.  Names are lower case. *)
Abbreviation HeaderMap := (list (string * option string)).

Definition get_all (name : string) (headers : HeaderMap) : list (option string) :=
  (filter (λ h : string * option string, h.1 = name) headers).*2.

Definition single_header (headers : HeaderMap) (name : string) : Result (option string) AuthError :=
  match get_all name headers with
  | [] => Ok None
  | [value] => match value with Some text => Ok (Some text) | None => Err Invalid end
  | _ :: _ :: _ => Err Invalid
  end.

Definition is_ascii_whitespace (c : ascii) : bool :=
  existsb (Ascii.eqb c) [" "; "009"; "010"; "012"; "013"]%char.

(** [split_ascii_whitespace]: the nonempty runs of other bytes; [acc] is the reversed
    current run. *)
Fixpoint split_words (s : string) (acc : list ascii) : list string :=
  let word := match acc with [] => [] | _ => [string_of_list_ascii (rev acc)] end in
  match s with
  | EmptyString => word
  | String c s' => if is_ascii_whitespace c then word ++ split_words s' [] else split_words s' (c :: acc)
  end.

Definition split_ascii_whitespace (s : string) : list string := split_words s [].

Definition parse_bearer (value : string) : Result string AuthError :=
  match split_ascii_whitespace value with
  | [scheme; key] => if eq_ignore_ascii_case scheme "bearer" then Ok key else Err Invalid
  | _ => Err Invalid
  end.

Definition extract_presented_key (headers : HeaderMap) : Result string AuthError :=
  try x_api_key := single_header headers "x-api-key" in
  try authorization := single_header headers "authorization" in
  try bearer := match authorization with
                | None => Ok None
                | Some value => try key := parse_bearer value in Ok (Some key)
                end in
  match x_api_key, bearer with
  | Some key, Some key' => if String.eqb key key' then Ok key else Err Invalid
  | None, None => Err Invalid
  | Some key, None | None, Some key => Ok key
  end.

(** ** The shape of a key *)

(** [split_once('.')] *)
Fixpoint split_once (sep : ascii) (s : string) : option (string * string) :=
  match s with
  | EmptyString => None
  | String c s' =>
      if Ascii.eqb c sep then Some (EmptyString, s')
      else '(a, b) ← split_once sep s'; Some (String c a, b)
  end.

Definition contains (c : ascii) (s : string) : bool := negb (all_bytes (λ x, negb (Ascii.eqb x c)) s).

Definition key_label (environment : Config.Environment) : string :=
  "x402_" +:+ Config.api_key_label environment +:+ "_".

(** [ParsedApiKey::parse]: the prefix. *)
Definition parse_api_key (raw : string) (environment : Config.Environment) : Result string AuthError :=
  try parts := ok_or (split_once "." raw) Invalid in
  let '(prefix, secret) := parts in
  if contains "." secret || negb (String.length secret =? 64)%nat
     || negb (all_bytes is_lower_hex secret)
  then Err Invalid
  else
  try public_id := ok_or (strip_prefix (key_label environment) prefix) Invalid in
  if negb (String.length public_id =? 24)%nat || negb (all_bytes is_lower_hex public_id)
  then Err Invalid
  else Ok prefix.

Definition environment_name (environment : Config.Environment) : string :=
  match environment with Config.Mainnet => "mainnet" | Config.Testnet => "testnet" end.

Record AuthenticatedClient : Type := MkAuthenticated {
  client : Api.ApiClient;
  presented_prefix : string
}.

Record ApiKeyAuthenticator : Type := MkAuthenticator {
  auth_environment : Config.Environment;
  pepper : string
}.

Definition new_authenticator (environment : Config.Environment) (pepper : string)
  : Result ApiKeyAuthenticator AuthError :=
  if (String.length pepper <? 32)%nat then Err Configuration
  else Ok (MkAuthenticator environment pepper).

Section authenticate.
Context `{AuthExternal}.

Definition digest_api_key (pepper api_key : string) : Result string AuthError :=
  if (String.length pepper <? 32)%nat then Err Configuration
  else ok_or (hmac_sha256 pepper api_key) Configuration.

(** The digest compared with: zeros unless a candidate has one of the right length. *)
Definition expected_digest (candidate : option Api.ApiKeyCandidate) : string :=
  match candidate with
  | Some c => if (String.length (Api.digest c) =? 32)%nat then Api.digest c else Near.default_hash
  | None => Near.default_hash
  end.

(** The decision once the store has answered. *)
Definition judge (environment : Config.Environment) (prefix calculated : string)
  (candidate : option Api.ApiKeyCandidate) : Result AuthenticatedClient AuthError :=
  let digest_matches := String.eqb calculated (expected_digest candidate) in
  let candidate :=
    filter_opt (λ c, String.eqb (Api.environment (Api.client c)) (environment_name environment))
      candidate in
  if negb digest_matches then Err Invalid
  else ok_or ((λ c, MkAuthenticated (Api.client c) prefix) <$> candidate) Invalid.

Definition authenticate (a : ApiKeyAuthenticator) (headers : HeaderMap)
  : Proc World (Result AuthenticatedClient AuthError) :=
  let? raw := ret (extract_presented_key headers) in
  let? prefix := ret (parse_api_key raw (auth_environment a)) in
  let? calculated := ret (digest_api_key (pepper a) raw) in
  let? candidate := map_err_proc StoreFailure (lookup_api_key prefix) in
  ret (judge (auth_environment a) prefix calculated candidate).

Record GeneratedApiKey : Type := MkGenerated {
  generated_prefix : string;
  generated_raw : string;
  generated_digest : string
}.

(** The key made of a public identifier and a secret. *)
Definition key_of (environment : Config.Environment) (pepper public_id secret : string)
  : Result GeneratedApiKey AuthError :=
  let prefix := key_label environment +:+ hex_encode public_id in
  let raw := prefix +:+ "." +:+ hex_encode secret in
  try digest := digest_api_key pepper raw in
  Ok (MkGenerated prefix raw digest).

Definition generate (environment : Config.Environment) (pepper : string)
  : Proc World (Result GeneratedApiKey AuthError) :=
  let? public_id := consult (λ n, ok_or (fill_bytes 12 n) Entropy) in
  let? secret := consult (λ n, ok_or (fill_bytes 32 n) Entropy) in
  ret (key_of environment pepper public_id secret).

End authenticate.

End Auth.
