(* ===== verification/ClientsSpec.v ===== *)
(** * What client administration and authentication promise

    The invariant of the client and key tables and the preorder every operation moves
    them along: clients and keys are never removed, a key's owner, prefix and digest
    never change, and what is revoked stays revoked.  On top of it, who can
    authenticate. *)

From stdpp Require Import base gmap strings list numbers.
From Stdlib Require Import Lia NArith ZArith Ascii String.
From S2P Require Import Prelude Text Json Readiness Schema Sql Store Journal StoreProofs.
From S2P Require Import Clients Near Config Auth.

Open Scope string_scope.
Open Scope list_scope.
Open Scope N_scope.

Module ClientsSpec.
Import Journal StoreProofs Clients Auth.

(** ** Invariant and preorder *)

Record clients_inv (d : Database_) : Prop := MkClientsInv {
  prefix_unique : ∀ i j k k', api_keys d !! i = Some k → api_keys d !! j = Some k' →
    key_prefix k = key_prefix k' → i = j;
  keys_owned : ∀ i k, api_keys d !! i = Some k → is_Some (api_clients d !! key_client_id k);
  digests_sized : ∀ i k, api_keys d !! i = Some k → String.length (key_digest k) = 32%nat;
  clients_checked : ∀ i c, api_clients d !! i = Some c → client_check c = true
}.

Definition client_le (c c' : ClientRow) : Prop :=
  client_environment c' = client_environment c ∧
  (client_active c = false → client_active c' = false).

Definition key_le (k k' : KeyRow) : Prop :=
  key_client_id k' = key_client_id k ∧ key_prefix k' = key_prefix k ∧
  key_digest k' = key_digest k ∧ (key_active k = false → key_active k' = false).

Definition clients_le (d d' : Database_) : Prop :=
  (∀ i c, api_clients d !! i = Some c → ∃ c', api_clients d' !! i = Some c' ∧ client_le c c') ∧
  (∀ i k, api_keys d !! i = Some k → ∃ k', api_keys d' !! i = Some k' ∧ key_le k k').

Definition tables_step (d d' : Database_) : Prop :=
  clients_inv d → clients_inv d' ∧ clients_le d d'.

Definition clients_step (w w' : World) : Prop := tables_step (db w) (db w').

#[export] Instance client_le_preorder : PreOrder client_le.
Proof. split; [by intros c |]. intros a b c [] []. split; [congruence | auto]. Qed.

#[export] Instance key_le_preorder : PreOrder key_le.
Proof. split; [by intros k |]. intros a b c (?&?&?&?) (?&?&?&?). split_and!; try congruence. auto. Qed.

#[export] Instance tables_step_preorder : PreOrder tables_step.
Proof.
  split.
  - intros d Hd. split; [done |]. split; intros i x Hx; exists x; (split; [done | reflexivity]).
  - intros a b c H1 H2 Ha. destruct (H1 Ha) as [Hb [C1 K1]]. destruct (H2 Hb) as [Hc [C2 K2]].
    split; [done |]. split; intros i x Hx.
    + destruct (C1 i x Hx) as (y & Hy & L1). destruct (C2 i y Hy) as (z & Hz & L2).
      exists z. split; [done | by etrans].
    + destruct (K1 i x Hx) as (y & Hy & L1). destruct (K2 i y Hy) as (z & Hz & L2).
      exists z. split; [done | by etrans].
Qed.

#[export] Instance clients_step_preorder : PreOrder clients_step.
Proof.
  unfold clients_step. split; [intros w; reflexivity |].
  intros a b c H1 H2. by etrans.
Qed.

(** ** The statements *)

Lemma tables_step_frame d d' :
  api_clients d' = api_clients d → api_keys d' = api_keys d → tables_step d d'.
Proof.
  intros Hc Hk [U O D C]. split; [split; rewrite ?Hc, ?Hk; done |].
  split; rewrite ?Hc, ?Hk; intros i x Hx; exists x; (split; [done | reflexivity]).
Qed.

(** A change of the key rows in place. *)
Lemma tables_step_keys (f : KeyRow → KeyRow) d :
  (∀ k, key_le k (f k)) → tables_step d (with_keys (f <$> api_keys d) d).
Proof.
  intros Hf [U O D C]. split; [split | split]; cbn.
  - intros i j k k'. rewrite !lookup_fmap. intros (x & Hx & ->)%fmap_Some (y & Hy & ->)%fmap_Some.
    destruct (Hf x) as (_ & -> & _), (Hf y) as (_ & -> & _). by apply U.
  - intros i k. rewrite lookup_fmap. intros (x & Hx & ->)%fmap_Some.
    destruct (Hf x) as (-> & _). by eapply O.
  - intros i k. rewrite lookup_fmap. intros (x & Hx & ->)%fmap_Some.
    destruct (Hf x) as (_ & _ & -> & _). by eapply D.
  - done.
  - intros i c Hc. exists c. split; [done | reflexivity].
  - intros i k Hk. exists (f k). by rewrite lookup_fmap, Hk.
Qed.

Lemma tables_step_client d id c c' :
  api_clients d !! id = Some c → client_le c c' → client_check c' = true →
  tables_step d (with_clients (<[id := c']> (api_clients d)) d).
Proof.
  intros Hid Hle Hck [U O D C]. split; [split | split]; cbn; try done.
  - intros i k Hk. destruct (decide (key_client_id k = id)) as [->|Hne].
    + rewrite lookup_insert_eq. eauto.
    + rewrite lookup_insert_ne by done. by eapply O.
  - intros i x [[_ <-]|[_ Hx]]%lookup_insert_Some; eauto.
  - intros i x Hx. destruct (decide (i = id)) as [->|Hne].
    + exists c'. rewrite lookup_insert_eq. by simplify_eq.
    + exists x. rewrite lookup_insert_ne by done. split; [done | reflexivity].
  - intros i k Hk. exists k. split; [done | reflexivity].
Qed.

Lemma tables_step_new_client d id c :
  api_clients d !! id = None → client_check c = true →
  tables_step d (with_clients (<[id := c]> (api_clients d)) d).
Proof.
  intros Hid Hck [U O D C]. split; [split | split]; cbn; try done.
  - intros i k Hk. destruct (decide (key_client_id k = id)) as [->|Hne].
    + rewrite lookup_insert_eq. eauto.
    + rewrite lookup_insert_ne by done. by eapply O.
  - intros i x [[_ <-]|[_ Hx]]%lookup_insert_Some; eauto.
  - intros i x Hx. exists x. rewrite lookup_insert_ne by congruence. split; [done | reflexivity].
  - intros i k Hk. exists k. split; [done | reflexivity].
Qed.

Lemma prefix_taken_false prefix m :
  prefix_taken prefix m = false → ∀ i k, m !! i = Some k → key_prefix k ≠ prefix.
Proof.
  intros H i k Hk E. apply not_true_iff_false in H. apply H. unfold prefix_taken.
  apply existsb_exists. exists (i, k). split; [| by apply String.eqb_eq].
  by apply list_elem_of_In, elem_of_map_to_list.
Qed.

Lemma insert_api_key_step id client prefix digest d u d' :
  insert_api_key id client prefix digest d = Ok (u, d') → tables_step d d'.
Proof.
  unfold insert_api_key. repeat case_match; try discriminate. intros [= _ <-].
  match goal with H : negb _ = false |- _ => apply negb_false_iff, Nat.eqb_eq in H; rename H into Hlen end.
  match goal with H : prefix_taken _ _ = false |- _ => pose proof (prefix_taken_false _ _ H) as Hfresh end.
  repeat match goal with H : bool_decide _ = false |- _ => apply bool_decide_eq_false in H end.
  intros [U O D C]. split; [split | split]; cbn; try done.
  - intros i j k k' [[Ei Ek]|[Ni Hk]]%lookup_insert_Some [[Ej Ek']|[Nj Hk']]%lookup_insert_Some E;
      subst; eauto; cbn in E.
    + by destruct (Hfresh j k' Hk').
    + by destruct (Hfresh i k Hk).
  - intros i k [[_ <-]|[_ Hk]]%lookup_insert_Some; [by apply not_eq_None_Some | by eapply O].
  - intros i k [[_ <-]|[_ Hk]]%lookup_insert_Some; [done | by eapply D].
  - intros i c Hc. exists c. split; [done | reflexivity].
  - intros i k Hk. exists k. rewrite lookup_insert_ne; [split; [done | reflexivity] |].
    intros ->. match goal with H : ¬ is_Some _ |- _ => apply H; eauto end.
Qed.

Lemma insert_client_step c v s d u d' : insert_client c v s d = Ok (u, d') → tables_step d d'.
Proof.
  unfold insert_client. intros H. result_inv. repeat case_match; try discriminate. simplify_eq.
  match goal with H : negb _ = false |- _ => apply negb_false_iff in H end.
  by apply tables_step_new_client.
Qed.

Lemma update_client_step id f d n d' :
  (∀ c, client_active c = true → client_environment (f c) = client_environment c) →
  update_client id f d = Ok (n, d') → tables_step d d'.
Proof.
  intros Hf. unfold update_client. repeat case_match; intros [= _ <-]; try reflexivity.
  eapply tables_step_client; [done | | done]. split; [by apply Hf | congruence].
Qed.

Lemma revoke_keys_step client d u d' : revoke_keys client d = Ok (u, d') → tables_step d d'.
Proof.
  intros [= _ <-]. apply tables_step_keys. intros k. unfold revoked_key.
  case_match; split_and!; done.
Qed.

(** ** The operations *)

Lemma clients_query {A} (f : Stmt A) :
  (∀ d a d', f d = Ok (a, d') → tables_step d d') → respects clients_step (query f).
Proof.
  intros Hf. apply respects_query; [typeclasses eauto |]. intros w a d E. by eapply Hf.
Qed.

Lemma clients_tx {A} (body : Tx (TxEnd (Result A StoreError))) :
  (∀ env n d r d' n', body env n d = (Done (Ok (Commit r, d')), n') → tables_step d d') →
  respects clients_step (run_tx body).
Proof.
  intros Hb. apply respects_run_tx; [typeclasses eauto |].
  intros env n d r d' n' w E <-. by eapply Hb.
Qed.

Lemma touch_respects prefix : respects clients_step (touch_api_key prefix).
Proof.
  unfold touch_api_key. apply respects_bind; [typeclasses eauto | apply respects_now, _ |].
  intros t. apply clients_query. intros d a d' [= _ <-]. apply tables_step_keys.
  intros k. unfold touched. case_match; split_and!; done.
Qed.

Lemma create_client_respects c id prefix digest : respects clients_step (create_client c id prefix digest).
Proof.
  apply clients_tx. intros env n d r d' n' H. unfold create_client_tx in H. tx_inv.
  etrans; [by eapply insert_client_step | by eapply insert_api_key_step].
Qed.

Lemma rotate_client_key_respects client id prefix digest :
  respects clients_step (rotate_client_key client id prefix digest).
Proof.
  assert (respects clients_step (run_tx (rotate_tx client id prefix digest))).
  { apply clients_tx. intros env n d r d' n' H. unfold rotate_tx in H. tx_inv.
    etrans; [by eapply revoke_keys_step | by eapply insert_api_key_step]. }
  pose proof (respects_select clients_step (active_client client)).
  unfold rotate_client_key. solve_respects.
Qed.

Lemma revoke_client_tx_step id env n d e d' n' :
  revoke_client_tx id env n d = (Done (Ok (e, d')), n') →
  tables_step d d' ∧ ∀ c, api_clients d' !! id = Some c → client_active c = false.
Proof.
  unfold revoke_client_tx. intros H. tx_inv.
  match goal with H : update_client _ _ _ = _ |- _ => rename H into Hu end.
  match goal with H : revoke_keys _ _ = _ |- _ => rename H into Hk end.
  split; [etrans; [by eapply update_client_step; [| done] | by eapply revoke_keys_step] |].
  injection Hk as <- <-. intros c. cbn. unfold update_client in Hu.
  repeat case_match; simplify_eq; cbn; try congruence.
  rewrite lookup_insert_eq. by intros [= <-].
Qed.

Lemma revoke_client_respects id : respects clients_step (revoke_client id).
Proof. apply clients_tx. intros env n d r d' n' H. by apply revoke_client_tx_step in H as []. Qed.

Lemma allow_payee_respects client network asset pay_to :
  respects clients_step (allow_payee client network asset pay_to).
Proof.
  assert (∀ a t, respects clients_step (query (insert_payee client network a t))).
  { intros a t. apply clients_query. intros d u d'. unfold insert_payee.
    case_match; [discriminate |]. intros [= _ <-]. by apply tables_step_frame. }
  unfold allow_payee. by case_match.
Qed.

Lemma set_client_budget_respects id daily : respects clients_step (set_client_budget id daily).
Proof.
  unfold set_client_budget. apply respects_bind_ok; [typeclasses eauto | |].
  - apply clients_query. intros d a d' H. result_inv. by eapply update_client_step; [| done].
  - intros. apply respects_ret, _.
Qed.

(** ** Administration as a task *)

Inductive AdminCall : Type :=
| AdminCreate (c : Api.ApiClient) (key_id : N) (prefix digest : string)
| AdminRotate (client key_id : N) (prefix digest : string)
| AdminRevoke (client : N)
| AdminPayee (client : N) (network asset pay_to : string)
| AdminBudget (client : N) (daily : string)
| TouchKey (prefix : string).

Definition exec_admin (call : AdminCall) : Proc World unit :=
  match call with
  | AdminCreate c id prefix digest => let* _ := create_client c id prefix digest in ret tt
  | AdminRotate client id prefix digest => let* _ := rotate_client_key client id prefix digest in ret tt
  | AdminRevoke client => let* _ := revoke_client client in ret tt
  | AdminPayee client network asset pay_to => let* _ := allow_payee client network asset pay_to in ret tt
  | AdminBudget client daily => let* _ := set_client_budget client daily in ret tt
  | TouchKey prefix => let* _ := touch_api_key prefix in ret tt
  end.

Lemma exec_admin_clients call : respects clients_step (exec_admin call).
Proof.
  destruct call; (apply respects_bind; [apply _ | | intros; apply respects_ret, _]);
    eauto using create_client_respects, rotate_client_key_respects, revoke_client_respects,
      allow_payee_respects, set_client_budget_respects, touch_respects.
Qed.

(** Administration leaves the journal alone. *)
Definition same_journal (d d' : Database_) : Prop :=
  settlements d' = settlements d ∧ global_sponsorship d' = global_sponsorship d ∧
  client_sponsorship d' = client_sponsorship d ∧ settlement_events d' = settlement_events d.

#[local] Instance same_journal_preorder : PreOrder same_journal.
Proof. split; [by intros d |]. intros a b c (?&?&?&?) (?&?&?&?). split_and!; congruence. Qed.

Lemma insert_client_journal c v s d u d' : insert_client c v s d = Ok (u, d') → same_journal d d'.
Proof. unfold insert_client. intros H. result_inv. repeat case_match; by simplify_eq. Qed.
Lemma insert_api_key_journal id c p g d u d' : insert_api_key id c p g d = Ok (u, d') → same_journal d d'.
Proof. unfold insert_api_key. repeat case_match; intros; by simplify_eq. Qed.
Lemma update_client_journal id f d n d' : update_client id f d = Ok (n, d') → same_journal d d'.
Proof. unfold update_client. repeat case_match; intros; by simplify_eq. Qed.
Lemma revoke_keys_journal c d u d' : revoke_keys c d = Ok (u, d') → same_journal d d'.
Proof. by intros [= _ <-]. Qed.

Lemma same_journal_step d d' : same_journal d d' → db_step d d'.
Proof. intros (?&?&?&?). by apply db_step_frame. Qed.

Lemma admin_query {A} (f : Stmt A) :
  (∀ d a d', f d = Ok (a, d') → same_journal d d') → respects world_step (query f).
Proof. intros Hf. apply query_respects. intros d a d' E. by eapply same_journal_step, Hf. Qed.

Lemma admin_tx {A} (body : Tx (TxEnd (Result A StoreError))) :
  (∀ env n d r d' n', body env n d = (Done (Ok (Commit r, d')), n') → same_journal d d') →
  respects world_step (run_tx body).
Proof.
  intros Hb. apply run_tx_respects. intros env n d r d' n' E. by eapply same_journal_step, Hb.
Qed.

Lemma exec_admin_journal call : respects world_step (exec_admin call).
Proof.
  destruct call; (apply respects_bind; [apply _ | | intros; apply respects_ret, _]).
  - apply admin_tx. intros env n d r d' n' H. unfold create_client_tx in H. tx_inv.
    etrans; [by eapply insert_client_journal | by eapply insert_api_key_journal].
  - apply respects_bind_ok; [apply _ | apply respects_select, _ |]. intros [|]; [| apply respects_ret, _].
    apply admin_tx. intros env n d r d' n' H. unfold rotate_tx in H. tx_inv.
    etrans; [by eapply revoke_keys_journal | by eapply insert_api_key_journal].
  - apply admin_tx. intros env n d r d' n' H. unfold revoke_client_tx in H. tx_inv.
    etrans; [by eapply update_client_journal | by eapply revoke_keys_journal].
  - assert (∀ a t, respects world_step (query (insert_payee client0 network a t))).
    { intros a t. apply admin_query. intros d u d'. unfold insert_payee. case_match; intros; by simplify_eq. }
    unfold allow_payee. by case_match.
  - apply respects_bind_ok; [apply _ | | intros; apply respects_ret, _].
    apply admin_query. intros d a d' H. result_inv. by eapply update_client_journal.
  - apply respects_bind; [apply _ | apply respects_now, _ |]. intros t.
    apply admin_query. by intros d a d' [= _ <-].
Qed.

(** ** Who authenticates *)

Lemma key_join_inv prefix d id c digest :
  head (key_join prefix d) = Some (id, c, digest) →
  ∃ i k, api_keys d !! i = Some k ∧ key_active k = true ∧ key_prefix k = prefix ∧
    key_client_id k = id ∧ key_digest k = digest ∧
    api_clients d !! id = Some c ∧ client_active c = true.
Proof.
  intros H. assert ((id, c, digest) ∈ key_join prefix d) as Hin.
  { destruct (key_join prefix d); [done |]. cbn in H. simplify_eq. by left. }
  apply list_elem_of_omap in Hin as ([i k] & Hk%elem_of_map_to_list & E). cbn in E.
  destruct (active_key prefix k) eqn:Ea; [| done].
  apply andb_true_iff in Ea as [Ha Hp%String.eqb_eq].
  destruct (api_clients d !! key_client_id k) as [c'|] eqn:Ec; [| done]. cbn in E.
  destruct (client_active c') eqn:Eac; [| done]. simplify_eq. exists i, k. done.
Qed.

(** A good key is the one its prefix finds. *)
Lemma key_join_found d i k c :
  clients_inv d → api_keys d !! i = Some k → key_active k = true →
  api_clients d !! key_client_id k = Some c → client_active c = true →
  head (key_join (key_prefix k) d) = Some (key_client_id k, c, key_digest k).
Proof.
  intros Hinv Hk Ha Hc Hac.
  assert ((key_client_id k, c, key_digest k) ∈ key_join (key_prefix k) d) as Hin.
  { apply list_elem_of_omap. exists (i, k). split; [by apply elem_of_map_to_list |]. cbn.
    unfold active_key. by rewrite Ha, String.eqb_refl, Hc; cbn; rewrite Hac. }
  destruct (head (key_join (key_prefix k) d)) as [[[id c'] digest]|] eqn:E.
  - apply key_join_inv in E as (j & k' & Hk' & _ & Hp & <- & <- & Hc' & _).
    assert (j = i) as -> by (by eapply (prefix_unique d)). by simplify_eq.
  - destruct (key_join _ _); [by apply elem_of_nil in Hin | done].
Qed.

(** What a lookup finds in a database. *)
Definition found (prefix : string) (d : Database_) : Result (option Api.ApiKeyCandidate) StoreError :=
  match head (key_join prefix d) with
  | None => Ok None
  | Some row => try c := api_key_from_row row in Ok (Some c)
  end.

Lemma lookup_api_key_run prefix env n w :
  lookup_api_key prefix env n w =
  match reply env n with
  | Up => (Done (found prefix (db (interfere env n w))), S n, interfere env n w)
  | Crash => (Crashed, S n, interfere env n w)
  | _ => (Done (Err lost_connection), S n, interfere env n w)
  end.
Proof.
  unfold lookup_api_key, bind_ok, bind, query, request, select, ret, found.
  destruct (reply env n); cbn; rewrite ?with_db_id; done.
Qed.

Section auth.
Context `{AuthExternal}.

(** A successful authentication, decomposed: the presented key, and the rows that
    vouch for it in the database the lookup saw. *)
Lemma authenticate_inv a headers env n w r n' w' :
  authenticate a headers env n w = (Done (Ok r), n', w') →
  w' = interfere env n w ∧
  ∃ raw i k c, extract_presented_key headers = Ok raw ∧
    parse_api_key raw (auth_environment a) = Ok (presented_prefix r) ∧
    api_keys (db w') !! i = Some k ∧ key_active k = true ∧ key_prefix k = presented_prefix r ∧
    digest_api_key (pepper a) raw = Ok (expected_digest (Some (Api.MkCandidate (client r) (key_digest k)))) ∧
    key_client_id k = Api.id (client r) ∧
    api_clients (db w') !! Api.id (client r) = Some c ∧ client_active c = true ∧
    client_environment c = environment_name (auth_environment a).
Proof.
  unfold authenticate. intros (raw & Hraw & (prefix & Hp & (calc & Hd & H0)%run_ret_ok)%run_ret_ok)%run_ret_ok.
  unfold bind_ok, map_err_proc, bind in H0. rewrite lookup_api_key_run in H0.
  destruct (reply env n); try discriminate.
  destruct (found prefix (db (interfere env n w))) as [candidate|e] eqn:Ef; [| discriminate].
  cbn in H0. unfold judge in H0. destruct (negb _) eqn:Eq; [discriminate |].
  destruct (filter_opt _ candidate) as [cand|] eqn:Ec; [| discriminate]. cbn in H0.
  destruct candidate as [cand'|]; cbn in Ec; [| discriminate].
  destruct (String.eqb _ _) eqn:Ee in Ec; [| discriminate].
  unfold found in Ef. destruct (head (key_join prefix _)) as [[[id c] digest]|] eqn:Ej; [| discriminate].
  cbn in Ef. result_inv. checks_inv.
  unfold ret in H0. simplify_eq. split; [done |].
  destruct (key_join_inv _ _ _ _ _ Ej) as (i & k & Hk & Ha & Hpk & Hid & Hdk & Hc & Hac).
  apply negb_false_iff, String.eqb_eq in Eq. apply String.eqb_eq in Ee.
  exists raw, i, k, c. cbn. subst. split_and!; try done.
Qed.

(** C26: A key opens the service only while it is good: if a request authenticates,
    then in the database as it was at the lookup there is an active key row with the
    presented prefix, whose stored digest is the peppered digest of exactly the
    presented key, and its owner is the reported client, active and of this
    deployment's environment. *)
Theorem authentication_sound a headers env n w r n' w' :
  clients_inv (db w') →
  authenticate a headers env n w = (Done (Ok r), n', w') →
  ∃ raw i k c, extract_presented_key headers = Ok raw ∧
    api_keys (db w') !! i = Some k ∧ key_active k = true ∧
    parse_api_key raw (auth_environment a) = Ok (key_prefix k) ∧
    digest_api_key (pepper a) raw = Ok (key_digest k) ∧
    api_clients (db w') !! key_client_id k = Some c ∧ client_active c = true ∧
    key_client_id k = Api.id (client r) ∧
    client_environment c = environment_name (auth_environment a).
Proof.
  intros Hinv (-> & raw & i & k & c & Hraw & Hp & Hk & Ha & Hpk & Hd & Hid & Hc & Hac & He)%authenticate_inv.
  exists raw, i, k, c. unfold expected_digest in Hd. cbn in Hd.
  rewrite (digests_sized _ Hinv _ _ Hk) in Hd. cbn in Hd. rewrite Hpk, Hid. done.
Qed.

Lemma revoke_client_done id env n w b n' w' :
  revoke_client id env n w = (Done (Ok b), n', w') →
  ∃ d k, w' = interfere env k (with_db d (interfere env n w)) ∧
    tables_step (db (interfere env n w)) d ∧
    ∀ c, api_clients d !! id = Some c → client_active c = false.
Proof.
  unfold revoke_client, run_tx. destruct (reply env n); try discriminate.
  destruct (revoke_client_tx id env (S n) _) as [[[[[r|r] d]|e]|] n1] eqn:E; try discriminate.
  2: { unfold revoke_client_tx in E. tx_inv. }
  unfold bind, commit. destruct (reply env n1); try discriminate. intros H1.
  exists d, n1. split; [unfold ret in H1; destruct r; by simplify_eq |].
  by apply revoke_client_tx_step in E.
Qed.

(** Revocation is final: once [revoke_client] has returned, whatever the other tasks
    do (administration included), no request ever authenticates as that client
    again. *)
Theorem revoked_client_locked_out id env n w b n1 w1 w2 a headers env' m r m' w3 :
  rely clients_step env → clients_inv (db w) → is_Some (api_clients (db w) !! id) →
  revoke_client id env n w = (Done (Ok b), n1, w1) →
  clients_step w1 w2 → rely clients_step env' →
  authenticate a headers env' m w2 = (Done (Ok r), m', w3) →
  Api.id (client r) ≠ id.
Proof.
  intros Hr Hinv [c0 Hc0] (d & k & -> & Hd & Hoff)%revoke_client_done H12 Hr' Hauth <-.
  apply authenticate_inv in Hauth
    as (-> & raw & i & key & c & _ & _ & _ & _ & _ & _ & _ & Hc & Hac & _).
  destruct (Hr n w Hinv) as [Hi1 [K1 _]]. destruct (Hd Hi1) as [Hi2 [K2 _]].
  destruct (K1 _ _ Hc0) as (c1 & Hc1 & _). destruct (K2 _ _ Hc1) as (c2 & Hc2 & _).
  assert (tables_step d (db (interfere env' m w2))) as [_ [K _]]; [| exact Hi2 |].
  { etrans; [apply (Hr k (with_db d (interfere env n w))) |]. etrans; [exact H12 | apply Hr']. }
  destruct (K _ _ Hc2) as (c3 & Hc3 & _ & L). pose proof (L (Hoff _ Hc2)). congruence.
Qed.
(** *** A generated key *)

Context `{!AuthLaws}.

Lemma all_bytes_app p s t : all_bytes p (s +:+ t) = all_bytes p s && all_bytes p t.
Proof.
  induction s as [|c s IH]; [done |]. change (String c s +:+ t) with (String c (s +:+ t)).
  cbn. by rewrite IH, andb_assoc.
Qed.

Lemma lower_hex_no_dot c : is_lower_hex c = true → negb (Ascii.eqb c ".") = true.
Proof. by destruct (Ascii.eqb_spec c "."); [subst |]. Qed.

Lemma split_once_app sep s t :
  all_bytes (λ x, negb (Ascii.eqb x sep)) s = true → split_once sep (s +:+ String sep t) = Some (s, t).
Proof.
  induction s as [|c s IH].
  - intros _. change ("" +:+ String sep t) with (String sep t). cbn. by rewrite Ascii.eqb_refl.
  - change (String c s +:+ String sep t) with (String c (s +:+ String sep t)). cbn.
    intros [Hc Hs]%andb_true_iff. apply negb_true_iff in Hc. by rewrite Hc, IH.
Qed.

Lemma key_of_parses environment pepper public_id secret key :
  String.length public_id = 12%nat → String.length secret = 32%nat →
  key_of environment pepper public_id secret = Ok key →
  parse_api_key (generated_raw key) environment = Ok (generated_prefix key) ∧
  digest_api_key pepper (generated_raw key) = Ok (generated_digest key) ∧
  String.length (generated_digest key) = 32%nat.
Proof.
  intros Hp Hs Hk. unfold key_of in Hk. result_inv. injection Hk as <-. cbn.
  split_and!; [| done |].
  - unfold parse_api_key. change ("." +:+ ?s) with (String "." s).
    rewrite split_once_app.
    2: { rewrite all_bytes_app, andb_true_iff. split; [by destruct environment |].
         eapply all_bytes_weaken; [apply lower_hex_no_dot | apply hex_lower]. }
    cbn [ok_or result_bind].
    assert (contains "." (hex_encode secret) = false) as ->.
    { unfold contains. apply negb_false_iff.
      eapply all_bytes_weaken; [apply lower_hex_no_dot | apply hex_lower]. }
    rewrite hex_length, Hs, hex_lower. cbn [Nat.mul Nat.add Nat.eqb negb orb].
    rewrite (proj2 (strip_prefix_spec _ _ (hex_encode public_id)) eq_refl). cbn [ok_or result_bind].
    by rewrite hex_length, Hp, hex_lower.
  - match goal with Hd : digest_api_key _ _ = Ok _ |- _ => unfold digest_api_key in Hd; rename Hd into Hd end.
    checks_inv. match goal with Hh : hmac_sha256 ?q ?s = Some _ |- _ =>
      destruct (hmac_total q s) as (d & Hd & Hl); congruence end.
Qed.

Lemma create_client_calm c key_id prefix digest env n w u n' w' :
  calm env → create_client c key_id prefix digest env n w = (Done (Ok u), n', w') →
  ∃ budget, numeric_in (Api.daily_budget_yocto_near c) = Ok budget ∧
    api_keys (db w') !! key_id = Some (MkKey (Api.id c) prefix digest true None) ∧
    api_clients (db w') !! Api.id c =
      Some (MkClient (Api.name c) (Api.environment c) true budget
              (Z.of_N (Api.verify_rate_per_minute c)) (Z.of_N (Api.settle_rate_per_minute c))).
Proof.
  intros Hcalm. unfold create_client.
  destruct (create_client_tx c key_id prefix digest env (S n) (db w)) as [[[[[r|r] d]|e]|] n1] eqn:E;
    [rewrite (calm_commit _ _ _ _ _ _ _ Hcalm E)
    | rewrite (calm_rollback _ _ _ _ _ _ _ Hcalm E)
    | unfold run_tx; destruct Hcalm as [Hi Hr]; rewrite Hi, Hr, E; done
    | unfold run_tx; destruct Hcalm as [Hi Hr]; rewrite Hi, Hr, E; done].
  2: { unfold create_client_tx in E. tx_inv. }
  intros [= -> _ <-]. unfold create_client_tx in E. tx_inv.
  repeat match goal with H : try_from _ _ = Some _ |- _ => apply try_from_Some in H as [-> _] end.
  match goal with H : insert_client _ _ _ _ = _ |- _ => unfold insert_client in H; rename H into Hc end.
  match goal with H : insert_api_key _ _ _ _ _ = _ |- _ => unfold insert_api_key in H; rename H into Hk end.
  result_inv. match goal with H : numeric_in _ = Ok ?b |- _ => exists b end.
  repeat case_match; try discriminate. simplify_eq. cbn.
  by rewrite !lookup_insert_eq.
Qed.

(** The client a row reads as. *)
Definition client_of (id : N) (c : ClientRow) : Api.ApiClient :=
  Api.MkApiClient id (client_name c) (client_environment c) (numeric_out (daily_budget_yocto_near c))
    (Z.to_N (verify_rate_per_minute c)) (Z.to_N (settle_rate_per_minute c)).

(** A generated key whose row is active opens the service for its active client. *)
Lemma stored_key_authenticates environment pepper public_id secret key i id t c env m w headers :
  calm env → clients_inv (db w) →
  String.length public_id = 12%nat → String.length secret = 32%nat →
  key_of environment pepper public_id secret = Ok key →
  api_keys (db w) !! i = Some (MkKey id (generated_prefix key) (generated_digest key) true t) →
  api_clients (db w) !! id = Some c → client_active c = true →
  client_environment c = environment_name environment →
  extract_presented_key headers = Ok (generated_raw key) →
  authenticate (MkAuthenticator environment pepper) headers env m w =
    (Done (Ok (MkAuthenticated (client_of id c) (generated_prefix key))), S m, w).
Proof.
  intros [Hi' Hr'] Hinv Hp Hs Hkey Hk Hc Hac Henv Hraw.
  destruct (key_of_parses _ _ _ _ _ Hp Hs Hkey) as (Hparse & Hdigest & Hlen).
  pose proof (key_join_found _ _ _ _ Hinv Hk eq_refl Hc Hac) as Hjoin. cbn in Hjoin.
  pose proof (clients_checked _ Hinv _ _ Hc) as Hck. unfold client_check in Hck.
  apply andb_true_iff in Hck as [[_ Hv%Z.ltb_lt]%andb_true_iff Hst%Z.ltb_lt].
  unfold authenticate, bind_ok, map_err_proc, bind, ret. rewrite Hraw. cbn. rewrite Hparse. cbn.
  rewrite Hdigest, lookup_api_key_run, Hr', Hi'. unfold found. rewrite Hjoin. cbn.
  unfold rate_from_column. rewrite !(proj2 (Z.ltb_ge _ _)) by lia. cbn. unfold judge. cbn.
  rewrite Hlen. cbn. rewrite String.eqb_refl. cbn. rewrite Henv, String.eqb_refl. cbn. unfold client_of. by rewrite Henv.
Qed.

(** The key handed to a new client works: a key generated with the deployment's
    pepper and stored by [create_client] authenticates its holder, in either header
    form, as exactly that client with exactly the budget and rates it was created
    with. *)
Theorem created_key_authenticates c key_id environment pepper public_id secret key
    env n w u n1 w1 env' m headers :
  calm env → calm env' → clients_inv (db w) →
  String.length public_id = 12%nat → String.length secret = 32%nat →
  key_of environment pepper public_id secret = Ok key →
  Api.environment c = environment_name environment →
  to_decimal (dec_value (Api.daily_budget_yocto_near c)) = Api.daily_budget_yocto_near c →
  create_client c key_id (generated_prefix key) (generated_digest key) env n w = (Done (Ok u), n1, w1) →
  extract_presented_key headers = Ok (generated_raw key) →
  authenticate (MkAuthenticator environment pepper) headers env' m w1 =
    (Done (Ok (MkAuthenticated c (generated_prefix key))), S m, w1).
Proof.
  intros Hcalm Hcalm' Hinv Hp Hs Hkey Henv Hbudget Hcreate Hraw.
  assert (clients_inv (db w1)) as Hinv1.
  { eapply create_client_respects; [| exact Hcreate | exact Hinv].
    intros k x. destruct Hcalm as [Hi _]. rewrite Hi. reflexivity. }
  destruct (create_client_calm _ _ _ _ _ _ _ _ _ _ Hcalm Hcreate) as (budget & Hb & Hk & Hc).
  rewrite (stored_key_authenticates _ _ _ _ _ _ _ _ _ _ _ _ _ Hcalm' Hinv1 Hp Hs Hkey Hk Hc eq_refl Henv Hraw).
  unfold client_of. cbn. rewrite !N2Z.id. unfold numeric_in in Hb. destruct (is_decimal _); [| done].
  injection Hb as <-. unfold numeric_out. rewrite Hbudget. by destruct c.
Qed.

End auth.

(** ** A concrete deployment *)

Definition nibble (n : N) : ascii := ascii_of_N (if n <? 10 then 48 + n else 87 + n).

Fixpoint hex (s : string) : string :=
  match s with
  | EmptyString => EmptyString
  | String c s' => String (nibble (byte_val c / 16)) (String (nibble (byte_val c mod 16)) (hex s'))
  end.

(** The last 32 bytes stand for a digest. *)
Definition tail32 (s : string) : string :=
  string_of_list_ascii (take 32 (rev (list_ascii_of_string s) ++ repeat Ascii.zero 32)).

Definition bytes (n : nat) (c : ascii) : string := string_of_list_ascii (repeat c n).

#[local] Instance demo_auth : AuthExternal := {
  hmac_sha256 _ s := Some (tail32 s);
  hex_encode := hex;
  fill_bytes n _ := Some (bytes n "k")
}.

Lemma length_string_of_list_ascii l : String.length (string_of_list_ascii l) = List.length l.
Proof. induction l; cbn; congruence. Qed.

Lemma nibble_lower n : n < 16 → is_lower_hex (nibble n) = true.
Proof.
  intros H. assert (∀ k, (k < 16)%nat → is_lower_hex (nibble (N.of_nat k)) = true) as Hall.
  { intros k Hk. do 16 (destruct k as [|k]; [done |]). lia. }
  rewrite <- (N2Nat.id n). apply Hall. lia.
Qed.

#[local] Instance demo_auth_laws : AuthLaws.
Proof.
  split.
  - intros pepper s. exists (tail32 s). split; [done |]. unfold tail32.
    rewrite length_string_of_list_ascii, length_take, length_app, repeat_length. lia.
  - intros s. induction s as [|c s IH]; [done |]. cbn in *. rewrite IH. lia.
  - intros s. induction s as [|c s IH]; [done |]. cbn [hex_encode demo_auth hex all_bytes] in *.
    rewrite IH, !nibble_lower; [done | by apply N.mod_lt |].
    apply N.Div0.div_lt_upper_bound. pose proof (N_ascii_bounded c). unfold byte_val. lia.
  - intros n tick s [= <-]. unfold bytes. by rewrite length_string_of_list_ascii, repeat_length.
Qed.

Definition demo_pepper : string := bytes 32 "p".
Definition shop : Api.ApiClient := Api.MkApiClient 9 "shop" "mainnet" "1000" 60 10.

Definition demo_key : GeneratedApiKey :=
  let prefix := "x402_live_" +:+ hex (bytes 12 "i") in
  let raw := prefix +:+ "." +:+ hex (bytes 32 "s") in
  MkGenerated prefix raw (tail32 raw).

Example demo_key_of : key_of Config.Mainnet demo_pepper (bytes 12 "i") (bytes 32 "s") = Ok demo_key.
Proof. vm_compute. reflexivity. Qed.

Definition bare_world : World :=
  MkWorld (MkDatabase ∅ ∅ ∅ ∅ ∅ ∅ ∅ [] no_schema) Readiness.default [] (fresh_process 64).

Definition shop_world : World :=
  (create_client shop 1 (generated_prefix demo_key) (generated_digest demo_key)
     (quiet_env World) 0%nat bare_world).2.

Example shop_created :
  create_client shop 1 (generated_prefix demo_key) (generated_digest demo_key)
    (quiet_env World) 0%nat bare_world = (Done (Ok tt), 4%nat, shop_world).
Proof. vm_compute. reflexivity. Qed.

Lemma bare_inv : clients_inv (db bare_world).
Proof. split; cbn; intros until 0; rewrite lookup_empty; discriminate. Qed.

Lemma shop_inv : clients_inv (db shop_world).
Proof.
  eapply (create_client_respects _ _ _ _ (quiet_env World)); [| exact shop_created | exact bare_inv].
  intros n w. reflexivity.
Qed.

Definition demo_headers : HeaderMap := [("authorization", Some ("Bearer " +:+ generated_raw demo_key))].

Lemma created_key_authenticates_witness :
  authenticate (MkAuthenticator Config.Mainnet demo_pepper) demo_headers (quiet_env World) 0%nat
    shop_world = (Done (Ok (MkAuthenticated shop (generated_prefix demo_key))), 1%nat, shop_world).
Proof.
  apply (created_key_authenticates shop 1 Config.Mainnet demo_pepper (bytes 12 "i") (bytes 32 "s")
           demo_key (quiet_env World) 0%nat bare_world tt 4%nat shop_world (quiet_env World) 0%nat
           demo_headers); try apply quiet_calm.
  - exact bare_inv.
  - reflexivity.
  - reflexivity.
  - exact demo_key_of.
  - reflexivity.
  - vm_compute. reflexivity.
  - exact shop_created.
  - vm_compute. reflexivity.
Defined.

Example shop_authenticates :
  authenticate (MkAuthenticator Config.Mainnet demo_pepper) demo_headers (quiet_env World) 0%nat
    shop_world = (Done (Ok (MkAuthenticated shop (generated_prefix demo_key))), 1%nat, shop_world).
Proof. vm_compute. reflexivity. Qed.

Lemma authentication_sound_witness :
  ∃ raw i k c, extract_presented_key demo_headers = Ok raw ∧
    api_keys (db shop_world) !! i = Some k ∧ key_active k = true ∧
    parse_api_key raw Config.Mainnet = Ok (key_prefix k) ∧
    digest_api_key demo_pepper raw = Ok (key_digest k) ∧
    api_clients (db shop_world) !! key_client_id k = Some c ∧ client_active c = true ∧
    key_client_id k = 9 ∧ client_environment c = "mainnet".
Proof.
  apply (authentication_sound _ _ _ _ _ _ _ _ shop_inv shop_authenticates).
Defined.

(** Another client of the same deployment, created after the first is revoked. *)
Definition second_key : GeneratedApiKey :=
  let prefix := "x402_live_" +:+ hex (bytes 12 "j") in
  let raw := prefix +:+ "." +:+ hex (bytes 32 "t") in
  MkGenerated prefix raw (tail32 raw).

Definition cafe : Api.ApiClient := Api.MkApiClient 10 "cafe" "mainnet" "500" 60 10.

Definition revoked_world : World := (revoke_client 9 (quiet_env World) 0%nat shop_world).2.
Definition cafe_world : World :=
  (create_client cafe 2 (generated_prefix second_key) (generated_digest second_key)
     (quiet_env World) 0%nat revoked_world).2.
Definition cafe_headers : HeaderMap := [("x-api-key", Some (generated_raw second_key))].

Lemma quiet_rely (R : relation World) `{!PreOrder R} : rely R (quiet_env World).
Proof. intros n w. reflexivity. Qed.

Lemma revoked_client_locked_out_witness : Api.id cafe ≠ 9.
Proof.
  apply (revoked_client_locked_out 9 (quiet_env World) 0%nat shop_world true 4%nat revoked_world
           cafe_world (MkAuthenticator Config.Mainnet demo_pepper) cafe_headers (quiet_env World) 0%nat
           (MkAuthenticated cafe (generated_prefix second_key)) 1%nat cafe_world).
  - apply quiet_rely, _.
  - exact shop_inv.
  - exists (MkClient "shop" "mainnet" true 1000 60 10). vm_compute. reflexivity.
  - vm_compute. reflexivity.
  - apply (create_client_respects cafe 2 (generated_prefix second_key) (generated_digest second_key)
             (quiet_env World) 0%nat revoked_world (Done (Ok tt)) 4%nat cafe_world);
      [apply quiet_rely, _ | vm_compute; reflexivity].
  - apply quiet_rely, _.
  - vm_compute. reflexivity.
Defined.

End ClientsSpec.
