(* ===== verification/Demo.v ===== *)
(** * A concrete NEAR deployment

    Concrete values for the external functions, one relayer, one endpoint and one
    payment, at which the theorems' hypotheses are evaluated.  The encodings know
    one delegate and one outer transaction, and are faithful on them. *)

From stdpp Require Import base gmap strings list numbers.
From Stdlib Require Import Lia NArith ZArith Ascii String.
From S2P Require Import Prelude Text Json Readiness Schema Receipt Protocol Canonical Near Config.

Open Scope string_scope.
Open Scope list_scope.
Open Scope N_scope.

Module Demo.
Import Near.

(** [c] repeated 32 times: a hash. *)
Definition hash32 (c : ascii) : string := string_of_list_ascii (repeat c 32).

Definition alice_key : PublicKey := MkPublicKey ED25519 "ed25519:alice".
Definition relayer_pk : PublicKey := MkPublicKey ED25519 "ed25519:relayer".

Definition delegate : SignedDelegateAction :=
  MkSignedDelegate
    (MkDelegateAction "alice.near" "usdc.near"
       [FunctionCall (MkFunctionCall "ft_transfer" "transfer-args" 1000 1)] 42 150 alice_key)
    (MkSignature ED25519 "alice-signature").

Definition signer : NearRelayerSigner :=
  MkSigner "relayer.near" relayer_pk (λ _, MkSignature ED25519 "relayer-signature").

(** The outer transaction the relayer signs at access-key nonce 7. *)
Definition outer : Transaction :=
  V0 (MkTransactionV0 "relayer.near" relayer_pk 8 "alice.near" (hash32 "b") [Delegate delegate]).
Definition signed_outer : SignedTransaction :=
  MkSignedTransaction outer (MkSignature ED25519 "relayer-signature").

#[export] Instance Signature_eq_dec : EqDecision Signature.
Proof. solve_decision. Defined.
#[export] Instance FunctionCallAction_eq_dec : EqDecision FunctionCallAction.
Proof. solve_decision. Defined.
#[export] Instance InnerAction_eq_dec : EqDecision InnerAction.
Proof. solve_decision. Defined.
#[export] Instance DelegateAction_eq_dec : EqDecision DelegateAction.
Proof. solve_decision. Defined.
#[export] Instance SignedDelegateAction_eq_dec : EqDecision SignedDelegateAction.
Proof. solve_decision. Defined.
#[export] Instance Action_eq_dec : EqDecision Action.
Proof. solve_decision. Defined.
#[export] Instance TransactionV0_eq_dec : EqDecision TransactionV0.
Proof. solve_decision. Defined.
#[export] Instance Transaction_eq_dec : EqDecision Transaction.
Proof. solve_decision. Defined.
#[export] Instance SignedTransaction_eq_dec : EqDecision SignedTransaction.
Proof. solve_decision. Defined.

Definition requirements : WireRequirements :=
  MkRequirements "exact" "near:mainnet" "2500" "shop.near" (Num (PosInt 60)) "usdc.near".
Definition wire_request : WireRequest :=
  MkWireRequest (Num (PosInt 2)) (Num (PosInt 2)) requirements
    (Object [("signedDelegateAction", Str "ZGVsZWdhdGU=")]) requirements.

(** The same request as the JSON a client posts, and its canonical text. *)
Definition requirements_object : list (string * Value) :=
  [("amount", Str "2500"); ("asset", Str "usdc.near"); ("maxTimeoutSeconds", Num (PosInt 60));
   ("network", Str "near:mainnet"); ("payTo", Str "shop.near"); ("scheme", Str "exact")].
Definition request_value : Value :=
  Object
    [("paymentPayload",
       Object [("accepted", Object requirements_object);
               ("payload", Object [("signedDelegateAction", Str "ZGVsZWdhdGU=")]);
               ("x402Version", Num (PosInt 2))]);
     ("paymentRequirements", Object requirements_object);
     ("x402Version", Num (PosInt 2))].
Definition request_text : string := Eval vm_compute in Canonical.write_canonical_json request_value.

#[export] Instance external : External := {|
  base64_decode s := if String.eqb s "ZGVsZWdhdGU=" then Some "delegate" else None;
  sha256 _ := hash32 "h";
  delegate_from_slice s := if String.eqb s "delegate" then Some delegate else None;
  delegate_to_vec d := if decide (d = delegate) then Some "delegate" else None;
  transaction_from_slice s := if String.eqb s "outer" then Some signed_outer else None;
  transaction_to_vec t := if decide (t = signed_outer) then Some "outer" else None;
  delegate_verify _ := true;
  transaction_get_hash _ := hash32 "t";
  signature_verify _ _ _ := true;
  account_id_valid s := negb (is_empty s);
  hash_to_string s := "hash:" +:+ s;
  hash_from_str s := strip_prefix "hash:" s;
  wire_request_from_str s :=
    if String.eqb s "request" || String.eqb s request_text then Some wire_request else None;
  ft_transfer_args_from_slice s :=
    if String.eqb s "transfer-args" then Some (MkFtTransferArgs "shop.near" "2500") else None;
  string_from_slice s := Some s;
  value_from_slice s :=
    if String.eqb s "null" then Some Null
    else if String.eqb s request_text then Some request_value
    else Some (Str s);
  to_vec _ := Some "json"
|}.

(** The final outcome of the outer transaction: delegate receipt, then the token
    receipt, both successful. *)
Definition receipt (i : string) (children : list string) (executor : string)
  : Receipt.ExecutionOutcomeWithIdView :=
  Receipt.MkOutcome i children executor (Receipt.SuccessValue "") 10 100.
Definition final_outcome : Receipt.FinalExecutionOutcomeView :=
  Receipt.MkFinal (Receipt.FinalSuccessValue "") (hash32 "t") "relayer.near" "alice.near"
    (receipt (hash32 "t") ["r1"] "relayer.near")
    [receipt "r1" ["r2"] "alice.near"; receipt "r2" [] "usdc.near"].

(** An endpoint at height 100 that serves everything; [lookup] is its view of the
    outer transaction. *)
Definition endpoint (lookup : Result TransactionLookup NearRpcError) : NearRpc := {|
  rpc_network_id _ := Ok "mainnet";
  final_block _ := Ok (MkFinalBlock 100 (hash32 "b"));
  view_account _ _ _ := Ok (MkAccount 1000000 (hash32 "c"));
  view_access_key _ _ _ _ := Ok (MkAccessKey 7 FullAccess);
  call_function _ _ _ method _ :=
    if String.eqb method FT_BALANCE_OF then Ok "9000" else Ok "registered";
  send_transaction_final _ _ := lookup;
  transaction_status_final _ _ _ := lookup
|}.

Definition provider (lookup : Result TransactionLookup NearRpcError) : NearChainProvider :=
  MkProvider Mainnet (endpoint lookup) (Some (endpoint lookup)) signer.

Definition policy : VerificationPolicy := MkPolicy 30000000000000.

(** Two endpoints on different hosts. *)
Definition https (host : string) : Config.Url :=
  Config.MkUrl ("https://" +:+ host +:+ "/") "https" (Some host) "/" None None "" None.

(** A configuration on loopback with the default limits. *)
Definition sample_config (kind : ChainKind) (network asset relayer : string) (gas : N)
  (s : Config.SponsorshipConfig) (e : option Config.Eip155Config) : Config.ServiceConfig :=
  Config.MkConfig Config.Mainnet kind network (Config.V4 127 0 0 1, 8402) (https "primary.example")
    (https "backup.example") asset "USDC" "1000" relayer gas 10 Config.default_request_limits s
    Config.default_payment_identifier false e.

(** An empty world. *)
Definition world : World :=
  MkWorld (MkDatabase ∅ ∅ ∅ ∅ ∅ ∅ ∅ [] no_schema) Readiness.default [] (fresh_process 64).

End Demo.
