(* ===== verification/NearSpec.v ===== *)
(** * What NEAR verification accepts

    [verify_proto_request] accepts a payment exactly when it is one fresh, fully
    signed [ft_transfer] of the required amount to the required recipient, that the
    payer can still afford and the relayer is willing to sponsor.  The second part
    relates preparing the outer transaction to the strict decoding of its bytes. *)

From stdpp Require Import base gmap strings list numbers.
From Stdlib Require Import Lia NArith ZArith Ascii String.
From S2P Require Import Prelude Text Json Readiness Schema Receipt Near Demo.

Open Scope string_scope.
Open Scope list_scope.
Open Scope N_scope.

Module NearSpec.
Import Near.

Section verify.
Context `{External}.
Context (p : NearChainProvider) (policy : VerificationPolicy).

(** The envelope: protocol version 2, scheme [exact], this network, and accepted
    terms that repeat the required ones. *)
Record envelope_ok (wire : WireRequest) (timeout : N) : Prop := MkEnvelopeOk {
  env_versions : as_u64 (x402_version wire) = Some 2 ∧ as_u64 (payload_x402_version wire) = Some 2;
  env_schemes : scheme (accepted wire) = "exact" ∧ scheme (payment_requirements wire) = "exact";
  env_network : network (payment_requirements wire) = network_as_str (provider_network p);
  env_same :
    network (accepted wire) = network (payment_requirements wire) ∧
    asset (accepted wire) = asset (payment_requirements wire) ∧
    pay_to (accepted wire) = pay_to (payment_requirements wire) ∧
    amount (accepted wire) = amount (payment_requirements wire);
  env_timeout : as_u64 (max_timeout_seconds (payment_requirements wire)) = Some timeout ∧ 0 < timeout
}.

(** The delegate: a valid signature over exactly one [ft_transfer] call on the
    token contract, of the required amount to the required recipient, with one
    yoctoNEAR attached and bounded gas, by somebody other than the relayer. *)
Record delegate_ok (wire : WireRequest) (bytes : string) (d : SignedDelegateAction) : Prop :=
  MkDelegateOk {
  del_encoded : ∃ m encoded, as_object (payload wire) = Some m ∧
    get "signedDelegateAction" m = Some (Str encoded) ∧ base64_decode encoded = Some bytes;
  del_decoded : delegate_from_slice bytes = Some d;
  del_signed : delegate_verify d = true ∧
    supported_curves (key_type (public_key (delegate_action d)))
      (signature_type (delegate_signature d)) = true;
  del_payer : sender_id (delegate_action d) ≠ relayer_account_id p;
  del_transfer : ∃ call, actions (delegate_action d) = [FunctionCall call] ∧
    method_name call = FT_TRANSFER ∧
    receiver_id (delegate_action d) = asset (payment_requirements wire) ∧
    ft_transfer_args_from_slice (args call) =
      Some (MkFtTransferArgs (pay_to (payment_requirements wire)) (amount (payment_requirements wire))) ∧
    deposit call = 1 ∧ gas call <= max_sponsored_gas policy;
  del_amount : pay_to (payment_requirements wire) ≠ "" ∧
    is_decimal (amount (payment_requirements wire)) = true
}.

(** The chain, as the endpoint reported it from tick [n] on, all reads pinned to
    one final block: the delegate is inside its window and its nonce unused, signed
    with a full-access key; the payer can pay and the recipient can receive. *)
Record chain_ok (n : nat) (wire : WireRequest) (timeout : N) (d : SignedDelegateAction)
  (amount_ : N) (block : FinalBlock) : Prop := MkChainOk {
  chain_block : final_block (rpc p) n = Ok block;
  chain_window : block_height block < max_block_height (delegate_action d)
    <= block_height block + timeout;
  chain_nonce_range : nonce (delegate_action d) < N.min u64_max (block_height block * 1000000);
  chain_key : ∃ key_nonce, view_access_key (rpc p) (1 + n) (block_hash block)
      (sender_id (delegate_action d)) (public_key (delegate_action d))
      = Ok (MkAccessKey key_nonce FullAccess) ∧
    key_nonce < nonce (delegate_action d);
  chain_payer : is_ok (view_account (rpc p) (2 + n) (block_hash block)
                         (sender_id (delegate_action d))) = true;
  chain_token : account_id_valid (asset (payment_requirements wire)) = true ∧
    ∃ token, view_account (rpc p) (3 + n) (block_hash block) (asset (payment_requirements wire))
               = Ok token ∧ code_hash token ≠ default_hash;
  chain_balance : ∃ arg bytes decimal balance,
    account_args (sender_id (delegate_action d)) = Some arg ∧
    call_function (rpc p) (4 + n) (block_hash block) (asset (payment_requirements wire))
      FT_BALANCE_OF arg = Ok bytes ∧
    string_from_slice bytes = Some decimal ∧ is_decimal decimal = true ∧
    dec_value decimal = balance ∧ balance <= u128_max ∧ amount_ <= balance;
  chain_amount : amount_ = dec_value (amount (payment_requirements wire));
  chain_recipient : account_id_valid (pay_to (payment_requirements wire)) = true ∧
    ∃ arg, account_args (pay_to (payment_requirements wire)) = Some arg ∧
      (call_function (rpc p) (5 + n) (block_hash block) (asset (payment_requirements wire))
         STORAGE_BALANCE_OF arg = Err MethodNotFound ∨
       ∃ bytes storage, call_function (rpc p) (5 + n) (block_hash block)
           (asset (payment_requirements wire)) STORAGE_BALANCE_OF arg = Ok bytes ∧
         value_from_slice bytes = Some storage ∧ storage ≠ Null)
}.

(** The payment handed on carries the delegate that was checked. *)
Definition payment_of (wire : WireRequest) (timeout amount_ : N) (bytes : string)
  (d : SignedDelegateAction) : VerifiedPayment :=
  MkVerified (sender_id (delegate_action d)) (public_key (delegate_action d))
    (nonce (delegate_action d)) (max_block_height (delegate_action d))
    (MkVerifiedRequirements (provider_network p) (asset (payment_requirements wire))
       (pay_to (payment_requirements wire)) amount_ (amount (payment_requirements wire)) timeout)
    d bytes (sha256 (PAYMENT_HASH_DOMAIN +:+ bytes)).

Definition acceptable (n : nat) (request : string) (payment : VerifiedPayment) : Prop :=
  ∃ wire timeout bytes d amount_ block,
    wire_request_from_str request = Some wire ∧ envelope_ok wire timeout ∧
    delegate_ok wire bytes d ∧ chain_ok n wire timeout d amount_ block ∧
    payment = payment_of wire timeout amount_ bytes d.

(** ** The pure checks *)

Lemma ensure_ok {E} (b : bool) (e : E) u : ensure b e = Ok u ↔ b = true.
Proof. destruct u, b; cbn; naive_solver. Qed.

Lemma result_bind_ok_iff {A B E} (r : Result A E) (k : A → Result B E) b :
  result_bind r k = Ok b ↔ ∃ a, r = Ok a ∧ k a = Ok b.
Proof. destruct r; cbn; naive_solver. Qed.

Lemma ok_or_ok_iff {A E} (o : option A) (e : E) a : ok_or o e = Ok a ↔ o = Some a.
Proof. destruct o; cbn; naive_solver. Qed.

Lemma network_try_from_ok s net : network_try_from s = Ok net ↔ s = network_as_str net.
Proof.
  unfold network_try_from. destruct (String.eqb_spec s NEAR_MAINNET) as [->|H1].
  - destruct net; cbn; split; done.
  - destruct (String.eqb_spec s NEAR_TESTNET) as [->|H2]; destruct net; cbn; split; done.
Qed.

Lemma timeout_seconds_ok r t :
  timeout_seconds r = Ok t ↔ as_u64 (max_timeout_seconds r) = Some t ∧ 0 < t.
Proof.
  unfold timeout_seconds. rewrite ok_or_ok_iff. unfold filter_opt.
  destruct (as_u64 _) as [s|]; [| naive_solver].
  destruct (N.ltb_spec 0 s); split; [naive_solver | naive_solver | naive_solver |].
  intros [[= ->] ?]. lia.
Qed.

Lemma is_decimal_split s :
  is_empty s || negb (all_bytes is_ascii_digit s) = negb (is_decimal s).
Proof. unfold is_decimal. by rewrite negb_andb, negb_involutive. Qed.

Lemma parse_decimal_ok s n :
  parse_decimal s = Some n ↔ is_decimal s = true ∧ dec_value s = n ∧ n <= u128_max.
Proof.
  unfold parse_decimal. rewrite is_decimal_split. destruct (is_decimal s) eqn:E; cbn; [| naive_solver].
  rewrite parse_uint_decimal by done. unfold try_from.
  destruct (N.leb_spec (dec_value s) u128_max); split; try naive_solver.
  intros (_ & <- & ?). lia.
Qed.

Lemma decode_ft_transfer_args_ok input t :
  decode_ft_transfer_args input = Ok t ↔
  ft_transfer_args_from_slice input = Some (MkFtTransferArgs t.1 t.2) ∧ t.1 ≠ "" ∧
  is_decimal t.2 = true.
Proof.
  destruct t as [r a]. cbn [fst snd]. unfold decode_ft_transfer_args. rewrite result_bind_ok_iff. setoid_rewrite ok_or_ok_iff. split.
  - intros ([r' a'] & -> & Hk). cbn [ft_receiver_id ft_amount] in Hk.
    rewrite <- orb_assoc, is_decimal_split in Hk.
    destruct r'; [done |]. destruct (is_decimal a') eqn:E; [| done]. cbn in Hk. by simplify_eq.
  - intros (E & Hr & Ha). eexists. split; [exact E |]. cbn [ft_receiver_id ft_amount].
    rewrite <- orb_assoc, is_decimal_split, Ha. by destruct r.
Qed.

Lemma verify_envelope_ok request wire net t :
  verify_envelope p request = Ok (wire, net, t) ↔
  wire_request_from_str request = Some wire ∧ net = provider_network p ∧ envelope_ok wire t.
Proof.
  unfold verify_envelope. repeat setoid_rewrite result_bind_ok_iff.
  repeat setoid_rewrite ensure_ok. setoid_rewrite network_try_from_ok.
  setoid_rewrite timeout_seconds_ok. setoid_rewrite ok_or_ok_iff.
  unfold value_is_two. setoid_rewrite andb_true_iff.
  repeat setoid_rewrite String.eqb_eq. repeat setoid_rewrite bool_decide_eq_true. split.
  - intros (w & Hw & _ & Hv & _ & Hs & nt & Hn & _ & -> & _ & E1 & _ & E2 & _ & E3 & _ & E4 & s & Ht & E).
    simplify_eq. split_and!; [done | done |]. by split.
  - intros (Hw & -> & [Hv Hs Hn (E1 & E2 & E3 & E4) Ht]).
    exists wire. split; [done |]. exists tt. split; [done |]. exists tt. split; [done |].
    eexists. split; [done |].
    do 5 (exists tt; split; [done |]). exists t. by split.
Qed.

#[local] Opaque decode_ft_transfer_args.

Lemma verify_delegate_ok wire decoded :
  verify_delegate p policy wire = Ok decoded ↔
  ∃ bytes d, decoded = MkDecoded bytes d (sha256 (PAYMENT_HASH_DOMAIN +:+ bytes)) ∧
    delegate_ok wire bytes d.
Proof.
  unfold verify_delegate, decode_signed_delegate.
  repeat setoid_rewrite result_bind_ok_iff. setoid_rewrite decode_ft_transfer_args_ok.
  repeat setoid_rewrite ensure_ok. repeat setoid_rewrite ok_or_ok_iff.
  setoid_rewrite negb_true_iff. repeat setoid_rewrite String.eqb_eq.
  repeat setoid_rewrite String.eqb_neq. setoid_rewrite N.eqb_eq. setoid_rewrite N.leb_le.
  setoid_rewrite Nat.eqb_eq. split.
  - intros (enc & Henc & dec & (bytes & Hb & d & Hd & _ & Hcurve & [= <-]) & _ & Hver & _ & Hne & _ & Hlen
      & call & Hcall & _ & Hm & _ & Htok & [r a] & Hft & _ & Hr & _ & Ha & _ & Hdep & _ & Hgas & [= <-]).
    cbn [decoded_delegate fst snd] in *. subst r a.
    destruct Hft as (Hft & Hpay & Hamt).
    exists bytes, d. split; [done |]. split; [| done | done | done | | done].
    + destruct (as_object (payload wire)) as [m|]; [| done]. cbn in Henc.
      destruct (get _ m) as [[]|] eqn:Eg; try done. cbn in Henc. simplify_eq.
      exists m, enc. done.
    + exists call. destruct (actions _) as [|[c|] [|]]; try done. by simplify_eq.
  - intros (bytes & d & -> & [(m & enc & Hm & Hg & Hb) Hd [Hver Hc] Hne (call & Hact & Hmn & Htok & Hft & Hdep & Hgas) [Hp Ha]]).
    exists enc. split; [by rewrite Hm; cbn; rewrite Hg |].
    exists (MkDecoded bytes d (hash_signed_delegate_bytes bytes)). cbn [decoded_delegate]. split.
    { exists bytes. split; [done |]. exists d. split; [done |]. by exists tt. }
    exists tt. split; [done |]. exists tt. split; [done |]. rewrite Hact.
    exists tt. split; [done |]. exists call. split; [done |]. exists tt. split; [done |].
    exists tt. split; [done |]. eexists (_, _). cbn [fst snd]. split; [done |].
    do 4 (exists tt; split; [done |]). done.
Qed.

Lemma verify_offline_ok request off :
  verify_offline p policy request = Ok off ↔
  ∃ wire t bytes d, wire_request_from_str request = Some wire ∧ envelope_ok wire t ∧
    delegate_ok wire bytes d ∧
    off = MkOffline (provider_network p) (payment_requirements wire) t
            (MkDecoded bytes d (sha256 (PAYMENT_HASH_DOMAIN +:+ bytes))).
Proof.
  unfold verify_offline. rewrite result_bind_ok_iff. split.
  - intros ([[wire net] t] & (Hw & -> & He)%verify_envelope_ok & Hk).
    apply result_bind_ok_iff in Hk as (dec & (bytes & d & -> & Hd)%verify_delegate_ok & [= <-]).
    by exists wire, t, bytes, d.
  - intros (wire & t & bytes & d & Hw & He & Hd & ->).
    exists (wire, provider_network p, t). split; [by apply verify_envelope_ok |].
    apply result_bind_ok_iff. eexists. split; [apply verify_delegate_ok; eauto | done].
Qed.

Lemma verify_window_ok d t h :
  0 < t →
  verify_window d t h = Ok tt ↔
  h < max_block_height d <= h + t ∧ nonce d < N.min u64_max (h * 1000000).
Proof.
  intros Ht. unfold verify_window. repeat setoid_rewrite result_bind_ok_iff.
  repeat setoid_rewrite ensure_ok. setoid_rewrite ok_or_ok_iff.
  setoid_rewrite negb_true_iff. setoid_rewrite N.eqb_neq. setoid_rewrite N.leb_le.
  setoid_rewrite N.ltb_lt. unfold checked_sub, saturating_mul, NONCE_RANGE_MULTIPLIER.
  destruct (N.leb_spec h (max_block_height d)) as [Hle|Hlt].
  - split.
    + intros (r & [= <-] & _ & Hnz & _ & Hr & Hn). lia.
    + intros [Hw Hn]. eexists. split; [done |]. exists tt. split; [lia |]. exists tt. split; [lia |]. lia.
  - split; [naive_solver | lia].
Qed.

Lemma verify_access_key_ok d key u :
  verify_access_key d key = Ok u ↔
  ∃ n, key = MkAccessKey n FullAccess ∧ n < nonce d.
Proof.
  unfold verify_access_key. rewrite result_bind_ok_iff. setoid_rewrite ensure_ok.
  setoid_rewrite negb_true_iff. setoid_rewrite N.leb_gt. destruct key as [n perm]. cbn. split.
  - intros (_ & Hn & Hp). exists n. by destruct perm.
  - intros (n' & [= <- ->] & Hn). exists tt. split; [done |]. by destruct u.
Qed.

Lemma verify_balance_ok bytes amount_text v :
  verify_balance bytes amount_text = Ok v ↔
  ∃ decimal balance, string_from_slice bytes = Some decimal ∧ is_decimal decimal = true ∧
    dec_value decimal = balance ∧ balance <= u128_max ∧ v <= balance ∧
    is_decimal amount_text = true ∧ v = dec_value amount_text.
Proof.
  unfold verify_balance. repeat setoid_rewrite result_bind_ok_iff.
  repeat setoid_rewrite ok_or_ok_iff. repeat setoid_rewrite parse_decimal_ok.
  setoid_rewrite ensure_ok. setoid_rewrite N.leb_le. split.
  - intros (dec & Hs & b & (Hd & <- & Hb) & a & (Ha & <- & Hab) & _ & Hle & [= <-]). by exists dec, (dec_value dec).
  - intros (dec & b & Hs & Hd & <- & Hb & Hle & Ha & ->).
    exists dec. split; [done |]. exists (dec_value dec). split; [done |].
    eexists. split; [split_and!; [done | done | lia] |]. by exists tt.
Qed.

Lemma verify_storage_ok r u :
  verify_storage r = Ok u ↔
  r = Err MethodNotFound ∨
  ∃ bytes storage, r = Ok bytes ∧ value_from_slice bytes = Some storage ∧ storage ≠ Null.
Proof.
  unfold verify_storage. destruct r as [bytes|e].
  - rewrite result_bind_ok_iff. setoid_rewrite ensure_ok. setoid_rewrite ok_or_ok_iff. split.
    + intros (v & Hv & Hn). right. exists bytes, v. by destruct v.
    + intros [?|(b & v & [= <-] & Hv & Hn)]; [done |]. exists v. by destruct v.
  - destruct u. destruct e; naive_solver.
Qed.

Lemma parse_account_id_ok s a : parse_account_id s = Some a ↔ account_id_valid s = true ∧ a = s.
Proof. unfold parse_account_id. destruct (account_id_valid s); naive_solver. Qed.

(** Opens a run of [verify_proto_request] into its checks. *)
Ltac open_verify :=
  unfold verify_proto_request;
  repeat first [setoid_rewrite run_ret_ok | setoid_rewrite run_consult_ok | setoid_rewrite run_consult];
  setoid_rewrite verify_offline_ok; setoid_rewrite verify_access_key_ok;
  setoid_rewrite verify_balance_ok; setoid_rewrite verify_storage_ok;
  repeat setoid_rewrite ensure_ok; repeat setoid_rewrite ok_or_ok_iff;
  repeat setoid_rewrite parse_account_id_ok; setoid_rewrite negb_true_iff;
  setoid_rewrite String.eqb_neq.

Lemma verify_sound env n w request payment n' w' :
  verify_proto_request p request policy env n w = (Done (Ok payment), n', w') →
  acceptable n request payment.
Proof.
  open_verify.
  intros (off & (wire & t & bytes & d & Hw & He & Hd & ->) & _ & block & Hb & [] & Hwin & _ & key & Hkey
    & _ & (kn & -> & Hkn) & _ & acc & Hacc & tok & [Htok ->] & _ & token & Htoken & _ & Hcode
    & barg & Hbarg & _ & bbytes & Hbb & v & (dec & bal & Hdec & Hdd & Hbal & Hmax & Hle & Ha & ->)
    & pt & [Hpt ->] & sarg & Hsarg & _ & _ & Hst & Hret).
  cbn [off_decoded off_requirements off_timeout off_network decoded_delegate] in *.
  apply verify_window_ok in Hwin as [Hwin Hrange]; [| apply He].
  exists wire, t, bytes, d, (dec_value (amount (payment_requirements wire))), block.
  split_and!; [done | done | done | | by injection Hret as <- _ _].
  split; [done | done | done | by exists kn | by cbn [Nat.add]; rewrite Hacc | eauto | | done | eauto].
  by exists barg, bbytes, dec, bal.
Qed.

Lemma verify_complete env n w request payment :
  (∀ k, reply env k ≠ Crash) → acceptable n request payment →
  ∃ n' w', verify_proto_request p request policy env n w = (Done (Ok payment), n', w').
Proof.
  intros Hrun (wire & t & bytes & d & v & block & Hw & He & Hd & Hc & ->).
  destruct Hc as [Hb Hwin Hrange (kn & Hkey & Hkn) Hacc (Htok & token & Htoken & Hcode)
    (barg & bbytes & dec & bal & Hbarg & Hbb & Hdec & Hdd & Hbal & Hmax & Hle) -> (Hpt & sarg & Hsarg & Hst)].
  destruct (view_account (rpc p) (2 + n) _ _) as [acc|] eqn:Eacc; [| done].
  eexists _, _. revert Hkey Eacc Htoken Hbb Hst. open_verify. intros Hkey Eacc Htoken Hbb Hst.
  eexists. split; [by exists wire, t, bytes, d |].
  cbn [off_decoded off_requirements off_timeout off_network decoded_delegate].
  split; [done |]. exists block. split; [done |]. exists tt.
  split; [by apply verify_window_ok; [apply He |] |].
  split; [done |]. eexists. split; [done |]. exists tt. split; [by exists kn |].
  split; [done |]. exists acc. split; [done |]. eexists. split; [done |].
  split; [done |]. exists token. split; [done |]. exists tt. split; [done |].
  exists barg. split; [done |]. split; [done |]. exists bbytes. split; [done |].
  eexists. split; [exists dec, bal; split_and!; try done; apply Hd |].
  eexists. split; [done |]. exists sarg. split; [done |]. split; [done |].
  exists tt. split; [done |]. reflexivity.
Qed.

(** C22: NEAR verification is exact.  In a run that is not cut short, the provider
    accepts a request precisely when it decodes to a version-2 [exact] payment on the
    provider's network whose accepted terms repeat the required ones; whose signed
    delegate verifies, is not the relayer's own, and carries exactly one [ft_transfer]
    call on the required token, to the required recipient, of the required amount,
    with one yoctoNEAR attached and gas within policy; and whose window, nonce, key,
    payer, token, balance and recipient storage hold at one final block.  The payment
    it returns is the delegate it checked. *)
Theorem near_verify_accepts_iff env n w request payment :
  (∀ k, reply env k ≠ Crash) →
  (∃ n' w', verify_proto_request p request policy env n w = (Done (Ok payment), n', w')) ↔
  acceptable n request payment.
Proof.
  intros Hrun. split.
  - intros (n' & w' & Hv). by eapply verify_sound.
  - by apply verify_complete.
Qed.

End verify.

#[local] Existing Instance Demo.external.

Definition demo_payment : VerifiedPayment :=
  payment_of (Demo.provider (Ok LookupUnknown)) Demo.wire_request 60 2500 "delegate" Demo.delegate.

Lemma near_verify_accepts_iff_witness :
  acceptable (Demo.provider (Ok LookupUnknown)) Demo.policy 0 "request" demo_payment.
Proof.
  apply (near_verify_accepts_iff (Demo.provider (Ok LookupUnknown)) Demo.policy (quiet_env World) 0
           Demo.world "request"); [discriminate |].
  eexists _, _. vm_compute. reflexivity.
Defined.

(** ** Preparing the outer transaction *)

(** The documented behaviour of borsh and of the relayer's key: encodings are
    faithful and canonical, and the relayer's signatures verify. *)
Record FaithfulLib `{External} (s : NearRelayerSigner) : Prop := MkFaithful {
  transaction_roundtrip : ∀ t b, transaction_to_vec t = Some b → transaction_from_slice b = Some t;
  delegate_canonical : ∀ b d, delegate_from_slice b = Some d → delegate_to_vec d = Some b;
  hash_roundtrip : ∀ h, hash_from_str (hash_to_string h) = Some h;
  signer_verifies : ∀ h, signature_verify (sign s h) h (relayer_key s) = true
}.

Lemma demo_faithful : FaithfulLib Demo.signer.
Proof.
  split.
  - intros t b. cbn. case_decide; [| done]. by intros [= <-]; subst.
  - intros b d. cbn. destruct (String.eqb_spec b "delegate"); [| done]. by intros [= <-]; subst.
  - intros h. by apply (strip_prefix_spec "hash:").
  - done.
Qed.

(** The transaction a successful preparation signs. *)
Definition outer_of `{External} (p : NearChainProvider) (payment : VerifiedPayment)
  (head : RelayerHead) : TransactionV0 :=
  MkTransactionV0 (relayer_account_id p) (relayer_public_key p) (head_access_key_nonce head + 1)
    (payer payment) (head_block_hash head) [Delegate (signed_delegate payment)].

Lemma prepare_outer_inv `{External} p payment head prepared :
  prepare_outer_transaction p payment head = Ok prepared →
  let t := outer_of p payment head in
  let hash := transaction_get_hash (V0 t) in
  head_access_key_nonce head + 1 <= u64_max ∧
  ∃ bytes, transaction_to_vec (MkSignedTransaction (V0 t) (sign (relayer p) hash)) = Some bytes ∧
    prepared = MkPreparedTransaction hash (head_access_key_nonce head + 1) (relayer_account_id p)
                 (relayer_public_key p) bytes.
Proof.
  unfold prepare_outer_transaction. intros Hp.
  apply result_bind_ok in Hp as (n & Hn & Hp). apply ok_or_ok in Hn. unfold checked_add in Hn.
  destruct (N.leb_spec (head_access_key_nonce head + 1) u64_max); [| done]. injection Hn as <-.
  apply result_bind_ok in Hp as (bytes & Hb & [= <-]). apply ok_or_ok in Hb. eauto.
Qed.

(** Preparing and strictly decoding are inverse: the bytes handed to the journal
    decode to the transaction that was signed, and hash to the journaled hash. *)
Lemma prepare_decodes `{External} p payment head prepared :
  FaithfulLib (relayer p) →
  prepare_outer_transaction p payment head = Ok prepared →
  ∃ sig, decode_signed_transaction (signed_transaction_bytes prepared)
           = Ok (MkSignedTransaction (V0 (outer_of p payment head)) sig) ∧
    signed_transaction_hash (signed_transaction_bytes prepared) = Ok (transaction_hash prepared) ∧
    transaction_get_hash (V0 (outer_of p payment head)) = transaction_hash prepared ∧
    signature_verify sig (transaction_hash prepared) (relayer_public_key p) = true ∧
    relayer_nonce prepared = head_access_key_nonce head + 1 ∧
    relayer_nonce prepared <= u64_max.
Proof.
  intros Hlib Hp. apply prepare_outer_inv in Hp as (Hn & bytes & Hb & ->).
  assert (decode_signed_transaction bytes
          = Ok (MkSignedTransaction (V0 (outer_of p payment head))
                  (sign (relayer p) (transaction_get_hash (V0 (outer_of p payment head)))))) as Hd.
  { unfold decode_signed_transaction. rewrite (transaction_roundtrip _ Hlib _ _ Hb). cbn.
    by rewrite (signer_verifies _ Hlib). }
  eexists. cbn. split; [exact Hd |]. unfold signed_transaction_hash. rewrite Hd. cbn.
  split_and!; try done. apply (signer_verifies _ Hlib).
Qed.

End NearSpec.
