(* ===== verification/Scheme.v ===== *)
(** * The NEAR scheme as the facilitator library sees it

    Models the rest of [crates/x402-chain-near/src/mechanism.rs]: [NearExactFacilitator],
    the handler this repository registers with [x402-rs], and its answers.  The library's
    router [FacilitatorLocal] is not part of the repository: which requests it hands to
    the handler, and how it combines what the handlers advertise, are fields of
    [Facilitator]. *)

From stdpp Require Import base gmap strings list numbers.
From Stdlib Require Import Lia NArith ZArith Ascii String.
From S2P Require Import Prelude Text Json Readiness Schema Receipt Near.

Open Scope string_scope.
Open Scope list_scope.
Open Scope N_scope.

Module Scheme.
Import Near.

Definition DEFAULT_MAX_SPONSORED_GAS : N := 30000000000000.

(** [NearExactFacilitatorConfig], and its default. *)
Record NearExactFacilitatorConfig : Type := MkSchemeConfig { config_max_sponsored_gas : N }.
Definition default_config : NearExactFacilitatorConfig := MkSchemeConfig DEFAULT_MAX_SPONSORED_GAS.

Record NearExactFacilitator : Type := MkScheme {
  scheme_provider : NearChainProvider;
  scheme_policy : VerificationPolicy
}.

Definition new (p : NearChainProvider) (c : NearExactFacilitatorConfig) : NearExactFacilitator :=
  MkScheme p (MkPolicy (config_max_sponsored_gas c)).

(** [V2NearExact::build], on the decoded configuration. *)
Definition build (p : NearChainProvider) (c : option NearExactFacilitatorConfig) : NearExactFacilitator :=
  new p (default default_config c).

(** ** Answers *)

Definition payer_is_attributable (f : VerificationFailure) : bool :=
  match f with
  | InvalidX402Version | UnsupportedScheme | InvalidNetwork | NetworkMismatch | AssetMismatch
  | PayToMismatch | AmountMismatch | InvalidMaxTimeout | InvalidPayloadShape
  | InvalidSignedDelegateAction | InvalidSignature => false
  | _ => true
  end.

Definition with_member (key : string) (o : option string) (m : Map) : Map :=
  match o with Some v => Json.insert key (Str v) m | None => m end.

Definition invalid_response (failure : VerificationFailure) (payer : option string) : Value :=
  Object (with_member "payer" (if payer_is_attributable failure then payer else None)
    [("invalidReason", Str (reason failure)); ("isValid", Bool false)]).

Definition success_response (payer : string) : Value :=
  Object [("isValid", Bool true); ("payer", Str payer)].

Definition settlement_response (success : bool) (transaction : string) (net : NearNetwork)
  (payer error_reason error_message : option string) : Value :=
  Object (with_member "errorMessage" error_message (with_member "errorReason" error_reason
    (with_member "payer" payer
       [("network", Str (network_as_str net)); ("success", Bool success);
        ("transaction", Str transaction)]))).

Section scheme.
Context `{External}.

Definition attributable_payer (request : string) (failure : VerificationFailure) : option string :=
  if negb (payer_is_attributable failure) then None
  else
  wire ← wire_request_from_str request;
  object ← as_object (payload wire);
  field ← get "signedDelegateAction" object;
  encoded ← as_str field;
  decoded ← ok (decode_signed_delegate encoded);
  if delegate_verify (decoded_delegate decoded)
  then Some (sender_id (delegate_action (decoded_delegate decoded))) else None.

Definition verify (f : NearExactFacilitator) (request : string) : Proc World Value :=
  let* result := verify_proto_request (scheme_provider f) request (scheme_policy f) in
  ret (match result with
       | Ok payment => success_response (payer payment)
       | Err failure => invalid_response failure (attributable_payer request failure)
       end).

(** ** Settlement through the scheme *)

Inductive SettlementDisposition : Type :=
| DispositionSucceeded (transaction : string)
| DispositionFailed (transaction : option string) (reason : string) (message : option string).

(** [NearSettlementCoordinator]; a provider carries one. *)
Definition NearSettlementCoordinator : Type :=
  NearChainProvider → VerifiedPayment → Proc World (Result SettlementDisposition NearRpcError).

(** [SettlementDisabled], the coordinator of a provider that was given none. *)
Definition settlement_disabled : NearSettlementCoordinator := λ _ _,
  ret (Err (Request "durable settlement coordinator is not configured")).

Definition settle (coordinator : NearSettlementCoordinator) (f : NearExactFacilitator)
  (request : string) : Proc World (Result Value string) :=
  let p := scheme_provider f in
  let* result := verify_proto_request p request (scheme_policy f) in
  match result with
  | Err failure =>
      ret (Ok (settlement_response false "" (provider_network p) (attributable_payer request failure)
                 (Some (reason failure)) None))
  | Ok payment =>
      let* outcome := coordinator p payment in
      ret (match outcome with
           | Err e => Err (rpc_error_to_string e)
           | Ok (DispositionSucceeded transaction) =>
               Ok (settlement_response true (hash_to_string transaction) (provider_network p)
                     (Some (payer payment)) None None)
           | Ok (DispositionFailed transaction why message) =>
               Ok (settlement_response false (default "" (hash_to_string <$> transaction))
                     (provider_network p) (Some (payer payment)) (Some why) message)
           end)
  end.

(** ** What is advertised *)

Record SupportedPaymentKind : Type := MkKind {
  kind_version : N;
  kind_scheme : string;
  kind_network : string
}.

(** [signers] maps a chain, by its CAIP-2 text, to the addresses that sign for it. *)
Record SupportedResponse : Type := MkSupported {
  kinds : list SupportedPaymentKind;
  extensions : list string;
  signers : gmap string (list string)
}.

Definition supported (f : NearExactFacilitator) : SupportedResponse :=
  let chain_id := network_as_str (provider_network (scheme_provider f)) in
  MkSupported [MkKind 2 "exact" chain_id] ["payment-identifier"]
    {[ chain_id := [relayer_account_id (scheme_provider f)] ]}.

(** ** The registered facilitator *)

Record Facilitator : Type := MkFacilitator {
  registered : NearExactFacilitator;
  routes : string → bool;
  aggregate : SupportedResponse → Result SupportedResponse unit
}.

(** [FacilitatorLocal::verify] with the one registered handler. *)
Definition facilitator_verify (f : Facilitator) (request : string) : Proc World (Result Value unit) :=
  if routes f request then let* v := verify (registered f) request in ret (Ok v)
  else ret (Err tt).

Definition facilitator_supported (f : Facilitator) : Result SupportedResponse unit :=
  aggregate f (supported (registered f)).

End scheme.
End Scheme.
