(* ===== verification/Retry.v ===== *)
(** * Bounded retries

    Models [retry_while_transient] of [crates/x402-near-facilitator/src/retry.rs] and
    its twin [retry_transient] of the eip155 provider: one initial call and one more
    per entry of [RPC_RETRY_DELAYS], while the outcome is transient. *)

From stdpp Require Import base list numbers.
From Stdlib Require Import Lia.
From S2P Require Import Prelude.

Module Retry.

(** The delays, in milliseconds. *)
Definition RPC_RETRY_DELAYS : list nat := [300; 900].

Section retry.
Context {W T : Type}.

(** The loop over the delays still to come, at the outcome so far.  A sleep lets
    the others run: the interference of the next call covers it. *)
Fixpoint retry_loop (delays : list nat) (call : Proc W T) (transient : T → bool) (outcome : T)
  : Proc W T :=
  match delays with
  | [] => ret outcome
  | _ :: delays =>
      if transient outcome then
        let* outcome := call in retry_loop delays call transient outcome
      else ret outcome
  end.

Definition retry_while_transient (call : Proc W T) (transient : T → bool) : Proc W T :=
  let* outcome := call in
  retry_loop RPC_RETRY_DELAYS call transient outcome.

Context (R : relation W) `{!PreOrder R}.

Lemma respects_retry_loop delays call transient outcome :
  respects R call → respects R (retry_loop delays call transient outcome).
Proof. intros Hc. revert outcome. induction delays; intros; cbn; solve_respects. Qed.

Lemma respects_retry call transient :
  respects R call → respects R (retry_while_transient call transient).
Proof.
  intros Hc. apply respects_bind; [done | done |]. intros. by apply respects_retry_loop.
Qed.
End retry.

(** [retry_transient] on results: the predicate sees the error. *)
Definition retry_transient {W A E} (call : Proc W (Result A E)) (transient : E → bool)
  : Proc W (Result A E) :=
  retry_while_transient call (λ r, match r with Err e => transient e | Ok _ => false end).

Lemma related_retry {W A B} (P : A → B → Prop) (c : Proc W A) (d : Proc W B) s t :
  related P c d → (∀ a b, P a b → s a = t b) →
  related P (retry_while_transient c s) (retry_while_transient d t).
Proof.
  intros Hc Hst. apply (related_bind P); [done |]. generalize RPC_RETRY_DELAYS.
  induction l as [|x l IH]; intros a b Hab; cbn; [by apply related_ret |].
  rewrite (Hst _ _ Hab). destruct (t b); [by apply (related_bind P) | by apply related_ret].
Qed.

Lemma respects_retry_transient {W A E} (R : relation W) `{!PreOrder R}
    (call : Proc W (Result A E)) transient :
  respects R call → respects R (retry_transient call transient).
Proof. by apply respects_retry. Qed.

(** Retrying is bounded and honest.  Over an endpoint that answers [answer t] at
    tick [t], the helper makes at most three calls and returns the answer of the
    last call it made: the first that is not transient, or the third. *)
Theorem retry_returns_last_answer {T} (answer : nat → T) (transient : T → bool)
    (env : Env unit) n w :
  (∀ k, reply env k ≠ Crash) →
  ∃ k w', (k < 3)%nat ∧
    retry_while_transient (consult answer) transient env n w
      = (Done (answer (n + k)%nat), (n + k + 1)%nat, w') ∧
    (∀ j, (j < k)%nat → transient (answer (n + j)%nat) = true) ∧
    (transient (answer (n + k)%nat) = true → k = 2%nat).
Proof.
  intros Hrun.
  assert (∀ m w, consult answer env m w = (Done (answer m), S m, interfere env m w)) as Hcall.
  { intros m v. unfold consult. specialize (Hrun m). by destruct (reply env m). }
  unfold retry_while_transient, bind. rewrite Hcall. cbn [RPC_RETRY_DELAYS retry_loop].
  destruct (transient (answer n)) eqn:T0.
  - unfold bind at 1. rewrite Hcall. destruct (transient (answer (S n))) eqn:T1.
    + unfold bind. rewrite Hcall. exists 2%nat. eexists.
      replace (n + 2)%nat with (S (S n)) by lia. replace (S (S n) + 1)%nat with (S (S (S n))) by lia.
      split_and!; [lia | reflexivity | | done].
      intros [|[|j]] Hj; [by rewrite Nat.add_0_r | | lia]. by replace (n + 1)%nat with (S n) by lia.
    + exists 1%nat. eexists. replace (n + 1)%nat with (S n) by lia.
      replace (S n + 1)%nat with (S (S n)) by lia.
      split_and!; [lia | reflexivity | | congruence].
      intros [|j] Hj; [by rewrite Nat.add_0_r | lia].
  - exists 0%nat. eexists. rewrite !Nat.add_0_r. replace (n + 1)%nat with (S n) by lia.
    split_and!; [lia | reflexivity | lia | congruence].
Qed.

Lemma retry_returns_last_answer_witness :
  retry_while_transient (consult (λ t, t)) (λ t, t <? 1)%nat (quiet_env unit) 0 tt
    = (Done 1, 2, tt)%nat.
Proof.
  destruct (retry_returns_last_answer (λ t, t) (λ t, t <? 1)%nat (quiet_env unit) 0 tt)
    as (k & [] & Hk & -> & Hlt & Hlast); [discriminate |].
  destruct k as [|[|k]]; [| done |].
  - by specialize (Hlast eq_refl).
  - by specialize (Hlt 1%nat ltac:(lia)).
Defined.

End Retry.
