(* ===== verification/Evm.v ===== *)
(** * The EVM mechanism

    Models [crates/x402-chain-eip155-provider/src]: the dual-reader chain queries,
    their merge and the confirmation-depth policy of [provider.rs], the signing and
    the strict validation of stored transactions of [prepare.rs], and the choice of
    the ERC-3009 overload of [settle.rs].  The [alloy] crates and the upstream
    [x402-chain-eip155] crate are the fields of [EvmExternal]; an RPC endpoint is an
    oracle per tick.  Reads the code joins are issued one after the other.  An
    [Address] is its 20 bytes, a [B256] its 32 bytes, a [U256] an [N]. *)

From stdpp Require Import base gmap strings list numbers.
From Stdlib Require Import Lia NArith ZArith Ascii String.
From S2P Require Import Prelude Text Json Readiness Schema Near Retry.

Open Scope string_scope.
Open Scope list_scope.
Open Scope N_scope.

Module Evm.

(** ** Data *)

Record Erc3009Authorization : Type := MkAuthorization {
  from : string;
  to : string;
  value : N;
  valid_after : N;
  valid_before : N;
  nonce : string
}.

#[export] Instance Erc3009Authorization_eq_dec : EqDecision Erc3009Authorization.
Proof. solve_decision. Defined.

Record Eip712Domain : Type := MkDomain {
  domain_name : option string;
  domain_version : option string;
  domain_chain_id : option N;
  verifying_contract : option string;
  salt : option string
}.

Record EvmFeeEnvelope : Type := MkFees {
  fee_gas_limit : N;
  fee_max_fee_per_gas : N;
  fee_max_priority_fee_per_gas : N
}.

(** [TxEip1559]; [TxKind::Call] is [Some]. *)
Record TxEip1559 : Type := MkTx {
  tx_chain_id : N;
  tx_nonce : N;
  tx_gas_limit : N;
  tx_max_fee_per_gas : N;
  tx_max_priority_fee_per_gas : N;
  tx_to : option string;
  tx_value : N;
  tx_access_list : list string;
  tx_input : string
}.

Inductive TxEnvelope : Type :=
| Eip1559 (tx : TxEip1559) (signature : string)
| OtherEnvelope (bytes : string).

Record EvmPrepared : Type := MkEvmPrepared {
  tx_hash : string;
  signer_address : string;
  account_nonce : N;
  signed_tx_rlp : string;
  estimated_l1_fee_wei : option N
}.

Record EvmHead : Type := MkEvmHead {
  head_block_number : N;
  head_account_nonce : N;
  gas_balance_wei : N;
  head_signer_address : string
}.

Record EvmVerifyRejection : Type := MkRejection {
  reason : string;
  rpc_ambiguous : bool
}.

Definition definitive (reason : string) : EvmVerifyRejection := MkRejection reason false.

Inductive EvmRpcError : Type :=
| Rpc
| ReaderDisagreement (what : string)
| InvalidTransactionHash
| InvalidTransaction (what : string)
| InvalidReceipt (what : string)
| InvalidConfirmations
| HeadBehindReceipt
| FeeOverflow.

Definition evm_rpc_error_to_string (e : EvmRpcError) : string :=
  match e with
  | Rpc => "evm rpc call failed"
  | ReaderDisagreement what => "evm RPC readers disagree: " +:+ what
  | InvalidTransactionHash => "stored EVM transaction hash is malformed"
  | InvalidTransaction what => "EVM transaction lookup is malformed: " +:+ what
  | InvalidReceipt what => "Base transaction receipt is malformed: " +:+ what
  | InvalidConfirmations => "required EVM confirmations must be at least one"
  | HeadBehindReceipt => "EVM head is behind the transaction receipt"
  | FeeOverflow => "EVM fee value exceeds the supported range"
  end.

Inductive EvmHeadSnapshotFailure : Type :=
| PrimaryRpcUnavailable
| BackupRpcUnavailable
| BothRpcUnavailable
| ChainIdMismatch
| PendingNonceDisagreement.

Definition into_rpc_error (f : EvmHeadSnapshotFailure) : EvmRpcError :=
  match f with
  | PrimaryRpcUnavailable | BackupRpcUnavailable | BothRpcUnavailable => Rpc
  | ChainIdMismatch => ReaderDisagreement "chain id"
  | PendingNonceDisagreement => ReaderDisagreement "pending account nonce"
  end.

Inductive UnsupportedSignature : Type :=
| CounterfactualWallet
| Malformed.

Inductive EvmPrepareError : Type :=
| PrepareSignature (e : UnsupportedSignature)
| PrepareRpc (e : EvmRpcError)
| PrepareSign (message : string)
| PrepareFeeCapExceeded
| InvalidFeeEstimate.

Definition prepare_error_to_string (e : EvmPrepareError) : string :=
  match e with
  | PrepareSignature CounterfactualWallet =>
      "counterfactual (EIP-6492) smart-wallet signatures are not yet settleable"
  | PrepareSignature Malformed => "the payer signature could not be parsed"
  | PrepareRpc e => evm_rpc_error_to_string e
  | PrepareSign message => "signing the settlement transaction failed: " +:+ message
  | PrepareFeeCapExceeded => "estimated EVM max fee per gas exceeds the configured cap"
  | InvalidFeeEstimate => "EVM RPC returned an invalid fee estimate"
  end.

Record EvmTerminalOutcome : Type := MkEvmTerminal {
  success : bool;
  terminal_tx_hash : string;
  block_number : N;
  block_hash : option string;
  confirmations : N;
  gas_used : N;
  fee_wei : N;
  execution_fee_wei : N;
  l1_fee_wei : N
}.

Inductive EvmReconcileStatus : Type :=
| StatusUnknown
| StatusPending
| StatusMined (confirmations block_number : N)
| StatusTerminal (outcome : EvmTerminalOutcome).

Record ReceiptFacts : Type := MkFacts {
  facts_block_number : N;
  facts_block_hash : option string;
  facts_success : bool;
  facts_tx_hash : string;
  facts_gas_used : N;
  facts_fee_wei : N;
  facts_execution_fee_wei : N;
  facts_l1_fee_wei : N
}.

#[export] Instance ReceiptFacts_eq_dec : EqDecision ReceiptFacts.
Proof. solve_decision. Defined.

Inductive ReceiptObservation : Type :=
| ReceiptUnknown
| ReceiptPending
| ReceiptMined (facts : ReceiptFacts).

Inductive TransactionObservation : Type :=
| TxMissing
| TxPending (account_nonce : N)
| TxMined (account_nonce block_number : N) (block_hash : string).

Record EndpointHead : Type := MkEndpointHead {
  ep_chain_id : N;
  ep_block_number : N;
  ep_pending_account_nonce : N;
  ep_gas_balance_wei : N
}.

(** The parts of the upstream request the provider reads: the accepted terms, the
    authorization and the signature. *)
Record Eip3009Request : Type := MkEip3009 {
  req_asset : string;
  req_pay_to : string;
  req_amount : N;
  req_extra_name : string;
  req_extra_version : string;
  req_authorization : Erc3009Authorization;
  req_signature : string
}.

Inductive FacilitatorVerifyRequest : Type :=
| Eip3009 (request : Eip3009Request)
| Permit2.

Inductive PaymentVerificationError : Type :=
| InvalidFormat (message : string) | InvalidPaymentAmount | Early | Expired | PvChainIdMismatch | RecipientMismatch
| AssetMismatch | InsufficientFunds | InsufficientAllowance | PvInvalidSignature (message : string)
| TransactionSimulation (message : string) | UnsupportedChain | UnsupportedScheme | AcceptedRequirementsMismatch.

Inductive FacilitatorError : Type :=
| OnchainFailure (message : string)
| PaymentVerification (e : PaymentVerificationError).

Inductive UpstreamVerifyResponse : Type :=
| Valid (payer : string)
| Invalid.

(** upstream's [StructuredSignature] *)
Inductive StructuredSignature : Type :=
| EOA (v : N) (r s : string)
| EIP1271 (bytes : string)
| EIP6492.

Inductive SettleableSignature : Type :=
| SettleEoa (v : N) (r s : string)
| SettleEip1271 (bytes : string).

Inductive Erc3009SignatureKind : Type :=
| KindEoa
| KindEip1271.

#[export] Instance Erc3009SignatureKind_eq_dec : EqDecision Erc3009SignatureKind.
Proof. solve_decision. Defined.

(** ** External code *)

Class EvmExternal : Type := {
  address_to_string : string → string;
  address_from_str : string → option string;
  b256_to_string : string → string;
  b256_from_str : string → option string;
  u256_from_str : string → option N;
  (** [FacilitatorVerifyRequest::try_from] *)
  facilitator_request : string → option FacilitatorVerifyRequest;
  eip712_signing_hash : Erc3009Authorization → Eip712Domain → string;
  structured_signature : string → string → string → option StructuredSignature;
  (** the ABI of the two [transferWithAuthorization] overloads *)
  encode_bytes_call : Erc3009Authorization → string → string;
  encode_vrs_call : Erc3009Authorization → N → string → string → string;
  has_bytes_selector : string → bool;
  has_vrs_selector : string → bool;
  decode_bytes_call : string → option (Erc3009Authorization * string);
  decode_vrs_call : string → option (Erc3009Authorization * (N * string * string));
  (** EIP-2718 envelopes *)
  signature_hash : TxEip1559 → string;
  encoded_2718 : TxEnvelope → string;
  decode_2718 : string → option (TxEnvelope * string);
  envelope_tx_hash : TxEnvelope → string;
  recover_signer : TxEnvelope → option string;
  (** the calldata of [getL1Fee] and the decoding of its answer *)
  decode_l1_fee : string → option N
}.

(** A JSON-RPC endpoint. *)
Record EvmReader : Type := MkReader {
  get_chain_id : nat → option N;
  get_block_number : nat → option N;
  get_pending_count : nat → string → option N;
  get_balance : nat → string → option N;
  estimate_eip1559_fees : nat → option (N * N);
  call_get_l1_fee : nat → string → option string;
  get_transaction_receipt : nat → string → option (option Value);
  get_transaction_by_hash : nat → string → option (option Value);
  send_raw_transaction : nat → string → bool
}.

Record EvmSigner : Type := MkEvmSigner {
  evm_address : string;
  sign_hash_sync : string → Result string string
}.

Record EvmChainProvider : Type := MkEvmProvider {
  upstream : EvmReader;
  upstream_verify : nat → Eip3009Request → Result UpstreamVerifyResponse FacilitatorError;
  primary_reader : EvmReader;
  backup_reader : EvmReader;
  evm_signer : EvmSigner;
  chain_id : N;
  asset : string;
  required_confirmations : N;
  gas_limit : N;
  max_fee_per_gas : N;
  transfer_domain_name : string
}.

Definition provider_signer_address (p : EvmChainProvider) : string := evm_address (evm_signer p).

(** [ChainId::new("eip155", ..)] displayed *)
Definition caip2 (p : EvmChainProvider) : string := "eip155:" +:+ to_decimal (chain_id p).

(** ** Merging two readers *)

Definition merge_receipts (primary backup : ReceiptObservation)
  : Result ReceiptObservation EvmRpcError :=
  match primary, backup with
  | ReceiptUnknown, ReceiptUnknown => Ok ReceiptUnknown
  | ReceiptMined p, ReceiptMined b =>
      if decide (p = b) then Ok (ReceiptMined p) else Err (ReaderDisagreement "receipt facts")
  | _, _ => Ok ReceiptPending
  end.

Definition merge_transactions (primary backup : TransactionObservation)
  : Result TransactionObservation EvmRpcError :=
  let disagree := Err (ReaderDisagreement "transaction facts") in
  match primary, backup with
  | TxMissing, TxMissing => Ok TxMissing
  | TxMissing, known | known, TxMissing => Ok known
  | TxPending a, TxPending b => if a =? b then Ok (TxPending a) else disagree
  | TxPending pending, TxMined a _ _ | TxMined a _ _, TxPending pending =>
      if pending =? a then Ok (TxPending a) else disagree
  | TxMined a n h, TxMined a' n' h' =>
      if (a =? a') && (n =? n') && String.eqb h h' then Ok primary else disagree
  end.

Definition merge_head_values (expected_chain_id : N) (signer : string)
  (primary backup : EndpointHead) : Result EvmHead EvmHeadSnapshotFailure :=
  if negb (ep_chain_id primary =? expected_chain_id) || negb (ep_chain_id backup =? expected_chain_id)
  then Err ChainIdMismatch
  else if negb (ep_pending_account_nonce primary =? ep_pending_account_nonce backup)
  then Err PendingNonceDisagreement
  else Ok (MkEvmHead (N.min (ep_block_number primary) (ep_block_number backup))
             (ep_pending_account_nonce primary)
             (N.min (ep_gas_balance_wei primary) (ep_gas_balance_wei backup)) signer).

Definition merge_head_snapshot (expected_chain_id : N) (signer : string)
  (primary backup : Result EndpointHead EvmRpcError) : Result EvmHead EvmHeadSnapshotFailure :=
  match primary, backup with
  | Err _, Err _ => Err BothRpcUnavailable
  | Err _, Ok _ => Err PrimaryRpcUnavailable
  | Ok _, Err _ => Err BackupRpcUnavailable
  | Ok primary, Ok backup => merge_head_values expected_chain_id signer primary backup
  end.

Definition bounded_fee_envelope (gas_limit cap primary_max_fee primary_priority_fee
  backup_max_fee backup_priority_fee : N) : Result EvmFeeEnvelope EvmPrepareError :=
  if (primary_max_fee =? 0) || (backup_max_fee =? 0)
     || (primary_max_fee <? primary_priority_fee) || (backup_max_fee <? backup_priority_fee)
  then Err InvalidFeeEstimate
  else
  let max_fee := N.max primary_max_fee backup_max_fee in
  if cap <? max_fee then Err PrepareFeeCapExceeded
  else Ok (MkFees gas_limit max_fee (N.max primary_priority_fee backup_priority_fee)).

(** ** The confirmation-depth policy *)

Definition classify_confirmations (receipt : ReceiptFacts) (head_block required : N)
  : Result EvmReconcileStatus EvmRpcError :=
  if required =? 0 then Err InvalidConfirmations
  else
  try depth := ok_or (checked_sub head_block (facts_block_number receipt)) HeadBehindReceipt in
  let confirmations := saturating_add u64_max depth 1 in
  if required <=? confirmations then
    Ok (StatusTerminal (MkEvmTerminal (facts_success receipt) (facts_tx_hash receipt)
          (facts_block_number receipt) (facts_block_hash receipt) confirmations
          (facts_gas_used receipt) (facts_fee_wei receipt) (facts_execution_fee_wei receipt)
          (facts_l1_fee_wei receipt)))
  else Ok (StatusMined confirmations (facts_block_number receipt)).

Definition classify_reconciliation (first_receipt : ReceiptObservation)
  (transaction : TransactionObservation) (rechecked : option ReceiptObservation)
  (head_block required : N) : Result EvmReconcileStatus EvmRpcError :=
  match first_receipt with
  | ReceiptUnknown =>
      match transaction with
      | TxMissing => Ok StatusUnknown
      | TxPending _ | TxMined _ _ _ => Ok StatusPending
      end
  | ReceiptPending => Ok StatusPending
  | ReceiptMined first =>
      match rechecked with
      | Some (ReceiptMined second) =>
          if decide (first = second) then classify_confirmations second head_block required
          else Ok StatusPending
      | _ => Ok StatusPending
      end
  end.

(** ** Parsing JSON-RPC answers *)

(** The digits of a canonical [0x] quantity: non-empty, without leading zeros. *)
Definition quantity_digits (bad : string → EvmRpcError) (v : Value) : Result string EvmRpcError :=
  try raw := ok_or (as_str v) (bad "non-string quantity") in
  try digits := ok_or (strip_prefix "0x" raw) (bad "quantity prefix") in
  if is_empty digits || ((1 <? N.of_nat (String.length digits)) && starts_with "0" digits)
  then Err (bad "non-canonical quantity")
  else Ok digits.

Definition parse_hex_quantity (v : Value) : Result N EvmRpcError :=
  try digits := quantity_digits InvalidReceipt v in
  ok_or (parse_hex_uint u128_max digits) FeeOverflow.

Definition parse_transaction_quantity (v : Value) : Result N EvmRpcError :=
  try digits := quantity_digits InvalidTransaction v in
  ok_or (parse_hex_uint u128_max digits) (InvalidTransaction "quantity overflow").

Section evm.
Context `{EvmExternal}.

(** [object.get(key).and_then(as_str)] parsed as a hash or an address. *)
Definition hash_field (bad : string → EvmRpcError) (key : string) (object : Map)
  : Result string EvmRpcError :=
  try s := ok_or (v ← get key object; as_str v) (bad key) in
  ok_or (b256_from_str s) (bad key).

Definition address_field (key : string) (object : Map) : Result string EvmRpcError :=
  try s := ok_or (v ← get key object; as_str v) (InvalidTransaction key) in
  ok_or (address_from_str s) (InvalidTransaction key).

Definition receipt_quantity (key : string) (object : Map) : Result N EvmRpcError :=
  try v := ok_or (get key object) (InvalidReceipt key) in parse_hex_quantity v.

Definition transaction_quantity (key : string) (object : Map) : Result N EvmRpcError :=
  try v := ok_or (get key object) (InvalidTransaction key) in parse_transaction_quantity v.

Definition parse_raw_receipt (expected_hash : string) (v : option Value)
  : Result ReceiptObservation EvmRpcError :=
  match v with
  | None => Ok ReceiptUnknown
  | Some v =>
  try object := ok_or (as_object v) (InvalidReceipt "receipt object") in
  try tx_hash := hash_field InvalidReceipt "transactionHash" object in
  if negb (String.eqb tx_hash expected_hash) then Err (InvalidReceipt "transactionHash mismatch")
  else
  try block_number_value := ok_or (get "blockNumber" object) (InvalidReceipt "blockNumber") in
  if is_null block_number_value then Ok ReceiptPending
  else
  try quantity := parse_hex_quantity block_number_value in
  try block_number := ok_or (try_from u64_max quantity) (InvalidReceipt "blockNumber overflow") in
  try block_hash := hash_field InvalidReceipt "blockHash" object in
  try status_quantity := receipt_quantity "status" object in
  try status := match status_quantity with
                | 0 => Ok false
                | 1 => Ok true
                | _ => Err (InvalidReceipt "status value")
                end in
  try gas_quantity := receipt_quantity "gasUsed" object in
  try gas_used := ok_or (try_from u64_max gas_quantity) (InvalidReceipt "gasUsed overflow") in
  try effective_gas_price := receipt_quantity "effectiveGasPrice" object in
  try l1_fee_wei := receipt_quantity "l1Fee" object in
  try execution_fee_wei := ok_or (checked_mul u128_max gas_used effective_gas_price) FeeOverflow in
  try fee_wei := ok_or (checked_add u128_max execution_fee_wei l1_fee_wei) FeeOverflow in
  Ok (ReceiptMined (MkFacts block_number (Some block_hash) status tx_hash gas_used fee_wei
                      execution_fee_wei l1_fee_wei))
  end.

Definition parse_raw_transaction (expected_hash : string) (expected_chain_id : N)
  (expected_signer expected_token : string) (v : option Value)
  : Result TransactionObservation EvmRpcError :=
  match v with
  | None => Ok TxMissing
  | Some v =>
  try object := ok_or (as_object v) (InvalidTransaction "transaction object") in
  try tx_hash := hash_field InvalidTransaction "hash" object in
  try _ := Near.ensure (String.eqb tx_hash expected_hash) (InvalidTransaction "hash mismatch") in
  try chain_quantity := transaction_quantity "chainId" object in
  try chain_id := ok_or (try_from u64_max chain_quantity) (InvalidTransaction "chainId overflow") in
  try _ := Near.ensure (chain_id =? expected_chain_id) (InvalidTransaction "chainId mismatch") in
  try transaction_type := transaction_quantity "type" object in
  try _ := Near.ensure (transaction_type =? 2) (InvalidTransaction "transaction type") in
  try from := address_field "from" object in
  try _ := Near.ensure (String.eqb from expected_signer) (InvalidTransaction "from mismatch") in
  try to := address_field "to" object in
  try _ := Near.ensure (String.eqb to expected_token) (InvalidTransaction "to mismatch") in
  try native := transaction_quantity "value" object in
  try _ := Near.ensure (native =? 0) (InvalidTransaction "native value") in
  try input := ok_or (v ← get "input" object; as_str v) (InvalidTransaction "input") in
  try _ := Near.ensure ((2 <? N.of_nat (String.length input)) && starts_with "0x" input)
             (InvalidTransaction "input") in
  try nonce_quantity := transaction_quantity "nonce" object in
  try account_nonce := ok_or (try_from u64_max nonce_quantity) (InvalidTransaction "nonce overflow") in
  try block_number := ok_or (get "blockNumber" object) (InvalidTransaction "blockNumber") in
  try block_hash := ok_or (get "blockHash" object) (InvalidTransaction "blockHash") in
  match is_null block_number, is_null block_hash with
  | true, true => Ok (TxPending account_nonce)
  | false, false =>
      try quantity := parse_transaction_quantity block_number in
      try number := ok_or (try_from u64_max quantity) (InvalidTransaction "blockNumber overflow") in
      try text := ok_or (as_str block_hash) (InvalidTransaction "blockHash") in
      try hash := ok_or (b256_from_str text) (InvalidTransaction "blockHash") in
      Ok (TxMined account_nonce number hash)
  | _, _ => Err (InvalidTransaction "inconsistent block identity")
  end
  end.

(** ** Signatures and calldata ([settle.rs]) *)

Definition build_transfer_domain (name version : string) (chain_id : N) (asset : string)
  : Eip712Domain :=
  MkDomain (Some name) (Some version) (Some chain_id) (Some asset) None.

Definition eip712_transfer_hash (a : Erc3009Authorization) (d : Eip712Domain) : string :=
  eip712_signing_hash a d.

Definition classify_settleable_signature (payer signature prehash : string)
  : Result SettleableSignature UnsupportedSignature :=
  try structured := ok_or (structured_signature signature payer prehash) Malformed in
  match structured with
  | EOA v r s => Ok (SettleEoa v r s)
  | EIP1271 bytes => Ok (SettleEip1271 bytes)
  | EIP6492 => Err CounterfactualWallet
  end.

Definition settlement_calldata (a : Erc3009Authorization) (signature prehash : string)
  : Result string UnsupportedSignature :=
  try s := classify_settleable_signature (from a) signature prehash in
  Ok (match s with
      | SettleEoa v r s => encode_vrs_call a v r s
      | SettleEip1271 bytes => encode_bytes_call a bytes
      end).

(** ** Signing and validating stored transactions ([prepare.rs]) *)

Definition sign_settlement_transaction (signer : EvmSigner) (chain_id account_nonce : N)
  (fees : EvmFeeEnvelope) (asset calldata : string) : Result EvmPrepared string :=
  let tx := MkTx chain_id account_nonce (fee_gas_limit fees) (fee_max_fee_per_gas fees)
              (fee_max_priority_fee_per_gas fees) (Some asset) 0 [] calldata in
  try signature := sign_hash_sync signer (signature_hash tx) in
  let envelope := Eip1559 tx signature in
  Ok (MkEvmPrepared (envelope_tx_hash envelope) (evm_address signer) account_nonce
        (encoded_2718 envelope) None).

Inductive StoredTransactionError : Type :=
| InvalidEnvelope | TrailingBytes | UnsupportedEnvelope | TransactionHashMismatch | SignerRecovery
| SignerMismatch | StoredChainIdMismatch | AccountNonceMismatch | TokenMismatch | NativeValue
| GasLimitMismatch | FeeCapExceeded | InvalidFeeEnvelope | UnexpectedAccessList | InvalidCalldata
| AuthorizationMismatch | DomainMismatch | PaymentHashMismatch.

Record ExpectedEvmSubmission : Type := MkExpected {
  exp_transaction_hash : string;
  exp_facilitator_signer : string;
  exp_chain_id : N;
  exp_account_nonce : N;
  exp_token : string;
  exp_gas_limit : N;
  exp_max_fee_per_gas : N;
  exp_payer : string;
  exp_payee : string;
  exp_value : N;
  exp_valid_after : N;
  exp_valid_before : N;
  exp_authorization_nonce : string;
  exp_payment_hash : string;
  exp_domain : Eip712Domain
}.

(** [r ++ s ++ [v]] *)
Definition vrs_signature (v : N) (r s : string) : string :=
  r +:+ s +:+ String (ascii_of_N v) "".

Definition decode_authorization_call (input : string)
  : Result (Erc3009Authorization * Erc3009SignatureKind * string) StoredTransactionError :=
  if has_bytes_selector input then
    try call := ok_or (decode_bytes_call input) InvalidCalldata in
    let '(a, signature) := call in
    if negb (String.eqb (encode_bytes_call a signature) input) then Err InvalidCalldata
    else Ok (a, KindEip1271, signature)
  else if has_vrs_selector input then
    try call := ok_or (decode_vrs_call input) InvalidCalldata in
    let '(a, (v, r, s)) := call in
    if negb (String.eqb (encode_vrs_call a v r s) input) then Err InvalidCalldata
    else Ok (a, KindEoa, vrs_signature v r s)
  else Err InvalidCalldata.

Definition kind_of (s : SettleableSignature) : Erc3009SignatureKind :=
  match s with SettleEoa _ _ _ => KindEoa | SettleEip1271 _ => KindEip1271 end.

Definition expected_authorization (e : ExpectedEvmSubmission) : Erc3009Authorization :=
  MkAuthorization (exp_payer e) (exp_payee e) (exp_value e) (exp_valid_after e)
    (exp_valid_before e) (exp_authorization_nonce e).

(** The checks on the fields of the decoded transaction. *)
Definition validate_fields (tx : TxEip1559) (e : ExpectedEvmSubmission)
  : Result unit StoredTransactionError :=
  try _ := Near.ensure (tx_chain_id tx =? exp_chain_id e) StoredChainIdMismatch in
  try _ := Near.ensure (tx_nonce tx =? exp_account_nonce e) AccountNonceMismatch in
  try _ := Near.ensure (bool_decide (tx_to tx = Some (exp_token e))) TokenMismatch in
  try _ := Near.ensure (tx_value tx =? 0) NativeValue in
  try _ := Near.ensure (tx_gas_limit tx =? exp_gas_limit e) GasLimitMismatch in
  try _ := Near.ensure (tx_max_fee_per_gas tx <=? exp_max_fee_per_gas e) FeeCapExceeded in
  try _ := Near.ensure (negb ((tx_max_fee_per_gas tx =? 0)
                              || (tx_max_fee_per_gas tx <? tx_max_priority_fee_per_gas tx)))
             InvalidFeeEnvelope in
  try _ := Near.ensure (bool_decide (tx_access_list tx = [])) UnexpectedAccessList in
  Near.ensure (bool_decide (domain_chain_id (exp_domain e) = Some (exp_chain_id e))
               && bool_decide (verifying_contract (exp_domain e) = Some (exp_token e))
               && bool_decide (salt (exp_domain e) = None)) DomainMismatch.

Definition validate_authorization (input : string) (e : ExpectedEvmSubmission)
  : Result Erc3009SignatureKind StoredTransactionError :=
  try call := decode_authorization_call input in
  let '(authorization, kind, payer_signature) := call in
  try _ := Near.ensure (bool_decide (authorization = expected_authorization e))
             AuthorizationMismatch in
  let payment_hash := eip712_transfer_hash authorization (exp_domain e) in
  try _ := Near.ensure (String.eqb payment_hash (exp_payment_hash e)) PaymentHashMismatch in
  try classified := map_err (λ _, InvalidCalldata)
                      (classify_settleable_signature (from authorization) payer_signature payment_hash) in
  try _ := Near.ensure (bool_decide (kind_of classified = kind)) InvalidCalldata in
  Ok kind.

(** [validate_signed_transaction]; the decoded submission it returns is dropped by
    its only caller. *)
Definition validate_signed_transaction (signed_tx_rlp : string) (e : ExpectedEvmSubmission)
  : Result Erc3009SignatureKind StoredTransactionError :=
  try decoded := ok_or (decode_2718 signed_tx_rlp) InvalidEnvelope in
  let '(envelope, remaining) := decoded in
  try _ := Near.ensure (is_empty remaining) TrailingBytes in
  try _ := Near.ensure (String.eqb (encoded_2718 envelope) signed_tx_rlp) InvalidEnvelope in
  match envelope with
  | OtherEnvelope _ => Err UnsupportedEnvelope
  | Eip1559 tx _ =>
      try _ := Near.ensure (String.eqb (envelope_tx_hash envelope) (exp_transaction_hash e))
                 TransactionHashMismatch in
      try recovered := ok_or (recover_signer envelope) SignerRecovery in
      try _ := Near.ensure (String.eqb recovered (exp_facilitator_signer e)) SignerMismatch in
      try _ := validate_fields tx e in
      validate_authorization (tx_input tx) e
  end.

(** ** The provider ([provider.rs]) *)

Definition transfer_domain (p : EvmChainProvider) : Eip712Domain :=
  build_transfer_domain (transfer_domain_name p) "2" (chain_id p) (asset p).

Definition validate_token_domain (expected_name name version : string)
  : Result unit EvmVerifyRejection :=
  Near.ensure (String.eqb name expected_name && String.eqb version "2")
    (definitive "invalid_token_domain").

Definition unsupported_reason (e : UnsupportedSignature) : string :=
  match e with
  | CounterfactualWallet => "unsupported_eip6492"
  | Malformed => "invalid_signature"
  end.

Definition classify_signature_before_rpc (a : Erc3009Authorization) (signature : string)
  (domain : Eip712Domain) : Result string EvmVerifyRejection :=
  let payment_hash := eip712_transfer_hash a domain in
  try _ := map_err (λ e, definitive (unsupported_reason e))
             (classify_settleable_signature (from a) signature payment_hash) in
  Ok payment_hash.

Definition verification_reason (e : PaymentVerificationError) : string :=
  match e with
  | InvalidFormat _ => "invalid_format"
  | InvalidPaymentAmount => "invalid_payment_amount"
  | Early => "authorization_not_yet_valid"
  | Expired => "authorization_expired"
  | PvChainIdMismatch => "chain_id_mismatch"
  | RecipientMismatch => "recipient_mismatch"
  | AssetMismatch => "asset_mismatch"
  | InsufficientFunds => "insufficient_funds"
  | InsufficientAllowance => "insufficient_allowance"
  | PvInvalidSignature _ => "invalid_signature"
  | TransactionSimulation _ => "simulation_failed"
  | UnsupportedChain => "unsupported_chain"
  | UnsupportedScheme => "unsupported_scheme"
  | AcceptedRequirementsMismatch => "accepted_requirements_mismatch"
  end.

Definition classify_verify_error (e : FacilitatorError) : EvmVerifyRejection :=
  match e with
  | OnchainFailure _ => MkRejection "onchain_failure" true
  | PaymentVerification inner => definitive (verification_reason inner)
  end.

(** What verification and the offline hash read of a request before any RPC: the
    ERC-3009 variant, this provider's asset, and its token domain. *)
Definition parse_eip3009 (p : EvmChainProvider) (request : string)
  : Result Eip3009Request EvmVerifyRejection :=
  try parsed := ok_or (facilitator_request request) (definitive "invalid_format") in
  try r := match parsed with
           | Eip3009 r => Ok r
           | Permit2 => Err (definitive "unsupported_permit2_scheme")
           end in
  try _ := Near.ensure (String.eqb (req_asset r) (asset p)) (definitive "asset_mismatch") in
  try _ := validate_token_domain (transfer_domain_name p) (req_extra_name r) (req_extra_version r) in
  Ok r.

Definition offline_payment_hash (p : EvmChainProvider) (request : string)
  : Result string EvmVerifyRejection :=
  try r := parse_eip3009 p request in
  Ok (eip712_transfer_hash (req_authorization r) (transfer_domain p)).

Record EvmVerifiedPayment : Type := MkEvmVerified {
  payer : string;
  payment_hash : string;
  verified_asset : string;
  pay_to : string;
  amount : N;
  authorization : Erc3009Authorization;
  payer_signature : string
}.

Definition verify (p : EvmChainProvider) (request : string)
  : Proc World (Result EvmVerifiedPayment EvmVerifyRejection) :=
  let? r := ret (parse_eip3009 p request) in
  let? payment_hash := ret (classify_signature_before_rpc (req_authorization r) (req_signature r)
                              (transfer_domain p)) in
  let? response := map_err_proc classify_verify_error
      (Retry.retry_transient (consult (λ n, upstream_verify p n r))
         (λ e, rpc_ambiguous (classify_verify_error e))) in
  let? payer := ret (match response with
                     | Valid payer => Ok payer
                     | Invalid => Err (definitive "invalid_payment")
                     end) in
  let? payer := ret (ok_or (address_from_str payer) (definitive "invalid_payer_address")) in
  let? _ := ret (Near.ensure (String.eqb payer (from (req_authorization r)))
                   (definitive "payer_mismatch")) in
  ret (Ok (MkEvmVerified payer payment_hash (req_asset r) (req_pay_to r) (req_amount r)
             (req_authorization r) (req_signature r))).

(** One call to an endpoint, its transport errors collapsed. *)
Definition ask {A} (f : nat → option A) : Proc World (Result A EvmRpcError) :=
  consult (λ n, ok_or (f n) Rpc).

Definition endpoint_head_once (p : EvmChainProvider) (r : EvmReader)
  : Proc World (Result EndpointHead EvmRpcError) :=
  let? chain_id := ask (get_chain_id r) in
  let? block_number := ask (get_block_number r) in
  let? pending := ask (λ n, get_pending_count r n (provider_signer_address p)) in
  let? balance := ask (λ n, get_balance r n (provider_signer_address p)) in
  ret (Ok (MkEndpointHead chain_id block_number pending (default u128_max (try_from u128_max balance)))).

Definition retry_read {A} (c : Proc World (Result A EvmRpcError))
  : Proc World (Result A EvmRpcError) :=
  Retry.retry_transient c (λ _, true).

Definition readiness_head (p : EvmChainProvider) : Proc World (Result EvmHead EvmHeadSnapshotFailure) :=
  let* primary := retry_read (endpoint_head_once p (primary_reader p)) in
  let* backup := retry_read (endpoint_head_once p (backup_reader p)) in
  ret (merge_head_snapshot (chain_id p) (provider_signer_address p) primary backup).

Definition head (p : EvmChainProvider) : Proc World (Result EvmHead EvmRpcError) :=
  map_err_proc into_rpc_error (readiness_head p).

Definition broadcast_raw (p : EvmChainProvider) (settlement : N) (bytes : string)
  : Proc World (Result unit EvmRpcError) :=
  transmit (Near.log_sent settlement bytes)
    (λ n, if send_raw_transaction (upstream p) n bytes then Ok tt else Err Rpc).

Definition fee_envelope (p : EvmChainProvider) : Proc World (Result EvmFeeEnvelope EvmPrepareError) :=
  let* primary := retry_read (ask (estimate_eip1559_fees (primary_reader p))) in
  let* backup := retry_read (ask (estimate_eip1559_fees (backup_reader p))) in
  ret (try primary := map_err PrepareRpc primary in
       try backup := map_err PrepareRpc backup in
       bounded_fee_envelope (gas_limit p) (max_fee_per_gas p) primary.1 primary.2 backup.1 backup.2).

Definition estimate_l1_fee_once (r : EvmReader) (bytes : string)
  : Proc World (Result N EvmRpcError) :=
  let? response := ask (λ n, call_get_l1_fee r n bytes) in
  ret (try fee := ok_or (decode_l1_fee response) (InvalidReceipt "GasPriceOracle response") in
       ok_or (try_from u128_max fee) FeeOverflow).

Definition estimate_l1_fee_wei (p : EvmChainProvider) (bytes : string)
  : Proc World (Result N EvmRpcError) :=
  let* primary := retry_read (estimate_l1_fee_once (primary_reader p) bytes) in
  let* backup := retry_read (estimate_l1_fee_once (backup_reader p) bytes) in
  ret (try primary := primary in try backup := backup in Ok (N.max primary backup)).

Definition prepare (p : EvmChainProvider) (payment : EvmVerifiedPayment) (account_nonce : N)
  : Proc World (Result EvmPrepared EvmPrepareError) :=
  let? calldata := ret (map_err PrepareSignature
      (settlement_calldata (authorization payment) (payer_signature payment) (payment_hash payment))) in
  let? fees := fee_envelope p in
  let? prepared := ret (map_err PrepareSign
      (sign_settlement_transaction (evm_signer p) (chain_id p) account_nonce fees (asset p) calldata)) in
  let? l1_fee := map_err_proc PrepareRpc (estimate_l1_fee_wei p (signed_tx_rlp prepared)) in
  ret (Ok (MkEvmPrepared (tx_hash prepared) (signer_address prepared) (Evm.account_nonce prepared)
             (signed_tx_rlp prepared) (Some l1_fee))).

Definition receipt_once (r : EvmReader) (hash : string)
  : Proc World (Result ReceiptObservation EvmRpcError) :=
  let? v := ask (λ n, get_transaction_receipt r n hash) in
  ret (parse_raw_receipt hash v).

Definition transaction_once (p : EvmChainProvider) (r : EvmReader) (hash : string)
  : Proc World (Result TransactionObservation EvmRpcError) :=
  let? v := ask (λ n, get_transaction_by_hash r n hash) in
  ret (parse_raw_transaction hash (chain_id p) (provider_signer_address p) (asset p) v).

Definition block_head_once (r : EvmReader) : Proc World (Result (N * N) EvmRpcError) :=
  let? chain := ask (get_chain_id r) in
  let? block := ask (get_block_number r) in
  ret (Ok (chain, block)).

Definition safe_block_number (p : EvmChainProvider) : Proc World (Result N EvmRpcError) :=
  let* primary := retry_read (block_head_once (primary_reader p)) in
  let* backup := retry_read (block_head_once (backup_reader p)) in
  ret (try primary := primary in
       try backup := backup in
       if negb (primary.1 =? chain_id p) || negb (backup.1 =? chain_id p)
       then Err (ReaderDisagreement "chain id")
       else Ok (N.min primary.2 backup.2)).

Definition merged_receipt (p : EvmChainProvider) (hash : string)
  : Proc World (Result ReceiptObservation EvmRpcError) :=
  let* primary := retry_read (receipt_once (primary_reader p) hash) in
  let* backup := retry_read (receipt_once (backup_reader p) hash) in
  ret (try primary := primary in try backup := backup in merge_receipts primary backup).

Definition reconcile_with_confirmations (p : EvmChainProvider) (hash : string) (required : N)
  : Proc World (Result EvmReconcileStatus EvmRpcError) :=
  if required =? 0 then ret (Err InvalidConfirmations)
  else
  let* primary_receipt := retry_read (receipt_once (primary_reader p) hash) in
  let* backup_receipt := retry_read (receipt_once (backup_reader p) hash) in
  let* primary_transaction := retry_read (transaction_once p (primary_reader p) hash) in
  let* backup_transaction := retry_read (transaction_once p (backup_reader p) hash) in
  let? first_receipt := ret (try primary := primary_receipt in
                             try backup := backup_receipt in merge_receipts primary backup) in
  let? transaction := ret (try primary := primary_transaction in
                           try backup := backup_transaction in merge_transactions primary backup) in
  let? head_block := safe_block_number p in
  let? rechecked := match first_receipt with
                    | ReceiptMined _ =>
                        let? merged := merged_receipt p hash in ret (Ok (Some merged))
                    | _ => ret (Ok None)
                    end in
  ret (classify_reconciliation first_receipt transaction rechecked head_block required).

Definition reconcile_hash_with_confirmations (p : EvmChainProvider) (hash : string) (required : N)
  : Proc World (Result EvmReconcileStatus EvmRpcError) :=
  let? hash := ret (ok_or (b256_from_str hash) InvalidTransactionHash) in
  reconcile_with_confirmations p hash required.

End evm.

End Evm.
