(* ===== verification/DemoEvm.v ===== *)
(** * A concrete EVM deployment

    Concrete values for the external functions of the EVM mechanism: encodings are
    injective, the signer's signatures recover to it,
    and one payer's signature parses.  Two readers serve one mined settlement. *)

From stdpp Require Import base gmap strings list numbers countable.
From Stdlib Require Import Lia NArith ZArith Ascii String.
From S2P Require Import Prelude Text Json Readiness Schema Near Retry Evm.

Open Scope string_scope.
Open Scope list_scope.
Open Scope N_scope.

Module DemoEvm.
Import Evm.

(** ** Faithful encodings *)

Fixpoint bits (p : positive) : string :=
  match p with
  | xH => ""
  | xO p => String "0" (bits p)
  | xI p => String "1" (bits p)
  end.

Fixpoint unbits (s : string) : option positive :=
  match s with
  | EmptyString => Some xH
  | String c s => p ← unbits s; Some (if Ascii.eqb c "1" then xI p else xO p)
  end.

Lemma unbits_bits p : unbits (bits p) = Some p.
Proof. induction p; cbn; by rewrite ?IHp. Qed.

Definition enc `{Countable A} (a : A) : string := bits (encode a).
Definition dec `{Countable A} (s : string) : option A := p ← unbits s; decode p.

Lemma dec_enc `{Countable A} (a : A) : dec (enc a) = Some a.
Proof. unfold dec, enc. rewrite unbits_bits. cbn. apply decode_encode. Qed.

(** A list of fields, each escaped and closed. *)
Fixpoint put (s rest : string) : string :=
  match s with
  | EmptyString => String "," rest
  | String c s => String "." (String c (put s rest))
  end.

Fixpoint take (s : string) : option (string * string) :=
  match s with
  | String "," rest => Some ("", rest)
  | String _ (String c s) => x ← take s; Some (String c x.1, x.2)
  | _ => None
  end.

Lemma take_put s rest : take (put s rest) = Some (s, rest).
Proof. induction s as [|c s IH]; cbn; [done |]. by rewrite IH. Qed.

Definition pack (l : list string) : string := foldr put "" l.

Fixpoint unpack (n : nat) (s : string) : option (list string) :=
  match n with
  | O => if is_empty s then Some [] else None
  | S n => x ← take s; l ← unpack n x.2; Some (x.1 :: l)
  end.

Lemma unpack_pack n l : List.length l = n → unpack n (pack l) = Some l.
Proof.
  intros <-. induction l as [|s l IH]; cbn; [done |]. rewrite take_put. cbn. fold (pack l). by rewrite IH.
Qed.

Definition authorization_fields (a : Erc3009Authorization) : list string :=
  [from a; to a; to_decimal (value a); to_decimal (valid_after a); to_decimal (valid_before a); nonce a].

Definition authorization_of (l : list string) : option Erc3009Authorization :=
  match l with
  | [f; t; v; va; vb; n] => Some (MkAuthorization f t (dec_value v) (dec_value va) (dec_value vb) n)
  | _ => None
  end.

Lemma authorization_of_fields a : authorization_of (authorization_fields a) = Some a.
Proof. destruct a. cbn. by rewrite !dec_value_to_decimal. Qed.

Definition tx_fields (t : TxEip1559) : list string :=
  [to_decimal (tx_chain_id t); to_decimal (tx_nonce t); to_decimal (tx_gas_limit t);
   to_decimal (tx_max_fee_per_gas t); to_decimal (tx_max_priority_fee_per_gas t);
   enc (tx_to t); to_decimal (tx_value t); enc (tx_access_list t); tx_input t].

Definition tx_of (l : list string) : option TxEip1559 :=
  match l with
  | [c; n; g; m; p; t; v; l; i] =>
      t ← dec t; l ← dec l;
      Some (MkTx (dec_value c) (dec_value n) (dec_value g) (dec_value m) (dec_value p) t (dec_value v) l i)
  | _ => None
  end.

Lemma tx_of_fields t : tx_of (tx_fields t) = Some t.
Proof. destruct t. cbn. rewrite !dec_enc. cbn. by rewrite !dec_value_to_decimal. Qed.

Definition envelope_fields (t : TxEip1559) (sig : string) : string := pack (sig :: tx_fields t).
Definition envelope_of (s : string) : option (TxEip1559 * string) :=
  match unpack 10 s with Some (sig :: l) => t ← tx_of l; Some (t, sig) | _ => None end.

Definition bytes_call (a : Erc3009Authorization) (sig : string) : string :=
  pack (sig :: authorization_fields a).
Definition bytes_call_of (s : string) : option (Erc3009Authorization * string) :=
  match unpack 7 s with Some (sig :: l) => a ← authorization_of l; Some (a, sig) | _ => None end.

Definition vrs_call (a : Erc3009Authorization) (v : N) (r s : string) : string :=
  pack (to_decimal v :: r :: s :: authorization_fields a).
Definition vrs_call_of (s : string) : option (Erc3009Authorization * (N * string * string)) :=
  match unpack 9 s with
  | Some (v :: r :: s :: l) => a ← authorization_of l; Some (a, (dec_value v, r, s))
  | _ => None
  end.

Lemma envelope_of_envelope t sig : envelope_of (envelope_fields t sig) = Some (t, sig).
Proof. unfold envelope_of, envelope_fields. rewrite unpack_pack, tx_of_fields; done. Qed.
Lemma bytes_call_of_call a b : bytes_call_of (bytes_call a b) = Some (a, b).
Proof. unfold bytes_call_of, bytes_call. rewrite unpack_pack, authorization_of_fields; done. Qed.
Lemma vrs_call_of_call a v r s : vrs_call_of (vrs_call a v r s) = Some (a, (v, r, s)).
Proof.
  unfold vrs_call_of, vrs_call. rewrite unpack_pack, authorization_of_fields by done. cbn.
  by rewrite dec_value_to_decimal.
Qed.

(** ** The external functions *)

Definition encode_envelope (e : TxEnvelope) : string :=
  match e with
  | Eip1559 t sig => String "2" (envelope_fields t sig)
  | OtherEnvelope b => String "0" b
  end.

Definition decode_envelope (s : string) : option (TxEnvelope * string) :=
  match s with
  | String c s =>
      if Ascii.eqb c "2" then
        x ← envelope_of s; Some (Eip1559 x.1 x.2, "")
      else Some (OtherEnvelope s, "")
  | EmptyString => None
  end.

Lemma decode_encode_envelope t sig :
  decode_envelope (encode_envelope (Eip1559 t sig)) = Some (Eip1559 t sig, "").
Proof.
  unfold decode_envelope, encode_envelope. rewrite Ascii.eqb_refl, envelope_of_envelope. done.
Qed.

Definition after_tag (tag : ascii) (s : string) : option string :=
  match s with String c s => if Ascii.eqb c tag then Some s else None | EmptyString => None end.

Definition starts_with_tag (tag : ascii) (s : string) : bool := bool_decide (is_Some (after_tag tag s)).

(** The payer's signature as it arrives, and as the call carries it. *)
Definition payer_sig : string := "signature".
Definition carried_sig : string := vrs_signature 27 "r" "s".

(** What the payer signed, and the authorization's single-use nonce. *)
Definition signed_hash : string := string_of_list_ascii (repeat "p"%char 32).
Definition single_nonce : string := string_of_list_ascii (repeat "n"%char 32).

#[export] Instance external : EvmExternal := {|
  address_to_string s := s;
  address_from_str s := Some s;
  b256_to_string s := s;
  b256_from_str s := Some s;
  u256_from_str s := if is_decimal s then Some (dec_value s) else None;
  facilitator_request s :=
    if String.eqb s "request" then
      Some (Eip3009 (MkEip3009 "usdc" "shop" 2500 "USD Coin" "2"
              (MkAuthorization "payer" "shop" 2500 10 1000 single_nonce) payer_sig))
    else None;
  eip712_signing_hash a d := signed_hash;
  structured_signature sig _ _ :=
    if String.eqb sig payer_sig || String.eqb sig carried_sig then Some (EOA 27 "r" "s") else None;
  encode_bytes_call a sig := String "b" (bytes_call a sig);
  encode_vrs_call a v r s := String "v" (vrs_call a v r s);
  has_bytes_selector := starts_with_tag "b";
  has_vrs_selector := starts_with_tag "v";
  decode_bytes_call s := t ← after_tag "b" s; bytes_call_of t;
  decode_vrs_call s := t ← after_tag "v" s; vrs_call_of t;
  signature_hash _ := "signing-hash";
  encoded_2718 := encode_envelope;
  decode_2718 := decode_envelope;
  envelope_tx_hash _ := "0xhash";
  recover_signer _ := Some "facilitator";
  decode_l1_fee s := if is_decimal s then Some (dec_value s) else None
|}.

Definition signer : EvmSigner := MkEvmSigner "facilitator" (λ _, Ok "signed").

(** ** Two readers and a provider *)

Definition receipt : Value :=
  Object [("transactionHash", Str "0xhash"); ("blockNumber", Str "0x64"); ("blockHash", Str "0xblock");
          ("status", Str "0x1"); ("gasUsed", Str "0x5"); ("effectiveGasPrice", Str "0x2");
          ("l1Fee", Str "0x3")].

Definition transaction : Value :=
  Object [("hash", Str "0xhash"); ("chainId", Str "0x2105"); ("type", Str "0x2");
          ("from", Str "facilitator"); ("to", Str "usdc"); ("value", Str "0x0"); ("input", Str "0xab");
          ("nonce", Str "0x7"); ("blockNumber", Str "0x64"); ("blockHash", Str "0xblock")].

Definition reader (height : N) : EvmReader := {|
  get_chain_id _ := Some 8453;
  get_block_number _ := Some height;
  get_pending_count _ _ := Some 7;
  get_balance _ _ := Some 1000000;
  estimate_eip1559_fees _ := Some (20, 2);
  call_get_l1_fee _ _ := Some "3";
  get_transaction_receipt _ _ := Some (Some receipt);
  get_transaction_by_hash _ _ := Some (Some transaction);
  send_raw_transaction _ _ := true
|}.

Definition provider : EvmChainProvider :=
  MkEvmProvider (reader 110) (λ _ _, Ok (Valid "payer")) (reader 110) (reader 105) signer 8453 "usdc"
    6 100 50 "USD Coin".

Definition world : World := MkWorld (MkDatabase ∅ ∅ ∅ ∅ ∅ ∅ ∅ [] no_schema) Readiness.default [] (fresh_process 64).

End DemoEvm.
