(* ===== verification/EvmSpec.v ===== *)
(** * What the EVM mechanism promises

    A settlement is terminal only on evidence both readers gave twice; the head the
    engine plans with is the more conservative of the two readers'; and what
    preparation signs is what recovery accepts. *)

From stdpp Require Import base gmap strings list numbers.
From Stdlib Require Import Lia NArith ZArith Ascii String.
From S2P Require Import Prelude Text Json Readiness Schema Near Retry Evm DemoEvm.

Open Scope string_scope.
Open Scope list_scope.
Open Scope N_scope.

Module EvmSpec.
Import Evm.

(** ** Successful reads *)

(** Time does not run backwards. *)
Definition timely {A} (c : Proc World A) : Prop :=
  ∀ env n w o n' w', c env n w = (o, n', w') → (n <= n')%nat.

Create HintDb timely discriminated.
#[export] Hint Constants Opaque : timely.

Lemma timely_ret {A} (a : A) : timely (ret a).
Proof. intros env n w o n' w' [= <- <- <-]. done. Qed.
Lemma timely_ask {A} (f : nat → option A) : timely (ask f).
Proof.
  intros env n w o n' w'. unfold ask, consult. destruct (reply env n); intros [= <- <- <-]; lia.
Qed.
Lemma timely_bind {A B} (c : Proc World A) (k : A → Proc World B) :
  timely c → (∀ a, timely (k a)) → timely (bind c k).
Proof.
  intros Hc Hk env n w o n' w'. unfold bind.
  destruct (c env n w) as [[[a|] n1] w1] eqn:E; pose proof (Hc _ _ _ _ _ _ E).
  - intros Hrun%Hk. lia.
  - intros [= <- <- <-]. done.
Qed.
Lemma timely_bind_ok {A B E} (c : Proc World (Result A E)) (k : A → Proc World (Result B E)) :
  timely c → (∀ a, timely (k a)) → timely (bind_ok c k).
Proof. intros Hc Hk. apply timely_bind; [done |]. intros [a|e]; [done | apply timely_ret]. Qed.
#[export] Hint Resolve timely_ret timely_ask timely_bind timely_bind_ok : timely.

(** A retried read answers with one of its attempts. *)
Lemma retry_loop_last {T} delays (call : Proc World T) transient t env n w a n' w' :
  timely call →
  Retry.retry_loop delays call transient t env n w = (Done a, n', w') →
  (a = t ∧ n' = n ∧ w' = w) ∨ ∃ m v, (n <= m)%nat ∧ call env m v = (Done a, n', w').
Proof.
  intros Ht. revert t n w. induction delays as [|d delays IH]; intros t n w; cbn.
  - intros [= <- <- <-]. by left.
  - destruct (transient t); [| by intros [= <- <- <-]; left].
    unfold bind. destruct (call env n w) as [[[b|] n1] w1] eqn:E; [| done]. intros Hrun.
    pose proof (Ht _ _ _ _ _ _ E). right.
    destruct (IH _ _ _ Hrun) as [(-> & -> & ->) | (m & v & Hm & Hc)]; [by exists n, w |].
    exists m, v. split; [lia | done].
Qed.

Lemma retry_read_last {A} (c : Proc World (Result A EvmRpcError)) env n w a n' w' :
  timely c → retry_read c env n w = (Done a, n', w') →
  ∃ m v, (n <= m)%nat ∧ c env m v = (Done a, n', w').
Proof.
  intros Ht. unfold retry_read, Retry.retry_transient, Retry.retry_while_transient, bind.
  destruct (c env n w) as [[[b|] n1] w1] eqn:E; [| done]. intros Hrun.
  pose proof (Ht _ _ _ _ _ _ E).
  destruct (retry_loop_last _ _ _ _ _ _ _ _ _ _ Ht Hrun) as [(-> & -> & ->)|(m & v & Hm & Hc)];
    [by exists n, w |]. exists m, v. split; [lia | done].
Qed.

Lemma timely_retry_read {A} (c : Proc World (Result A EvmRpcError)) :
  timely c → timely (retry_read c).
Proof.
  intros Hc. apply timely_bind; [done |]. intros a.
  generalize Retry.RPC_RETRY_DELAYS. intros delays. revert a.
  induction delays; intros t; cbn; [apply timely_ret |].
  destruct (match t with Ok _ => false | Err _ => true end); [| apply timely_ret].
  by apply timely_bind.
Qed.
#[export] Hint Resolve timely_retry_read : timely.

(** A successful retried read: the attempt that succeeded, and the time after it. *)
Lemma run_retry_read {A B} (c : Proc World (Result A EvmRpcError)) (k : _ → Proc World B)
    env n w b n' w' :
  timely c → bind (retry_read c) k env n w = (Done b, n', w') →
  ∃ r m v n1 w1, (n <= m)%nat ∧ c env m v = (Done r, n1, w1) ∧ k r env n1 w1 = (Done b, n', w').
Proof.
  intros Hc. unfold bind at 1.
  destruct (retry_read c env n w) as [[[r|] n1] w1] eqn:E; [| done].
  destruct (retry_read_last _ _ _ _ _ _ _ Hc E) as (m & v & Hm & Hr). intros Hk.
  by exists r, m, v, n1, w1.
Qed.

Lemma run_ask_ok {A B} (f : nat → option A) (k : A → Proc World (Result B EvmRpcError))
    env n w b n' w' :
  bind_ok (ask f) k env n w = (Done (Ok b), n', w') →
  ∃ a w1, f n = Some a ∧ k a env (S n) w1 = (Done (Ok b), n', w').
Proof.
  unfold bind_ok, bind, ask, consult.
  destruct (reply env n), (f n); cbn; try done; intros Hrun; eauto.
Qed.

Section evm.
Context `{EvmExternal}.

(** *** Single reads *)

(** The reader [r] answered with a receipt of [hash] that carries the facts [f]. *)
Definition saw_receipt (r : EvmReader) (hash : string) (f : ReceiptFacts) (t : nat) : Prop :=
  ∃ v, get_transaction_receipt r t hash = Some v ∧ parse_raw_receipt hash v = Ok (ReceiptMined f).

(** The reader [r] was on chain [chain] at height [h]. *)
Definition saw_head (r : EvmReader) (chain h : N) (t : nat) : Prop :=
  get_chain_id r t = Some chain ∧ get_block_number r (S t) = Some h.

Lemma timely_receipt r hash : timely (receipt_once r hash).
Proof. unfold receipt_once. auto with timely. Qed.
Lemma timely_transaction p r hash : timely (transaction_once p r hash).
Proof. unfold transaction_once. auto with timely. Qed.
Lemma timely_block_head r : timely (block_head_once r).
Proof. unfold block_head_once. auto with timely. Qed.
#[local] Hint Resolve timely_receipt timely_transaction timely_block_head : timely.

Lemma receipt_once_mined r hash f env n w n' w' :
  receipt_once r hash env n w = (Done (Ok (ReceiptMined f)), n', w') →
  saw_receipt r hash f n ∧ n' = S n.
Proof.
  intros (v & w1 & Hv & Hrun)%run_ask_ok. injection Hrun as Hp <- _. split; [by exists v | done].
Qed.

Lemma block_head_once_ok r a env n w n' w' :
  block_head_once r env n w = (Done (Ok a), n', w') → saw_head r a.1 a.2 n ∧ n' = S (S n).
Proof.
  intros (c & w1 & Hc & (h & w2 & Hh & Hrun)%run_ask_ok)%run_ask_ok. by injection Hrun as <- <- _.
Qed.

Lemma merge_receipts_mined x y f :
  (try a := x in try b := y in merge_receipts a b) = Ok (ReceiptMined f) →
  x = Ok (ReceiptMined f) ∧ y = Ok (ReceiptMined f).
Proof.
  destruct x as [[| |a]|], y as [[| |b]|]; cbn; try done. case_decide; naive_solver.
Qed.

Lemma safe_block_number_ok p h env n w n' w' :
  safe_block_number p env n w = (Done (Ok h), n', w') →
  ∃ hp hb tp tb, (n <= tp < tb)%nat ∧ (tb < n')%nat ∧
    saw_head (primary_reader p) (chain_id p) hp tp ∧
    saw_head (backup_reader p) (chain_id p) hb tb ∧ h = N.min hp hb.
Proof.
  intros (rp & tp & v & n1 & w1 & Hp & Hrp & Hrun)%run_retry_read; [| auto with timely].
  apply run_retry_read in Hrun as (rb & tb & v' & n2 & w2 & Hb & Hrb & Hrun); [| auto with timely].
  destruct rp as [[cp hp]|], rb as [[cb hb]|]; cbn in Hrun; try done.
  apply block_head_once_ok in Hrp as [Hrp ->], Hrb as [Hrb ->]. cbn in *.
  destruct (negb (cp =? chain_id p) || negb (cb =? chain_id p)) eqn:Ec; [done |].
  apply orb_false_iff in Ec as [Ep Eb]. apply negb_false_iff, N.eqb_eq in Ep, Eb. subst.
  injection Hrun as <- <- _. exists hp, hb, tp, tb. split_and!; [lia | lia | lia | done | done | done].
Qed.

Lemma merged_receipt_mined p hash f env n w n' w' :
  merged_receipt p hash env n w = (Done (Ok (ReceiptMined f)), n', w') →
  ∃ tp tb, (n <= tp < tb)%nat ∧ (tb < n')%nat ∧
    saw_receipt (primary_reader p) hash f tp ∧ saw_receipt (backup_reader p) hash f tb.
Proof.
  intros (rp & tp & v & n1 & w1 & Hp & Hrp & Hrun)%run_retry_read; [| auto with timely].
  apply run_retry_read in Hrun as (rb & tb & v' & n2 & w2 & Hb & Hrb & Hrun); [| auto with timely].
  injection Hrun as [-> ->]%merge_receipts_mined <- _.
  apply receipt_once_mined in Hrp as [Hrp ->], Hrb as [Hrb ->].
  exists tp, tb. split_and!; [lia | lia | lia | done | done].
Qed.

(** The facts of a parsed receipt are those of the transaction asked for, and its
    fee is the exact sum of its two parts. *)
Lemma parse_raw_receipt_facts hash v f :
  parse_raw_receipt hash v = Ok (ReceiptMined f) →
  facts_tx_hash f = hash ∧ is_Some (facts_block_hash f) ∧
  facts_fee_wei f = facts_execution_fee_wei f + facts_l1_fee_wei f ∧
  facts_fee_wei f <= u128_max ∧ facts_block_number f <= u64_max.
Proof.
  unfold parse_raw_receipt. destruct v as [v|]; [| done]. intros Hv. checks_inv.
  destruct (is_null _); [by simplify_eq |]. checks_inv. simplify_eq. cbn.
  repeat match goal with
  | Hc : checked_add _ _ _ = Some _ |- _ => apply checked_add_Some in Hc as [-> ?]
  | Hc : checked_mul _ _ _ = Some _ |- _ => apply checked_mul_Some in Hc as [-> ?]
  | Hc : try_from _ _ = Some _ |- _ => apply try_from_Some in Hc as [-> ?]
  | Hc : negb (String.eqb _ _) = false |- _ => apply negb_false_iff, String.eqb_eq in Hc
  end.
  split_and!; [done | eauto | done | done | done].
Qed.

Lemma classify_confirmations_terminal f head required o :
  classify_confirmations f head required = Ok (StatusTerminal o) →
  1 <= required ∧ facts_block_number f <= head ∧
  required <= N.min u64_max (head - facts_block_number f + 1) ∧
  o = MkEvmTerminal (facts_success f) (facts_tx_hash f) (facts_block_number f) (facts_block_hash f)
        (N.min u64_max (head - facts_block_number f + 1)) (facts_gas_used f) (facts_fee_wei f)
        (facts_execution_fee_wei f) (facts_l1_fee_wei f).
Proof.
  unfold classify_confirmations, saturating_add. destruct (N.eqb_spec required 0); [done |].
  intros Hc. apply result_bind_ok in Hc as (depth & [-> Hle]%ok_or_ok%checked_sub_Some & Hc).
  destruct (N.leb_spec required (N.min u64_max (head - facts_block_number f + 1))); [| done].
  injection Hc as <-. split_and!; [lia | done | done | done].
Qed.

(** What the two readers must have shown, and in which order, for a settlement of
    transaction [hash] to be terminal with outcome [o]. *)
Definition terminal_evidence (p : EvmChainProvider) (hash : string) (required : N)
  (from until : nat) (o : EvmTerminalOutcome) : Prop :=
  ∃ f hp hb t1 t2 t3 t4 t5 t6,
    (from <= t1 < t2)%nat ∧ (t2 < t3 < t4)%nat ∧ (t4 < t5 < t6)%nat ∧ (t6 < until)%nat ∧
    saw_receipt (primary_reader p) hash f t1 ∧ saw_receipt (backup_reader p) hash f t2 ∧
    saw_head (primary_reader p) (chain_id p) hp t3 ∧
    saw_head (backup_reader p) (chain_id p) hb t4 ∧
    saw_receipt (primary_reader p) hash f t5 ∧ saw_receipt (backup_reader p) hash f t6 ∧
    facts_block_number f <= N.min hp hb ∧
    1 <= required <= confirmations o ∧
    confirmations o = N.min u64_max (N.min hp hb - facts_block_number f + 1) ∧
    terminal_tx_hash o = hash ∧ success o = facts_success f ∧
    block_number o = facts_block_number f ∧ block_hash o = facts_block_hash f ∧
    fee_wei o = facts_execution_fee_wei f + facts_l1_fee_wei f ∧ gas_used o = facts_gas_used f.

Lemma reconcile_terminal_evidence p hash required env n w o n' w' :
  reconcile_with_confirmations p hash required env n w = (Done (Ok (StatusTerminal o)), n', w') →
  terminal_evidence p hash required n n' o.
Proof.
  unfold reconcile_with_confirmations. destruct (required =? 0); [done |].
  intros (rp & t1 & v1 & n1 & w1 & L1 & H1 & Hrun)%run_retry_read; [| auto with timely].
  apply run_retry_read in Hrun as (rb & t2 & v2 & n2 & w2 & L2 & H2 & Hrun); [| auto with timely].
  apply run_retry_read in Hrun as (tp & u1 & v3 & n3 & w3 & L3 & H3 & Hrun); [| auto with timely].
  apply run_retry_read in Hrun as (tb & u2 & v4 & n4 & w4 & L4 & H4 & Hrun); [| auto with timely].
  apply (timely_transaction _ _ _) in H3, H4.
  apply run_ret_ok in Hrun as (first & Hfirst & (tr & _ & Hrun)%run_ret_ok).
  unfold bind_ok at 1, bind at 1 in Hrun.
  destruct (safe_block_number p env n4 w4) as [[[[head|e]|] n5] w5] eqn:Hh; try done.
  apply safe_block_number_ok in Hh as (hp & hb & t3 & t4 & [? ?] & ? & Hhp & Hhb & ->).
  destruct first as [| |f].
  - cbn in Hrun. by destruct tr.
  - done.
  - unfold bind_ok, bind in Hrun.
    destruct (merged_receipt p hash env n5 w5) as [[[[again|e]|] n6] w6] eqn:Ha; try done.
    cbn [ret] in Hrun. injection Hrun as Hc <- _.
    destruct again as [| |g]; try done. case_decide; [subst g | done].
    apply merge_receipts_mined in Hfirst as [-> ->].
    apply receipt_once_mined in H1 as [H1 ->], H2 as [H2 ->].
    apply merged_receipt_mined in Ha as (t5 & t6 & [? ?] & ? & Hr5 & Hr6).
    apply classify_confirmations_terminal in Hc as (? & ? & ? & ->). pose proof H1 as (v & _ & Hv).
    apply parse_raw_receipt_facts in Hv as (Eh & _ & Ef & _).
    exists f, hp, hb, t1, t2, t3, t4, t5, t6. cbn. rewrite Eh, Ef. split_and!; done || lia.
Qed.

(** C19: An EVM settlement is terminal only on evidence.  Reconciliation of a stored
    hash with a confirmation requirement reports a terminal outcome only if the
    requirement is at least one, both readers served a receipt of exactly that
    transaction with identical facts, then both were on the configured chain with the
    lower of their heads at least the required number of blocks deep (the receipt's
    own block counted), and then both served the same receipt again; and the outcome
    reports those facts, with the exact sum of the execution and the L1 fee. *)
Theorem evm_terminal_has_evidence p text required env n w o n' w' :
  reconcile_hash_with_confirmations p text required env n w
    = (Done (Ok (StatusTerminal o)), n', w') →
  ∃ hash, b256_from_str text = Some hash ∧ terminal_evidence p hash required n n' o.
Proof.
  intros (hash & Hh%ok_or_ok & Hrun)%run_ret_ok. exists hash. split; [done |].
  by eapply reconcile_terminal_evidence.
Qed.

(** ** The planning head *)

(** The reader's view of the signer, read at four successive ticks. *)
Definition saw_signer (p : EvmChainProvider) (r : EvmReader) (chain height nonce balance : N)
  (t : nat) : Prop :=
  get_chain_id r t = Some chain ∧ get_block_number r (1 + t) = Some height ∧
  get_pending_count r (2 + t) (provider_signer_address p) = Some nonce ∧
  get_balance r (3 + t) (provider_signer_address p) = Some balance.

Lemma endpoint_head_once_ok p r h env n w n' w' :
  endpoint_head_once p r env n w = (Done (Ok h), n', w') →
  ∃ balance, saw_signer p r (ep_chain_id h) (ep_block_number h) (ep_pending_account_nonce h) balance n ∧
    ep_gas_balance_wei h = N.min u128_max balance.
Proof.
  intros (c & w1 & Hc & (b & w2 & Hb & (a & w3 & Ha & (g & w4 & Hg & Hrun)%run_ask_ok)%run_ask_ok)%run_ask_ok)%run_ask_ok.
  injection Hrun as <- _ _. exists g. split; [done |]. cbn. unfold try_from.
  destruct (N.leb_spec g u128_max); cbn; lia.
Qed.

Lemma timely_endpoint p r : timely (endpoint_head_once p r).
Proof. unfold endpoint_head_once. auto 10 with timely. Qed.
#[local] Hint Resolve timely_endpoint : timely.

(** The head the engine plans with is conservative: whenever a head is returned,
    both readers are on the configured chain and agree on the signer's pending nonce,
    the height is not above either reader's and the balance not above what either
    reports. *)
Theorem evm_head_conservative p env n w h n' w' :
  head p env n w = (Done (Ok h), n', w') →
  ∃ tp tb hp hb bp bb,
    saw_signer p (primary_reader p) (chain_id p) hp (head_account_nonce h) bp tp ∧
    saw_signer p (backup_reader p) (chain_id p) hb (head_account_nonce h) bb tb ∧
    head_block_number h = N.min hp hb ∧ gas_balance_wei h <= bp ∧ gas_balance_wei h <= bb.
Proof.
  unfold head, map_err_proc, bind at 1.
  destruct (readiness_head p env n w) as [[[r|] n1] w1] eqn:E; [| done]. intros Hrun.
  injection Hrun as Hr _ _. destruct r as [h'|f]; [| done]. injection Hr as ->.
  apply run_retry_read in E as (rp & tp & v & n2 & w2 & _ & Hrp & Hrun); [| auto with timely].
  apply run_retry_read in Hrun as (rb & tb & v' & n3 & w3 & _ & Hrb & Hrun); [| auto with timely].
  injection Hrun as Hm _ _.
  destruct rp as [ep|], rb as [eb|]; try done. cbn in Hm. unfold merge_head_values in Hm.
  revert Hm. destruct (_ || _) eqn:Ec; [done |].
  apply orb_false_iff in Ec as [Ep%negb_false_iff%N.eqb_eq Eb%negb_false_iff%N.eqb_eq].
  destruct (N.eqb_spec (ep_pending_account_nonce ep) (ep_pending_account_nonce eb)) as [En|]; [| done].
  intros [= <-].
  apply endpoint_head_once_ok in Hrp as (bp & Hsp & Bp), Hrb as (bb & Hsb & Bb).
  rewrite Ep in Hsp. rewrite Eb, <- En in Hsb.
  exists tp, tb, (ep_block_number ep), (ep_block_number eb), bp, bb. cbn. split_and!; done || lia.
Qed.

(** ** Signing and recovery *)

(** The documented behaviour of the [alloy] codecs, of the signer's key and of the
    upstream signature parser: encodings are faithful, the signer's signatures
    recover to it, and the signature a call carries parses to the same kind as the
    one it was made from. *)
Record FaithfulEvm (signer : EvmSigner) : Prop := MkFaithfulEvm {
  envelope_roundtrip : ∀ t sig, decode_2718 (encoded_2718 (Eip1559 t sig)) = Some (Eip1559 t sig, "");
  signer_recovers : ∀ t sig, sign_hash_sync signer (signature_hash t) = Ok sig →
    recover_signer (Eip1559 t sig) = Some (evm_address signer);
  vrs_selector : ∀ a v r s, has_bytes_selector (encode_vrs_call a v r s) = false ∧
    has_vrs_selector (encode_vrs_call a v r s) = true;
  bytes_selector : ∀ a b, has_bytes_selector (encode_bytes_call a b) = true;
  vrs_roundtrip : ∀ a v r s, decode_vrs_call (encode_vrs_call a v r s) = Some (a, (v, r, s));
  bytes_roundtrip : ∀ a b, decode_bytes_call (encode_bytes_call a b) = Some (a, b);
  eoa_reparses : ∀ sig payer h v r s, structured_signature sig payer h = Some (EOA v r s) →
    ∃ v' r' s', structured_signature (vrs_signature v r s) payer h = Some (EOA v' r' s');
  eip1271_reparses : ∀ sig payer h b, structured_signature sig payer h = Some (EIP1271 b) →
    ∃ b', structured_signature b payer h = Some (EIP1271 b');
  address_roundtrip : ∀ a, address_from_str (address_to_string a) = Some a;
  b256_roundtrip : ∀ h, b256_from_str (b256_to_string h) = Some h;
  u256_roundtrip : ∀ n, n < 2 ^ 256 → u256_from_str (to_decimal n) = Some n
}.

Lemma bounded_fee_envelope_ok gas cap mp pp mb pb fees :
  bounded_fee_envelope gas cap mp pp mb pb = Ok fees →
  fee_gas_limit fees = gas ∧ 0 < fee_max_fee_per_gas fees <= cap ∧
  fee_max_priority_fee_per_gas fees <= fee_max_fee_per_gas fees.
Proof.
  unfold bounded_fee_envelope. intros Hf. checks_inv. simplify_eq. cbn.
  repeat match goal with
  | Hb : _ || _ = false |- _ => apply orb_false_iff in Hb as [? ?]
  | Hb : (_ =? _) = false |- _ => apply N.eqb_neq in Hb
  | Hb : (_ <? _) = false |- _ => apply N.ltb_ge in Hb
  end. lia.
Qed.

(** The calldata of a settlement decodes to its authorization and re-classifies. *)
Lemma calldata_validates signer a sig hash calldata :
  FaithfulEvm signer → settlement_calldata a sig hash = Ok calldata →
  ∃ kind carried s, decode_authorization_call calldata = Ok (a, kind, carried) ∧
    classify_settleable_signature (from a) carried hash = Ok s ∧ kind_of s = kind.
Proof.
  intros Hlib Hc. unfold settlement_calldata, classify_settleable_signature in *. checks_inv.
  unfold decode_authorization_call.
  match goal with Hs : structured_signature _ _ _ = Some ?x |- _ => destruct x as [v r s|b|] end;
    simplify_eq.
  - destruct (vrs_selector _ Hlib a v r s) as [-> ->]. rewrite (vrs_roundtrip _ Hlib). cbn.
    rewrite String.eqb_refl. cbn.
    destruct (eoa_reparses _ Hlib _ _ _ _ _ _ ltac:(done)) as (v' & r' & s' & Hs').
    eexists _, _, _. rewrite Hs'. done.
  - rewrite (bytes_selector _ Hlib), (bytes_roundtrip _ Hlib). cbn. rewrite String.eqb_refl. cbn.
    destruct (eip1271_reparses _ Hlib _ _ _ _ ltac:(done)) as (b' & Hb').
    eexists _, _, _. rewrite Hb'. done.
Qed.

Lemma prepare_inv p payment account_nonce prepared env n w n' w' :
  prepare p payment account_nonce env n w = (Done (Ok prepared), n', w') →
  ∃ calldata fees signed,
    settlement_calldata (authorization payment) (payer_signature payment) (payment_hash payment)
      = Ok calldata ∧
    fee_gas_limit fees = gas_limit p ∧ 0 < fee_max_fee_per_gas fees <= max_fee_per_gas p ∧
    fee_max_priority_fee_per_gas fees <= fee_max_fee_per_gas fees ∧
    sign_settlement_transaction (evm_signer p) (chain_id p) account_nonce fees (asset p) calldata
      = Ok signed ∧
    tx_hash prepared = tx_hash signed ∧ signed_tx_rlp prepared = signed_tx_rlp signed ∧
    signer_address prepared = signer_address signed ∧
    Evm.account_nonce prepared = Evm.account_nonce signed.
Proof.
  intros (calldata & Hcall & Hrun)%run_ret_ok. unfold bind_ok at 1, bind at 1 in Hrun.
  destruct (fee_envelope p env n w) as [[[[fees|e]|] n1] w1] eqn:Hf; try done.
  apply run_ret_ok in Hrun as (signed & Hs & Hrun). unfold bind_ok, bind in Hrun.
  destruct (map_err_proc _ _ _ _ _) as [[[[fee|e]|] n2] w2]; try done. injection Hrun as <- _ _.
  exists calldata, fees, signed. cbn.
  destruct (settlement_calldata _ _ _); [injection Hcall as -> | done].
  destruct (sign_settlement_transaction _ _ _ _ _ _); [injection Hs as -> | done].
  apply run_retry_read in Hf as (rp & tp & v & n3 & w3 & _ & _ & Hf); [| auto with timely].
  apply run_retry_read in Hf as (rb & tb & v' & n4 & w4 & _ & _ & Hf); [| auto with timely].
  injection Hf as Hf _ _. destruct rp as [[mp pp]|], rb as [[mb pb]|]; try done.
  apply bounded_fee_envelope_ok in Hf as (? & ? & ?). done.
Qed.

(** What recovery expects of a submission prepared for [payment]. *)
Definition expected_of (p : EvmChainProvider) (payment : EvmVerifiedPayment) (account_nonce : N)
  (hash : string) : ExpectedEvmSubmission :=
  let a := authorization payment in
  MkExpected hash (provider_signer_address p) (chain_id p) account_nonce (asset p) (gas_limit p)
    (max_fee_per_gas p) (from a) (to a) (value a) (valid_after a) (valid_before a) (nonce a)
    (payment_hash payment) (transfer_domain p).

(** Signing and validating are inverse: the bytes preparation signs pass every check
    recovery makes of the stored transaction. *)
Lemma prepared_validates p payment account_nonce prepared env n w n' w' :
  FaithfulEvm (evm_signer p) →
  payment_hash payment = eip712_transfer_hash (authorization payment) (transfer_domain p) →
  prepare p payment account_nonce env n w = (Done (Ok prepared), n', w') →
  ∃ kind, validate_signed_transaction (signed_tx_rlp prepared)
            (expected_of p payment account_nonce (tx_hash prepared)) = Ok kind.
Proof.
  intros Hlib Hhash (calldata & fees & signed & Hcall & Hg & [Hpos Hcap] & Hprio & Hs & -> & -> & _)%prepare_inv.
  unfold sign_settlement_transaction in Hs. apply result_bind_ok in Hs as (sig & Hsig & [= <-]). cbn.
  destruct (calldata_validates _ _ _ _ _ Hlib Hcall) as (kind & carried & s & Hdec & Hcls & Hkind).
  unfold validate_signed_transaction. rewrite (envelope_roundtrip _ Hlib). cbn.
  rewrite !String.eqb_refl. cbn. rewrite (signer_recovers _ Hlib _ _ Hsig). cbn.
  unfold provider_signer_address. rewrite String.eqb_refl. cbn. unfold validate_fields. cbn.
  rewrite !N.eqb_refl, Hg, !N.eqb_refl. cbn. rewrite !bool_decide_eq_true_2 by done. cbn.
  rewrite (proj2 (N.leb_le _ _) Hcap), (proj2 (N.eqb_neq _ 0)), (proj2 (N.ltb_ge _ _) Hprio) by lia. cbn.
  unfold validate_authorization. rewrite Hdec. cbn. unfold expected_authorization. cbn.
  rewrite bool_decide_eq_true_2 by by destruct (authorization payment). cbn.
  rewrite <- Hhash, String.eqb_refl. cbn. rewrite Hcls. cbn.
  rewrite bool_decide_eq_true_2 by done. by exists kind.
Qed.

Lemma verify_inv p request payment env n w n' w' :
  verify p request env n w = (Done (Ok payment), n', w') →
  verified_asset payment = asset p ∧ payer payment = from (authorization payment) ∧
  payment_hash payment = eip712_transfer_hash (authorization payment) (transfer_domain p).
Proof.
  intros (r & Hr & (hash & Hh & Hrun)%run_ret_ok)%run_ret_ok. unfold bind_ok at 1, bind at 1 in Hrun.
  destruct (map_err_proc _ _ _ _ _) as [[[[answer|e]|] n2] w2]; try done.
  apply run_ret_ok in Hrun as (text & _ & (addr & _ & (u & He & Hrun)%run_ret_ok)%run_ret_ok).
  injection Hrun as <- _ _. cbn. unfold parse_eip3009, classify_signature_before_rpc, Near.ensure in *.
  checks_inv. simplify_eq.
  repeat match goal with Hb : String.eqb _ _ = true |- _ => apply String.eqb_eq in Hb end. done.
Qed.

End evm.

(** ** Concrete runs *)

#[local] Existing Instance DemoEvm.external.

Lemma demo_faithful_evm : FaithfulEvm DemoEvm.signer.
Proof.
  split; try done.
  - intros t sig. apply DemoEvm.decode_encode_envelope.
  - intros a v r s. apply DemoEvm.vrs_call_of_call.
  - intros a b. apply DemoEvm.bytes_call_of_call.
  - intros sig payer h v r s. cbn. destruct (_ || _); [| done]. intros [= <- <- <-]. by exists 27, "r", "s".
  - intros sig payer h b. cbn. by destruct (_ || _).
  - intros n _. cbn. by rewrite is_decimal_to_decimal, dec_value_to_decimal.
Qed.

(** One settlement at depth exactly six. *)
Definition demo_terminal : EvmTerminalOutcome :=
  MkEvmTerminal true "0xhash" 100 (Some "0xblock") 6 5 13 10 3.

Lemma demo_reconciles :
  reconcile_hash_with_confirmations DemoEvm.provider "0xhash" 6 (quiet_env World) 0%nat DemoEvm.world
    = (Done (Ok (StatusTerminal demo_terminal)), 10%nat, DemoEvm.world).
Proof. vm_compute. reflexivity. Qed.

Lemma evm_terminal_has_evidence_witness :
  ∃ hash, b256_from_str "0xhash" = Some hash ∧
    terminal_evidence DemoEvm.provider hash 6 0%nat 10%nat demo_terminal.
Proof.
  exact (evm_terminal_has_evidence DemoEvm.provider "0xhash" 6 (quiet_env World) 0%nat DemoEvm.world
    demo_terminal 10%nat DemoEvm.world demo_reconciles).
Defined.

Definition demo_head : EvmHead := MkEvmHead 105 7 1000000 "facilitator".

Lemma demo_head_read :
  head DemoEvm.provider (quiet_env World) 0%nat DemoEvm.world = (Done (Ok demo_head), 8%nat, DemoEvm.world).
Proof. vm_compute. reflexivity. Qed.

Lemma evm_head_conservative_witness :
  ∃ tp hp bp, saw_signer DemoEvm.provider (primary_reader DemoEvm.provider) 8453 hp 7 bp tp ∧
    105 <= hp ∧ 1000000 <= bp.
Proof.
  destruct (evm_head_conservative DemoEvm.provider (quiet_env World) 0%nat DemoEvm.world demo_head
    8%nat DemoEvm.world demo_head_read) as (tp & tb & hp & hb & bp & bb & Hp & _ & Hh & Hb & _).
  exists tp, hp, bp. cbn [demo_head head_block_number gas_balance_wei] in *. split_and!; [done | lia | done].
Defined.

End EvmSpec.
