(* ===== verification/Chain.v ===== *)
(** * The chain-neutral provider

    Models [crates/x402-near-facilitator/src/chain.rs]: the closed [ChainProvider]
    enumeration that dispatches to the NEAR and EVM providers and the neutral values
    the settlement engine works with.  The chain-specific halves of a verified or
    prepared payment travel in [detail]. *)

From stdpp Require Import base gmap strings list numbers.
From Stdlib Require Import Lia NArith ZArith Ascii String.
From S2P Require Import Prelude Text Json Readiness Schema Receipt Near Retry Evm.

Open Scope string_scope.
Open Scope list_scope.
Open Scope N_scope.

Module Chain.

(** ** Neutral values *)

Inductive ChainProvider : Type :=
| NearProvider (p : Near.NearChainProvider)
| EvmProvider (p : Evm.EvmChainProvider).

Record Requirements : Type := MkRequirements {
  network : string;
  asset : string;
  pay_to : string;
  amount : N;
  amount_decimal : string
}.

Inductive VerifiedDetail : Type :=
| NearVerified (p : Near.VerifiedPayment)
| EvmVerified (p : Evm.EvmVerifiedPayment).

Record VerifiedPayment : Type := MkVerified {
  payer : string;
  payment_hash : string;
  requirements : Requirements;
  verified_detail : VerifiedDetail
}.

Inductive AuthorizationMetadata : Type :=
| NearAuthorization (delegate_public_key delegate_nonce max_block_height : string)
| EvmAuthorization (version : N) (valid_after valid_before : string).

Record PaymentIdentity : Type := MkIdentity {
  request_hash : string;
  anchor_scope : string;
  anchor_value : string;
  authorization : AuthorizationMetadata
}.

Inductive RecoveryPolicy : Type :=
| NearFinality
| EvmConfirmations (depth : N).

Record DurableSubmission : Type := MkDurable {
  submitter : string;
  submission_nonce : N;
  submission_bytes : string;
  submission_hash : string;
  recovery_policy : RecoveryPolicy
}.

Record SignerHead : Type := MkSignerHead {
  chain_block_height : N;
  chain_block_ref : string;
  signer_nonce : N;
  head_signer_id : string;
  head_signer_public_key : string;
  signer_balance_atomic : N
}.

Inductive PreparedDetail : Type :=
| NearPrepared (p : Near.PreparedTransaction)
| EvmPrepared (p : Evm.EvmPrepared).

Record Prepared : Type := MkPrepared {
  submit_bytes : string;
  submit_hash : string;
  signer_id : string;
  signer_public_key : string;
  prepared_signer_nonce : N;
  prepared_detail : PreparedDetail
}.

Record TerminalOutcome : Type := MkOutcome {
  success : bool;
  tx_hash : string;
  recipient_delta_atomic : option N;
  fee_atomic : N;
  gas_units : N;
  failure_detail : option string;
  mined_block_number : option N;
  mined_block_hash : option string;
  confirmations : option N
}.

Inductive BroadcastOutcome : Type :=
| BroadcastTerminal (outcome : TerminalOutcome)
| BroadcastRejected (reason : string)
| BroadcastPending.

Record VerifyRejection : Type := MkRejection {
  reason : string;
  rpc_ambiguous : bool
}.

Inductive PrepareError : Type :=
| InvalidSignerHead
| PrepareProvider (message : string).

(** A head failure is opaque to the engine; its text is for the logs. *)
Record SignerHeadError : Type := MkHeadError { head_error_text : string }.

Inductive ReconcileVerdict : Type :=
| VerdictTerminal (outcome : TerminalOutcome)
| VerdictIndeterminate (reason : string)
| VerdictPending
| VerdictUnknown
| VerdictConflict
| VerdictAmbiguous.

Record ReconcileStatus : Type := MkStatus {
  verdict : ReconcileVerdict;
  rpc_failover : bool
}.

Definition just (v : ReconcileVerdict) : ReconcileStatus := MkStatus v false.

Inductive NearInterpretation : Type :=
| InterpretedTerminal (outcome : TerminalOutcome)
| Indeterminate (reason : string).

(** ** Errors *)

(** The [thiserror] messages of [ReceiptValidationError]. *)
Definition receipt_error_to_string (e : Receipt.ReceiptValidationError) : string :=
  match e with
  | Receipt.NotStarted => "final execution has not started"
  | Receipt.Pending => "final execution is still pending"
  | Receipt.FinalFailure _ => "final execution failed"
  | Receipt.TransactionFailure _ => "transaction outcome failed"
  | Receipt.InvalidDelegateReceiptCount =>
      "outer transaction did not create exactly one delegate receipt"
  | Receipt.MissingDelegateReceipt => "delegate receipt outcome is missing"
  | Receipt.InvalidDelegateExecutor => "delegate receipt executed on an unexpected account"
  | Receipt.DelegateFailure _ => "delegate receipt failed"
  | Receipt.IncompleteReceiptGraph => "receipt graph contains a missing outcome"
  | Receipt.DuplicateReceiptOutcome => "receipt graph contains duplicate outcome identifiers"
  | Receipt.CyclicReceiptGraph => "receipt graph contains a cycle"
  | Receipt.ReachableReceiptFailure _ => "reachable receipt failed"
  | Receipt.InvalidTokenReceiptCount =>
      "delegate receipt did not create exactly one token-contract receipt"
  | Receipt.TokenReceiptNotSuccessful => "token receipt was not successful"
  | Receipt.TokenReceiptFailure _ => "token receipt failed"
  | Receipt.TransactionHashMismatch =>
      "final outcome transaction hash does not match the submitted transaction"
  | Receipt.TransactionOutcomeIdMismatch =>
      "transaction outcome ID does not match the submitted transaction"
  | Receipt.TransactionSignerMismatch =>
      "final outcome transaction signer does not match the relayer"
  | Receipt.InvalidTransactionExecutor => "transaction outcome executed on an unexpected account"
  | Receipt.TransactionReceiverMismatch =>
      "final outcome transaction receiver does not match the payer"
  end.

Definition near_verification_is_rpc_ambiguous (f : Near.VerificationFailure) : bool :=
  match f with
  | Near.CurrentBlockHeightUnavailable | Near.AccessKeyLookupFailed | Near.AccountLookupFailed
  | Near.TokenAccountLookupFailed | Near.BalanceCheckFailed | Near.StorageCheckFailed => true
  | _ => false
  end.

Definition from_near (f : Near.VerificationFailure) : VerifyRejection :=
  MkRejection (Near.reason f) (near_verification_is_rpc_ambiguous f).

Definition from_evm (r : Evm.EvmVerifyRejection) : VerifyRejection :=
  MkRejection (Evm.reason r) (Evm.rpc_ambiguous r).

(** ** NEAR outcomes *)

Definition execution_cost_near (outcome : Receipt.FinalExecutionOutcomeView) : N * N :=
  let t := Receipt.transaction_outcome outcome in
  fold_left (λ '(gas, tokens) r,
      (saturating_add u64_max gas (Receipt.gas_burnt r),
       saturating_add u128_max tokens (Receipt.tokens_burnt r)))
    (Receipt.receipts_outcome outcome) (Receipt.gas_burnt t, Receipt.tokens_burnt t).

Definition near_terminal (hash : string) (cost : N * N) (failure : option string)
  : TerminalOutcome :=
  MkOutcome (bool_decide (failure = None)) hash None cost.2 cost.1 failure None None None.

(** The interpreter always terminates ([ReceiptSpec]); were it not to, nothing
    authoritative would be known. *)
Definition interpret_near_final `{Near.External} (outcome : Receipt.FinalExecutionOutcomeView)
  (transaction_hash signer payer asset : string) : NearInterpretation :=
  match Receipt.validate_final_outcome_identity outcome transaction_hash signer payer with
  | Err e => Indeterminate (receipt_error_to_string e)
  | Ok _ =>
      let cost := execution_cost_near outcome in
      let hash := Near.hash_to_string transaction_hash in
      match Receipt.interpret_final_outcome outcome payer asset with
      | Some (Ok _) => InterpretedTerminal (near_terminal hash cost None)
      | Some (Err e) =>
          if Receipt.is_definitive_failure e
          then InterpretedTerminal (near_terminal hash cost (Some (receipt_error_to_string e)))
          else Indeterminate (receipt_error_to_string e)
      | None => Indeterminate ""
      end
  end.

Definition near_final_outcome (lookup : Result Near.TransactionLookup Near.NearRpcError)
  : option Receipt.FinalExecutionOutcomeView :=
  match lookup with Ok (Near.LookupFinal o) => Some o | _ => None end.

Definition near_lookup_unknown (lookup : Result Near.TransactionLookup Near.NearRpcError) : bool :=
  match lookup with Ok Near.LookupUnknown | Err Near.TransactionUnknown => true | _ => false end.

Definition near_lookup_pending (lookup : Result Near.TransactionLookup Near.NearRpcError) : bool :=
  match lookup with Ok (Near.LookupPending _) => true | _ => false end.

#[export] Instance outcome_eq_dec : EqDecision Receipt.FinalExecutionOutcomeView.
Proof.
  assert (EqDecision Receipt.ExecutionStatusView) by solve_decision.
  assert (EqDecision Receipt.FinalExecutionStatus) by solve_decision.
  assert (EqDecision Receipt.ExecutionOutcomeWithIdView) by solve_decision.
  solve_decision.
Defined.

Definition final_outcomes_conflict (primary backup : option Receipt.FinalExecutionOutcomeView)
  : bool :=
  match primary, backup with
  | Some p, Some b => bool_decide (p ≠ b)
  | _, _ => false
  end.

(** ** EVM outcomes *)

Section provider.
Context `{Near.External} `{Evm.EvmExternal}.

Definition evm_head_to_signer_head (head : Evm.EvmHead) : SignerHead :=
  let address := Evm.address_to_string (Evm.head_signer_address head) in
  MkSignerHead (Evm.head_block_number head) "" (Evm.head_account_nonce head) address address
    (Evm.gas_balance_wei head).

Definition evm_terminal_to_neutral (o : Evm.EvmTerminalOutcome) : TerminalOutcome :=
  MkOutcome (Evm.success o) (Evm.b256_to_string (Evm.terminal_tx_hash o)) None (Evm.fee_wei o)
    (Evm.gas_used o) (if Evm.success o then None else Some "evm_execution_reverted")
    (Some (Evm.block_number o)) (Evm.b256_to_string <$> Evm.block_hash o)
    (Some (Evm.confirmations o)).

(** ** Dispatch *)

Definition signer_account_id (p : ChainProvider) : string :=
  match p with
  | NearProvider p => Near.relayer_account_id p
  | EvmProvider p => Evm.address_to_string (Evm.provider_signer_address p)
  end.

Definition provider_public_key (p : ChainProvider) : string :=
  match p with
  | NearProvider p => Near.key_text (Near.relayer_public_key p)
  | EvmProvider p => Evm.address_to_string (Evm.provider_signer_address p)
  end.

Definition required_confirmations (p : ChainProvider) : option N :=
  match p with
  | NearProvider _ => None
  | EvmProvider p => Some (Evm.required_confirmations p)
  end.

Definition durable_submission (p : ChainProvider) (prepared : Prepared) : DurableSubmission :=
  let policy := match p with
                | NearProvider _ => NearFinality
                | EvmProvider p => EvmConfirmations (Evm.required_confirmations p)
                end in
  MkDurable (signer_id prepared) (prepared_signer_nonce prepared) (submit_bytes prepared)
    (submit_hash prepared) policy.

Definition identity (v : VerifiedPayment) : PaymentIdentity :=
  match verified_detail v with
  | NearVerified near =>
      MkIdentity (payment_hash v) "near" (payment_hash v)
        (NearAuthorization (Near.key_text (Near.payer_public_key near))
           (to_decimal (Near.delegate_nonce near))
           (to_decimal (Near.verified_max_block_height near)))
  | EvmVerified evm =>
      let a := Evm.authorization evm in
      MkIdentity (payment_hash v)
        (network (requirements v) +:+ ":" +:+ to_ascii_lowercase (asset (requirements v)) +:+ ":"
           +:+ to_ascii_lowercase (payer v))
        (Evm.nonce a)
        (EvmAuthorization 2 (to_decimal (Evm.valid_after a)) (to_decimal (Evm.valid_before a)))
  end.

Definition offline_payment_hash (p : ChainProvider) (request : string) : Result string string :=
  match p with
  | NearProvider _ => Err "not_eip155"
  | EvmProvider p => map_err Evm.reason (Evm.offline_payment_hash p request)
  end.

Definition head_error (e : Near.NearRpcError) : SignerHeadError :=
  MkHeadError (Near.rpc_error_to_string e).

Definition evm_head_error (e : Evm.EvmRpcError) : SignerHeadError :=
  MkHeadError (Evm.evm_rpc_error_to_string e).

Definition signer_head (p : ChainProvider) : Proc World (Result SignerHead SignerHeadError) :=
  match p with
  | NearProvider p =>
      let? status := map_err_proc head_error (Near.relayer_status p) in
      let head := Near.status_head status in
      ret (Ok (MkSignerHead (Near.head_block_height head)
                 (Near.hash_to_string (Near.head_block_hash head)) (Near.head_access_key_nonce head)
                 (Near.relayer_account_id p) (Near.key_text (Near.relayer_public_key p))
                 (Near.account_amount (Near.status_account status))))
  | EvmProvider p =>
      let? head := map_err_proc evm_head_error (Evm.head p) in
      ret (Ok (evm_head_to_signer_head head))
  end.

Definition backup_signer_head (p : ChainProvider) : Proc World (Result SignerHead SignerHeadError) :=
  match p with
  | NearProvider p =>
      let? head := map_err_proc head_error (Near.backup_relayer_head p) in
      ret (Ok (MkSignerHead (Near.head_block_height head)
                 (Near.hash_to_string (Near.head_block_hash head)) (Near.head_access_key_nonce head)
                 (Near.relayer_account_id p) (Near.key_text (Near.relayer_public_key p)) 0))
  | EvmProvider p =>
      let? head := map_err_proc evm_head_error (Evm.head p) in
      ret (Ok (evm_head_to_signer_head head))
  end.

Definition near_outcome_is_ambiguous (r : Result Near.VerifiedPayment Near.VerificationFailure)
  : bool :=
  match r with Err f => near_verification_is_rpc_ambiguous f | Ok _ => false end.

Definition verify (p : ChainProvider) (request : string) (policy : Near.VerificationPolicy)
  : Proc World (Result VerifiedPayment VerifyRejection) :=
  match p with
  | NearProvider p =>
      let? near := map_err_proc from_near
          (Retry.retry_while_transient (Near.verify_proto_request p request policy)
             near_outcome_is_ambiguous) in
      let r := Near.requirements near in
      ret (Ok (MkVerified (Near.payer near) (Near.payment_hash near)
                 (MkRequirements (Near.network_as_str (Near.req_network r)) (Near.req_asset r)
                    (Near.req_pay_to r) (Near.req_amount r) (Near.req_amount_decimal r))
                 (NearVerified near)))
  | EvmProvider p =>
      let? evm := map_err_proc from_evm (Evm.verify p request) in
      ret (Ok (MkVerified (Evm.address_to_string (Evm.payer evm)) (Evm.payment_hash evm)
                 (MkRequirements (Evm.caip2 p) (Evm.address_to_string (Evm.verified_asset evm))
                    (Evm.address_to_string (Evm.pay_to evm))
                    (default u128_max (try_from u128_max (Evm.amount evm)))
                    (to_decimal (Evm.amount evm)))
                 (EvmVerified evm)))
  end.

Definition prepare_near (p : Near.NearChainProvider) (payment : Near.VerifiedPayment)
  (head : SignerHead) : Result Prepared PrepareError :=
  try block_hash := ok_or (Near.hash_from_str (chain_block_ref head)) InvalidSignerHead in
  try nonce := ok_or (try_from u64_max (signer_nonce head)) InvalidSignerHead in
  try t := map_err (λ e, PrepareProvider (Near.rpc_error_to_string e))
             (Near.prepare_outer_transaction p payment
                (Near.MkHead (chain_block_height head) block_hash nonce)) in
  Ok (MkPrepared (Near.signed_transaction_bytes t) (Near.hash_to_string (Near.transaction_hash t))
        (Near.signer_id t) (Near.key_text (Near.signer_public_key t)) (Near.relayer_nonce t)
        (NearPrepared t)).

Definition prepare (p : ChainProvider) (payment : VerifiedPayment) (head : SignerHead)
  : Proc World (Result Prepared PrepareError) :=
  match p, verified_detail payment with
  | NearProvider p, NearVerified near => ret (prepare_near p near head)
  | EvmProvider p, EvmVerified evm =>
      let? nonce := ret (ok_or (try_from u64_max (signer_nonce head)) InvalidSignerHead) in
      let? t := map_err_proc (λ e, PrepareProvider (Evm.prepare_error_to_string e))
                  (Evm.prepare p evm nonce) in
      let address := Evm.address_to_string (Evm.signer_address t) in
      ret (Ok (MkPrepared (Evm.signed_tx_rlp t) (Evm.b256_to_string (Evm.tx_hash t)) address address
                 (Evm.account_nonce t) (EvmPrepared t)))
  | _, _ => ret (Err InvalidSignerHead)
  end.

(** What a NEAR broadcast's answer means. *)
Definition classify_near_broadcast (p : Near.NearChainProvider) (hash payer asset : option string)
  (answer : Result Near.TransactionLookup Near.NearRpcError) : BroadcastOutcome :=
  match answer with
  | Ok (Near.LookupFinal outcome) =>
      match hash, payer, asset with
      | Some hash, Some payer, Some asset =>
          match interpret_near_final outcome hash (Near.relayer_account_id p) payer asset with
          | InterpretedTerminal t => BroadcastTerminal t
          | Indeterminate _ => BroadcastPending
          end
      | _, _, _ => BroadcastPending
      end
  | Err Near.TransactionRejected => BroadcastRejected "transaction_rejected"
  | _ => BroadcastPending
  end.

(** [settlement] only tags the log of what was handed to the chain. *)
Definition broadcast (p : ChainProvider) (settlement : N) (prepared : Prepared)
  (payment : VerifiedPayment) : Proc World BroadcastOutcome :=
  match p, prepared_detail prepared, verified_detail payment with
  | NearProvider p, NearPrepared t, NearVerified near =>
      let* answer := Near.broadcast_exact p settlement (Near.signed_transaction_bytes t) in
      ret (classify_near_broadcast p (Some (Near.transaction_hash t)) (Some (Near.payer near))
             (Some (Near.req_asset (Near.requirements near))) answer)
  | EvmProvider p, EvmPrepared t, _ =>
      let* _ := Evm.broadcast_raw p settlement (Evm.signed_tx_rlp t) in
      ret BroadcastPending
  | _, _, _ => ret BroadcastPending
  end.

Definition rebroadcast (p : ChainProvider) (settlement : N) (bytes hash payer asset : string)
  : Proc World BroadcastOutcome :=
  match p with
  | NearProvider p =>
      let* answer := Near.broadcast_exact p settlement bytes in
      ret (classify_near_broadcast p (Near.hash_from_str hash) (Near.parse_account_id payer)
             (Near.parse_account_id asset) answer)
  | EvmProvider p =>
      let* _ := Evm.broadcast_raw p settlement bytes in
      ret BroadcastPending
  end.

(** What two lookups of one transaction add up to. *)
Definition judge_lookups (p : Near.NearChainProvider) (hash payer asset : string)
  (primary backup : Result Near.TransactionLookup Near.NearRpcError) : ReconcileStatus :=
  let primary_final := near_final_outcome primary in
  let backup_final := near_final_outcome backup in
  if final_outcomes_conflict primary_final backup_final then just VerdictConflict
  else
  let failover := bool_decide (primary_final = None) && bool_decide (is_Some backup_final) in
  match union primary_final backup_final with
  | Some outcome =>
      MkStatus (match interpret_near_final outcome hash (Near.relayer_account_id p) payer asset with
                | InterpretedTerminal t => VerdictTerminal t
                | Indeterminate reason => VerdictIndeterminate reason
                end) failover
  | None =>
      if near_lookup_pending primary || near_lookup_pending backup then just VerdictPending
      else if near_lookup_unknown primary && near_lookup_unknown backup then just VerdictUnknown
      else just VerdictAmbiguous
  end.

Definition reconcile_status (p : ChainProvider) (submit_hash signer payer asset : string)
  (policy : RecoveryPolicy) : Proc World ReconcileStatus :=
  match p with
  | NearProvider p =>
      match policy with
      | EvmConfirmations _ => ret (just VerdictAmbiguous)
      | NearFinality =>
      match Near.hash_from_str submit_hash, Near.parse_account_id signer,
            Near.parse_account_id payer, Near.parse_account_id asset with
      | Some hash, Some signer, Some payer, Some asset =>
          let* primary := Near.query_transaction p hash signer in
          let* backup := Near.query_transaction_backup p hash signer in
          ret (judge_lookups p hash payer asset primary backup)
      | _, _, _, _ => ret (just VerdictAmbiguous)
      end
      end
  | EvmProvider p =>
      match policy with
      | NearFinality => ret (just VerdictAmbiguous)
      | EvmConfirmations required =>
          let* status := Evm.reconcile_hash_with_confirmations p submit_hash required in
          ret (just (match status with
                     | Ok (Evm.StatusTerminal o) => VerdictTerminal (evm_terminal_to_neutral o)
                     | Ok (Evm.StatusMined _ _) | Ok Evm.StatusPending => VerdictPending
                     | Ok Evm.StatusUnknown => VerdictUnknown
                     | Err _ => VerdictAmbiguous
                     end))
      end
  end.

(** ** Stored EVM submissions *)

Record StoredEvmSubmission : Type := MkStored {
  st_network : string;
  st_hash : string;
  st_submitter : string;
  st_nonce : N;
  st_asset : string;
  st_payer : string;
  st_payee : string;
  st_amount : string;
  st_valid_after : string;
  st_valid_before : string;
  st_anchor_scope : string;
  st_anchor_value : string;
  st_payment_hash : string;
  st_gas_limit : N;
  st_max_fee_per_gas : N
}.

Inductive StoredSubmissionError : Type :=
| WrongProvider
| Field (name : string)
| TransactionError (e : Evm.StoredTransactionError).

Definition stored_error_to_string (e : StoredSubmissionError) : string :=
  match e with
  | WrongProvider => "stored submission does not match the configured provider"
  | Field name => "stored EVM submission has an invalid " +:+ name
  | TransactionError _ => "stored EVM transaction is inconsistent with the settlement"
  end.

Definition validate_stored_submission (p : ChainProvider) (bytes : string)
  (b : StoredEvmSubmission) : Result unit StoredSubmissionError :=
  match p with
  | NearProvider _ => Err WrongProvider
  | EvmProvider p =>
  try _ := Near.ensure (String.eqb (st_network b) (Evm.caip2 p)) (Field "network") in
  try hash := ok_or (Evm.b256_from_str (st_hash b)) (Field "transaction hash") in
  try signer := ok_or (Evm.address_from_str (st_submitter b)) (Field "submitter") in
  try _ := Near.ensure (String.eqb signer (Evm.provider_signer_address p)) (Field "submitter") in
  try nonce := ok_or (try_from u64_max (st_nonce b)) (Field "account nonce") in
  try token := ok_or (Evm.address_from_str (st_asset b)) (Field "asset") in
  try _ := Near.ensure (String.eqb token (Evm.asset p)) (Field "asset") in
  try payer := ok_or (Evm.address_from_str (st_payer b)) (Field "payer") in
  try recipient := ok_or (Evm.address_from_str (st_payee b)) (Field "payee") in
  try value := ok_or (Evm.u256_from_str (st_amount b)) (Field "amount") in
  try valid_after := ok_or (Evm.u256_from_str (st_valid_after b)) (Field "validAfter") in
  try valid_before := ok_or (Evm.u256_from_str (st_valid_before b)) (Field "validBefore") in
  try _ := Near.ensure (String.eqb (st_anchor_scope b)
             (st_network b +:+ ":" +:+ to_ascii_lowercase (st_asset b) +:+ ":"
                +:+ to_ascii_lowercase (st_payer b))) (Field "anchor scope") in
  try _ := map_err TransactionError
             (Evm.validate_signed_transaction bytes
                (Evm.MkExpected hash signer (Evm.chain_id p) nonce token (st_gas_limit b)
                   (st_max_fee_per_gas b) payer recipient value valid_after valid_before
                   (st_anchor_value b) (st_payment_hash b) (Evm.transfer_domain p))) in
  Ok tt
  end.

End provider.

End Chain.
