(* ===== verification/Bootstrap.v ===== *)
(** * Building the chain provider

    Models [crates/x402-near-facilitator/src/bootstrap.rs], the construction of the
    settlement provider that the service and the administration tool share, and
    [connect] and [connect_from_config] of
    [crates/x402-chain-eip155-provider/src/provider.rs].  Parsing a key, opening a
    client to a URL and the upstream provider's own start are fields of
    [BootExternal]; what the registry of [x402-rs] makes of the one registered scheme
    is the [routes] and [aggregate] of its [Facilitator]. *)

From stdpp Require Import base gmap strings list numbers.
From Stdlib Require Import Lia NArith ZArith Ascii String.
From S2P Require Import Prelude Text Json Readiness Schema Receipt Near Scheme JsonRpc Config.
From S2P Require Import Evm Chain.

Open Scope string_scope.
Open Scope list_scope.
Open Scope N_scope.

Module Bootstrap.
Import Config.

Abbreviation UpstreamVerify :=
  (nat → Evm.Eip3009Request → Result Evm.UpstreamVerifyResponse Evm.FacilitatorError).

Class BootExternal : Type := {
  (** [SecretKey::from_str], then [InMemorySigner::from_secret_key] for an account *)
  near_signer_from_str : string → option (string → Near.NearRelayerSigner);
  (** [JsonRpcClient::connect] *)
  json_rpc_client : string → JsonRpc.JsonRpcClient;
  (** [str::parse::<PrivateKeySigner>()] *)
  private_key_from_str : string → option Evm.EvmSigner;
  (** [hex::encode(signer.to_bytes())] *)
  signer_key_hex : Evm.EvmSigner → string;
  (** [serde_json::from_value::<Eip155ChainConfigInner>(..).is_ok()] *)
  eip155_inner_valid : Value → bool;
  (** [Eip155ChainProvider::from_config], at a tick *)
  upstream_from_config : nat → N → Value → option (Evm.EvmReader * UpstreamVerify);
  (** [ProviderBuilder::new().connect_http(url)] *)
  connect_http : string → Evm.EvmReader;
  registry_routes : Scheme.NearExactFacilitator → string → bool;
  registry_aggregate : Scheme.SupportedResponse → Result Scheme.SupportedResponse unit
}.

(** ** The EVM provider *)

Inductive EvmConnectError : Type :=
| ConnectConfig (message : string)
| ConnectFailed.

Definition canonical_domain_name (chain_id : N) : option string :=
  if chain_id =? 8453 then Some "USD Coin"
  else if chain_id =? 84532 then Some "USDC"
  else None.

Inductive BootError : Type :=
| ParseRelayerAccount
| ParseRelayerKey
| MissingEip155Block
| ParseMaxFee
| EvmConnect (e : EvmConnectError)
| SignerMismatch (configured derived : string).

Section bootstrap.
Context `{Near.External} `{Evm.EvmExternal} `{BootExternal}.

Definition inner_document (key_hex : string) (rpc_urls : list Url) : Value :=
  Object [("eip1559", Bool true); ("flashblocks", Bool false);
          ("rpc", Array (map (λ url, Object [("http", Str (serialization url))]) rpc_urls));
          ("signers", Array [Str key_hex])].

Definition connect (chain_id : N) (rpc_urls : list Url) (signer : Evm.EvmSigner) (asset : string)
  (required_confirmations gas_limit max_fee_per_gas : N)
  : Proc World (Result Evm.EvmChainProvider EvmConnectError) :=
  match rpc_urls with
  | primary :: backup :: _ =>
      if url_eqb primary backup
      then ret (Err (ConnectConfig "distinct primary and backup RPC URLs are required"))
      else if (required_confirmations =? 0) || (gas_limit =? 0) || (max_fee_per_gas =? 0)
      then ret (Err (ConnectConfig "confirmations, gas limit, and max fee per gas must be positive"))
      else
      let? domain := ret (ok_or (canonical_domain_name chain_id) (ConnectConfig
          "durable Circle USDC settlement supports Base mainnet and Base Sepolia only")) in
      let document := inner_document ("0x" +:+ signer_key_hex signer) rpc_urls in
      if negb (eip155_inner_valid document)
      then ret (Err (ConnectConfig "upstream EVM configuration was rejected"))
      else
      let* upstream := consult (λ n, upstream_from_config n chain_id document) in
      ret (match upstream with
           | None => Err ConnectFailed
           | Some (reader, verify) =>
               Ok (Evm.MkEvmProvider reader verify (connect_http (serialization primary))
                     (connect_http (serialization backup)) signer chain_id asset
                     required_confirmations gas_limit max_fee_per_gas domain)
           end)
  | _ => ret (Err (ConnectConfig "distinct primary and backup RPC URLs are required"))
  end.

Definition connect_from_config (chain_id : N) (rpc_urls : list Url) (signer_key asset : string)
  (required_confirmations gas_limit max_fee_per_gas : N)
  : Proc World (Result Evm.EvmChainProvider EvmConnectError) :=
  let? signer := ret (ok_or (private_key_from_str signer_key)
      (ConnectConfig "signer key is not a valid secp256k1 hex key")) in
  let? asset := ret (ok_or (Evm.address_from_str asset)
      (ConnectConfig "asset is not a valid 0x address")) in
  connect chain_id rpc_urls signer asset required_confirmations gas_limit max_fee_per_gas.

(** ** Either provider *)

Definition signer_identity_matches (configured derived : string) : bool :=
  eq_ignore_ascii_case configured derived.

Definition build_facilitator (p : Near.NearChainProvider) : Scheme.Facilitator :=
  let scheme := Scheme.build p None in
  Scheme.MkFacilitator scheme (registry_routes scheme) registry_aggregate.

Definition near_network (e : Environment) : Near.NearNetwork :=
  match e with Mainnet => Near.Mainnet | Testnet => Near.Testnet end.

(** [JsonRpcNearRpc::connect] *)
Definition near_rpc (url : Url) : Near.NearRpc :=
  JsonRpc.json_rpc_near_rpc (json_rpc_client (serialization url)).

Definition build_near (c : ServiceConfig) (relayer_key : string)
  : Result (option Scheme.Facilitator * Chain.ChainProvider) BootError :=
  try account := ok_or (Near.parse_account_id (relayer_account_id c)) ParseRelayerAccount in
  try signer := ok_or (near_signer_from_str relayer_key) ParseRelayerKey in
  let p := Near.MkProvider (near_network (environment c)) (near_rpc (primary_rpc_url c))
             (Some (near_rpc (backup_rpc_url c))) (signer account) in
  Ok (Some (build_facilitator p), Chain.NearProvider p).

Definition build_evm (c : ServiceConfig) (relayer_key : string)
  : Proc World (Result (option Scheme.Facilitator * Chain.ChainProvider) BootError) :=
  let? eip155 := ret (ok_or (eip155 c) MissingEip155Block) in
  let? max_fee_per_gas := ret (ok_or (parse_uint u128_max (max_fee_per_gas_wei eip155)) ParseMaxFee) in
  let? p := map_err_proc EvmConnect
      (connect_from_config (chain_id eip155) [primary_rpc_url c; backup_rpc_url c] relayer_key (asset c)
         (policy_confirmations eip155) (gas_limit eip155) max_fee_per_gas) in
  let signer_address := Evm.address_to_string (Evm.provider_signer_address p) in
  ret (if signer_identity_matches (relayer_account_id c) signer_address
       then Ok (None, Chain.EvmProvider p)
       else Err (SignerMismatch (relayer_account_id c) signer_address)).

Definition build_chain_provider (c : ServiceConfig) (relayer_key : string)
  : Proc World (Result (option Scheme.Facilitator * Chain.ChainProvider) BootError) :=
  match chain_kind c with
  | Near => ret (build_near c relayer_key)
  | Eip155 => build_evm c relayer_key
  end.

End bootstrap.
End Bootstrap.
