(* ===== verification/Keys.v ===== *)
(** * Generating relayer keys

    Models the [key] commands of [crates/x402-near-facilitator/src/bin/admin.rs] and
    [generate_signer_key_file] of [crates/x402-chain-eip155-provider/src/provider.rs].
    The host's files are [Secrets.Host], which a command leaves changed; what the
    operating system does with one write is [IoOutcome]; the random keys, and how they
    print, are fields of [KeyExternal].  A command's printed line is its result. *)

From stdpp Require Import base strings list numbers.
From Stdlib Require Import Lia NArith Ascii String.
From S2P Require Import Prelude Text Encoding Json Readiness Schema Receipt Near Scheme JsonRpc Config.
From S2P Require Import Secrets Evm Chain Bootstrap.

Open Scope string_scope.
Open Scope list_scope.
Open Scope N_scope.

Module Keys.
Import Secrets.

(** [near_crypto::SecretKey]: how it prints, and its public key. *)
Record SecretKey : Type := MkSecretKey {
  secret_text : string;
  public_key : Near.PublicKey
}.

Class KeyExternal : Type := {
  (** [SecretKey::from_random(KeyType::ED25519)], at a tick *)
  random_near_key : nat → SecretKey;
  (** [PrivateKeySigner::random()], at a tick *)
  random_evm_signer : nat → Evm.EvmSigner
}.

(** ** Files *)

Inductive IoError : Type :=
| CreateFailed
| WriteFailed
| SyncFailed.

(** How the system serves a [create_new] open, one write and a [sync_all]. *)
Inductive IoOutcome : Type :=
| OpenRefused
| WriteCut (written : string)
| SyncRefused
| Served.

(** A new regular file; [open] gives it the requested mode less the process's mask. *)
Definition with_file (path : string) (bits : N) (contents : string) (h : Host) : Host :=
  MkHost (var_os h)
    (λ p, if String.eqb p path then Some (MkMetadata true bits) else symlink_metadata h p)
    (λ p, if String.eqb p path then Some contents else read_file h p)
    (canonicalize h).

(** Mode 0o600, less what the mask forbids. *)
Definition create_mode (umask : N) : N := N.ldiff 384 umask.

Section keys.
Context (umask : N) (io : IoOutcome).

(** [OpenOptions::new().write(true).create_new(true).mode(0o600)], [writeln!] and
    [sync_all]: an existing path, a symbolic link included, is refused. *)
Definition write_new_file (path line : string) (h : Host) : Result unit IoError * Host :=
  let bits := create_mode umask in
  match symlink_metadata h path with
  | Some _ => (Err CreateFailed, h)
  | None =>
      match io with
      | OpenRefused => (Err CreateFailed, h)
      | WriteCut written => (Err WriteFailed, with_file path bits written h)
      | SyncRefused => (Err SyncFailed, with_file path bits (line +:+ newline) h)
      | Served => (Ok tt, with_file path bits (line +:+ newline) h)
      end
  end.

Context `{Near.External} `{Evm.EvmExternal} `{Bootstrap.BootExternal} `{KeyExternal}.

Definition generate_relayer (tick : nat) (output : string) (h : Host) : Result string IoError * Host :=
  let secret := random_near_key tick in
  let '(written, h) := write_new_file output (secret_text secret) h in
  (try _ := written in Ok (Near.key_text (public_key secret)), h).

Definition generate_signer_key_file (tick : nat) (output : string) (h : Host)
  : Result string IoError * Host :=
  let signer := random_evm_signer tick in
  let address := Evm.address_to_string (Evm.evm_address signer) in
  let key_hex := "0x" +:+ Bootstrap.signer_key_hex signer in
  let '(written, h) := write_new_file output key_hex h in
  (try _ := written in Ok address, h).

Inductive KeyCommand : Type :=
| GenerateRelayer (output : string)
| GenerateEvmRelayer (output : string).

Definition key (tick : nat) (command : KeyCommand) (h : Host) : Result string IoError * Host :=
  match command with
  | GenerateRelayer output => generate_relayer tick output h
  | GenerateEvmRelayer output => generate_signer_key_file tick output h
  end.

End keys.
End Keys.
