(* ===== verification/ChainProofs.v ===== *)
(** * Chain reads leave the world alone

    Verification, preparation, heads and reconciliation lookups only consult RPC
    nodes: they move the world along any preorder the environment moves it along. *)

From stdpp Require Import base gmap strings list numbers relations.
From Stdlib Require Import Lia NArith ZArith Ascii String.
From S2P Require Import Prelude Text Json Readiness Schema Receipt Near Scheme Retry Evm Chain.

Open Scope string_scope.
Open Scope list_scope.
Open Scope N_scope.

Module ChainProofs.

#[export] Hint Extern 0 (PreOrder _) => typeclasses eauto : respects.

Section reads.
Context `{Near.External} `{Evm.EvmExternal}.
Context (R : relation World) `{!PreOrder R}.

Lemma near_verify_respects p request policy :
  respects R (Near.verify_proto_request p request policy).
Proof. unfold Near.verify_proto_request. solve_respects. Qed.

Lemma retry_read_respects {A} (c : Proc World (Result A Evm.EvmRpcError)) :
  respects R c → respects R (Evm.retry_read c).
Proof. by apply Retry.respects_retry_transient. Qed.
#[local] Hint Resolve near_verify_respects retry_read_respects : respects.

Lemma ask_respects {A} (f : nat → option A) : respects R (Evm.ask f).
Proof. unfold Evm.ask. solve_respects. Qed.
#[local] Hint Resolve ask_respects : respects.

Lemma receipt_once_respects r hash : respects R (Evm.receipt_once r hash).
Proof. unfold Evm.receipt_once. solve_respects. Qed.
Lemma transaction_once_respects p r hash : respects R (Evm.transaction_once p r hash).
Proof. unfold Evm.transaction_once. solve_respects. Qed.
Lemma block_head_once_respects r : respects R (Evm.block_head_once r).
Proof. unfold Evm.block_head_once. solve_respects. Qed.
Lemma endpoint_head_once_respects p r : respects R (Evm.endpoint_head_once p r).
Proof. unfold Evm.endpoint_head_once. solve_respects. Qed.
Lemma estimate_l1_fee_once_respects r b : respects R (Evm.estimate_l1_fee_once r b).
Proof. unfold Evm.estimate_l1_fee_once. solve_respects. Qed.
#[local] Hint Resolve receipt_once_respects transaction_once_respects block_head_once_respects
  endpoint_head_once_respects estimate_l1_fee_once_respects : respects.

Lemma evm_head_respects p : respects R (Evm.head p).
Proof. unfold Evm.head, Evm.readiness_head. solve_respects. Qed.

Lemma evm_verify_respects p request : respects R (Evm.verify p request).
Proof.
  assert (∀ r, respects R
    (Retry.retry_transient (consult (λ n, Evm.upstream_verify p n r))
       (λ e, Evm.rpc_ambiguous (Evm.classify_verify_error e)))) as Hr.
  { intros r. apply Retry.respects_retry_transient; [apply _ |]. solve_respects. }
  unfold Evm.verify. solve_respects.
Qed.

Lemma evm_prepare_respects p payment nonce : respects R (Evm.prepare p payment nonce).
Proof.
  assert (respects R (Evm.fee_envelope p)) by (unfold Evm.fee_envelope; solve_respects).
  assert (∀ b, respects R (Evm.estimate_l1_fee_wei p b))
    by (intros; unfold Evm.estimate_l1_fee_wei; solve_respects).
  unfold Evm.prepare. solve_respects.
Qed.

Lemma evm_reconcile_respects p hash required :
  respects R (Evm.reconcile_hash_with_confirmations p hash required).
Proof.
  assert (respects R (Evm.safe_block_number p))
    by (unfold Evm.safe_block_number; solve_respects).
  assert (∀ hash, respects R (Evm.merged_receipt p hash))
    by (intros; unfold Evm.merged_receipt; solve_respects).
  unfold Evm.reconcile_hash_with_confirmations, Evm.reconcile_with_confirmations. solve_respects.
Qed.
#[local] Hint Resolve evm_head_respects evm_verify_respects evm_prepare_respects
  evm_reconcile_respects : respects.

Lemma chain_verify_respects p request policy : respects R (Chain.verify p request policy).
Proof.
  assert (∀ p, respects R
    (Retry.retry_while_transient (Near.verify_proto_request p request policy)
       Chain.near_outcome_is_ambiguous)).
  { intros q. apply Retry.respects_retry; [apply _ |]. solve_respects. }
  unfold Chain.verify. destruct p; solve_respects.
Qed.

Lemma chain_prepare_respects p payment head : respects R (Chain.prepare p payment head).
Proof. unfold Chain.prepare. solve_respects. Qed.

Lemma relayer_status_respects p : respects R (Near.relayer_status p).
Proof. unfold Near.relayer_status. solve_respects. Qed.
Lemma backup_relayer_head_respects p : respects R (Near.backup_relayer_head p).
Proof. unfold Near.backup_relayer_head, Near.relayer_head_from. solve_respects. Qed.
#[local] Hint Resolve relayer_status_respects backup_relayer_head_respects : respects.

Lemma signer_head_respects p : respects R (Chain.signer_head p).
Proof. unfold Chain.signer_head. destruct p; solve_respects. Qed.
Lemma backup_signer_head_respects p : respects R (Chain.backup_signer_head p).
Proof. unfold Chain.backup_signer_head. destruct p; solve_respects. Qed.

Lemma reconcile_status_respects p hash signer payer asset policy :
  respects R (Chain.reconcile_status p hash signer payer asset policy).
Proof.
  unfold Chain.reconcile_status, Near.query_transaction, Near.query_transaction_backup.
  destruct p; solve_respects.
Qed.
#[local] Hint Resolve chain_verify_respects chain_prepare_respects signer_head_respects
  backup_signer_head_respects reconcile_status_respects : respects.

End reads.

Lemma scheme_verify_respects `{Near.External} R `{!PreOrder R} f request :
  respects R (Scheme.facilitator_verify f request).
Proof.
  pose proof (near_verify_respects R). unfold Scheme.facilitator_verify, Scheme.verify. solve_respects.
Qed.

#[export] Hint Resolve scheme_verify_respects near_verify_respects evm_head_respects evm_verify_respects
  evm_prepare_respects evm_reconcile_respects chain_verify_respects chain_prepare_respects
  relayer_status_respects backup_relayer_head_respects signer_head_respects
  backup_signer_head_respects reconcile_status_respects : respects.

End ChainProofs.
