(* ===== verification/ChainSpec.v ===== *)
(** * What the chain-neutral provider promises

    When two NEAR lookups add up to a payment, to an unknown transaction or to
    nothing; and what a settlement is recorded to have cost. *)

From stdpp Require Import base gmap strings list numbers.
From Stdlib Require Import Lia NArith ZArith Ascii String.
From S2P Require Import Prelude Text Json Readiness Schema Receipt ReceiptSpec Near Demo Retry.
From S2P Require Import Evm Chain.

Open Scope string_scope.
Open Scope list_scope.
Open Scope N_scope.

Module ChainSpec.
Import Chain.

(** ** Cost *)

Definition sum_of {A} (f : A → N) (l : list A) : N := fold_right (λ a n, f a + n) 0 l.

Lemma saturating_fold {A} (f g : A → N) max max' l a b :
  a <= max → b <= max' →
  fold_left (λ '(x, y) r, (saturating_add max x (f r), saturating_add max' y (g r))) l (a, b)
    = (N.min max (a + sum_of f l), N.min max' (b + sum_of g l)).
Proof.
  revert a b. induction l as [|r l IH]; intros a b Ha Hb; cbn [fold_left sum_of fold_right].
  - f_equal; lia.
  - rewrite IH by (unfold saturating_add; lia). unfold saturating_add. fold (sum_of f l) (sum_of g l). f_equal; lia.
Qed.

(** All the outcomes of one transaction: its own and its receipts'. *)
Definition outcomes (o : Receipt.FinalExecutionOutcomeView) : list Receipt.ExecutionOutcomeWithIdView :=
  Receipt.transaction_outcome o :: Receipt.receipts_outcome o.

(** The cost recorded for a NEAR settlement is the exact sum of the gas and of the
    tokens burnt by the transaction and all its receipts, clamped to the widths of the
    counters ([u64] and [u128]); it never wraps around. *)
Theorem execution_cost_is_saturated_sum o :
  Receipt.gas_burnt (Receipt.transaction_outcome o) <= u64_max →
  Receipt.tokens_burnt (Receipt.transaction_outcome o) <= u128_max →
  execution_cost_near o = (N.min u64_max (sum_of Receipt.gas_burnt (outcomes o)),
                           N.min u128_max (sum_of Receipt.tokens_burnt (outcomes o))).
Proof. intros Hg Ht. unfold execution_cost_near. by rewrite saturating_fold. Qed.

Lemma execution_cost_is_saturated_sum_witness : execution_cost_near Demo.final_outcome = (30, 300).
Proof. rewrite execution_cost_is_saturated_sum; vm_compute; done. Defined.

(** ** Verdicts *)

Section verdicts.
Context `{Near.External} `{Evm.EvmExternal}.
Context (p : Near.NearChainProvider) (hash payer asset : string).

(** The two lookups show the final outcome [o]: one of them reports it, and the other,
    if it reports a final outcome at all, reports the same. *)
Definition shows (primary backup : Result Near.TransactionLookup Near.NearRpcError)
  (o : Receipt.FinalExecutionOutcomeView) : Prop :=
  (primary = Ok (Near.LookupFinal o) ∧ ∀ o', backup = Ok (Near.LookupFinal o') → o' = o) ∨
  (backup = Ok (Near.LookupFinal o) ∧ ∀ o', primary = Ok (Near.LookupFinal o') → o' = o).

Lemma near_final_outcome_Some l o : near_final_outcome l = Some o ↔ l = Ok (Near.LookupFinal o).
Proof. destruct l as [[]|]; cbn; naive_solver. Qed.

Lemma shown_outcome primary backup o :
  final_outcomes_conflict (near_final_outcome primary) (near_final_outcome backup) = false ∧
  union (near_final_outcome primary) (near_final_outcome backup) = Some o ↔ shows primary backup o.
Proof.
  unfold shows, final_outcomes_conflict. setoid_rewrite <- near_final_outcome_Some.
  destruct (near_final_outcome primary) as [a|], (near_final_outcome backup) as [b|]; cbn;
    [rewrite bool_decide_eq_false; destruct (decide (a = b)); naive_solver | naive_solver..].
Qed.

Lemma interpret_near_paid o t :
  (interpret_near_final o hash (Near.relayer_account_id p) payer asset = InterpretedTerminal t ∧
   success t = true) ↔
  ReceiptSpec.identifies o hash (Near.relayer_account_id p) payer ∧
  (∃ receipt, ReceiptSpec.accepted o payer asset receipt) ∧
  t = near_terminal (Near.hash_to_string hash) (execution_cost_near o) None.
Proof.
  unfold interpret_near_final. rewrite <- ReceiptSpec.identity_check_iff.
  setoid_rewrite <- ReceiptSpec.interpret_ok_accepted.
  destruct (Receipt.validate_final_outcome_identity _ _ _ _) as [[]|]; [| naive_solver].
  destruct (Receipt.interpret_final_outcome o payer asset) as [[r|e]|].
  - split; [intros [[= <-] _]; eauto | intros (_ & _ & ->); done].
  - destruct (Receipt.is_definitive_failure e); split; naive_solver.
  - naive_solver.
Qed.


Lemma unknown_iff primary backup :
  verdict (judge_lookups p hash payer asset primary backup) = VerdictUnknown ↔
  near_lookup_unknown primary = true ∧ near_lookup_unknown backup = true.
Proof.
  unfold judge_lookups. split.
  - destruct (final_outcomes_conflict _ _); [done |]. destruct (union _ _).
    + cbn. by destruct (interpret_near_final _ _ _ _ _).
    + destruct (_ || _); [done |]. by destruct (near_lookup_unknown primary), (near_lookup_unknown backup).
  - intros [Hp Hb].
    destruct primary as [[]|[]], backup as [[]|[]]; try done.
Qed.

(** A NEAR transaction counts as unknown, which is what lets recovery resend its
    bytes or fail it as expired, exactly when both endpoints answered that they do not
    know it: an endpoint that is down, slow or undecided keeps the row as it is. *)
Theorem near_unknown_iff primary backup :
  verdict (judge_lookups p hash payer asset primary backup) = VerdictUnknown ↔
  near_lookup_unknown primary = true ∧ near_lookup_unknown backup = true.
Proof. apply unknown_iff. Qed.

End verdicts.

End ChainSpec.
