(* ===== verification/JsonRpcSpec.v ===== *)
(** * What a verdict about a NEAR transaction rests on

    The engine over real endpoints: a transaction is given up only on a node's explicit
    word, never on silence. *)

From stdpp Require Import base gmap strings list numbers.
From Stdlib Require Import Lia NArith Ascii String.
From S2P Require Import Prelude Text Json Readiness Schema Sql Store Receipt Protocol Near JsonRpc.
From S2P Require Import Config Demo NearSpec Retry Evm DemoEvm Chain ChainProofs ChainSpec.

Open Scope string_scope.
Open Scope list_scope.

Module JsonRpcSpec.
Import JsonRpc Chain ChainSpec.

(** The rejections that no later state of the chain can lift: they are about the
    transaction's bytes. *)
Definition about_the_bytes : list InvalidTxError :=
  [InvalidSignerId; InvalidReceiverId; InvalidTxSignature; CostOverflow; ActionsValidation;
   TransactionSizeExceeded; InvalidTransactionVersion; InvalidNonceIndex].

(** A node refused these bytes for what they are. *)
Definition node_refused `{Near.External} (c : JsonRpcClient) (bytes : string) : Prop :=
  ∃ t tick context, Near.decode_signed_transaction bytes = Ok t ∧ context ∈ about_the_bytes ∧
    call_send_tx c tick t = Some (Err (HandlerError (InvalidTransaction context))).

(** A node said that it does not know the transaction. *)
Definition node_does_not_know (c : JsonRpcClient) (hash signer : string) : Prop :=
  ∃ tick, call_tx c tick hash signer = Some (Err (HandlerError UnknownTransaction)).

Lemma classify_transaction_ok response r : classify_transaction response = r →
  r ≠ Err Near.TransactionRejected ∧ r ≠ Ok Near.LookupUnknown ∧ r ≠ Err Near.TransactionUnknown.
Proof.
  unfold classify_transaction. intros <-. destruct (bool_decide _); cbn; [| done].
  by destruct (final_execution_outcome response).
Qed.

Section verdicts.
Context `{Near.External} `{Evm.EvmExternal}.

Lemma send_rejected c n t :
  json_send_transaction_final c n t = Err Near.TransactionRejected →
  ∃ context, context ∈ about_the_bytes ∧
    call_send_tx c n t = Some (Err (HandlerError (InvalidTransaction context))).
Proof.
  unfold json_send_transaction_final, within_deadline.
  destruct (call_send_tx c n t) as [[response|e]|]; cbn.
  - intros E. by apply classify_transaction_ok in E as [].
  - destruct e as [[|context| |]|]; try done. intros E. exists context. split; [| done].
    destruct context; try discriminate E; unfold about_the_bytes; set_solver.
  - done.
Qed.

Lemma status_unknown c n hash signer :
  near_lookup_unknown (json_transaction_status_final c n hash signer) = true →
  call_tx c n hash signer = Some (Err (HandlerError UnknownTransaction)).
Proof.
  unfold json_transaction_status_final. destruct (call_tx c n hash signer) as [[response|e]|]; [| |done].
  - destruct (classify_transaction response) as [[]|[]] eqn:E; try done;
      by apply classify_transaction_ok in E as (? & ? & ?).
  - destruct e as [[|context| |]|]; try done. by destruct context.
Qed.

Lemma broadcast_exact_rejected p c settlement bytes env n w n' w' :
  Near.rpc p = json_rpc_near_rpc c →
  Near.broadcast_exact p settlement bytes env n w = (Done (Err Near.TransactionRejected), n', w') →
  node_refused c bytes.
Proof.
  intros Hc. unfold Near.broadcast_exact, bind_ok, bind, ret, transmit. rewrite Hc.
  destruct (Near.decode_signed_transaction bytes) as [t|e] eqn:Ed.
  - destruct (reply env n); intros E; try discriminate E; injection E as E _ _;
      apply send_rejected in E as (context & Hin & E); exists t, n, context; done.
  - intros [= -> _ _]. unfold Near.decode_signed_transaction in Ed.
    destruct (Near.transaction_from_slice bytes); [| done]. cbn in Ed. unfold Near.ensure in Ed.
    by destruct (Near.signature_verify _ _ _).
Qed.

Lemma classify_rejected p hash payer asset answer reason :
  classify_near_broadcast p hash payer asset answer = BroadcastRejected reason →
  answer = Err Near.TransactionRejected.
Proof.
  unfold classify_near_broadcast. destruct answer as [[]|[]]; try done.
  repeat case_match; done.
Qed.


End verdicts.

(** ** Two nodes *)

#[local] Existing Instance Demo.external.
#[local] Existing Instance DemoEvm.external.

(** A node that knows nothing of the transaction and refuses it for its signature, and
    one that has timed out. *)
Definition refusing : JsonRpcClient :=
  MkClient (λ _, Some (Ok "mainnet")) (λ _, None) (λ _ _ _, None)
    (λ _ _, Some (Err (HandlerError (InvalidTransaction InvalidTxSignature))))
    (λ _ _ _, Some (Err (HandlerError UnknownTransaction))).
Definition silent : JsonRpcClient :=
  MkClient (λ _, None) (λ _, None) (λ _ _ _, None) (λ _ _, None) (λ _ _ _, None).

Definition over (c b : JsonRpcClient) : Near.NearChainProvider :=
  Near.MkProvider Near.Mainnet (json_rpc_near_rpc c) (Some (json_rpc_near_rpc b)) Demo.signer.

Definition resend (p : Near.NearChainProvider) : BroadcastOutcome :=
  match (rebroadcast (NearProvider p) 1 "outer" (Near.hash_to_string (Demo.hash32 "t")) "alice.near" "usdc.near"
           (quiet_env World) 0%nat Demo.world).1.1 with
  | Done o => o
  | Crashed => BroadcastPending
  end.

Example refused_or_silent :
  resend (over refusing silent) = BroadcastRejected "transaction_rejected" ∧
  resend (over silent refusing) = BroadcastPending.
Proof. vm_compute. split; reflexivity. Qed.


End JsonRpcSpec.
