(* ===== verification/Service.v ===== *)
(** * The settlement engine

    Models the durable settlement orchestration of
    [crates/x402-near-facilitator/src/service.rs]: the worker that settles a claimed
    payment ([run_new_settlement] and its EVM tail), the reconciliation that resumes
    interrupted rows, and their helpers, over the store, the readiness gates and the
    chain provider.  Metrics and log lines are dropped.  [relayer_lock] is not
    modelled: the environment may interleave any other task at every await, which
    includes the schedules the lock excludes. *)

From stdpp Require Import base gmap strings list numbers.
From Stdlib Require Import Lia NArith ZArith Ascii String.
From S2P Require Import Prelude Text Json Readiness Schema Sql Store Receipt Protocol.
From S2P Require Import Canonical Near Scheme Config Auth Retry Evm Chain.

Open Scope string_scope.
Open Scope list_scope.
Open Scope N_scope.

Module Service.
Import Store.
Export Config.

(** ** Configuration and state *)

Record AppState : Type := MkApp {
  config : ServiceConfig;
  auth : Auth.ApiKeyAuthenticator;
  facilitator : option Scheme.Facilitator;
  provider : Chain.ChainProvider
}.

(** ** Responses *)

Record SettleResponse : Type := MkSettleResponse {
  success : bool;
  error_reason : option string;
  error_message : option string;
  payer : option string;
  transaction : string;
  response_network : string
}.

Definition response_success (payer transaction network : string) : SettleResponse :=
  MkSettleResponse true None None (Some payer) transaction network.

Definition response_failure (reason : string) (message payer : option string)
  (transaction network : string) : SettleResponse :=
  MkSettleResponse false (Some reason) message payer transaction network.

Definition member (key text : string) : string :=
  Canonical.json_string key +:+ String ":"%char text.

Definition optional_member (key : string) (o : option string) : list string :=
  match o with Some s => [member key (Canonical.json_string s)] | None => [] end.

(** The derived [Serialize]: fields in declaration order, [None] skipped, [extensions]
    always [None] here. *)
Definition settle_response_to_vec (r : SettleResponse) : string :=
  String "{"%char
    (Canonical.join
       ([member "success" (if success r then "true" else "false")]
          ++ optional_member "errorReason" (error_reason r)
          ++ optional_member "errorMessage" (error_message r)
          ++ optional_member "payer" (payer r)
          ++ [member "transaction" (Canonical.json_string (transaction r));
              member "network" (Canonical.json_string (response_network r))])
     +:+ "}").

Definition HTTP_OK : N := 200.

(** ** Readiness gates *)

Definition set_reconciliation (ready : bool) : Proc World unit :=
  modify (λ w, with_gates (Readiness.set_reconciliation ready (gates w)) w).
Definition set_relayer (ready : bool) : Proc World unit :=
  modify (λ w, with_gates (Readiness.set_relayer ready (gates w)) w).
Definition can_settle : Proc World bool := gets (λ w, Readiness.can_settle (gates w)).

(** ** Funding *)

Definition parse_u128 (s : string) : option N := parse_uint u128_max s.

Definition signer_is_funded (c : ServiceConfig) (balance : N) : bool :=
  match parse_u128 (balance_hard_stop_yocto_near (sponsorship c)) with
  | None => false
  | Some hard_stop =>
      let required :=
        if bool_decide (chain_kind c = Eip155) then
          match parse_u128 (reservation_yocto_near (sponsorship c)) with
          | None => None
          | Some reservation => checked_add u128_max hard_stop reservation
          end
        else Some hard_stop in
      is_some_and required (λ required, required <=? balance)
  end.

Definition recovery_requirement (c : ServiceConfig) (record : Rec.SettlementRecord)
  : Result N StoreError :=
  try hard_stop := ok_or (parse_u128 (balance_hard_stop_yocto_near (sponsorship c)))
                     (Corrupt "configured EVM balance hard stop is invalid") in
  try reservation := ok_or (parse_u128 (Rec.reserved_yocto_near record))
                       (Corrupt "journaled EVM sponsorship reservation is invalid") in
  ok_or (checked_add u128_max hard_stop reservation)
    (Corrupt "EVM recovery balance requirement overflowed").

Definition require_evm_recovery_balance (s : AppState) (record : Rec.SettlementRecord) (balance : N)
  : Proc World (Result unit StoreError) :=
  match recovery_requirement (config s) record with
  | Err e =>
      let* _ := set_relayer false in
      let* _ := set_reconciliation false in
      ret (Err e)
  | Ok required =>
      if balance <? required then
        let* _ := set_relayer false in
        let* _ := set_reconciliation false in
        ret (Err (Corrupt "EVM signer balance does not cover the durable recovery reservation"))
      else ret (Ok tt)
  end.

Definition evm_reservation_covers_liability (c : ServiceConfig) (estimated_l1_fee : N) : bool :=
  match eip155 c with
  | None => false
  | Some eip155 =>
      match parse_u128 (max_fee_per_gas_wei eip155),
            parse_u128 (reservation_yocto_near (sponsorship c)) with
      | Some max_fee_per_gas, Some reservation =>
          is_some_and
            (l2 ← checked_mul u128_max (gas_limit eip155) max_fee_per_gas;
             checked_add u128_max l2 estimated_l1_fee)
            (λ liability, liability <=? reservation)
      | _, _ => false
      end
  end.

Section engine.
Context `{Near.External} `{Evm.EvmExternal}.
Context (s : AppState).

Definition fresh_signer_head : Proc World (Result Chain.SignerHead StoreError) :=
  let* head := Chain.signer_head (provider s) in
  match head with
  | Err _ =>
      let* _ := set_relayer false in
      ret (Err (Corrupt "relayer chain state is unavailable"))
  | Ok head =>
      let? policy_active := relayer_is_active (network (config s))
                              (Chain.signer_account_id (provider s))
                              (Chain.head_signer_public_key head) in
      let funded := signer_is_funded (config s) (Chain.signer_balance_atomic head) in
      if negb policy_active || negb funded then
        let* _ := set_relayer false in
        ret (Err (Corrupt "relayer policy or balance hard stop is not satisfied"))
      else
        let* _ := set_relayer true in
        ret (Ok head)
  end.

(** ** Writing terminal rows *)

(** The journal entry of an on-chain outcome. *)
Definition outcome_entry (id : N) (payer network : string) (o : Chain.TerminalOutcome)
  : TerminalJournalEntry :=
  let response :=
    if Chain.success o then response_success payer (Chain.tx_hash o) network
    else response_failure "transaction_failed" (Chain.failure_detail o) (Some payer)
           (Chain.tx_hash o) network in
  MkTerminalEntry id (if Chain.success o then Succeeded else Failed) HTTP_OK
    (settle_response_to_vec response)
    (if Chain.success o then None else Some "transaction_failed") None
    (Some (to_decimal (Chain.gas_units o))) (Some (to_decimal (Chain.fee_atomic o)))
    (to_decimal (Chain.fee_atomic o)) (to_decimal <$> Chain.mined_block_number o)
    (Chain.mined_block_hash o)
    (depth ← Chain.confirmations o; Z.of_N <$> try_from i32_max depth).

(** The journal entry of a failure that cost nothing on chain. *)
Definition failure_entry (id : N) (reason : string) (payer : option string)
  (transaction network : string) : TerminalJournalEntry :=
  MkTerminalEntry id Failed HTTP_OK
    (settle_response_to_vec (response_failure reason None payer transaction network))
    (Some reason) None (Some "0") (Some "0") "0" None None None.

(** [mark_terminal], closing the reconciliation gate when it fails. *)
Definition terminalize (e : TerminalJournalEntry) : Proc World unit :=
  let* result := mark_terminal e in
  if is_err result then set_reconciliation false else ret tt.

Definition finalize_terminal (id : N) (payment : Chain.VerifiedPayment) (o : Chain.TerminalOutcome)
  : Proc World unit :=
  terminalize (outcome_entry id (Chain.payer payment) (network (config s)) o).

Definition terminal_protocol_failure (id : N) (reason : string) (payer transaction : option string)
  : Proc World unit :=
  terminalize (failure_entry id reason payer (default "" transaction) (network (config s))).

Definition terminal_transaction_rejected (id : N) (payer : option string) (hash : string)
  : Proc World unit :=
  terminalize (failure_entry id "transaction_rejected" payer hash (network (config s))).

Definition retryable_service_failure (id : N) (code : string) : Proc World unit :=
  let* result := mark_awaiting_retry id code in
  if is_err result then set_reconciliation false else ret tt.

(** Quarantine after a nonce moved under a prepared transaction; a failing write is
    ignored, the gates close either way. *)
Definition quarantine_after_drift (reason : string) (nonce : N) : Proc World unit :=
  let* _ := quarantine_relayer (network (config s)) (Chain.signer_account_id (provider s))
              (Chain.provider_public_key (provider s)) reason (to_decimal nonce) in
  let* _ := set_relayer false in
  set_reconciliation false.

(** ** The EVM tail *)

Definition settle_prepared_evm (id : N) (prepared : Chain.Prepared)
  (submission : Chain.DurableSubmission) (payment : Chain.VerifiedPayment) : Proc World unit :=
  match Chain.recovery_policy submission with
  | Chain.NearFinality => set_reconciliation false
  | Chain.EvmConfirmations depth =>
  match try_from i32_max depth with
  | None => set_reconciliation false
  | Some depth =>
      let* journaled := mark_prepared_evm
          (MkEvmPrepared id (to_decimal (Chain.submission_nonce submission))
             (Chain.submission_bytes submission) (Chain.submission_hash submission) (Z.of_N depth)) in
      if is_err journaled then set_reconciliation false
      else
      let* open := can_settle in
      if negb open then set_reconciliation false
      else
      let* marked := mark_submitted id in
      if is_err marked then set_reconciliation false
      else
      let* open := can_settle in
      if negb open then set_reconciliation false
      else
      let* head := fresh_signer_head in
      match head with
      | Err _ => set_reconciliation false
      | Ok head =>
          if negb (Chain.signer_nonce head =? Chain.submission_nonce submission) then
            quarantine_after_drift "signer nonce changed between preparation and broadcast"
              (Chain.signer_nonce head)
          else
          let* open := can_settle in
          if negb open then set_reconciliation false
          else
          let* outcome := Chain.broadcast (provider s) id prepared payment in
          match outcome with
          | Chain.BroadcastTerminal _ => set_reconciliation false
          | Chain.BroadcastRejected _ =>
              terminal_transaction_rejected id (Some (Chain.payer payment))
                (Chain.submit_hash prepared)
          | Chain.BroadcastPending => set_reconciliation false
          end
      end
  end
  end.

(** ** The worker *)

(** The journaled claim is the one the verified payment would make. *)
Definition claim_matches (journaled : Rec.SettlementRecord) (payment : Chain.VerifiedPayment)
  : bool :=
  let identity := Chain.identity payment in
  let r := Chain.requirements payment in
  bool_decide (Rec.state journaled = Reserved)
  && String.eqb (Rec.payment_hash journaled) (Chain.request_hash identity)
  && String.eqb (Rec.anchor_scope journaled) (Chain.anchor_scope identity)
  && String.eqb (Rec.anchor_value journaled) (Chain.anchor_value identity)
  && String.eqb (Rec.payer journaled) (Chain.payer payment)
  && String.eqb (Rec.network journaled) (Chain.network r)
  && eq_ignore_ascii_case (Rec.asset journaled) (Chain.asset r)
  && eq_ignore_ascii_case (Rec.pay_to journaled) (Chain.pay_to r)
  && Protocol.decimal_is_at_least (Rec.amount journaled) (Chain.amount_decimal r)
  && Protocol.decimal_is_at_least (Chain.amount_decimal r) (Rec.amount journaled).

(** The NEAR tail of [run_new_settlement], from the durable prepare on. *)
Definition settle_prepared_near (id : N) (signer_head : Chain.SignerHead)
  (prepared : Chain.Prepared) (submission : Chain.DurableSubmission)
  (payment : Chain.VerifiedPayment) : Proc World unit :=
  let* journaled := mark_prepared
      (MkPrepared id (Chain.submitter submission) (Chain.signer_public_key prepared)
         (to_decimal (Chain.submission_nonce submission)) (Chain.submission_bytes submission)
         (Chain.submission_hash submission)) in
  if is_err journaled then set_reconciliation false
  else
  let* current := fresh_signer_head in
  match current with
  | Err _ => set_reconciliation false
  | Ok current =>
      if negb (Chain.signer_nonce current =? Chain.signer_nonce signer_head) then
        quarantine_after_drift "relayer nonce changed between preparation and broadcast"
          (Chain.signer_nonce current)
      else
      let* open := can_settle in
      if negb open then set_reconciliation false
      else
      let* marked := mark_submitted id in
      if is_err marked then set_reconciliation false
      else
      let* open := can_settle in
      if negb open then set_reconciliation false
      else
      let* outcome := Chain.broadcast (provider s) id prepared payment in
      match outcome with
      | Chain.BroadcastTerminal o => finalize_terminal id payment o
      | Chain.BroadcastRejected _ =>
          terminal_transaction_rejected id (Some (Chain.payer payment)) (Chain.submit_hash prepared)
      | Chain.BroadcastPending => set_reconciliation false
      end
  end.

Definition run_new_settlement (id : N) (request : string) : Proc World unit :=
  let* open := can_settle in
  if negb open then retryable_service_failure id "leadership_unavailable"
  else
  let* verified := Chain.verify (provider s) request (Near.MkPolicy (max_inner_gas (config s))) in
  match verified with
  | Err rejection =>
      if Chain.rpc_ambiguous rejection
      then retryable_service_failure id "rpc_unavailable"
      else terminal_protocol_failure id (Chain.reason rejection) None None
  | Ok payment =>
  let* journaled := settlement id in
  match journaled with
  | Ok (Some journaled) =>
      if negb (claim_matches journaled payment)
      then terminal_protocol_failure id "settlement_identity_mismatch" None None
      else
      let* head := fresh_signer_head in
      match head with
      | Err _ => retryable_service_failure id "relayer_unavailable"
      | Ok head =>
      let* prepared := Chain.prepare (provider s) payment head in
      match prepared with
      | Err _ => retryable_service_failure id "transaction_preparation_failed"
      | Ok prepared =>
      let submission := Chain.durable_submission (provider s) prepared in
      match Chain.prepared_detail prepared with
      | Chain.EvmPrepared evm =>
          match Evm.estimated_l1_fee_wei evm with
          | None => retryable_service_failure id "l1_fee_estimation_failed"
          | Some fee =>
              if negb (evm_reservation_covers_liability (config s) fee)
              then retryable_service_failure id "sponsorship_reservation_insufficient"
              else settle_prepared_evm id prepared submission payment
          end
      | Chain.NearPrepared _ => settle_prepared_near id head prepared submission payment
      end
      end
      end
  | _ => retryable_service_failure id "settlement_journal_unavailable"
  end
  end.

(** ** Validating what the journal holds *)

Definition corrupt_unless (b : bool) (message : string) : Result unit StoreError :=
  if b then Ok tt else Err (Corrupt message).

Definition corrupt_or {A} (o : option A) (message : string) : Result A StoreError :=
  ok_or o (Corrupt message).

Definition parse_u64 (text : string) : option N := parse_uint u64_max text.

Definition validate_delegate (record : Rec.SettlementRecord) (payer : string)
  (d : Near.SignedDelegateAction) : Result unit StoreError :=
  try _ := corrupt_unless (Near.delegate_verify d) "prepared delegate signature is invalid" in
  try delegate_hash := map_err (λ _, Corrupt "prepared delegate cannot be hashed")
                         (Near.signed_delegate_hash d) in
  try nonce := corrupt_or (parse_u64 (Rec.delegate_nonce record))
                 "journal delegate nonce is invalid" in
  try max_height := corrupt_or (parse_u64 (Rec.delegate_max_block_height record))
                      "journal delegate expiry is invalid" in
  let a := Near.delegate_action d in
  corrupt_unless
    (String.eqb delegate_hash (Rec.payment_hash record)
     && String.eqb (Near.sender_id a) payer
     && String.eqb (Near.key_text (Near.public_key a)) (Rec.delegate_public_key record)
     && (Near.nonce a =? nonce)
     && (Near.max_block_height a =? max_height))
    "prepared delegate does not match the settlement journal".

Definition validate_stored_transaction (record : Rec.SettlementRecord)
  (bytes expected_hash expected_signer : string) : Result unit StoreError :=
  try signed := map_err (λ _, Corrupt "prepared transaction bytes are invalid")
                  (Near.decode_signed_transaction bytes) in
  let hash := Near.transaction_get_hash (Near.transaction signed) in
  try _ := corrupt_unless
             (bool_decide (ok (Near.signed_transaction_hash bytes) = Some expected_hash)
              && String.eqb hash expected_hash)
             "prepared transaction bytes do not match journaled hash" in
  try _ := corrupt_unless
             (Near.signature_verify (Near.signature signed) hash
                (Near.transaction_public_key (Near.transaction signed)))
             "prepared outer transaction signature is invalid" in
  match Near.transaction signed with
  | Near.V1 _ _ => Err (Corrupt "prepared outer transaction is not V0")
  | Near.V0 t =>
  try public_key := corrupt_or (Rec.relayer_public_key record) "prepared row has no public key" in
  try nonce := corrupt_or (n ← Rec.relayer_nonce record; parse_u64 n)
                 "prepared row has invalid nonce" in
  try payer := corrupt_or (Near.parse_account_id (Rec.payer record)) "journal payer is invalid" in
  try _ := corrupt_unless
             (String.eqb (Near.tx_signer_id t) expected_signer
              && String.eqb (Near.key_text (Near.tx_public_key t)) public_key
              && (Near.tx_nonce t =? nonce)
              && String.eqb (Near.tx_receiver_id t) payer
              && (List.length (Near.tx_actions t) =? 1)%nat)
             "prepared outer transaction identity does not match the journal" in
  match Near.tx_actions t with
  | Near.Delegate d :: _ => validate_delegate record payer d
  | _ => Err (Corrupt "prepared outer transaction does not contain one delegate action")
  end
  end.

Definition get_str (key : string) (m : Map) : option string := v ← get key m; as_str v.
Definition get_u64 (key : string) (m : Map) : option N := v ← get key m; as_u64 v.

Definition evm_policy_snapshot (record : Rec.SettlementRecord) : Result (N * N * N) StoreError :=
  let snapshot := default [] (as_object (Rec.policy_snapshot record)) in
  try _ := corrupt_unless
             (bool_decide (get_str "chainKind" snapshot = Some "eip155")
              && bool_decide (get_str "network" snapshot = Some (Rec.network record))
              && is_some_and (get_str "asset" snapshot)
                   (λ asset, eq_ignore_ascii_case asset (Rec.asset record)))
             "EVM settlement policy identity is inconsistent" in
  try eip155 := corrupt_or (v ← get "eip155" snapshot; as_object v)
                  "EVM settlement has no stored admission policy" in
  try chain_id := corrupt_or (get_u64 "chainId" eip155) "stored EVM chain id is invalid" in
  try network_chain_id := corrupt_or (t ← strip_prefix "eip155:" (Rec.network record); parse_u64 t)
                            "journaled EVM network is invalid" in
  try _ := corrupt_unless (chain_id =? network_chain_id)
             "stored EVM chain policy does not match the network" in
  try gas_limit := corrupt_or (filter_opt (λ v, 0 <? v) (get_u64 "gasLimit" eip155))
                     "stored EVM gas limit is invalid" in
  try max_fee := corrupt_or (filter_opt (λ v, 0 <? v)
                               (t ← get_str "maxFeePerGasWei" eip155; parse_u128 t))
                   "stored EVM fee cap is invalid" in
  try required := corrupt_or (filter_opt (λ v, 0 <? v) (get_u64 "requiredConfirmations" eip155))
                    "stored EVM confirmation policy is invalid" in
  Ok (gas_limit, max_fee, required).

Definition can_reconciliation_broadcast : Proc World bool :=
  gets (λ w, let snap := Readiness.snapshot (gates w) in
             Readiness.s_leadership snap && Readiness.s_rpc snap && Readiness.s_relayer snap).

(** ** Reconciliation *)

Definition fee_overrun (record : Rec.SettlementRecord) (fee : N) : Result bool StoreError :=
  if bool_decide (Rec.chain_kind record = Eip155) then
    try reservation := corrupt_or (parse_u128 (Rec.reserved_yocto_near record))
                         "EVM reservation is invalid" in
    Ok (reservation <? fee)
  else Ok false.

Definition finalize_reconciled_terminal (record : Rec.SettlementRecord) (o : Chain.TerminalOutcome)
  : Proc World (Result unit StoreError) :=
  let? overrun := ret (fee_overrun record (Chain.fee_atomic o)) in
  let? _ := if (overrun : bool) then
              let* _ := set_relayer false in
              let* _ := set_reconciliation false in
              quarantine_relayer (network (config s)) (Chain.signer_account_id (provider s))
                (Chain.provider_public_key (provider s))
                "actual Base fee exceeded the sponsorship reservation"
                (default "0" (Rec.signer_account_nonce record))
            else ret (Ok tt) in
  let? _ := mark_terminal (outcome_entry (Rec.id record) (Rec.payer record) (network (config s)) o) in
  if (overrun : bool)
  then ret (Err (Corrupt "Base sponsorship quarantined after reservation overrun"))
  else ret (Ok tt).

(** Effects of an arm that always succeeds. *)
Definition and_ok (c : Proc World unit) : Proc World (Result unit StoreError) :=
  let* _ := c in ret (Ok tt).

(** Effects of an arm before it returns an error. *)
Definition and_err (c : Proc World unit) (message : string) : Proc World (Result unit StoreError) :=
  let* _ := c in ret (Err (Corrupt message)).

(** What the two rebroadcasts do with their outcome. *)
Definition conclude_rebroadcast (record : Rec.SettlementRecord) (hash : string)
  (outcome : Chain.BroadcastOutcome) : Proc World (Result unit StoreError) :=
  match outcome with
  | Chain.BroadcastTerminal o => finalize_reconciled_terminal record o
  | Chain.BroadcastRejected _ =>
      and_ok (terminal_transaction_rejected (Rec.id record) (Some (Rec.payer record)) hash)
  | Chain.BroadcastPending => ret (Ok tt)
  end.

Definition mark_submitted_if_prepared (record : Rec.SettlementRecord)
  : Proc World (Result unit StoreError) :=
  if bool_decide (Rec.state record = Prepared) then mark_submitted (Rec.id record) else ret (Ok tt).

(** [reconcile_prepared_evm] from the [Unknown] verdict on. *)
Definition recover_unknown_evm (record : Rec.SettlementRecord) (bytes hash : string)
  (signer_nonce : N) : Proc World (Result unit StoreError) :=
  let? _ := mark_submitted_if_prepared record in
  let* open := can_reconciliation_broadcast in
  if negb open then ret (Err (Corrupt "leadership lost before reconciliation broadcast"))
  else
  let? head := fresh_signer_head in
  let? _ := require_evm_recovery_balance s record (Chain.signer_balance_atomic head) in
  if signer_nonce <? Chain.signer_nonce head then
    let? _ := quarantine_relayer (network (config s)) (Chain.signer_account_id (provider s))
                (Chain.provider_public_key (provider s))
                "signer nonce advanced while exact transaction remained unknown"
                (to_decimal (Chain.signer_nonce head)) in
    let* _ := set_relayer false in
    and_err (set_reconciliation false) "EVM signer quarantined after unknown nonce advance"
  else if negb (Chain.signer_nonce head =? signer_nonce) then
    and_err (set_reconciliation false) "EVM signer nonce regressed before exact-byte rebroadcast"
  else
  let* open := can_reconciliation_broadcast in
  if negb open then
    ret (Err (Corrupt "leadership lost immediately before reconciliation broadcast"))
  else
  let* outcome := Chain.rebroadcast (provider s) (Rec.id record) bytes hash (Rec.payer record)
                    (Rec.asset record) in
  conclude_rebroadcast record hash outcome.

(** The journal values an EVM row must bind to before any RPC is asked. *)
Definition evm_binding (record : Rec.SettlementRecord) (signer hash : string) (required : N)
  : Result (Chain.StoredEvmSubmission * N) StoreError :=
  try metadata := corrupt_or (Rec.authorization_metadata record)
                    "prepared EVM row has no authorization metadata" in
  try _ := corrupt_unless (version metadata =? 2)
             "prepared EVM authorization metadata version is invalid" in
  try snapshot := evm_policy_snapshot record in
  let '(gas_limit, max_fee, admission) := snapshot in
  try _ := corrupt_unless (admission <=? required)
             "journaled EVM confirmation policy was lowered" in
  try nonce := corrupt_or (n ← Rec.signer_account_nonce record; parse_u128 n)
                 "prepared EVM row has invalid nonce" in
  Ok (Chain.MkStored (Rec.network record) hash signer nonce (Rec.asset record) (Rec.payer record)
        (Rec.pay_to record) (Rec.amount record) (valid_after metadata) (valid_before metadata)
        (Rec.anchor_scope record) (Rec.anchor_value record) (Rec.payment_hash record) gas_limit
        max_fee, nonce).

Definition reconcile_prepared_evm (record : Rec.SettlementRecord)
  : Proc World (Result unit StoreError) :=
  let? signer := ret (corrupt_or (Rec.signer_address record) "prepared row has no signer") in
  if negb (String.eqb signer (Chain.signer_account_id (provider s))) then
    and_err (set_relayer false) "journaled signer does not match configured signer"
  else
  let? hash := ret (corrupt_or (Rec.submitted_tx_hash record)
                      "prepared row has no transaction hash") in
  let? bytes := ret (corrupt_or (Rec.submitted_tx_rlp record)
                       "prepared row has no transaction bytes") in
  let? configured := ret (corrupt_or (depth ← Chain.required_confirmations (provider s);
                                      try_from i32_max depth)
                            "configured EVM confirmation depth is invalid") in
  let? effective := raise_required_confirmations (Rec.id record) (Z.of_N configured) in
  let? required := ret (corrupt_or (if (effective <? 0)%Z then None else Some (Z.to_N effective))
                          "journaled EVM confirmation depth is invalid") in
  let? binding := ret (evm_binding record signer hash required) in
  let '(stored, signer_nonce) := binding in
  match Chain.validate_stored_submission (provider s) bytes stored with
  | Err e => and_err (set_relayer false) (Chain.stored_error_to_string e)
  | Ok _ =>
  let* status := Chain.reconcile_status (provider s) hash signer (Rec.payer record)
                   (Rec.asset record) (Chain.EvmConfirmations required) in
  match Chain.verdict status with
  | Chain.VerdictTerminal o => finalize_reconciled_terminal record o
  | Chain.VerdictPending => ret (Ok tt)
  | Chain.VerdictIndeterminate _ => and_ok (set_reconciliation false)
  | Chain.VerdictUnknown => recover_unknown_evm record bytes hash signer_nonce
  | Chain.VerdictConflict | Chain.VerdictAmbiguous =>
      and_err (set_reconciliation false) "evm reconciliation was ambiguous"
  end
  end.

(** [reconcile_prepared] from the [Unknown] verdict on. *)
Definition recover_unknown_near (record : Rec.SettlementRecord) (bytes hash : string)
  : Proc World (Result unit StoreError) :=
  let? primary := fresh_signer_head in
  let? backup := map_err_proc (λ _, Corrupt "backup relayer state unavailable during reconciliation")
                   (Chain.backup_signer_head (provider s)) in
  let? prepared_nonce := ret (corrupt_or (n ← Rec.relayer_nonce record; parse_u128 n)
                                "prepared row has invalid nonce") in
  if (prepared_nonce <=? Chain.signer_nonce primary) || (prepared_nonce <=? Chain.signer_nonce backup)
  then
    let? public_key := ret (corrupt_or (Rec.relayer_public_key record)
                              "prepared row has no public key") in
    let? _ := quarantine_relayer (network (config s)) (Chain.signer_account_id (provider s))
                public_key "nonce advanced while exact transaction remained unknown"
                (to_decimal (N.max (Chain.signer_nonce primary) (Chain.signer_nonce backup))) in
    and_err (set_relayer false) "relayer key quarantined after unknown nonce advance"
  else
  let? max_height := ret (corrupt_or (parse_u64 (Rec.delegate_max_block_height record))
                            "journal delegate expiry is invalid") in
  if max_height <=? N.max (Chain.chain_block_height primary) (Chain.chain_block_height backup) then
    and_ok (terminal_protocol_failure (Rec.id record) (Near.reason Near.DelegateActionExpired)
              (Some (Rec.payer record))
              (if bool_decide (Rec.state record = Submitted) then Some hash else None))
  else
  let? _ := mark_submitted_if_prepared record in
  let* open := can_reconciliation_broadcast in
  if negb open then ret (Err (Corrupt "leadership lost before reconciliation broadcast"))
  else
  let? current_primary := fresh_signer_head in
  let? current_backup := map_err_proc (λ _, Corrupt "backup relayer state unavailable before rebroadcast")
                           (Chain.backup_signer_head (provider s)) in
  if negb (Chain.signer_nonce current_primary =? Chain.signer_nonce primary)
     || negb (Chain.signer_nonce current_backup =? Chain.signer_nonce backup)
  then and_err (set_relayer false) "relayer nonce changed before exact-byte rebroadcast"
  else
  let* outcome := Chain.rebroadcast (provider s) (Rec.id record) bytes hash (Rec.payer record)
                    (Rec.asset record) in
  conclude_rebroadcast record hash outcome.

Definition reconcile_prepared_near (record : Rec.SettlementRecord)
  : Proc World (Result unit StoreError) :=
  if negb (bool_decide (Rec.relayer_account_id record = Some (Chain.signer_account_id (provider s))))
     || negb (bool_decide (Rec.relayer_public_key record
                           = Some (Chain.provider_public_key (provider s))))
  then and_err (set_relayer false) "journaled relayer identity does not match configured relayer"
  else
  let? hash_text := ret (corrupt_or (Rec.outer_transaction_hash record)
                           "prepared row has no transaction hash") in
  let? hash := ret (corrupt_or (Near.hash_from_str hash_text)
                      "prepared row has invalid transaction hash") in
  let? bytes := ret (corrupt_or (Rec.outer_transaction_bytes record)
                       "prepared row has no transaction bytes") in
  let? signer := ret (corrupt_or (Rec.relayer_account_id record) "prepared row has no signer") in
  let? signer := ret (corrupt_or (Near.parse_account_id signer) "prepared row has invalid signer") in
  match validate_stored_transaction record bytes hash signer with
  | Err e => let* _ := set_relayer false in ret (Err e)
  | Ok _ =>
  let* status := Chain.reconcile_status (provider s) (Near.hash_to_string hash) signer
                   (Rec.payer record) (Rec.asset record) Chain.NearFinality in
  match Chain.verdict status with
  | Chain.VerdictConflict =>
      and_err (set_reconciliation false)
        "primary and backup RPCs returned conflicting final outcomes"
  | Chain.VerdictTerminal o => finalize_reconciled_terminal record o
  | Chain.VerdictIndeterminate _ => and_ok (set_reconciliation false)
  | Chain.VerdictPending => ret (Ok tt)
  | Chain.VerdictUnknown => recover_unknown_near record bytes (Near.hash_to_string hash)
  | Chain.VerdictAmbiguous =>
      and_err (set_reconciliation false) "RPC ambiguity prevented settlement reconciliation"
  end
  end.

Definition reconcile_prepared (record : Rec.SettlementRecord)
  : Proc World (Result unit StoreError) :=
  match provider s with
  | Chain.EvmProvider _ => reconcile_prepared_evm record
  | Chain.NearProvider _ => reconcile_prepared_near record
  end.

(** The first loop: reservations that never reached a signed transaction. *)
Fixpoint release_reserved (records : list Rec.SettlementRecord)
  : Proc World (Result unit StoreError) :=
  match records with
  | [] => ret (Ok tt)
  | record :: rest =>
      if bool_decide (Rec.state record = Reserved) then
        let? _ := note_reconciliation (Rec.id record) in
        let* _ := retryable_service_failure (Rec.id record) "recovered_before_prepare" in
        release_reserved rest
      else release_reserved rest
  end.

(** The second loop: signed rows in order, until one stays nonterminal. *)
Fixpoint resolve_signed (records : list Rec.SettlementRecord)
  : Proc World (Result unit StoreError) :=
  match records with
  | [] => ret (Ok tt)
  | record :: rest =>
      match Rec.state record with
      | Prepared | Submitted =>
          let? _ := note_reconciliation (Rec.id record) in
          let? _ := reconcile_prepared record in
          let? current := settlement (Rec.id record) in
          if is_some_and current (λ current, negb (is_terminal (Rec.state current)))
          then ret (Ok tt)
          else resolve_signed rest
      | AwaitingRetry =>
          let? _ := note_reconciliation (Rec.id record) in
          resolve_signed rest
      | Reserved | Succeeded | Failed => resolve_signed rest
      end
  end.

Definition reconcile : Proc World (Result unit StoreError) :=
  let* leader := gets (λ w, Readiness.s_leadership (Readiness.snapshot (gates w))) in
  if negb leader then ret (Err (Corrupt "reconciliation requires leadership"))
  else
  let* _ := set_reconciliation false in
  let? records := nonterminal_settlements in
  let? _ := release_reserved records in
  let? _ := resolve_signed records in
  let? remaining := nonterminal_settlements in
  let* _ := set_reconciliation (bool_decide (remaining = [])) in
  ret (Ok tt).

End engine.

End Service.
