(* ===== verification/Probe.v ===== *)
(** * Chain readiness

    Models the readiness refresh: the dual-reader probe of
    [crates/x402-chain-near/src/provider.rs], the observation and its failure classes of
    [crates/x402-near-facilitator/src/chain.rs], and [refresh_chain_readiness] with its
    failure tracker of [service.rs].  The four reads of a probe run in sequence, in the
    order in which they are written; logs and metrics are dropped, the reads that feed
    them are not. *)

From stdpp Require Import base gmap strings list numbers.
From Stdlib Require Import Lia NArith ZArith Ascii String.
From S2P Require Import Prelude Text Json Readiness Schema Sql Store Clients Receipt Near Config Auth.
From S2P Require Import Retry Evm Chain Service.

Open Scope string_scope.
Open Scope list_scope.
Open Scope N_scope.

Module Probe.
Import Store Clients Service.
Import Readiness(ReadinessFailureClass(..)).
#[local] Existing Instance Readiness.ReadinessFailureClass_eq_dec.

(** ** The NEAR readers *)

Inductive NearRpcReadinessFailure : Type :=
| NearPrimaryUnavailable
| NearBackupUnavailable
| NearBothUnavailable
| NearMismatch.

Definition near_failure_as_str (f : NearRpcReadinessFailure) : string :=
  match f with
  | NearPrimaryUnavailable => "primary_rpc_unavailable"
  | NearBackupUnavailable => "backup_rpc_unavailable"
  | NearBothUnavailable => "both_rpc_unavailable"
  | NearMismatch => "chain_id_mismatch"
  end.

Inductive NearReadinessOperation : Type :=
| Status
| FinalBlock.

Inductive NearReadinessDependencyError : Type :=
| DepTimeout
| DepRpcRequest
| DepInvalidResponse
| DepAccountNotFound
| DepAccessKeyNotFound
| DepMethodNotFound
| DepTransactionUnknown
| DepTransactionRejected
| DepTransactionTemporarilyRejected
| DepInvalidSignedTransaction.

Record NearReadinessEndpointError : Type := MkEndpointError {
  operation : NearReadinessOperation;
  error : NearReadinessDependencyError
}.

Definition classify_near_readiness_error (e : Near.NearRpcError) : NearReadinessDependencyError :=
  match e with
  | Near.AccountNotFound => DepAccountNotFound
  | Near.RpcAccessKeyNotFound => DepAccessKeyNotFound
  | Near.MethodNotFound => DepMethodNotFound
  | Near.TransactionUnknown => DepTransactionUnknown
  | Near.TransactionRejected => DepTransactionRejected
  | Near.TransactionTemporarilyRejected => DepTransactionTemporarilyRejected
  | Near.Timeout => DepTimeout
  | Near.InvalidResponse _ => DepInvalidResponse
  | Near.InvalidSignedTransaction => DepInvalidSignedTransaction
  | Near.Request _ => DepRpcRequest
  end.

Definition near_readiness_endpoint_error (op : NearReadinessOperation) (e : Near.NearRpcError)
  : NearReadinessEndpointError := MkEndpointError op (classify_near_readiness_error e).

(** Both reads complete before either is looked at. *)
Definition probe_rpc_readiness (r : Near.NearRpc)
  : Proc World (Result string NearReadinessEndpointError) :=
  let* network_id := consult (Near.rpc_network_id r) in
  let* final_block := consult (Near.final_block r) in
  ret (try network_id := map_err (near_readiness_endpoint_error Status) network_id in
       try _ := map_err (near_readiness_endpoint_error FinalBlock) final_block in
       Ok network_id).

Definition classify_rpc_readiness (expected : string)
  (primary backup : Result string NearReadinessEndpointError) : Result unit NearRpcReadinessFailure :=
  match primary, backup with
  | Err _, Err _ => Err NearBothUnavailable
  | Err _, Ok _ => Err NearPrimaryUnavailable
  | Ok _, Err _ => Err NearBackupUnavailable
  | Ok primary, Ok backup =>
      if String.eqb primary expected && String.eqb backup expected then Ok tt else Err NearMismatch
  end.

(** [NearNetwork::chain_id().reference] *)
Definition chain_reference (n : Near.NearNetwork) : string :=
  match n with Near.Mainnet => "mainnet" | Near.Testnet => "testnet" end.

Definition near_readiness_probe (p : Near.NearChainProvider)
  : Proc World (Result unit NearRpcReadinessFailure) :=
  let* primary := probe_rpc_readiness (Near.rpc p) in
  let* backup :=
    match Near.backup_rpc p with
    | Some rpc => probe_rpc_readiness rpc
    | None => ret (Err (near_readiness_endpoint_error Status Near.backup_not_configured))
    end in
  ret (classify_rpc_readiness (chain_reference (Near.provider_network p)) primary backup).

(** ** Failure classes *)

Definition as_str (f : ReadinessFailureClass) : string :=
  match f with
  | RpcUnavailable => "rpc_unavailable"
  | NearPrimaryRpcUnavailable | PrimaryRpcUnavailable => "primary_rpc_unavailable"
  | NearBackupRpcUnavailable | BackupRpcUnavailable => "backup_rpc_unavailable"
  | NearBothRpcUnavailable | BothRpcUnavailable => "both_rpc_unavailable"
  | NearChainIdMismatch | ChainIdMismatch => "chain_id_mismatch"
  | PendingNonceDisagreement => "pending_nonce_disagreement"
  | SignerHeadUnavailable => "signer_head_unavailable"
  | RelayerPolicyLookupFailed => "relayer_policy_lookup_failed"
  | RelayerPolicyInactive => "relayer_policy_inactive"
  | SignerBalanceHardStop => "signer_balance_hard_stop"
  end.

Definition component (f : ReadinessFailureClass) : string :=
  match f with
  | RpcUnavailable | NearPrimaryRpcUnavailable | NearBackupRpcUnavailable | NearBothRpcUnavailable
  | NearChainIdMismatch => "rpc"
  | PrimaryRpcUnavailable | BackupRpcUnavailable | BothRpcUnavailable | ChainIdMismatch
  | PendingNonceDisagreement => "head"
  | SignerHeadUnavailable => "signer_head"
  | RelayerPolicyLookupFailed | RelayerPolicyInactive => "relayer_policy"
  | SignerBalanceHardStop => "signer_balance"
  end.

Definition from_evm_failure (f : Evm.EvmHeadSnapshotFailure) : ReadinessFailureClass :=
  match f with
  | Evm.PrimaryRpcUnavailable => PrimaryRpcUnavailable
  | Evm.BackupRpcUnavailable => BackupRpcUnavailable
  | Evm.BothRpcUnavailable => BothRpcUnavailable
  | Evm.ChainIdMismatch => ChainIdMismatch
  | Evm.PendingNonceDisagreement => PendingNonceDisagreement
  end.

Definition from_near_failure (f : NearRpcReadinessFailure) : ReadinessFailureClass :=
  match f with
  | NearPrimaryUnavailable => NearPrimaryRpcUnavailable
  | NearBackupUnavailable => NearBackupRpcUnavailable
  | NearBothUnavailable => NearBothRpcUnavailable
  | NearMismatch => NearChainIdMismatch
  end.

(** [EvmHeadSnapshotFailure::as_str] *)
Definition evm_failure_as_str (f : Evm.EvmHeadSnapshotFailure) : string :=
  match f with
  | Evm.PrimaryRpcUnavailable => "primary_rpc_unavailable"
  | Evm.BackupRpcUnavailable => "backup_rpc_unavailable"
  | Evm.BothRpcUnavailable => "both_rpc_unavailable"
  | Evm.ChainIdMismatch => "chain_id_mismatch"
  | Evm.PendingNonceDisagreement => "pending_nonce_disagreement"
  end.

Record ChainReadinessObservation : Type := MkObservation {
  rpc_ready : bool;
  observed_head : Result Chain.SignerHead Chain.SignerHeadError;
  failure_class : option ReadinessFailureClass
}.

(** ** The refresh *)

Inductive RelayerPolicyReadiness : Type :=
| PolicyActive
| PolicyInactive
| PolicyLookupFailed.

Definition classify_readiness_failure (rpc_ready : bool)
  (observation_failure : option ReadinessFailureClass) (signer_ready : bool)
  (policy : RelayerPolicyReadiness) (signer_funded : bool) : option ReadinessFailureClass :=
  if negb rpc_ready then Some (default RpcUnavailable observation_failure)
  else if negb signer_ready then Some (default SignerHeadUnavailable observation_failure)
  else
  match policy with
  | PolicyLookupFailed => Some RelayerPolicyLookupFailed
  | PolicyInactive => Some RelayerPolicyInactive
  | PolicyActive => if negb signer_funded then Some SignerBalanceHardStop else None
  end.

Inductive ReadinessFailureTransition : Type :=
| Observed (f : ReadinessFailureClass)
| Cleared (f : ReadinessFailureClass).

(** [ReadinessFailureTracker::observe]: what is emitted, and what is remembered. *)
Definition observe_transition (previous current : option ReadinessFailureClass)
  : option ReadinessFailureTransition * option ReadinessFailureClass :=
  if bool_decide (previous = current) then (None, previous)
  else (match previous, current with
        | _, Some failure => Some (Observed failure)
        | Some failure, None => Some (Cleared failure)
        | None, None => None
        end, current).

Definition with_readiness_failure (f : option ReadinessFailureClass) (w : World) : World :=
  let p := process w in
  with_process (MkProcess (windows p) (free_slots p) (spawned p) f) w.

Definition observe (current : option ReadinessFailureClass)
  : Proc World (option ReadinessFailureTransition) :=
  let* previous := gets (λ w, readiness_failure (process w)) in
  let '(transition, remembered) := observe_transition previous current in
  let* _ := modify (with_readiness_failure remembered) in
  ret transition.

Definition set_rpc_gate (b : bool) : Proc World unit :=
  modify (λ w, with_gates (Readiness.set_rpc b (gates w)) w).

Section refresh.
Context `{Near.External} `{Evm.EvmExternal}.

Definition evm_readiness_probe (p : Evm.EvmChainProvider) : Proc World bool :=
  let* head := Evm.head p in ret (is_ok head).

(** [ChainProvider::readiness_probe] *)
Definition readiness_probe (p : Chain.ChainProvider) : Proc World bool :=
  match p with
  | Chain.NearProvider p => let* probe := near_readiness_probe p in ret (is_ok probe)
  | Chain.EvmProvider p => evm_readiness_probe p
  end.

Definition observe_evm_readiness (p : Evm.EvmChainProvider) : Proc World ChainReadinessObservation :=
  let* head := Evm.readiness_head p in
  ret (match head with
       | Ok head => MkObservation true (Ok (Chain.evm_head_to_signer_head head)) None
       | Err failure =>
           MkObservation false (Err (Chain.MkHeadError (evm_failure_as_str failure)))
             (Some (from_evm_failure failure))
       end).

Definition readiness_observation (p : Chain.ChainProvider) : Proc World ChainReadinessObservation :=
  match p with
  | Chain.NearProvider near =>
      let* probe := near_readiness_probe near in
      let rpc_failure := match probe with Ok _ => None | Err f => Some (from_near_failure f) end in
      let rpc_ready := bool_decide (rpc_failure = None) in
      let* head := Chain.signer_head p in
      ret (MkObservation rpc_ready head
             (if negb rpc_ready then rpc_failure
              else if negb (is_ok head) then Some SignerHeadUnavailable
              else None))
  | Chain.EvmProvider evm => observe_evm_readiness evm
  end.

Definition refresh_chain_readiness (s : AppState) : Proc World bool :=
  let* observation := readiness_observation (provider s) in
  let* _ := set_rpc_gate (rpc_ready observation) in
  let* active := relayer_is_active (network (config s)) (Chain.signer_account_id (provider s))
                   (Chain.provider_public_key (provider s)) in
  let policy := match active with
                | Ok true => PolicyActive
                | Ok false => PolicyInactive
                | Err _ => PolicyLookupFailed
                end in
  let policy_active := match policy with PolicyActive => true | _ => false end in
  let signer_ready := is_ok (observed_head observation) in
  let signer_funded :=
    match observed_head observation with
    | Ok head => signer_is_funded (config s) (Chain.signer_balance_atomic head)
    | Err _ => false
    end in
  let relayer_ready := signer_ready && signer_funded && policy_active in
  let* _ := Service.set_relayer relayer_ready in
  let failure := classify_readiness_failure (rpc_ready observation) (failure_class observation)
                   signer_ready policy signer_funded in
  let* _ := observe failure in
  let* _ := journal_summary in
  let* _ := global_sponsorship_usage_today in
  ret (rpc_ready observation && relayer_ready).

End refresh.

End Probe.
