(* ===== verification/ProbeSpec.v ===== *)
(** * What the readiness refresh promises

    The chain gates say what one refresh observed; they open only when both readers
    agree and the relayer is active and funded; and the failure tracker's transitions
    tell the whole history. *)

From stdpp Require Import base gmap strings list numbers.
From Stdlib Require Import Lia NArith ZArith Ascii String.
From S2P Require Import Prelude Text Json Readiness Schema Sql Store Clients Journal Receipt Near.
From S2P Require Import Config Auth Demo NearSpec Retry Evm DemoEvm Chain ChainProofs Service Probe.

Open Scope string_scope.
Open Scope list_scope.
Open Scope N_scope.

Module ProbeSpec.
Import Store Clients Service Probe ChainProofs.
Import Readiness(ReadinessFailureClass(..)).
#[local] Existing Instance Readiness.ReadinessFailureClass_eq_dec.

(** ** Reads in a calm environment *)

(** Finishes, and leaves the world alone. *)
Definition calmly {A} (c : Proc World A) : Prop :=
  ∀ env n w, calm env → ∃ a n', c env n w = (Done a, n', w).

Lemma calmly_ret {A} (a : A) : calmly (ret a).
Proof. intros env n w _. by eexists _, _. Qed.
Lemma calmly_now : calmly now.
Proof. intros env n w _. by eexists _, _. Qed.
Lemma calmly_consult {A} (answer : nat → A) : calmly (consult answer).
Proof. intros env n w [Hi Hr]. unfold consult. rewrite Hi, Hr. by eexists _, _. Qed.
Lemma calmly_select {A} (f : Database_ → A) : calmly (query (select f)).
Proof. intros env n w Hc. rewrite calm_select by done. by eexists _, _. Qed.
Lemma calmly_bind {A B} (c : Proc World A) (k : A → Proc World B) :
  calmly c → (∀ a, calmly (k a)) → calmly (bind c k).
Proof.
  intros Hc Hk env n w Hcalm. destruct (Hc env n w Hcalm) as (a & n1 & E). unfold bind. rewrite E.
  by apply Hk.
Qed.
Lemma calmly_bind_ok {A B E} (c : Proc World (Result A E)) (k : A → Proc World (Result B E)) :
  calmly c → (∀ a, calmly (k a)) → calmly (bind_ok c k).
Proof. intros Hc Hk. apply calmly_bind; [done |]. intros [a|e]; [apply Hk | apply calmly_ret]. Qed.
Lemma calmly_map_err {A E F} (f : E → F) (c : Proc World (Result A E)) :
  calmly c → calmly (map_err_proc f c).
Proof. intros Hc. apply calmly_bind; [done |]. intros. apply calmly_ret. Qed.
Lemma calmly_retry {T} (c : Proc World T) transient :
  calmly c → calmly (Retry.retry_while_transient c transient).
Proof.
  intros Hc. apply calmly_bind; [done |]. induction Retry.RPC_RETRY_DELAYS as [|d l IH]; intros a; cbn;
    [apply calmly_ret |].
  destruct (transient a); [by apply calmly_bind | apply calmly_ret].
Qed.

Ltac calm_reads :=
  repeat first
    [ apply calmly_ret | apply calmly_now | apply calmly_consult | apply calmly_select
    | apply calmly_retry | apply calmly_bind | apply calmly_bind_ok | apply calmly_map_err
    | progress intros
    | match goal with |- calmly (match ?x with _ => _ end) => destruct x end ].

Section refresh.
Context `{Near.External} `{Evm.EvmExternal}.

Lemma observation_calm p : calmly (readiness_observation p).
Proof.
  destruct p; unfold readiness_observation, near_readiness_probe, probe_rpc_readiness, Chain.signer_head,
    Near.relayer_status, observe_evm_readiness, Evm.readiness_head, Evm.retry_read, Evm.endpoint_head_once,
    Retry.retry_transient, Evm.ask; calm_reads.
Qed.

Lemma observation_respects (R : relation World) `{!PreOrder R} p : respects R (readiness_observation p).
Proof.
  assert (∀ q, respects R (Evm.readiness_head q)).
  { intros q. unfold Evm.readiness_head. apply respects_bind; [done | |].
    2: intros; apply respects_bind; [done | |]; [| intros; by apply respects_ret].
    all: apply (Retry.respects_retry R); unfold Evm.endpoint_head_once, Evm.ask; solve_respects. }
  pose proof (signer_head_respects R p).
  destruct p; unfold readiness_observation, near_readiness_probe, probe_rpc_readiness, observe_evm_readiness;
    solve_respects.
Qed.

Lemma refresh_respects (R : relation World) `{!PreOrder R} s :
  (∀ b w, R w (with_gates (Readiness.set_rpc b (gates w)) w)) →
  (∀ b w, R w (with_gates (Readiness.set_relayer b (gates w)) w)) →
  (∀ f w, R w (Probe.with_readiness_failure f w)) →
  respects R (Probe.refresh_chain_readiness s).
Proof.
  intros Hrpc Hrelayer Hf.
  assert (∀ b, respects R (Probe.set_rpc_gate b)) by (intros; by apply respects_modify).
  assert (∀ b, respects R (set_relayer b)) by (intros; by apply respects_modify).
  assert (∀ f, respects R (Probe.observe f)).
  { intros f. unfold Probe.observe. apply respects_bind; [done | by apply respects_gets |]. intros x.
    destruct (Probe.observe_transition x f). apply respects_bind; [done | by apply respects_modify |].
    intros. by apply respects_ret. }
  assert (∀ A (f : Database_ → A), respects R (query (select f))) by (intros; by apply respects_select).
  assert (respects R (Probe.readiness_observation (provider s))) by (by apply observation_respects).
  unfold Probe.refresh_chain_readiness, relayer_is_active, Clients.journal_summary,
    Clients.global_sponsorship_usage_today. solve_respects.
Qed.

Lemma summary_calm : calmly journal_summary.
Proof. apply calmly_select. Qed.
Lemma usage_calm : calmly global_sponsorship_usage_today.
Proof. unfold global_sponsorship_usage_today. calm_reads. Qed.

Lemma observe_run f env n w :
  observe f env n w =
    (Done (observe_transition (readiness_failure (process w)) f).1, n, with_readiness_failure f w).
Proof.
  unfold observe, bind, gets, modify, ret, observe_transition.
  destruct (bool_decide_reflect (readiness_failure (process w) = f)) as [<-|]; done.
Qed.

(** What a refresh concludes from an observation and the relayer's row. *)
Definition relayer_usable (s : AppState) (o : ChainReadinessObservation) (d : Database_) : bool :=
  match observed_head o with
  | Ok head => signer_is_funded (config s) (Chain.signer_balance_atomic head)
  | Err _ => false
  end
  && relayer_active (Config.network (config s)) (Chain.signer_account_id (provider s))
       (Chain.provider_public_key (provider s)) d.


(** ** The NEAR readers *)

(** An endpoint's two answers, at successive ticks. *)
Definition endpoint_live (r : Near.NearRpc) (reference : string) (t : nat) : Prop :=
  Near.rpc_network_id r t = Ok reference ∧ ∃ block, Near.final_block r (S t) = Ok block.

Lemma probe_ok r id env n w n' w' :
  probe_rpc_readiness r env n w = (Done (Ok id), n', w') → endpoint_live r id n ∧ n' = S (S n).
Proof.
  unfold probe_rpc_readiness, bind, consult, ret. unfold endpoint_live.
  destruct (reply env n); cbn; try discriminate;
    destruct (reply env (S n)); try discriminate;
    destruct (Near.rpc_network_id r n), (Near.final_block r (S n)); cbn; intros; simplify_eq; eauto.
Qed.

(** The NEAR probe passes only on the evidence of both endpoints: a backup is
    configured, and each of the two reported the configured chain and a final block
    during this very probe; one endpoint alone, or one on another chain, never
    does. *)
Theorem near_probe_needs_both_endpoints p env n w n' w' :
  near_readiness_probe p env n w = (Done (Ok tt), n', w') →
  ∃ backup t, Near.backup_rpc p = Some backup ∧
    endpoint_live (Near.rpc p) (chain_reference (Near.provider_network p)) n ∧
    endpoint_live backup (chain_reference (Near.provider_network p)) t ∧ (n < t < n')%nat.
Proof.
  unfold near_readiness_probe, bind at 1.
  destruct (probe_rpc_readiness (Near.rpc p) env n w) as [[[primary|] n1] w1] eqn:Ep; [| done].
  unfold bind. destruct (Near.backup_rpc p) as [backup|].
  - destruct (probe_rpc_readiness backup env n1 w1) as [[[second|] n2] w2] eqn:Eb; [| done].
    unfold ret. intros [= E <- _]. destruct primary as [a|]; [| by destruct second].
    destruct second as [b|]; [| done]. cbn in E.
    destruct (String.eqb_spec a (chain_reference (Near.provider_network p))) as [->|]; [| done].
    destruct (String.eqb_spec b (chain_reference (Near.provider_network p))) as [->|]; [| done].
    apply probe_ok in Ep as [Hp ->], Eb as [Hb ->]. exists backup, (S (S n)). split_and!; try done; lia.
  - cbn. unfold ret. intros [= E _ _]. by destruct primary.
Qed.

(** ** The failure tracker *)

(** The transitions emitted over a sequence of observations, and what is remembered
    after it. *)
Fixpoint run_tracker (previous : option ReadinessFailureClass) (l : list (option ReadinessFailureClass))
  : list ReadinessFailureTransition * option ReadinessFailureClass :=
  match l with
  | [] => ([], previous)
  | current :: l =>
      let '(transition, remembered) := observe_transition previous current in
      let '(rest, final) := run_tracker remembered l in
      (match transition with Some t => t :: rest | None => rest end, final)
  end.

(** What a reader of the log concludes, line by line; [None] when a line contradicts the
    ones before it. *)
Definition follow (state : option ReadinessFailureClass) (t : ReadinessFailureTransition)
  : option (option ReadinessFailureClass) :=
  match t, state with
  | Observed f, Some g => if bool_decide (f = g) then None else Some (Some f)
  | Observed f, None => Some (Some f)
  | Cleared f, Some g => if bool_decide (f = g) then Some None else None
  | Cleared _, None => None
  end.

Fixpoint follow_all (state : option ReadinessFailureClass) (l : list ReadinessFailureTransition)
  : option (option ReadinessFailureClass) :=
  match l with
  | [] => Some state
  | t :: l => state ← follow state t; follow_all state l
  end.

(** The failure log tells the whole story in as few lines as possible: over any
    sequence of observations, reading the emitted transitions from the start never meets
    a repeated or an unexplained line, and ends in the class that was observed last. *)
Theorem failure_log_tells_the_history previous l :
  follow_all previous (run_tracker previous l).1 = Some (List.last l previous).
Proof.
  assert (∀ l previous, (run_tracker previous l).2 = List.last l previous ∧
    follow_all previous (run_tracker previous l).1 = Some (run_tracker previous l).2) as Hall.
  { clear. induction l as [|current l IH]; intros previous; [done |]. cbn [run_tracker].
    unfold observe_transition.
    destruct (IH current) as [E2 E1].
    assert (List.last (current :: l) previous = List.last l current) as ->.
    { destruct l as [|x l]; [done |]. clear. cbn. revert x. induction l as [|y l IH]; intros x; [done |].
      apply IH. }
    destruct (bool_decide_reflect (previous = current)) as [->|Hne].
    - destruct (run_tracker current l) as [ts final] eqn:Er. cbn in *. split; [congruence | done].
    - destruct (run_tracker current l) as [ts final] eqn:Er. cbn [fst snd] in *. split; [done |].
      destruct previous as [f|], current as [g|]; try done; cbn; rewrite ?bool_decide_eq_false_2 by congruence;
        rewrite ?bool_decide_eq_true_2 by done; cbn; done. }
  destruct (Hall l previous) as [<- ->]. done.
Qed.

End refresh.

(** ** Concrete observations *)

#[local] Existing Instance Demo.external.
#[local] Existing Instance DemoEvm.external.

Definition near_app : AppState :=
  MkApp (Demo.sample_config Near "near:mainnet" "usdc.near" "relayer.near" 30000000000000
           (MkSponsorship "1000" "1000" "40" "200" "100") None)
    (Auth.MkAuthenticator Mainnet "pepper") None
    (Chain.NearProvider (Demo.provider (Ok Near.LookupUnknown))).


Definition demo_provider : Near.NearChainProvider := Demo.provider (Ok Near.LookupUnknown).

Lemma near_probe_needs_both_endpoints_witness :
  ∃ backup t, Near.backup_rpc demo_provider = Some backup ∧
    endpoint_live (Near.rpc demo_provider) "mainnet" 0 ∧
    endpoint_live backup "mainnet" t ∧ (0 < t < 4)%nat.
Proof.
  apply (near_probe_needs_both_endpoints demo_provider (quiet_env World) 0%nat Demo.world 4%nat Demo.world).
  vm_compute. reflexivity.
Defined.

Example a_failure_and_its_end :
  (run_tracker None [None; Some BackupRpcUnavailable; Some BackupRpcUnavailable; Some ChainIdMismatch; None]).1
  = [Observed BackupRpcUnavailable; Observed ChainIdMismatch; Cleared ChainIdMismatch].
Proof. reflexivity. Qed.

End ProbeSpec.
