(* ===== verification/Diagnostics.v ===== *)
(** * Readiness diagnostics

    Models what the two providers report when a reader fails a readiness probe:
    [readiness_head] with [readiness_endpoint_head_once], the classification of transport
    errors and [merge_head_snapshot_with_diagnostics] of
    [crates/x402-chain-eip155-provider/src/provider.rs], and the NEAR log line of
    [crates/x402-chain-near/src/provider.rs].  [Evm.readiness_head] sees of a reader only
    whether it answered; here a reader also says why not, in the transport's terms, and
    the lines logged are part of the result. *)

From stdpp Require Import base gmap strings list numbers.
From Stdlib Require Import Lia NArith ZArith Ascii String.
From S2P Require Import Prelude Text Json Readiness Schema Receipt Near Retry Evm DemoEvm Chain Service Probe.

Open Scope string_scope.
Open Scope list_scope.
Open Scope N_scope.

Module Diagnostics.
Import Evm.

(** ** The transport's errors

    [alloy]'s [RpcError] and [TransportErrorKind], with the text each may carry. *)

Inductive TransportErrorKind : Type :=
| HttpError (status : N) (body : string)
| MissingBatch (id : string)
| BackendGoneError
| PubsubUnavailableError
| CustomError (text : string)
| NonRetryableError (text : string)
| UnknownKind (text : string).

Inductive TransportError : Type :=
| ErrorResp (code : Z) (text : string)
| NullResp
| UnsupportedFeatureError (text : string)
| LocalUsageError (text : string)
| SerError (text : string)
| DeserError (text : string)
| TransportFailure (kind : TransportErrorKind).

(** ** What is reported *)

Inductive EvmReadinessReader : Type :=
| PrimaryReader
| BackupReader.

Definition reader_as_str (r : EvmReadinessReader) : string :=
  match r with PrimaryReader => "primary" | BackupReader => "backup" end.

Inductive EvmReadinessOperation : Type :=
| ChainIdCall
| BlockNumberCall
| PendingNonceCall
| GasBalanceCall.

Definition operation_as_str (o : EvmReadinessOperation) : string :=
  match o with
  | ChainIdCall => "eth_chainId"
  | BlockNumberCall => "eth_blockNumber"
  | PendingNonceCall => "eth_getTransactionCount_pending"
  | GasBalanceCall => "eth_getBalance"
  end.

Inductive EvmReadinessDependencyError : Type :=
| JsonRpcError
| NullResponse
| UnsupportedFeature
| LocalUsage
| Serialization
| Deserialization
| HttpRateLimited
| HttpTemporarilyUnavailable
| HttpClientError
| HttpServerError
| HttpStatus
| MissingBatchResponse
| BackendGone
| PubsubUnavailable
| CustomTransport
| NonRetryableTransport
| Transport.

Definition dependency_as_str (e : EvmReadinessDependencyError) : string :=
  match e with
  | JsonRpcError => "json_rpc_error"
  | NullResponse => "null_response"
  | UnsupportedFeature => "unsupported_feature"
  | LocalUsage => "local_usage"
  | Serialization => "serialization"
  | Deserialization => "deserialization"
  | HttpRateLimited => "http_rate_limited"
  | HttpTemporarilyUnavailable => "http_temporarily_unavailable"
  | HttpClientError => "http_client_error"
  | HttpServerError => "http_server_error"
  | HttpStatus => "http_status"
  | MissingBatchResponse => "missing_batch_response"
  | BackendGone => "backend_gone"
  | PubsubUnavailable => "pubsub_unavailable"
  | CustomTransport => "custom_transport"
  | NonRetryableTransport => "non_retryable_transport"
  | Transport => "transport"
  end.

Record EvmReadinessEndpointError : Type := MkEndpointError {
  operation : EvmReadinessOperation;
  error : EvmReadinessDependencyError;
  http_status : option N;
  json_rpc_code : option Z
}.

Definition classify_transport_kind (kind : TransportErrorKind)
  : EvmReadinessDependencyError * option N * option Z :=
  match kind with
  | HttpError status _ =>
      let classified :=
        if status =? 429 then HttpRateLimited
        else if status =? 503 then HttpTemporarilyUnavailable
        else if (400 <=? status) && (status <=? 499) then HttpClientError
        else if (500 <=? status) && (status <=? 599) then HttpServerError
        else HttpStatus in
      (classified, Some status, None)
  | MissingBatch _ => (MissingBatchResponse, None, None)
  | BackendGoneError => (BackendGone, None, None)
  | PubsubUnavailableError => (PubsubUnavailable, None, None)
  | CustomError _ => (CustomTransport, None, None)
  | NonRetryableError _ => (NonRetryableTransport, None, None)
  | UnknownKind _ => (Transport, None, None)
  end.

Definition classify_transport_error (e : TransportError)
  : EvmReadinessDependencyError * option N * option Z :=
  match e with
  | ErrorResp code _ => (JsonRpcError, None, Some code)
  | NullResp => (NullResponse, None, None)
  | UnsupportedFeatureError _ => (UnsupportedFeature, None, None)
  | LocalUsageError _ => (LocalUsage, None, None)
  | SerError _ => (Serialization, None, None)
  | DeserError _ => (Deserialization, None, None)
  | TransportFailure kind => classify_transport_kind kind
  end.

Definition evm_readiness_endpoint_error (operation : EvmReadinessOperation) (e : TransportError)
  : EvmReadinessEndpointError :=
  let '(error, http_status, json_rpc_code) := classify_transport_error e in
  MkEndpointError operation error http_status json_rpc_code.

(** One [chain_readiness_dependency_failure] line. *)
Record LogLine : Type := MkLine {
  chain_family : string;
  component : string;
  line_reader : string;
  line_operation : string;
  line_error : string;
  line_status : N;
  line_code : Z
}.

Definition log_evm_readiness_dependency_failure (reader : EvmReadinessReader)
  (failure : EvmReadinessEndpointError) : LogLine :=
  MkLine "eip155" "head" (reader_as_str reader) (operation_as_str (operation failure))
    (dependency_as_str (error failure)) (default 0 (http_status failure))
    (default 0%Z (json_rpc_code failure)).

Definition merge_head_snapshot_with_diagnostics (expected_chain_id : N) (signer : string)
  (primary backup : Result EndpointHead EvmReadinessEndpointError)
  : Result EvmHead EvmHeadSnapshotFailure * list LogLine :=
  (merge_head_snapshot expected_chain_id signer (map_err (λ _, Rpc) primary) (map_err (λ _, Rpc) backup),
   match primary, backup with
   | Err p, Err b => [log_evm_readiness_dependency_failure PrimaryReader p;
                      log_evm_readiness_dependency_failure BackupReader b]
   | Err p, Ok _ => [log_evm_readiness_dependency_failure PrimaryReader p]
   | Ok _, Err b => [log_evm_readiness_dependency_failure BackupReader b]
   | Ok _, Ok _ => []
   end).

(** ** Readers that say why *)

Record DynProvider : Type := MkDyn {
  dyn_chain_id : nat → Result N TransportError;
  dyn_block_number : nat → Result N TransportError;
  dyn_pending_count : nat → string → Result N TransportError;
  dyn_balance : nat → string → Result N TransportError
}.

Definition ask_dyn (operation : EvmReadinessOperation) (f : nat → Result N TransportError)
  : Proc World (Result N EvmReadinessEndpointError) :=
  consult (λ n, map_err (evm_readiness_endpoint_error operation) (f n)).

Definition readiness_endpoint_head_once (p : EvmChainProvider) (r : DynProvider)
  : Proc World (Result EndpointHead EvmReadinessEndpointError) :=
  let address := provider_signer_address p in
  let? chain_id := ask_dyn ChainIdCall (dyn_chain_id r) in
  let? block_number := ask_dyn BlockNumberCall (dyn_block_number r) in
  let? pending := ask_dyn PendingNonceCall (λ n, dyn_pending_count r n address) in
  let? balance := ask_dyn GasBalanceCall (λ n, dyn_balance r n address) in
  ret (Ok (MkEndpointHead chain_id block_number pending (default u128_max (try_from u128_max balance)))).

Definition readiness_head (p : EvmChainProvider) (primary backup : DynProvider)
  : Proc World (Result EvmHead EvmHeadSnapshotFailure * list LogLine) :=
  let* primary := Retry.retry_transient (readiness_endpoint_head_once p primary) (λ _, true) in
  let* backup := Retry.retry_transient (readiness_endpoint_head_once p backup) (λ _, true) in
  ret (merge_head_snapshot_with_diagnostics (chain_id p) (provider_signer_address p) primary backup).

(** ** NEAR *)

Definition near_operation_as_str (o : Probe.NearReadinessOperation) : string :=
  match o with Probe.Status => "status" | Probe.FinalBlock => "block_final" end.

Definition near_dependency_as_str (e : Probe.NearReadinessDependencyError) : string :=
  match e with
  | Probe.DepTimeout => "timeout"
  | Probe.DepRpcRequest => "rpc_request"
  | Probe.DepInvalidResponse => "invalid_response"
  | Probe.DepAccountNotFound => "account_not_found"
  | Probe.DepAccessKeyNotFound => "access_key_not_found"
  | Probe.DepMethodNotFound => "method_not_found"
  | Probe.DepTransactionUnknown => "transaction_unknown"
  | Probe.DepTransactionRejected => "transaction_rejected"
  | Probe.DepTransactionTemporarilyRejected => "transaction_temporarily_rejected"
  | Probe.DepInvalidSignedTransaction => "invalid_signed_transaction"
  end.

(** The line has no status and no code. *)
Definition log_near_readiness_dependency_failure (reader : EvmReadinessReader)
  (failure : Probe.NearReadinessEndpointError) : LogLine :=
  MkLine "near" "rpc" (reader_as_str reader) (near_operation_as_str (Probe.operation failure))
    (near_dependency_as_str (Probe.error failure)) 0 0%Z.

(** ** Diagnostics change nothing *)

(** The reader as the settlement path sees it. *)
Definition answers (r : EvmReader) (d : DynProvider) : Prop :=
  (∀ n, get_chain_id r n = ok (dyn_chain_id d n)) ∧
  (∀ n, get_block_number r n = ok (dyn_block_number d n)) ∧
  (∀ n a, get_pending_count r n a = ok (dyn_pending_count d n a)) ∧
  (∀ n a, get_balance r n a = ok (dyn_balance d n a)).

(** An error without the text it came with. *)
Definition scrub_kind (kind : TransportErrorKind) : TransportErrorKind :=
  match kind with
  | HttpError status _ => HttpError status EmptyString
  | MissingBatch _ => MissingBatch EmptyString
  | CustomError _ => CustomError EmptyString
  | NonRetryableError _ => NonRetryableError EmptyString
  | UnknownKind _ => UnknownKind EmptyString
  | kind => kind
  end.

Definition scrub_error (e : TransportError) : TransportError :=
  match e with
  | ErrorResp code _ => ErrorResp code EmptyString
  | NullResp => NullResp
  | UnsupportedFeatureError _ => UnsupportedFeatureError EmptyString
  | LocalUsageError _ => LocalUsageError EmptyString
  | SerError _ => SerError EmptyString
  | DeserError _ => DeserError EmptyString
  | TransportFailure kind => TransportFailure (scrub_kind kind)
  end.

Definition scrub (d : DynProvider) : DynProvider :=
  MkDyn (λ n, map_err scrub_error (dyn_chain_id d n)) (λ n, map_err scrub_error (dyn_block_number d n))
    (λ n a, map_err scrub_error (dyn_pending_count d n a)) (λ n a, map_err scrub_error (dyn_balance d n a)).

Lemma scrub_classified operation e :
  evm_readiness_endpoint_error operation (scrub_error e) = evm_readiness_endpoint_error operation e.
Proof. by destruct e as [| | | | | | []]. Qed.

Lemma ask_scrubbed operation f g :
  (∀ n, g n = map_err scrub_error (f n)) → related eq (ask_dyn operation g) (ask_dyn operation f).
Proof.
  intros Hg. apply related_consult. intros n. rewrite Hg. destruct (f n); [done |]. cbn.
  by rewrite scrub_classified.
Qed.

Lemma ask_erased operation f g :
  (∀ n, g n = ok (f n)) → related same_ok (ask g) (ask_dyn operation f).
Proof. intros Hg. apply related_consult. intros n. rewrite Hg. by destruct (f n). Qed.

Section heads.
Context (p : EvmChainProvider).

Lemma once_erased r d :
  answers r d → related same_ok (endpoint_head_once p r) (readiness_endpoint_head_once p d).
Proof.
  intros (Hc & Hb & Hn & Hg). unfold endpoint_head_once, readiness_endpoint_head_once.
  repeat (apply related_bind_ok; [by apply ask_erased | intros ?]). by apply related_ret.
Qed.

Lemma once_scrubbed d :
  related eq (readiness_endpoint_head_once p (scrub d)) (readiness_endpoint_head_once p d).
Proof.
  unfold readiness_endpoint_head_once, bind_ok.
  repeat (apply (related_bind eq); [by apply ask_scrubbed | intros r ? <-; destruct r; [| by apply related_ret]]).
  by apply related_ret.
Qed.

Lemma retried_erased r d :
  answers r d →
  related same_ok (retry_read (endpoint_head_once p r))
    (Retry.retry_transient (readiness_endpoint_head_once p d) (λ _, true)).
Proof. intros Ha. apply Retry.related_retry; [by apply once_erased |]. by intros [|] []. Qed.

(** The diagnosed probe decides what the plain one decides.  Over readers that answer
    alike, [readiness_head] takes the same steps and returns the same head or the same
    failure class as the fail-closed head the settlement path uses; it reports a line for
    exactly the readers that failed; and all it returns and reports stays the same when
    every error loses the text it came with, so no word of a provider's response can
    appear in a log line. *)
Theorem diagnostics_change_nothing primary backup :
  answers (primary_reader p) primary → answers (backup_reader p) backup →
  related (λ plain diagnosed, plain = diagnosed.1 ∧
      (is_ok plain = true → diagnosed.2 = []) ∧
      (map line_reader diagnosed.2 =
        match plain with
        | Err PrimaryRpcUnavailable => ["primary"]
        | Err BackupRpcUnavailable => ["backup"]
        | Err BothRpcUnavailable => ["primary"; "backup"]
        | _ => []
        end))
    (Evm.readiness_head p) (readiness_head p primary backup) ∧
  ∀ env n w, readiness_head p (scrub primary) (scrub backup) env n w = readiness_head p primary backup env n w.
Proof.
  intros Hp Hb. split.
  - apply (related_bind same_ok); [by apply retried_erased |]. intros a a' Ha.
    apply (related_bind same_ok); [by apply retried_erased |]. intros b b' Hb'. apply related_ret.
    destruct a, a'; try done; destruct b, b'; try done; unfold same_ok in *; cbn in *; simplify_eq; try done.
    unfold merge_head_values. by repeat case_match.
  - apply related_eq. apply (related_bind eq); [| intros a ? <-; apply (related_bind eq)].
    1, 2: apply Retry.related_retry; [apply once_scrubbed | by intros ? ? ->].
    intros b ? <-. by apply related_ret.
Qed.

End heads.

(** ** A backup that is rate limited *)

Definition healthy (height : N) : DynProvider :=
  MkDyn (λ _, Ok 8453) (λ _, Ok height) (λ _ _, Ok 7) (λ _ _, Ok 1000000).

Definition limited : DynProvider :=
  MkDyn (λ _, Ok 8453) (λ _, Err (TransportFailure (HttpError 429 "account 1234 over quota")))
    (λ _ _, Ok 7) (λ _ _, Ok 1000000).

Definition limited_reader : EvmReader :=
  MkReader (λ _, Some 8453) (λ _, None) (λ _ _, Some 7) (λ _ _, Some 1000000) (λ _, None) (λ _ _, None)
    (λ _ _, None) (λ _ _, None) (λ _ _, false).

Definition limited_provider : EvmChainProvider :=
  MkEvmProvider (DemoEvm.reader 110) (λ _ _, Ok (Valid "payer")) (DemoEvm.reader 110) limited_reader
    DemoEvm.signer 8453 "usdc" 6 100 50 "USD Coin".

Example limited_reported :
  (readiness_head limited_provider (healthy 110) limited (quiet_env World) 0%nat DemoEvm.world).1.1
  = Done (Err BackupRpcUnavailable,
          [MkLine "eip155" "head" "backup" "eth_blockNumber" "http_rate_limited" 429 0]).
Proof. vm_compute. reflexivity. Qed.

Lemma diagnostics_change_nothing_witness :
  (Evm.readiness_head limited_provider (quiet_env World) 0%nat DemoEvm.world).1.1
    = Done (Err BackupRpcUnavailable).
Proof.
  destruct (diagnostics_change_nothing limited_provider (healthy 110) limited) as [Hr _];
    [by split_and! | by split_and! |].
  specialize (Hr (quiet_env World) 0%nat DemoEvm.world). pose proof limited_reported as Hl.
  destruct (readiness_head _ _ _ _ _ _) as [[[d|] n2] w2]; [| discriminate Hl].
  destruct (Evm.readiness_head _ _ _ _) as [[[q|] n1] w1]; [| contradiction].
  cbn in Hl |- *. injection Hl as ->. destruct Hr as [[-> _] _]. reflexivity.
Defined.

End Diagnostics.
