(* ===== verification/Http.v ===== *)
(** * The HTTP layer

    Models the request handlers of [crates/x402-near-facilitator/src/service.rs]:
    [/verify], [/settle] and [/readyz], from authentication and rate limiting through
    parsing, static policy, replay of earlier answers, verification and the durable
    claim, to the response.  A spawned task is recorded in the process state; running
    it is a task of its own.  Metrics are dropped.  Routing, request identifiers and
    tracing are the web framework's. *)

From stdpp Require Import base gmap strings list numbers.
From Stdlib Require Import Lia NArith ZArith Ascii String.
From S2P Require Import Prelude Text Json Readiness Schema RateLimit Sql Store Clients Receipt.
From S2P Require Import Protocol Canonical Near Scheme Config Auth Retry Evm Chain Service.

Open Scope string_scope.
Open Scope list_scope.
Open Scope N_scope.

Module Http.
Import Store Clients Service.

(** ** Responses *)

Record Response : Type := MkResponse {
  status : N;
  content_type : option string;
  retry_after : option string;
  body : string
}.

Definition OK : N := 200.
Definition BAD_REQUEST : N := 400.
Definition UNAUTHORIZED : N := 401.
Definition CONFLICT : N := 409.
Definition PAYLOAD_TOO_LARGE : N := 413.
Definition UNSUPPORTED_MEDIA_TYPE : N := 415.
Definition TOO_MANY_REQUESTS : N := 429.
Definition SERVICE_UNAVAILABLE : N := 503.

(** [StatusCode::from_u16]: three digits. *)
Definition status_from_u16 (n : N) : option N :=
  if (100 <=? n) && (n <? 1000) then Some n else None.

Definition RETRY_SECONDS : string := "1".

(** [{"error":{"code":..,"message":..}}] *)
Definition service_error_bytes (code message : string) : string :=
  String "{"%char (member "error"
    (String "{"%char (member "code" (Canonical.json_string code) +:+ ","
       +:+ member "message" (Canonical.json_string message) +:+ "}")) +:+ "}").

Record ApiError : Type := MkApiError {
  api_status : N;
  code : string;
  message : string;
  retry : bool
}.

Definition api_error (status : N) (code message : string) : ApiError :=
  MkApiError status code message false.
Definition unavailable (code message : string) : ApiError :=
  MkApiError SERVICE_UNAVAILABLE code message true.
Definition rate_limited (code message : string) : ApiError :=
  MkApiError TOO_MANY_REQUESTS code message true.

Definition into_response (e : ApiError) : Response :=
  MkResponse (api_status e) (Some "application/json")
    (if retry e then Some RETRY_SECONDS else None) (service_error_bytes (code e) (message e)).

Definition raw_json (status : N) (bytes : string) : Response :=
  MkResponse status (Some "application/json") None bytes.

(** protocol.rs [VerifyResponse] and its derived [Serialize] *)
Record VerifyResponse : Type := MkVerifyResponse {
  is_valid : bool;
  invalid_reason : option string;
  invalid_message : option string;
  verify_payer : option string
}.

Definition valid (payer : string) : VerifyResponse := MkVerifyResponse true None None (Some payer).
Definition invalid (reason : string) (message payer : option string) : VerifyResponse :=
  MkVerifyResponse false (Some reason) message payer.

Definition verify_response_to_vec (r : VerifyResponse) : string :=
  String "{"%char
    (Canonical.join
       ([member "isValid" (if is_valid r then "true" else "false")]
          ++ optional_member "invalidReason" (invalid_reason r)
          ++ optional_member "invalidMessage" (invalid_message r)
          ++ optional_member "payer" (verify_payer r))
     +:+ "}").

(** [protocol_json] on the two protocol bodies, whose serialization does not fail. *)
Definition settle_json (r : SettleResponse) : Response := raw_json OK (settle_response_to_vec r).
Definition verify_json (r : VerifyResponse) : Response := raw_json OK (verify_response_to_vec r).

(** [SettleResponse::failure(reason, None, payer, "", network)] as a response. *)
Definition refusal (s : AppState) (reason : string) (payer : option string) : Response :=
  settle_json (response_failure reason None payer "" (network (config s))).

Definition database_unavailable : Response :=
  into_response (unavailable "database_unavailable" "settlement journal is temporarily unavailable").
Definition settlement_pending : Response :=
  into_response (unavailable "settlement_pending"
    "settlement is still pending; retry with the same payment identifier").
Definition settlement_busy : Response :=
  into_response (unavailable "settlement_busy" "the configured signer is settling another payment").
Definition budget_exhausted : Response :=
  into_response (rate_limited "sponsorship_budget_exhausted" "sponsorship budget is exhausted").
Definition identifier_conflict : Response :=
  into_response (api_error CONFLICT "payment_identifier_conflict"
    "payment identifier was already used for another request").
Definition retryable : Response :=
  into_response (unavailable "settlement_retryable"
    "settlement can be retried with the same request").

(** *** Stored answers *)

Definition stored_terminal_response (record : Rec.SettlementRecord) : Response :=
  let status := default SERVICE_UNAVAILABLE
                  (n ← Rec.terminal_http_status record; status_from_u16 n) in
  let bytes := default (service_error_bytes "journal_incomplete"
                          "terminal settlement response is unavailable")
                 (Rec.terminal_response_bytes record) in
  MkResponse status (Some "application/json")
    (if status =? SERVICE_UNAVAILABLE then Some RETRY_SECONDS else None) bytes.

Definition completed_settlement_response (record : Rec.SettlementRecord) : Response :=
  if is_terminal (Rec.state record) then stored_terminal_response record else retryable.

(** ** Requests *)

(** [request_body] is [None] when the transport fails while it is read. *)
Record HttpRequest : Type := MkHttpRequest {
  request_headers : Auth.HeaderMap;
  request_body : option string
}.

Definition is_whitespace (c : ascii) : bool :=
  Auth.is_ascii_whitespace c || Ascii.eqb c "011".

Fixpoint trim_start (s : string) : string :=
  match s with
  | String c s' => if is_whitespace c then trim_start s' else s
  | EmptyString => EmptyString
  end.

Definition string_rev (s : string) : string :=
  string_of_list_ascii (rev (list_ascii_of_string s)).

Definition trim (s : string) : string := string_rev (trim_start (string_rev (trim_start s))).

(** [split(';').next()] *)
Definition before_semicolon (s : string) : string :=
  match Auth.split_once ";" s with Some (a, _) => a | None => s end.

Definition unsupported_media_type : ApiError :=
  api_error UNSUPPORTED_MEDIA_TYPE "unsupported_media_type" "Content-Type must be application/json".

Definition ensure_json (headers : Auth.HeaderMap) : Result unit ApiError :=
  match Auth.get_all "content-type" headers with
  | Some content_type :: _ =>
      if eq_ignore_ascii_case (trim (before_semicolon content_type)) "application/json"
      then Ok tt else Err unsupported_media_type
  | None :: _ | [] => Err unsupported_media_type
  end.

(** [raw]: [to_raw_value] of the canonical value, the text the providers read. *)
Definition raw (parsed : Protocol.ParsedRequest) : string :=
  Canonical.write_canonical_json (Protocol.value parsed).

(** ** Static policy *)

Definition configured_asset_matches (kind : ChainKind) (configured requested : string) : bool :=
  match kind with
  | Near => String.eqb requested configured
  | Eip155 => eq_ignore_ascii_case requested configured
  end.

Definition is_delegate (m : Protocol.NearAssetTransferMethod) : bool :=
  match m with Protocol.Delegate => true | _ => false end.

Definition static_failure_reason (s : AppState) (request : Protocol.ParsedRequest) : option string :=
  let m := Protocol.meta request in
  if negb (Protocol.x402_version m =? 2) then Some "invalid_x402_version"
  else if negb (String.eqb (Protocol.scheme m) "exact") then Some "unsupported_scheme"
  else if negb (String.eqb (Protocol.network m) (network (config s))) then Some "invalid_network"
  else if is_some_and (Protocol.near_asset_transfer_method m) (λ x, negb (is_delegate x))
  then Some "unsupported_asset_transfer_method"
  else if negb (configured_asset_matches (chain_kind (config s)) (asset (config s)) (Protocol.asset m))
  then Some "invalid_asset"
  else if negb (Protocol.decimal_is_at_least (Protocol.amount m) (minimum_amount (config s)))
  then Some "amount_below_minimum"
  else None.

Definition static_settle_failure (s : AppState) (request : Protocol.ParsedRequest)
  : option SettleResponse :=
  (λ reason, response_failure reason None None "" (network (config s)))
    <$> static_failure_reason s request.

Definition static_verify_failure (s : AppState) (request : Protocol.ParsedRequest)
  : option VerifyResponse :=
  (λ reason, invalid reason None None) <$> static_failure_reason s request.

(** ** The scheme gate's answers *)

Definition response_is_rpc_ambiguous (value : Value) : bool :=
  is_some_and (v ← value_get "invalidReason" value; as_str v)
    (λ reason, existsb (String.eqb reason)
       ["invalid_exact_near_current_block_height_unavailable";
        "invalid_exact_near_access_key_lookup_failed";
        "invalid_exact_near_account_lookup_failed";
        "invalid_exact_near_token_account_lookup_failed";
        "invalid_exact_near_balance_check_failed";
        "invalid_exact_near_storage_check_failed"]).

Definition settle_from_verify_failure (s : AppState) (value : Value) : Response :=
  refusal s (default "invalid_payment" (v ← value_get "invalidReason" value; as_str v))
    (v ← value_get "payer" value; as_str v).

(** ** Process state *)

Definition spawn (t : Spawned) : Proc World unit :=
  modify (λ w, let p := process w in
    with_process (MkProcess (windows p) (free_slots p) (spawned p ++ [t]) (readiness_failure p)) w).

Definition with_free_slots (f : N → N) (w : World) : World :=
  let p := process w in
  with_process (MkProcess (windows p) (f (free_slots p)) (spawned p) (readiness_failure p)) w.

(** [verify_slots.try_acquire_owned()] *)
Definition try_acquire : Proc World bool :=
  let* free := gets (λ w, free_slots (process w)) in
  if free =? 0 then ret false
  else let* _ := modify (with_free_slots N.pred) in ret true.

Definition seconds (n : N) : Z := (Z.of_N n * 1000000)%Z.

(** Randomness and serialization outside the repository. *)
Class HttpExternal : Type := {
  (** [Uuid::new_v4()] at a tick *)
  new_v4 : nat → N;
  (** the checksum of an embedded migration *)
  migration_checksum : N → string;
  (** [str::parse::<ChainId>()], by the text the chain prints as *)
  chain_id_from_str : string → option string
}.

Section handlers.
Context `{Near.External} `{Evm.EvmExternal} `{Auth.AuthExternal} `{HttpExternal}.
Context (s : AppState).

(** ** Authentication and parsing *)

Definition authenticate (headers : Auth.HeaderMap) : Proc World (Result Auth.AuthenticatedClient ApiError) :=
  let* result := Auth.authenticate (auth s) headers in
  match result with
  | Ok authenticated =>
      let* _ := spawn (SpawnTouch (Auth.presented_prefix authenticated)) in
      ret (Ok authenticated)
  | Err (Auth.Invalid | Auth.Configuration) =>
      ret (Err (api_error UNAUTHORIZED "invalid_api_key" "missing or invalid API key"))
  | Err (Auth.StoreFailure _ | Auth.Entropy) =>
      ret (Err (unavailable "authentication_unavailable" "authentication is temporarily unavailable"))
  end.

Definition read_and_parse (request : HttpRequest) : Result Protocol.ParsedRequest ApiError :=
  try _ := ensure_json (request_headers request) in
  try bytes := ok_or (filter_opt (λ b, N.of_nat (String.length b) <=? body_bytes (request_limits (config s)))
                        (request_body request))
                 (api_error PAYLOAD_TOO_LARGE "request_too_large" "request body exceeds 64 KiB") in
  map_err (λ _, api_error BAD_REQUEST "malformed_request" "request body is not a canonical x402 request")
    (Protocol.parse_request Near.value_from_slice bytes (payment_identifier (config s))
       (accept_v1 (config s))).

(** Rewriting a successful answer into the legacy dialect. *)
Definition PROTOCOL_RESPONSE_REBUFFER_LIMIT : N := 1048576.

Definition serialization_failed : Response :=
  into_response (unavailable "response_serialization_failed" "response serialization failed").

Definition finalize_wire_response (response : Response) (wire : Protocol.WireVersion) : Response :=
  match wire with
  | Protocol.V2 => response
  | Protocol.V1 =>
      if negb (status response =? OK) then response
      else if PROTOCOL_RESPONSE_REBUFFER_LIMIT <? N.of_nat (String.length (body response))
      then serialization_failed
      else
      match Near.value_from_slice (body response) with
      | None => response
      | Some value =>
          match Near.to_vec (Protocol.translate_response_value_to_v1 value) with
          | Some translated =>
              MkResponse (status response) (content_type response) (retry_after response) translated
          | None => serialization_failed
          end
      end
  end.

(** ** Waiting for and replaying settlements *)

(** [wait_for_terminal], polled every 100 milliseconds; [None] when the deadline passes
    first. *)
Fixpoint poll_terminal (polls : nat) (id : N)
  : Proc World (option (Result Rec.SettlementRecord StoreError)) :=
  match polls with
  | O => ret None
  | S polls =>
      let* read := settlement id in
      match read with
      | Err e => ret (Some (Err e))
      | Ok None => ret (Some (Err (Corrupt "settlement disappeared")))
      | Ok (Some record) =>
          if is_terminal (Rec.state record) || bool_decide (Rec.state record = AwaitingRetry)
          then ret (Some (Ok record))
          else poll_terminal polls id
      end
  end.

(** [timeout(deadline, wait_for_terminal(..))]: ten polls fit in a second. *)
Definition wait_for_terminal (id : N) : Proc World (option (Result Rec.SettlementRecord StoreError)) :=
  let limit := settle_timeout_seconds (request_limits (config s)) in
  let* outcome := timeout (seconds limit) (poll_terminal (N.to_nat (10 * limit)) id) in
  ret (mjoin outcome).

Definition prior_settlement_response (client : N) (identifier : option string)
  (payment_hash fingerprint : string) : Proc World (Result (option Response) StoreError) :=
  let? claim := find_existing_settlement client identifier payment_hash fingerprint in
  match claim with
  | None => ret (Ok None)
  | Some (Existing record) =>
      if bool_decide (Rec.state record = AwaitingRetry) then ret (Ok None)
      else if is_terminal (Rec.state record) then ret (Ok (Some (stored_terminal_response record)))
      else
      let* waited := wait_for_terminal (Rec.id record) in
      ret (match waited with
           | Some (Ok record) => Ok (Some (completed_settlement_response record))
           | Some (Err e) => Err e
           | None => Ok (Some settlement_pending)
           end)
  | Some IdentifierConflict => ret (Ok (Some identifier_conflict))
  | Some DuplicateSettlement => ret (Ok (Some (refusal s "duplicate_settlement" None)))
  | Some (New _ | SettlementBusy | BudgetExceeded) =>
      ret (Err (Corrupt "existing-settlement lookup returned a non-existing outcome"))
  end.

Definition prior_settlement_race_response (client : N) (identifier : option string)
  (payment_hash fingerprint : string) : Proc World (option Response) :=
  let* prior := prior_settlement_response client identifier payment_hash fingerprint in
  ret (match prior with Ok response => response | Err _ => Some database_unavailable end).

(** A refusal, unless a concurrent settlement of the same request answers first. *)
Definition unless_settled (client : N) (identifier : option string)
  (payment_hash fingerprint : string) (response : Response) : Proc World Response :=
  let* prior := prior_settlement_race_response client identifier payment_hash fingerprint in
  ret (default response prior).

(** ** The payment's identity *)

(** The pre-verification identity: the hash of a signed delegate, or of an ERC-3009
    authorization; [Err] is the refusal. *)
Definition offline_identity (parsed : Protocol.ParsedRequest) : Result string Response :=
  match chain_kind (config s) with
  | Near =>
      match Near.decode_signed_delegate (default "" (Protocol.signed_delegate_action (Protocol.meta parsed))) with
      | Err failure => Err (refusal s (Near.reason failure) None)
      | Ok decoded =>
          if negb (Near.delegate_verify (Near.decoded_delegate decoded))
          then Err (refusal s (Near.reason Near.InvalidSignature) None)
          else Ok (Near.decoded_payment_hash decoded)
      end
  | Eip155 => map_err (λ reason, refusal s reason None) (Chain.offline_payment_hash (provider s) (raw parsed))
  end.

(** The scheme gate of a NEAR settlement. *)
Definition facilitator_verify_gate (f : Scheme.Facilitator) (parsed : Protocol.ParsedRequest)
  (payment_hash : string) (client : N) (fingerprint : string) : Proc World (option Response) :=
  let refuse r := let* r := unless_settled client (Protocol.payment_identifier (Protocol.meta parsed))
                              payment_hash fingerprint r in ret (Some r) in
  let* routed := Retry.retry_while_transient (Scheme.facilitator_verify f (raw parsed))
      (λ outcome, match outcome with Ok v => response_is_rpc_ambiguous v | Err _ => false end) in
  match routed with
  | Err _ => refuse (into_response (unavailable "verification_unavailable"
                                      "NEAR verification is temporarily unavailable"))
  | Ok v =>
      if default false (b ← value_get "isValid" v; as_bool b) then ret None
      else if response_is_rpc_ambiguous v
      then refuse (into_response (unavailable "rpc_unavailable"
                                    "NEAR verification is temporarily unavailable"))
      else refuse (settle_from_verify_failure s v)
  end.

(** ** The durable claim *)

Definition new_settlement (id : N) (client : Api.ApiClient) (parsed : Protocol.ParsedRequest)
  (fingerprint : string) (verified : Chain.VerifiedPayment) : NewSettlement :=
  let identity := Chain.identity verified in
  let m := Protocol.meta parsed in
  let '(kind, public_key, nonce, max_height, metadata, signer) :=
    match Chain.authorization identity with
    | Chain.NearAuthorization public_key nonce max_height =>
        (Near, Some public_key, Some nonce, Some max_height, None, None)
    | Chain.EvmAuthorization version valid_after valid_before =>
        (Eip155, None, None, None, Some (MkMetadata version valid_after valid_before),
         Some (Chain.signer_account_id (provider s)))
    end in
  MkNew id (Api.id client) (Protocol.payment_identifier m) (Chain.request_hash identity) fingerprint
    (Chain.anchor_scope identity) (Chain.anchor_value identity) (Protocol.x402_version m)
    (Protocol.scheme m) (Protocol.network m) (Protocol.asset m) (Protocol.pay_to m)
    (Protocol.amount m) (Chain.payer verified) kind public_key nonce max_height metadata signer
    (policy_snapshot (config s)) (reservation_yocto_near (sponsorship (config s)))
    (global_daily_yocto_near (sponsorship (config s))) (Api.daily_budget_yocto_near client).

Definition retry_reservation (id : N) (client : Api.ApiClient) : RetryReservation :=
  MkRetry id (policy_snapshot (config s)) (reservation_yocto_near (sponsorship (config s)))
    (global_daily_yocto_near (sponsorship (config s))) (Api.daily_budget_yocto_near client).

Definition spawn_settlement_worker (id : N) (parsed : Protocol.ParsedRequest) : Proc World unit :=
  spawn (SpawnWorker id (raw parsed)).

(** Resuming a relinquished row: the settlement to wait for, or the answer. *)
Definition resume (record : Rec.SettlementRecord) (client : Api.ApiClient)
  (parsed : Protocol.ParsedRequest) : Proc World (Result N Response) :=
  let* outcome := resume_awaiting_retry (retry_reservation (Rec.id record) client) in
  match outcome with
  | Ok (Resumed resumed) =>
      let* _ := spawn_settlement_worker (Rec.id resumed) parsed in
      ret (Ok (Rec.id resumed))
  | Ok RetrySettlementBusy => ret (Err settlement_busy)
  | Ok RetryBudgetExceeded => ret (Err budget_exhausted)
  | Err (Transition _ _) =>
      let* current := settlement (Rec.id record) in
      ret (match current with
           | Ok (Some current) =>
               if bool_decide (Rec.state current = AwaitingRetry) then Err retryable
               else Ok (Rec.id current)
           | Ok None | Err _ => Err database_unavailable
           end)
  | Err _ => ret (Err database_unavailable)
  end.

(** The claim's outcome: the settlement to wait for, or the answer. *)
Definition conclude_claim (claim : ClaimOutcome) (client : Api.ApiClient)
  (parsed : Protocol.ParsedRequest) (payer : string) : Proc World (Result N Response) :=
  match claim with
  | New record =>
      let* _ := spawn_settlement_worker (Rec.id record) parsed in
      ret (Ok (Rec.id record))
  | Existing record =>
      if is_terminal (Rec.state record) then ret (Err (stored_terminal_response record))
      else if bool_decide (Rec.state record = AwaitingRetry) then resume record client parsed
      else ret (Ok (Rec.id record))
  | IdentifierConflict => ret (Err identifier_conflict)
  | DuplicateSettlement => ret (Err (refusal s "duplicate_settlement" (Some payer)))
  | SettlementBusy => ret (Err settlement_busy)
  | BudgetExceeded => ret (Err budget_exhausted)
  end.

(** From a verified payment to the response. *)
Definition claim_and_wait (client : Api.ApiClient) (parsed : Protocol.ParsedRequest)
  (fingerprint : string) (verified : Chain.VerifiedPayment) : Proc World Response :=
  let* id := (λ _ n w, (Done (new_v4 n), n, w)) in
  let* claimed := claim_settlement (new_settlement id client parsed fingerprint verified) in
  match claimed with
  | Err _ => ret database_unavailable
  | Ok claim =>
      let* next := conclude_claim claim client parsed (Chain.payer verified) in
      match next with
      | Err response => ret response
      | Ok id =>
          let* waited := wait_for_terminal id in
          ret (match waited with
               | Some (Ok record) => completed_settlement_response record
               | Some (Err _) => database_unavailable
               | None => settlement_pending
               end)
      end
  end.

(** From the readiness and payee checks on. *)
Definition settle_fresh (client : Api.ApiClient) (parsed : Protocol.ParsedRequest)
  (payment_hash fingerprint : string) : Proc World Response :=
  let m := Protocol.meta parsed in
  let refuse r := unless_settled (Api.id client) (Protocol.payment_identifier m) payment_hash fingerprint r in
  let* open := can_settle in
  if negb open then
    refuse (into_response (unavailable "settlement_unavailable" "settlement is temporarily unavailable"))
  else
  let* allowed := payee_allowed (Api.id client) (Protocol.network m) (Protocol.asset m) (Protocol.pay_to m) in
  match allowed with
  | Err _ => ret (into_response (unavailable "database_unavailable"
                                   "settlement policy is temporarily unavailable"))
  | Ok false => refuse (refusal s "payee_not_allowed" None)
  | Ok true =>
  let* gate := match facilitator s with
               | Some f => facilitator_verify_gate f parsed payment_hash (Api.id client) fingerprint
               | None => ret None
               end in
  match gate with
  | Some response => ret response
  | None =>
  let* verified := Chain.verify (provider s) (raw parsed) (Near.MkPolicy (max_inner_gas (config s))) in
  match verified with
  | Err rejection =>
      if Chain.rpc_ambiguous rejection
      then refuse (into_response (unavailable "rpc_unavailable" "verification is temporarily unavailable"))
      else refuse (refusal s (Chain.reason rejection) None)
  | Ok verified =>
      if negb (String.eqb (Chain.payment_hash verified) payment_hash)
      then ret (into_response (unavailable "verification_inconsistent"
                                 "payment verification was internally inconsistent"))
      else claim_and_wait client parsed fingerprint verified
  end
  end
  end.

(** The protocol part of [settle_inner]: what [finalize_wire_response] is applied to. *)
Definition settle_protocol (client : Api.ApiClient) (parsed : Protocol.ParsedRequest)
  : Proc World Response :=
  match static_settle_failure s parsed with
  | Some response => ret (settle_json response)
  | None =>
  match offline_identity parsed with
  | Err response => ret response
  | Ok payment_hash =>
      let fingerprint := Canonical.request_fingerprint Near.sha256 (Protocol.value parsed) payment_hash in
      let* prior := prior_settlement_response (Api.id client)
                      (Protocol.payment_identifier (Protocol.meta parsed)) payment_hash fingerprint in
      match prior with
      | Ok (Some response) => ret response
      | Err _ => ret database_unavailable
      | Ok None => settle_fresh client parsed payment_hash fingerprint
      end
  end
  end.

(** ** The handlers *)

(** Authentication, the rate limit and parsing, shared by the two POST handlers:
    the client and the request, or the answer. *)
Definition admit_request (request : HttpRequest) (operation : Operation)
  : Proc World (Result (Api.ApiClient * Protocol.ParsedRequest) Response) :=
  let* authenticated := authenticate (request_headers request) in
  match authenticated with
  | Err e => ret (Err (into_response e))
  | Ok authenticated =>
      let client := Auth.client authenticated in
      let '(client_limit, limit, message) :=
        match operation with
        | OpVerify => (Api.verify_rate_per_minute client, verify_per_minute (request_limits (config s)),
                       "verification rate limit exceeded")
        | OpSettle => (Api.settle_rate_per_minute client, settle_per_minute (request_limits (config s)),
                       "settlement rate limit exceeded")
        end in
      let* admitted := RateLimit.check (Auth.presented_prefix authenticated) operation
                         (N.min client_limit limit) in
      if negb admitted then ret (Err (into_response (rate_limited "rate_limit_exceeded" message)))
      else ret (match read_and_parse request with
                | Err e => Err (into_response e)
                | Ok parsed => Ok (client, parsed)
                end)
  end.

Definition settle_inner (request : HttpRequest) : Proc World Response :=
  let* admitted := admit_request request OpSettle in
  match admitted with
  | Err response => ret response
  | Ok (client, parsed) =>
      let* response := settle_protocol client parsed in
      ret (finalize_wire_response response (Protocol.wire parsed))
  end.

Definition settle (request : HttpRequest) : Proc World Response :=
  let* outcome := timeout (seconds (settle_timeout_seconds (request_limits (config s))))
                    (settle_inner request) in
  ret (default settlement_pending outcome).

(** *** Verification *)

Definition near_routed_verify (f : Scheme.Facilitator) (parsed : Protocol.ParsedRequest) (deadline : Z)
  : Proc World Response :=
  let* result := Retry.retry_while_transient
      (timeout deadline (Scheme.facilitator_verify f (raw parsed)))
      (λ outcome, match outcome with Some (Ok v) => response_is_rpc_ambiguous v | _ => false end) in
  ret (match result with
       | Some (Ok v) =>
           if response_is_rpc_ambiguous v
           then into_response (unavailable "rpc_unavailable" "NEAR verification is temporarily unavailable")
           else raw_json OK (Canonical.write_canonical_json v)
       | Some (Err _) | None =>
           into_response (unavailable "verification_unavailable"
                            "NEAR verification is temporarily unavailable")
       end).

Definition evm_verify (parsed : Protocol.ParsedRequest) : Proc World Response :=
  let* verified := Chain.verify (provider s) (raw parsed) (Near.MkPolicy (max_inner_gas (config s))) in
  ret (match verified with
       | Ok verified => verify_json (valid (Chain.payer verified))
       | Err rejection =>
           if Chain.rpc_ambiguous rejection
           then into_response (unavailable "rpc_unavailable" "EVM verification is temporarily unavailable")
           else verify_json (invalid (Chain.reason rejection) None None)
       end).

Definition verify_protocol (client : Api.ApiClient) (parsed : Protocol.ParsedRequest)
  : Proc World Response :=
  match static_verify_failure s parsed with
  | Some response => ret (verify_json response)
  | None =>
  let m := Protocol.meta parsed in
  let* allowed := payee_allowed (Api.id client) (Protocol.network m) (Protocol.asset m) (Protocol.pay_to m) in
  match allowed with
  | Err _ => ret (into_response (unavailable "database_unavailable"
                                   "verification policy is temporarily unavailable"))
  | Ok false => ret (verify_json (invalid "payee_not_allowed" None None))
  | Ok true =>
  let* permit := try_acquire in
  if negb permit then
    ret (into_response (unavailable "verification_capacity_exhausted"
                          "verification capacity is temporarily exhausted"))
  else
  let deadline := seconds (verify_timeout_seconds (request_limits (config s))) in
  finally
    (match facilitator s with
     | None =>
         let* outcome := timeout deadline (evm_verify parsed) in
         ret (default (into_response (unavailable "verification_timeout" "EVM verification timed out"))
                outcome)
     | Some f => near_routed_verify f parsed deadline
     end)
    (with_free_slots N.succ)
  end
  end.

Definition verify_inner (request : HttpRequest) : Proc World Response :=
  let* admitted := admit_request request OpVerify in
  match admitted with
  | Err response => ret response
  | Ok (client, parsed) =>
      let* response := verify_protocol client parsed in
      ret (finalize_wire_response response (Protocol.wire parsed))
  end.

Definition verify (request : HttpRequest) : Proc World Response :=
  let* outcome := timeout (seconds (verify_timeout_seconds (request_limits (config s))))
                    (verify_inner request) in
  ret (default (into_response (unavailable "verification_timeout" "verification timed out")) outcome).

(** *** Supported kinds *)

Definition evm_supported_for (net : string) (accept_v1 : bool) (signer : string) : Scheme.SupportedResponse :=
  Scheme.MkSupported
    (Scheme.MkKind 2 "exact" net ::
     match (if accept_v1 then Protocol.v1_network_name net else None) with
     | Some alias => [Scheme.MkKind 1 "exact" alias]
     | None => []
     end)
    ["payment-identifier"]
    (match chain_id_from_str net with Some chain => {[ chain := [signer] ]} | None => ∅ end).

Definition evm_supported : Scheme.SupportedResponse :=
  evm_supported_for (network (config s)) (accept_v1 (config s)) (Chain.signer_account_id (provider s)).

(** The value the handler serializes, or its error answer. *)
Definition supported : Result Scheme.SupportedResponse Response :=
  match facilitator s with
  | Some f =>
      map_err (λ _, into_response (unavailable "facilitator_unavailable"
                      "supported payment methods are temporarily unavailable"))
        (Scheme.facilitator_supported f)
  | None => Ok evm_supported
  end.

(** *** Readiness *)

Definition readiness_word (b : bool) : string := if b then "ready" else "not_ready".

Definition checks_to_vec (database : bool) (g : Readiness.ReadinessSnapshot) : string :=
  let word name b := member name (Canonical.json_string (readiness_word b)) in
  String "{"%char (Canonical.join
    [word "database" database; word "leadership" (Readiness.s_leadership g);
     word "reconciliation" (Readiness.s_reconciliation g); word "rpc" (Readiness.s_rpc g);
     word "relayer" (Readiness.s_relayer g)] +:+ "}").

Definition ready : Proc World Response :=
  let* result := operationally_ready migration_checksum (network (config s)) (asset (config s)) in
  let database := default false (ok result) in
  let* _ := modify (λ w, with_gates (Readiness.set_database database (gates w)) w) in
  let* g := gets (λ w, Readiness.snapshot (gates w)) in
  let is_ready := database && Readiness.s_leadership g && Readiness.s_reconciliation g
                  && Readiness.s_rpc g && Readiness.s_relayer g in
  ret (MkResponse (if is_ready then OK else SERVICE_UNAVAILABLE) (Some "application/json")
         (if is_ready then None else Some RETRY_SECONDS)
         (String "{"%char (Canonical.join
            [member "ready" (if is_ready then "true" else "false");
             member "checks" (checks_to_vec database g)] +:+ "}"))).

End handlers.

End Http.
