(* ===== verification/Catalog.v ===== *)
(** * The discovery catalog

    Models [crates/x402-near-facilitator/src/catalog.rs] and its handler in
    [service.rs]: the validation of the embedded manifest, the selection and order of the
    resources an instance lists, the query parser and the pages it serves.  Parsing of
    URLs, RFC 3339 times and query strings, and the derived JSON decoding of the
    manifest, belong to the crates that do it and are parameters.  An [Invalid] error
    carries the constant part of its message. *)

From stdpp Require Import base gmap strings list numbers.
From Stdlib Require Import Lia NArith ZArith Ascii String.
From S2P Require Import Prelude Text Encoding Json Readiness Schema Protocol Canonical Near Config.
From S2P Require Import Auth Service Http.

Open Scope string_scope.
Open Scope list_scope.
Open Scope N_scope.

Module Catalog.

(** ** Bounds *)

Definition MANIFEST_VERSION : N := 1.
Definition MAX_MANIFEST_BYTES : N := 262144.
Definition MAX_RESOURCES : N := 1000.
Definition MAX_ACCEPTS : N := 4.
Definition MAX_URL_BYTES : N := 2048.
Definition MAX_DESCRIPTION_BYTES : N := 512.
Definition MAX_MIME_TYPE_BYTES : N := 128.
Definition MAX_SERVICE_NAME_BYTES : N := 32.
Definition MAX_TAGS : N := 5.
Definition MAX_TAG_BYTES : N := 32.
Definition MAX_EXTENSION_NAME_BYTES : N := 64.
Definition MAX_EXTENSIONS_BYTES : N := 65536.
Definition MAX_JSON_DEPTH : N := 16.
Definition DEFAULT_LIMIT : N := 100.
Definition MAX_LIMIT : N := 1000.
Definition MAX_FILTER_BYTES : N := 200.
Definition MAX_QUERY_BYTES : N := 4096.
Definition OPERATOR_OWNED_RESOURCE_HOSTS : list string :=
  ["x402-demo.mikedotexe.com"; "x402-demo-test.mikedotexe.com"; "x402-demo-base.mikedotexe.com";
   "merchant-near.mikedotexe.com"; "merchant-base.mikedotexe.com"].

(** ** Data *)

(** [Panic]: an index past the end, which Rust does not return from. *)
Inductive CatalogError : Type :=
| JsonError
| Invalid (message : string)
| Panic.

Definition invalid {A} (message : string) : Result A CatalogError := Err (Invalid message).
Definition invalid_unless (b : bool) (message : string) : Result unit CatalogError :=
  if b then Ok tt else invalid message.

Record CatalogQuery : Type := MkQuery {
  q_type : option string;
  q_pay_to : option string;
  q_scheme : option string;
  q_network : option string;
  q_extension : option string;
  limit : N;
  offset : N
}.

Record Eip712Domain : Type := MkDomain {
  name : string;
  version : string
}.

(** [untagged] *)
Inductive PaymentExtra : Type :=
| ExtraEvm (domain : Eip712Domain)
| ExtraNear.

Record DiscoveryPaymentRequirements : Type := MkDiscoveryRequirements {
  scheme : string;
  network : string;
  asset : string;
  amount : string;
  pay_to : string;
  max_timeout_seconds : N;
  extra : option PaymentExtra
}.

Record Admission : Type := MkAdmission {
  reviewed_at : string;
  opt_in_evidence_url : string;
  pay_to_control_evidence_url : string
}.

Record CatalogEntry : Type := MkEntry {
  e_resource : string;
  e_type : string;
  e_x402_version : N;
  e_accepts : list DiscoveryPaymentRequirements;
  e_last_updated : string;
  e_description : option string;
  e_mime_type : option string;
  e_service_name : option string;
  e_tags : option (list string);
  e_icon_url : option string;
  e_extensions : option Map;
  admission : Admission
}.

Record CatalogManifest : Type := MkManifest {
  schema_version : N;
  manifest_resources : list CatalogEntry
}.

(** [updated_at] is the instant of [last_updated], in nanoseconds. *)
Record DiscoveryResource : Type := MkResource {
  resource : string;
  resource_type : string;
  x402_version : N;
  accepts : list DiscoveryPaymentRequirements;
  last_updated : string;
  description : option string;
  mime_type : option string;
  service_name : option string;
  tags : option (list string);
  icon_url : option string;
  extensions : option Map;
  updated_at : Z
}.

Record DiscoveryPagination : Type := MkPagination {
  p_limit : N;
  p_offset : N;
  total : N
}.

Record DiscoveryResourcesResponse : Type := MkResourcesResponse {
  r_x402_version : N;
  items : list DiscoveryResource;
  pagination : DiscoveryPagination
}.

Record Catalog : Type := MkCatalog { resources : list DiscoveryResource }.

Definition empty : Catalog := MkCatalog [].

(** What the catalog takes from other crates. *)
Class CatalogExternal : Type := {
  (** [Url::parse] *)
  url_parse : string → option Config.Url;
  (** [DateTime::parse_from_rfc3339], as an instant *)
  parse_from_rfc3339 : string → option Z;
  (** [url::form_urlencoded::parse] *)
  form_parse : string → list (string * string);
  (** the derived [Deserialize] of the manifest *)
  manifest_from_str : string → option CatalogManifest;
  (** the derived [Serialize] of a page *)
  page_to_vec : DiscoveryResourcesResponse → string
}.

(** ** Field checks *)

Definition byte_len (s : string) : N := N.of_nat (String.length s).

Definition validate_text (name value : string) (maximum : N) (ascii_only : bool)
  : Result unit CatalogError :=
  if is_empty value || (maximum <? byte_len value) || Encoding.has_control value
     || (ascii_only && negb (Encoding.is_ascii value))
  then invalid (name +:+ " must be non-empty, bounded, and free of control characters")
  else Ok tt.

Definition validate_optional_text (name : string) (value : option string) (maximum : N)
  (ascii_only : bool) : Result unit CatalogError :=
  match value with Some value => validate_text name value maximum ascii_only | None => Ok tt end.

Definition validate_filter (name value : string) : Result string CatalogError :=
  try _ := validate_text name value MAX_FILTER_BYTES false in Ok value.

Definition parse_bounded_integer (name value : string) (minimum maximum : N)
  : Result N CatalogError :=
  if is_empty value || ((1 <? byte_len value) && starts_with "0" value)
     || negb (all_bytes is_ascii_digit value)
  then invalid (name +:+ " must be an unsigned integer")
  else
  try parsed := ok_or (parse_uint u64_max value) (Invalid (name +:+ " is too large")) in
  if (minimum <=? parsed) && (parsed <=? maximum) then Ok parsed
  else invalid (name +:+ " must be between " +:+ to_decimal minimum +:+ " and " +:+ to_decimal maximum).

Definition asset_matches (network left right : string) : bool :=
  if starts_with "eip155:" network then eq_ignore_ascii_case left right else String.eqb left right.

(** [max().unwrap_or(0)] *)
Definition maximum (l : list N) : N := foldr N.max 0 l.

Fixpoint json_depth (value : Value) : N :=
  match value with
  | Array values => 1 + maximum (map json_depth values)
  | Object fields => 1 + maximum (map (λ kv, json_depth kv.2) fields)
  | _ => 1
  end.

Definition is_object_at (key : string) (m : Map) : bool :=
  match get key m with Some (Object _) => true | _ => false end.

(** ** The raw query *)

(** [raw.split('&')] *)
Fixpoint split_ampersand (s : string) : list string :=
  match s with
  | EmptyString => [EmptyString]
  | String c s' =>
      let rest := split_ampersand s' in
      if Ascii.eqb c "&" then EmptyString :: rest
      else match rest with part :: rest => String c part :: rest | [] => [String c EmptyString] end
  end.

Definition hex_value (c : ascii) : N :=
  if in_range "0" "9" c then byte_val c - 48
  else if in_range "a" "f" c then byte_val c - 97 + 10
  else if in_range "A" "F" c then byte_val c - 65 + 10
  else 0.

(** The decoding loop over one component; [None]: invalid percent encoding. *)
Fixpoint decode_component (s : string) : option string :=
  match s with
  | EmptyString => Some EmptyString
  | String c s1 =>
      if Ascii.eqb c "%" then
        match s1 with
        | String h (String l s3) =>
            if is_ascii_hexdigit h && is_ascii_hexdigit l
            then String (ascii_of_N (N.lor (N.shiftl (hex_value h) 4) (hex_value l))) <$> decode_component s3
            else None
        | _ => None
        end
      else if Ascii.eqb c "+" then String " "%char <$> decode_component s1
      else String c <$> decode_component s1
  end.

Fixpoint validate_components (components : list string) : Result unit CatalogError :=
  match components with
  | [] => Ok tt
  | component :: components =>
      match decode_component component with
      | None => invalid "query contains invalid percent encoding"
      | Some decoded =>
          if negb (Encoding.utf8_valid decoded) then invalid "query must be valid UTF-8"
          else validate_components components
      end
  end.

Definition validate_raw_query (raw : string) : Result unit CatalogError :=
  validate_components (split_ampersand raw).

Definition default_query : CatalogQuery := MkQuery None None None None None DEFAULT_LIMIT 0.

(** One pair of the query. *)
Definition apply_parameter (q : CatalogQuery) (key value : string) : Result CatalogQuery CatalogError :=
  if String.eqb key "type" then
    try v := validate_filter key value in
    Ok (MkQuery (Some v) (q_pay_to q) (q_scheme q) (q_network q) (q_extension q) (limit q) (offset q))
  else if String.eqb key "payTo" then
    try v := validate_filter key value in
    Ok (MkQuery (q_type q) (Some v) (q_scheme q) (q_network q) (q_extension q) (limit q) (offset q))
  else if String.eqb key "scheme" then
    try v := validate_filter key value in
    Ok (MkQuery (q_type q) (q_pay_to q) (Some v) (q_network q) (q_extension q) (limit q) (offset q))
  else if String.eqb key "network" then
    try v := validate_filter key value in
    Ok (MkQuery (q_type q) (q_pay_to q) (q_scheme q) (Some v) (q_extension q) (limit q) (offset q))
  else if String.eqb key "extensions" then
    try v := validate_filter key value in
    Ok (MkQuery (q_type q) (q_pay_to q) (q_scheme q) (q_network q) (Some v) (limit q) (offset q))
  else if String.eqb key "limit" then
    try v := parse_bounded_integer "limit" value 1 MAX_LIMIT in
    Ok (MkQuery (q_type q) (q_pay_to q) (q_scheme q) (q_network q) (q_extension q) v (offset q))
  else if String.eqb key "offset" then
    try v := parse_bounded_integer "offset" value 0 u64_max in
    Ok (MkQuery (q_type q) (q_pay_to q) (q_scheme q) (q_network q) (q_extension q) (limit q) v)
  else invalid ("unknown query parameter " +:+ key).

Fixpoint apply_parameters (pairs : list (string * string)) (seen : gset string) (q : CatalogQuery)
  : Result CatalogQuery CatalogError :=
  match pairs with
  | [] => Ok q
  | (key, value) :: pairs =>
      if bool_decide (key ∈ seen) then invalid ("duplicate query parameter " +:+ key)
      else
      try q := apply_parameter q key value in
      apply_parameters pairs ({[ key ]} ∪ seen) q
  end.

(** ** Listing *)

Definition resource_matches (r : DiscoveryResource) (q : CatalogQuery) : bool :=
  is_none_or (q_type q) (λ v, String.eqb (resource_type r) v)
  && is_none_or (q_network q) (λ v, existsb (λ a, String.eqb (network a) v) (accepts r))
  && is_none_or (q_scheme q) (λ v, existsb (λ a, String.eqb (scheme a) v) (accepts r))
  && is_none_or (q_pay_to q)
       (λ v, existsb (λ a, if starts_with "eip155:" (network a)
                           then eq_ignore_ascii_case (pay_to a) v else String.eqb (pay_to a) v) (accepts r))
  && is_none_or (q_extension q)
       (λ v, is_some_and (extensions r) (λ m, bool_decide (is_Some (get v m)))).

Definition list_resources (c : Catalog) (q : CatalogQuery) : DiscoveryResourcesResponse :=
  let matching := List.filter (λ r, resource_matches r q) (resources c) in
  MkResourcesResponse 2 (take (N.to_nat (limit q)) (drop (N.to_nat (offset q)) matching))
    (MkPagination (limit q) (offset q) (N.of_nat (List.length matching))).

(** ** Loading *)

Definition into_resource (e : CatalogEntry) (updated_at : Z) : DiscoveryResource :=
  MkResource (e_resource e) (e_type e) (e_x402_version e) (e_accepts e) (e_last_updated e)
    (e_description e) (e_mime_type e) (e_service_name e) (e_tags e) (e_icon_url e) (e_extensions e)
    updated_at.

(** Newest first, then by resource. *)
Definition resource_cmp (left right : DiscoveryResource) : comparison :=
  match Z.compare (updated_at right) (updated_at left) with
  | Eq => bytes_cmp (resource left) (resource right)
  | c => c
  end.

(** [slice::sort_by], stable. *)
Fixpoint insert_sorted (r : DiscoveryResource) (l : list DiscoveryResource) : list DiscoveryResource :=
  match l with
  | [] => [r]
  | x :: l' => match resource_cmp r x with Gt => x :: insert_sorted r l' | _ => r :: l end
  end.

Definition sort_resources (l : list DiscoveryResource) : list DiscoveryResource :=
  foldr insert_sorted [] l.

Section load.
Context `{Near.External} `{CatalogExternal}.

Definition validate_public_https_url (name value : string) : Result Config.Url CatalogError :=
  if is_empty value || (MAX_URL_BYTES <? byte_len value)
  then invalid (name +:+ " must contain at most " +:+ to_decimal MAX_URL_BYTES +:+ " bytes")
  else
  try parsed := ok_or (url_parse value) (Invalid (name +:+ " is not a valid URL")) in
  if negb (String.eqb (Config.url_scheme parsed) "https") || negb (is_empty (Config.url_username parsed))
     || bool_decide (is_Some (Config.url_password parsed))
     || bool_decide (is_Some (Config.url_fragment parsed))
  then invalid (name +:+ " must be HTTPS without credentials or a fragment")
  else
  try host := ok_or (Config.host_str parsed) (Invalid (name +:+ " must contain a host")) in
  if eq_ignore_ascii_case host "localhost" || Encoding.parses_as_ip host
  then invalid (name +:+ " must use a public DNS hostname")
  else Ok parsed.

Definition validate_timestamp (name value : string) : Result Z CatalogError :=
  ok_or (parse_from_rfc3339 value) (Invalid (name +:+ " is not RFC 3339")).

Definition validate_requirements (r : DiscoveryPaymentRequirements) : Result unit CatalogError :=
  try _ := invalid_unless (String.eqb (scheme r) "exact") "accepts.scheme must be exact" in
  try expected_asset := ok_or (Config.canonical_usdc_asset (network r))
        (Invalid "accepts.network is not a supported repository profile") in
  try _ := invalid_unless (asset_matches (network r) (asset r) expected_asset)
             "accepts.asset is not canonical Circle USDC for its network" in
  if is_empty (amount r) || starts_with "0" (amount r) || negb (all_bytes is_ascii_digit (amount r))
     || bool_decide (parse_uint u128_max (amount r) = None)
  then invalid "accepts.amount must be a canonical positive atomic integer"
  else if max_timeout_seconds r =? 0
  then invalid "accepts.maxTimeoutSeconds must be positive"
  else if starts_with "eip155:" (network r) then
    if negb (Config.is_evm_address (pay_to r))
    then invalid "accepts.payTo must be a 20-byte EVM address"
    else
    try expected := ok_or (Config.canonical_eip712_domain (network r))
          (Invalid "Base requirements are missing a canonical EIP-712 domain") in
    match extra r with
    | Some (ExtraEvm domain) =>
        if negb (String.eqb (name domain) expected.1) || negb (String.eqb (version domain) expected.2)
        then invalid "Base requirements use the wrong EIP-712 domain"
        else Ok tt
    | _ => invalid "Base requirements must include the canonical EIP-712 domain"
    end
  else
    try _ := ok_or (Near.parse_account_id (pay_to r)) (Invalid "accepts.payTo is not a NEAR account ID") in
    match extra r with
    | None | Some ExtraNear => Ok tt
    | Some (ExtraEvm _) => invalid "NEAR requirements cannot carry an EIP-712 domain"
    end.

Fixpoint validate_accepts (network0 asset0 : string) (l : list DiscoveryPaymentRequirements)
  : Result unit CatalogError :=
  match l with
  | [] => Ok tt
  | r :: l =>
      try _ := validate_requirements r in
      if negb (String.eqb (network r) network0) || negb (asset_matches network0 (asset r) asset0)
      then invalid "all accepts entries must use one network and canonical asset"
      else validate_accepts network0 asset0 l
  end.

Fixpoint validate_tags (l : list string) (seen : gset string) : Result unit CatalogError :=
  match l with
  | [] => Ok tt
  | tag :: l =>
      try _ := validate_text "tag" tag MAX_TAG_BYTES true in
      if bool_decide (to_ascii_lowercase tag ∈ seen)
      then invalid "tags must be unique ignoring ASCII case"
      else validate_tags l ({[ to_ascii_lowercase tag ]} ∪ seen)
  end.

Fixpoint validate_names (l : list string) : Result unit CatalogError :=
  match l with
  | [] => Ok tt
  | key :: l =>
      try _ := validate_text "extension name" key MAX_EXTENSION_NAME_BYTES true in validate_names l
  end.

Definition validate_extensions (extensions : option Map) : Result unit CatalogError :=
  try extensions := ok_or extensions (Invalid "extensions.bazaar is required") in
  try serialized := ok_or (Near.to_vec (Object extensions)) JsonError in
  if MAX_EXTENSIONS_BYTES <? byte_len serialized then invalid "extensions exceed the 64 KiB bound"
  else
  try _ := validate_names (keys extensions) in
  if existsb (λ kv, MAX_JSON_DEPTH <? json_depth kv.2) extensions
  then invalid "extensions exceed the maximum JSON depth"
  else
  match get "bazaar" extensions with
  | Some (Object bazaar) =>
      if negb (is_object_at "info" bazaar) || negb (is_object_at "schema" bazaar)
      then invalid "extensions.bazaar must contain object info and schema fields"
      else Ok tt
  | _ => invalid "extensions.bazaar must be an object"
  end.

(** The normalized resource and the instant of its last update. *)
Definition validate_entry (e : CatalogEntry) : Result (string * Z) CatalogError :=
  try parsed := validate_public_https_url "resource" (e_resource e) in
  if is_some_and (Config.host_str parsed)
       (λ host, existsb (eq_ignore_ascii_case host) OPERATOR_OWNED_RESOURCE_HOSTS)
  then invalid "operator-owned reference resources cannot enter the public catalog"
  else
  try _ := invalid_unless (String.eqb (e_type e) "http") "type must be http" in
  try _ := invalid_unless (e_x402_version e =? 2) "x402Version must be 2" in
  match e_accepts e with
  | [] => invalid "accepts must contain between one and four requirements"
  | first :: _ =>
      if MAX_ACCEPTS <? N.of_nat (List.length (e_accepts e))
      then invalid "accepts must contain between one and four requirements"
      else
      try _ := validate_accepts (network first) (asset first) (e_accepts e) in
      try updated_at := validate_timestamp "lastUpdated" (e_last_updated e) in
      try _ := validate_timestamp "admission.reviewedAt" (reviewed_at (admission e)) in
      try _ := validate_public_https_url "admission.optInEvidenceUrl" (opt_in_evidence_url (admission e)) in
      try _ := validate_public_https_url "admission.payToControlEvidenceUrl"
                 (pay_to_control_evidence_url (admission e)) in
      try _ := validate_optional_text "description" (e_description e) MAX_DESCRIPTION_BYTES false in
      try _ := validate_optional_text "mimeType" (e_mime_type e) MAX_MIME_TYPE_BYTES true in
      try _ := validate_optional_text "serviceName" (e_service_name e) MAX_SERVICE_NAME_BYTES true in
      try _ := match e_tags e with
               | Some tags =>
                   if bool_decide (tags = []) || (MAX_TAGS <? N.of_nat (List.length tags))
                   then invalid "tags must contain between one and five values"
                   else validate_tags tags ∅
               | None => Ok tt
               end in
      try _ := match e_icon_url e with
               | Some icon_url => try _ := validate_public_https_url "iconUrl" icon_url in Ok tt
               | None => Ok tt
               end in
      try _ := validate_extensions (e_extensions e) in
      Ok (Config.serialization parsed, updated_at)
  end.

Fixpoint select_entries (network0 asset0 : string) (l : list CatalogEntry) (seen : gset string)
  : Result (list DiscoveryResource) CatalogError :=
  match l with
  | [] => Ok []
  | e :: l =>
      try validated := validate_entry e in
      let '(normalized_resource, updated_at) := validated in
      if bool_decide (normalized_resource ∈ seen) then invalid "resource URLs must be unique"
      else
      try first := ok_or (head (e_accepts e)) Panic in
      try rest := select_entries network0 asset0 l ({[ normalized_resource ]} ∪ seen) in
      Ok (if String.eqb (network first) network0 && asset_matches network0 (asset first) asset0
          then into_resource e updated_at :: rest else rest)
  end.

Definition from_json_for (source network asset : string) : Result Catalog CatalogError :=
  if MAX_MANIFEST_BYTES <? byte_len source then invalid "manifest exceeds the 256 KiB bound"
  else
  try manifest := ok_or (manifest_from_str source) JsonError in
  try _ := invalid_unless (schema_version manifest =? MANIFEST_VERSION)
             ("schemaVersion must be " +:+ to_decimal MANIFEST_VERSION) in
  try _ := invalid_unless (N.of_nat (List.length (manifest_resources manifest)) <=? MAX_RESOURCES)
             ("resources must contain at most " +:+ to_decimal MAX_RESOURCES +:+ " entries") in
  try selected := select_entries network asset (manifest_resources manifest) ∅ in
  Ok (MkCatalog (sort_resources selected)).

(** [include_str!] of [docs/catalog/resources.json] is the argument. *)
Definition load_embedded_for (embedded : string) (c : Config.ServiceConfig) : Result Catalog CatalogError :=
  from_json_for embedded (Config.network c) (Config.asset c).

Definition parse_query (raw : option string) : Result CatalogQuery CatalogError :=
  let raw := default EmptyString raw in
  if MAX_QUERY_BYTES <? byte_len raw then invalid "discovery query exceeds the 4 KiB bound"
  else
  try _ := validate_raw_query raw in
  apply_parameters (form_parse raw) ∅ default_query.

(** The handler of [/discovery/resources]. *)
Definition discovery_resources (c : Catalog) (raw : option string) : Http.Response :=
  match parse_query raw with
  | Err _ =>
      Http.into_response (Http.api_error Http.BAD_REQUEST "invalid_discovery_query"
                            "discovery query parameters are invalid")
  | Ok q => Http.raw_json Http.OK (page_to_vec (list_resources c q))
  end.

End load.

End Catalog.
