(* ===== verification/Router.v ===== *)
(** * The routes

    Models [router] of [crates/x402-near-facilitator/src/service.rs] and the handlers that
    are not in [Http]: the landing page, the instance's text for agents, the API
    description, liveness, and the form in which [/supported] answers.  Matching a request
    against the table of routes is the web framework's, a parameter with its documented
    behaviour; so are the layers that tag a request with an identifier and trace it, which
    no handler reads. *)

From stdpp Require Import base gmap strings list numbers.
From Stdlib Require Import Lia NArith ZArith Ascii String.
From S2P Require Import Prelude Text Json Readiness Schema RateLimit Sql Store Clients Receipt.
From S2P Require Import Protocol Canonical Near Scheme Config Auth Retry Evm Chain Service Http Catalog.

Open Scope string_scope.
Open Scope list_scope.
Open Scope N_scope.

Module Router.
Import Service Http.

(** ** Requests and the table *)

Inductive Method : Type :=
| GET
| HEAD
| POST
| OtherMethod (name : string).

#[export] Instance Method_eq_dec : EqDecision Method.
Proof. solve_decision. Defined.

Record Incoming : Type := MkIncoming {
  method : Method;
  path : string;
  raw_query : option string;
  http : HttpRequest
}.

Inductive Handler : Type :=
| HandleLanding
| HandleOpenapi
| HandleLlms
| HandleDiscovery
| HandleSupported
| HandleHealth
| HandleReady
| HandleVerify
| HandleSettle.

#[export] Instance Handler_eq_dec : EqDecision Handler.
Proof. solve_decision. Defined.

Definition routes : list (string * (Method * Handler)) :=
  [("/", (GET, HandleLanding)); ("/openapi.yaml", (GET, HandleOpenapi)); ("/llms.txt", (GET, HandleLlms));
   ("/discovery/resources", (GET, HandleDiscovery)); ("/supported", (GET, HandleSupported));
   ("/healthz", (GET, HandleHealth)); ("/readyz", (GET, HandleReady)); ("/verify", (POST, HandleVerify));
   ("/settle", (POST, HandleSettle))].

Class RouterExternal : Type := {
  (** [Router]'s choice of a route's handler, or its own refusal *)
  dispatch : list (string * (Method * Handler)) → Method → string → Handler + Response;
  (** [include_str!] of the API description *)
  openapi_yaml : string;
  (** [env!("CARGO_PKG_VERSION")] *)
  version : string;
  (** the derived [Serialize] of [SupportedResponse] *)
  supported_to_vec : Scheme.SupportedResponse → string
}.

(** ** Static pages *)

Definition SERVICE_NAME : string := "x402-near-facilitator".

Definition double_quote : ascii := "034".

(** A literal in which a back quote stands for a double quote; the pages have none of
    their own. *)
Fixpoint quoted (s : string) : string :=
  match s with
  | EmptyString => EmptyString
  | String c s' => String (if Ascii.eqb c "`" then double_quote else c) (quoted s')
  end.

(** [str::replace] of one byte. *)
Fixpoint replace (c : ascii) (by_ : string) (s : string) : string :=
  match s with
  | EmptyString => EmptyString
  | String d s' => (if Ascii.eqb c d then by_ else String d EmptyString) +:+ replace c by_ s'
  end.

Definition escape_html_text (value : string) : string :=
  replace ">" "&gt;" (replace "<" "&lt;" (replace "&" "&amp;" value)).

(** [{:?}] of a [str] that needs no escape. *)
Definition debug_str (s : string) : string :=
  String double_quote (s +:+ String double_quote EmptyString).

Section router.
Context `{Near.External} `{Evm.EvmExternal} `{Auth.AuthExternal} `{HttpExternal}
  `{Catalog.CatalogExternal} `{RouterExternal}.

Definition landing_page (network asset : string) : string :=
  let network := escape_html_text network in
  let asset := escape_html_text asset in
  quoted "<!doctype html>
<html lang=`en`>
<head>
  <meta charset=`utf-8`>
  <meta name=`viewport` content=`width=device-width, initial-scale=1`>
  <meta name=`description` content=`Open-source x402 exact-payment facilitator for Circle USDC on NEAR and Base.`>
  <link rel=`service-desc` type=`application/yaml` href=`/openapi.yaml`>
  <title>x402 facilitator for NEAR and Base</title>
</head>
<body>
  <main>
    <h1>x402 facilitator for NEAR and Base</h1>
    <p>Open-source, API-key-gated settlement for x402 <code>exact</code>
    payments in Circle USDC, with sponsored gas and durable recovery.</p>
    <p>This hostname is pinned to one configured network and asset:</p>
    <dl>
      <dt>Network</dt><dd><code id=`instance-network`>"
  +:+ network
  +:+ quoted "</code></dd>
      <dt>Asset</dt><dd><code id=`instance-asset`>"
  +:+ asset
  +:+ quoted "</code></dd>
    </dl>
    <p>Canonical x402 v2 is preferred, the scheme is <code>exact</code>, the
    facilitator fee is zero, and sponsored gas is bounded by exact per-client
    policy.</p>
    <ul>
      <li><a href=`/supported`>Live capabilities</a></li>
      <li><a href=`/readyz`>Sanitized readiness</a></li>
      <li><a href=`/llms.txt`>Agent-readable onboarding</a></li>
      <li><a href=`/openapi.yaml`>Same-origin OpenAPI 3.1 contract</a></li>
      <li><a href=`/discovery/resources`>Opt-in merchant discovery catalog</a></li>
      <li><a href=`https://github.com/fastnear/x402-facilitator/issues/new?template=access_request.yml`>Request reference-instance access</a></li>
      <li><a href=`https://github.com/fastnear/x402-facilitator/blob/main/docs/reference-access.md`>Integration and access guide</a></li>
      <li><a href=`https://github.com/fastnear/x402-facilitator/tree/main/examples/resource-server`>Runnable resource-server example</a></li>
      <li><a href=`https://github.com/fastnear/x402-facilitator`>Source and documentation</a></li>
      <li><a href=`https://github.com/fastnear/x402-facilitator/security/policy`>Security policy</a></li>
    </ul>
    <p>The public reference deployment currently serves NEAR mainnet, NEAR
    testnet, and Base mainnet. Base Sepolia is not a live reference instance.</p>
    <p>Service version <code>"
  +:+ version
  +:+ quoted "</code>.</p>
  </main>
</body>
</html>
".

Definition llms_text (c : ServiceConfig) : string :=
  let legacy :=
    if accept_v1 c
    then "A gated legacy x402 v1 transport is also accepted on this EVM instance; v2 remains canonical."
    else "Only canonical x402 v2 is advertised by this instance." in
  let domain :=
    match canonical_eip712_domain (Config.network c) with
    | None => "NEAR payments use the configured canonical NEP-141 Circle USDC contract."
    | Some (name, version) =>
        "ERC-3009 signatures must use the token EIP-712 domain name " +:+ debug_str name
        +:+ ", version " +:+ debug_str version +:+ "."
    end in
  let network := Config.network c in
  let asset := Config.asset c in
  quoted "# FastNEAR x402 facilitator

Open-source, API-key-gated x402 exact-payment verification and durable settlement for Circle USDC on NEAR and Base.

## This instance

- Network: "
  +:+ network
  +:+ quoted "
- Canonical asset: "
  +:+ asset
  +:+ quoted "
- Scheme: exact
- Canonical wire version: x402 v2
- Facilitator fee: 0
- Build version: "
  +:+ version
  +:+ quoted "
- "
  +:+ legacy
  +:+ quoted "
- "
  +:+ domain
  +:+ quoted "

## Public routes

- GET /supported - live payment capabilities and signer identity
- GET /readyz - sanitized settlement readiness
- GET /healthz - process liveness
- GET /llms.txt - this agent-readable, instance-specific onboarding document
- GET /openapi.yaml - same-origin OpenAPI 3.1 contract
- GET /discovery/resources - public opt-in catalog of independently operated merchants; an entry does not claim settlement activity or volume

## Authenticated routes

- POST /verify - read-only payment verification
- POST /settle - durable, idempotent settlement

Resource servers require a separate API key for every deployed instance and environment. Keep the key in server-side secret storage or a mode-0600 regular file. Never put it in payer, browser, issue, log, or source code.

## Integrate

- Access guide: https://github.com/fastnear/x402-facilitator/blob/main/docs/reference-access.md
- Tested TypeScript recipes: https://github.com/fastnear/x402-facilitator/tree/main/examples/resource-server/typescript
- Runnable Express resource server: https://github.com/fastnear/x402-facilitator/tree/main/examples/resource-server
- Access request: https://github.com/fastnear/x402-facilitator/issues/new?template=access_request.yml
- Base merchant pilot: https://github.com/fastnear/x402-facilitator/issues/new?template=base_merchant_pilot.yml
- Source and security: https://github.com/fastnear/x402-facilitator

Base mainnet resource servers must use Circle USDC's exact EIP-712 domain name `USD Coin`, version `2`. Each deployed facilitator instance requires its own credential.

The public reference deployment serves NEAR mainnet, NEAR testnet, and Base mainnet. Base Sepolia is a supported software profile, not a claimed live public instance.
".

Definition page (kind text : string) : Response := MkResponse OK (Some kind) None text.

Definition landing (s : AppState) : Response :=
  page "text/html; charset=utf-8" (landing_page (Config.network (config s)) (Config.asset (config s))).

Definition openapi : Response := page "application/yaml; charset=utf-8" openapi_yaml.

Definition llms (s : AppState) : Response := page "text/plain; charset=utf-8" (llms_text (config s)).

Definition health : Response :=
  raw_json OK (String "{"%char (Canonical.join
    [member "status" (Canonical.json_string "ok"); member "service" (Canonical.json_string SERVICE_NAME);
     member "version" (Canonical.json_string version)] +:+ "}")).

Definition supported_response (s : AppState) : Response :=
  match supported s with
  | Ok r => raw_json OK (supported_to_vec r)
  | Err response => response
  end.

(** ** Serving a request *)

Definition handle (s : AppState) (catalog : Catalog.Catalog) (i : Incoming) (h : Handler)
  : Proc World Response :=
  match h with
  | HandleLanding => ret (landing s)
  | HandleOpenapi => ret openapi
  | HandleLlms => ret (llms s)
  | HandleDiscovery => ret (Catalog.discovery_resources catalog (raw_query i))
  | HandleSupported => ret (supported_response s)
  | HandleHealth => ret health
  | HandleReady => ready s
  | HandleVerify => verify s (http i)
  | HandleSettle => settle s (http i)
  end.

(** The answer to a [HEAD] has no body. *)
Definition strip_body (m : Method) (r : Response) : Response :=
  match m with
  | HEAD => MkResponse (status r) (content_type r) (retry_after r) EmptyString
  | _ => r
  end.

Definition serve (s : AppState) (catalog : Catalog.Catalog) (i : Incoming) : Proc World Response :=
  match dispatch routes (method i) (path i) with
  | inl h => let* r := handle s catalog i h in ret (strip_body (method i) r)
  | inr refusal => ret refusal
  end.

End router.
End Router.
