(* ===== verification/CatalogSpec.v ===== *)
(** * What the catalog promises

    Only admissible resources of the instance's own network and asset are listed, each
    entry of the manifest once, newest first; a query that parses is bounded; and the
    pages of a listing tile it. *)

From stdpp Require Import base gmap strings list numbers sorting.
From Stdlib Require Import Lia NArith ZArith Ascii String.
From S2P Require Import Prelude Text Encoding Json Readiness Schema Protocol Canonical Near Scheme Config.
From S2P Require Import Auth Demo Service Http Catalog.

Open Scope string_scope.
Open Scope list_scope.
Open Scope N_scope.

Module CatalogSpec.
Import Catalog.

Lemma invalid_unless_ok b m u : invalid_unless b m = Ok u → b = true.
Proof. by destruct b. Qed.

Ltac admitted_inv :=
  unfold invalid in *; checks_inv;
  repeat match goal with
  | H : invalid_unless _ _ = Ok _ |- _ => apply invalid_unless_ok in H
  | H : _ || _ = false |- _ => apply orb_false_iff in H as [? ?]
  | H : _ && _ = true |- _ => apply andb_true_iff in H as [? ?]
  | H : negb _ = false |- _ => apply negb_false_iff in H
  | H : String.eqb _ _ = true |- _ => apply String.eqb_eq in H
  | H : (_ =? _) = false |- _ => apply N.eqb_neq in H
  | H : (_ =? _) = true |- _ => apply N.eqb_eq in H
  | H : (_ <? _) = false |- _ => apply N.ltb_ge in H
  | H : bool_decide _ = false |- _ => apply bool_decide_eq_false in H
  end.

Lemma asset_matches_trans network a b c :
  asset_matches network a b = true → asset_matches network b c = true → asset_matches network a c = true.
Proof.
  unfold asset_matches. destruct (starts_with _ _).
  - rewrite !eq_ignore_ascii_case_spec. congruence.
  - rewrite !String.eqb_eq. congruence.
Qed.

(** ** Order *)

Lemma resource_cmp_refl r : resource_cmp r r = Eq.
Proof. unfold resource_cmp. by rewrite Z.compare_refl, bytes_cmp_refl. Qed.

Lemma bytes_cmp_lt_trans a b c : bytes_cmp a b = Lt → bytes_cmp b c = Lt → bytes_cmp a c = Lt.
Proof.
  revert b c. induction a as [|x a IH]; intros [|y b] [|z c]; try done. cbn.
  destruct (N.compare_spec (byte_val x) (byte_val y)) as [Exy|Lxy|Gxy]; [| | done];
    destruct (N.compare_spec (byte_val y) (byte_val z)) as [Eyz|Lyz|Gyz]; try done; intros H1 H2;
    destruct (N.compare_spec (byte_val x) (byte_val z)); try done; try lia. by eapply IH.
Qed.

Definition resource_lt (a b : DiscoveryResource) : Prop := resource_cmp a b = Lt.

Lemma resource_cmp_antisym a b : resource_cmp b a = CompOpp (resource_cmp a b).
Proof.
  unfold resource_cmp. rewrite Z.compare_antisym, bytes_cmp_antisym.
  destruct (Z.compare (updated_at b) (updated_at a)); done.
Qed.

#[local] Instance resource_lt_trans : Transitive resource_lt.
Proof.
  intros a b c. unfold resource_lt, resource_cmp.
  destruct (Z.compare_spec (updated_at b) (updated_at a)); [| | done];
    destruct (Z.compare_spec (updated_at c) (updated_at b)); try done; intros H1 H2;
    destruct (Z.compare_spec (updated_at c) (updated_at a)); try done; try lia.
  by eapply bytes_cmp_lt_trans.
Qed.

(** Equal in the order only when the resources are. *)
Lemma resource_cmp_eq a b : resource_cmp a b = Eq → resource a = resource b.
Proof.
  unfold resource_cmp. destruct (Z.compare _ _); try done. apply bytes_cmp_eq.
Qed.

Lemma insert_sorted_perm r l : insert_sorted r l ≡ₚ r :: l.
Proof.
  induction l as [|x l IH]; [done |]. cbn. destruct (resource_cmp r x); try done. rewrite IH. constructor.
Qed.

Lemma sort_resources_perm l : sort_resources l ≡ₚ l.
Proof. induction l as [|r l IH]; [done |]. cbn. by rewrite insert_sorted_perm, IH. Qed.

Lemma insert_sorted_sorted r l :
  StronglySorted resource_lt l → (∀ x, x ∈ l → resource x ≠ resource r) →
  StronglySorted resource_lt (insert_sorted r l).
Proof.
  induction 1 as [|x l Hs IH Hx]; intros Hne; cbn; [repeat constructor |].
  destruct (resource_cmp r x) eqn:E.
  - apply resource_cmp_eq in E. destruct (Hne x); [by left | done].
  - constructor; [by constructor |]. constructor; [done |].
    eapply Forall_impl; [exact Hx |]. intros y. by apply resource_lt_trans.
  - constructor; [apply IH; intros y Hy; apply Hne; by right |].
    rewrite insert_sorted_perm. constructor; [| done].
    unfold resource_lt. rewrite resource_cmp_antisym, E. done.
Qed.

Lemma sort_resources_sorted l :
  NoDup (resource <$> l) → StronglySorted resource_lt (sort_resources l).
Proof.
  induction l as [|r l IH]; cbn; [constructor |]. intros [Hr Hl]%NoDup_cons.
  apply insert_sorted_sorted; [by apply IH |]. intros x Hx E. apply Hr. rewrite <- E.
  apply list_elem_of_fmap. exists x. split; [done |]. by rewrite (sort_resources_perm l) in Hx.
Qed.

Section catalog.
Context `{Near.External} `{CatalogExternal}.

(** ** Admission *)

(** Payment terms a buyer can rely on: the exact scheme, canonical USDC of a supported
    network, a positive amount of atomic units that fits 128 bits. *)
Definition sound_terms (a : DiscoveryPaymentRequirements) : Prop :=
  scheme a = "exact" ∧ 0 < max_timeout_seconds a ∧
  is_decimal (amount a) = true ∧ 0 < dec_value (amount a) <= u128_max ∧
  ∃ usdc, Config.canonical_usdc_asset (network a) = Some usdc ∧
    asset_matches (network a) (asset a) usdc = true.

(** A URL the catalog may point to. *)
Definition public_https (value : string) (u : Config.Url) : Prop :=
  url_parse value = Some u ∧ byte_len value <= MAX_URL_BYTES ∧ Config.url_scheme u = "https" ∧
  Config.url_username u = EmptyString ∧ Config.url_password u = None ∧
  ∃ host, Config.host_str u = Some host ∧ Encoding.parses_as_ip host = false ∧
    eq_ignore_ascii_case host "localhost" = false.

Lemma validate_url_ok name value u :
  validate_public_https_url name value = Ok u → public_https value u.
Proof.
  unfold validate_public_https_url. intros Hv. admitted_inv. simplify_eq. unfold public_https.
  split_and!; try done.
  - by destruct (Config.url_username u).
  - by apply eq_None_not_Some.
  - eexists. split_and!; done.
Qed.

Lemma positive_amount s :
  is_empty s = false → starts_with "0" s = false → all_bytes is_ascii_digit s = true →
  parse_uint u128_max s ≠ None → is_decimal s = true ∧ 0 < dec_value s <= u128_max.
Proof.
  intros He H0s Hd Hp. assert (is_decimal s = true) as Hs by (unfold is_decimal; by rewrite He, Hd).
  split; [done |]. rewrite parse_uint_decimal in Hp by done. unfold try_from in Hp.
  destruct (N.leb_spec (dec_value s) u128_max); [| done]. split; [| done].
  destruct s as [|c s]; [done |]. cbn in Hd, H0s. apply andb_true_iff in Hd as [Hc Hd].
  unfold dec_value. cbn [dec_value_from]. rewrite dec_value_from_split.
  assert (digit_val c ≠ 0) as Hv.
  { unfold starts_with in H0s. cbn in H0s. destruct (Ascii.eqb_spec "0" c) as [<-|Hne]; [done |].
    intros E. apply Hne. unfold is_ascii_digit, in_range in Hc. apply andb_true_iff in Hc as [Hc _].
    apply N.leb_le in Hc. unfold digit_val, byte_val in *. change (N_of_ascii "0") with 48 in Hc.
    rewrite <- (ascii_N_embedding "0"), <- (ascii_N_embedding c). f_equal. change (N_of_ascii "0") with 48. lia. }
  pose proof (N.pow_nonzero 10 (N.of_nat (String.length s))). nia.
Qed.

Lemma validate_requirements_ok a u : validate_requirements a = Ok u → sound_terms a.
Proof.
  unfold validate_requirements. intros Hv. admitted_inv. unfold sound_terms.
  destruct (positive_amount (amount a)) as [Hd Hr]; try done.
  split_and!; try done; try lia. eauto.
Qed.

Lemma validate_accepts_ok network0 asset0 l u :
  validate_accepts network0 asset0 l = Ok u →
  ∀ a, a ∈ l → sound_terms a ∧ network a = network0 ∧ asset_matches network0 (asset a) asset0 = true.
Proof.
  revert u. induction l as [|r l IH]; intros u Hv a; [by intros ?%elem_of_nil |]. cbn in Hv. admitted_inv.
  rewrite elem_of_cons. intros [->|Ha]; [| by eapply IH].
  split_and!; [by eapply validate_requirements_ok | done | done].
Qed.

(** What admission establishes of an entry. *)
Record admitted (e : CatalogEntry) (normalized : string) (instant : Z) : Prop := MkAdmitted {
  admitted_url : ∃ u, public_https (e_resource e) u ∧ normalized = Config.serialization u ∧
    is_some_and (Config.host_str u)
      (λ host, existsb (eq_ignore_ascii_case host) OPERATOR_OWNED_RESOURCE_HOSTS) = false;
  admitted_instant : parse_from_rfc3339 (e_last_updated e) = Some instant;
  admitted_terms : ∃ first rest, e_accepts e = first :: rest ∧ (List.length (first :: rest) <= 4)%nat ∧
    ∀ a, a ∈ first :: rest →
      sound_terms a ∧ network a = network first ∧ asset_matches (network first) (asset a) (asset first) = true
}.

Lemma validate_entry_ok e normalized instant :
  validate_entry e = Ok (normalized, instant) → admitted e normalized instant.
Proof.
  unfold validate_entry. intros Hv. destruct (e_accepts e) as [|first rest] eqn:Ea; admitted_inv; [done |].
  simplify_eq.
  match goal with E : validate_public_https_url "resource" _ = Ok ?u |- _ =>
    apply validate_url_ok in E; split; [exists u; done | |] end.
  - match goal with E : validate_timestamp _ (e_last_updated e) = Ok _ |- _ => by apply ok_or_ok in E end.
  - exists first, rest. split_and!; [done | unfold MAX_ACCEPTS in *; lia |].
    intros a Ha. by eapply validate_accepts_ok.
Qed.

(** An entry of the manifest, as listed on a network and asset. *)
Definition listed (network0 asset0 : string) (e : CatalogEntry) : option DiscoveryResource :=
  first ← head (e_accepts e);
  instant ← parse_from_rfc3339 (e_last_updated e);
  if String.eqb (network first) network0 && asset_matches network0 (asset first) asset0
  then Some (into_resource e instant) else None.

(** A resource that was admitted, and its normalized URL. *)
Definition from_admitted (network0 asset0 : string) (r : DiscoveryResource) (normalized : string) : Prop :=
  ∃ e, admitted e normalized (updated_at r) ∧ r = into_resource e (updated_at r) ∧
    listed network0 asset0 e = Some r.

Lemma select_entries_ok network0 asset0 l seen selected :
  select_entries network0 asset0 l seen = Ok selected →
  selected = omap (listed network0 asset0) l ∧ NoDup (resource <$> selected) ∧
  ∀ r, r ∈ selected → ∃ normalized, normalized ∉ seen ∧ from_admitted network0 asset0 r normalized.
Proof.
  revert seen selected. induction l as [|e l IH]; intros seen selected; cbn.
  { intros [= <-]. split_and!; [done | constructor | by intros r ?%elem_of_nil]. }
  intros Hv. checks_inv. destruct x as [normalized instant]. admitted_inv.
  match goal with E : select_entries _ _ l _ = Ok ?rest |- _ =>
    destruct (IH _ _ E) as (-> & Hn & Hr) end.
  match goal with E : validate_entry e = Ok _ |- _ => apply validate_entry_ok in E as Ha end.
  pose proof (admitted_instant _ _ _ Ha) as Ei.
  match goal with E : head (e_accepts e) = Some ?f |- _ => rename E into Ef; set (first := f) in * end.
  assert (listed network0 asset0 e =
    if String.eqb (network first) network0 && asset_matches network0 (asset first) asset0
    then Some (into_resource e instant) else None) as El by (unfold listed; by rewrite Ef, Ei).
  destruct (String.eqb (network first) network0 && asset_matches network0 (asset first) asset0);
    simplify_eq; rewrite El.
  - split; [done |]. split.
    + cbn. constructor; [| done]. intros (r & Er & Hin)%list_elem_of_fmap.
      destruct (Hr r Hin) as (normalized' & Hseen & e' & Ha' & Er' & _).
      destruct (admitted_url _ _ _ Ha) as (u & (Hu & _) & -> & _).
      destruct (admitted_url _ _ _ Ha') as (u' & (Hu' & _) & -> & _).
      rewrite Er' in Er. cbn in Er. rewrite <- Er, Hu in Hu'. simplify_eq. set_solver.
    + intros r [->|Hin]%elem_of_cons.
      * exists normalized. split; [done |]. exists e. done.
      * destruct (Hr r Hin) as (normalized' & Hseen & Hf). exists normalized'. split; [set_solver | done].
  - split_and!; [done | done |]. intros r Hin. destruct (Hr r Hin) as (normalized' & Hseen & Hf).
    exists normalized'. split; [set_solver | done].
Qed.

(** C40: The catalog lists what was admitted and nothing else.  When a manifest loads
    for an instance, its resources are exactly the manifest's entries on the instance's
    network and asset, each once, newest first and by URL within the same instant.
    Each names a public HTTPS host that is not one of the operator's own, has one to
    four payment options, and every option is on the instance's network, in its asset,
    with sound terms. *)
Theorem catalog_lists_the_admitted source network0 asset0 c :
  from_json_for source network0 asset0 = Ok c →
  ∃ m, manifest_from_str source = Some m ∧
    resources c ≡ₚ omap (listed network0 asset0) (manifest_resources m) ∧
    StronglySorted resource_lt (resources c) ∧
    ∀ r, r ∈ resources c →
      (∃ u host, public_https (resource r) u ∧ Config.host_str u = Some host ∧
         existsb (eq_ignore_ascii_case host) OPERATOR_OWNED_RESOURCE_HOSTS = false) ∧
      (1 <= List.length (accepts r) <= 4)%nat ∧
      ∀ a, a ∈ accepts r →
        sound_terms a ∧ network a = network0 ∧ asset_matches network0 (asset a) asset0 = true.
Proof.
  unfold from_json_for. intros Hv. admitted_inv. simplify_eq.
  match goal with E : manifest_from_str source = Some ?m |- _ => exists m; split; [done |] end.
  match goal with E : select_entries _ _ _ _ = Ok _ |- _ =>
    destruct (select_entries_ok _ _ _ _ _ E) as (-> & Hn & Hr) end.
  cbn [resources]. split; [apply sort_resources_perm |]. split; [by apply sort_resources_sorted |].
  intros r Hin. rewrite sort_resources_perm in Hin.
  destruct (Hr r Hin) as (normalized & _ & e & Ha & Er & El).
  destruct (admitted_url _ _ _ Ha) as (u & Hu & _ & Hown).
  destruct (admitted_terms _ _ _ Ha) as (first & rest & Ea & Hlen & Hterms).
  assert (resource r = e_resource e ∧ accepts r = e_accepts e) as [-> ->] by (by rewrite Er).
  rewrite Ea. split_and!.
  - destruct Hu as (? & ? & ? & ? & ? & host & Hh & ?). rewrite Hh in Hown. exists u, host.
    split_and!; try done. unfold public_https. eauto 10.
  - cbn. lia.
  - cbn in *. lia.
  - unfold listed in El. rewrite Ea, (admitted_instant _ _ _ Ha) in El. cbn in El.
    destruct (String.eqb_spec (network first) network0) as [<-|]; [| done].
    destruct (asset_matches (network first) (asset first) asset0) eqn:Em; [| done].
    intros a Hin'. destruct (Hterms a Hin') as (Hs & Hnet & Hass). split_and!; try done.
    by eapply asset_matches_trans.
Qed.

(** ** Queries *)

Definition bounded_filter (o : option string) : Prop :=
  ∀ v, o = Some v → v ≠ EmptyString ∧ byte_len v <= MAX_FILTER_BYTES ∧ Encoding.has_control v = false.

Definition bounded_query (q : CatalogQuery) : Prop :=
  1 <= limit q <= MAX_LIMIT ∧ offset q <= u64_max ∧
  bounded_filter (q_type q) ∧ bounded_filter (q_pay_to q) ∧ bounded_filter (q_scheme q) ∧
  bounded_filter (q_network q) ∧ bounded_filter (q_extension q).

Lemma validate_filter_ok name value v : validate_filter name value = Ok v → bounded_filter (Some v).
Proof.
  unfold validate_filter, validate_text. intros Hv w [= <-]. admitted_inv. simplify_eq.
  split_and!; try done. by intros ->.
Qed.

Lemma parse_bounded_ok name value lo hi n : parse_bounded_integer name value lo hi = Ok n → lo <= n <= hi.
Proof.
  unfold parse_bounded_integer. intros Hv. admitted_inv. simplify_eq.
  split; by apply N.leb_le.
Qed.

Lemma apply_parameter_ok q key value q' :
  apply_parameter q key value = Ok q' → bounded_query q → bounded_query q'.
Proof.
  unfold apply_parameter, bounded_query. intros Hv (Hl & Ho & H1 & H2 & H3 & H4 & H5).
  repeat case_match; checks_inv; simplify_eq; cbn;
    repeat match goal with
    | E : validate_filter _ _ = Ok _ |- _ => apply validate_filter_ok in E
    | E : parse_bounded_integer _ _ _ _ = Ok _ |- _ => apply parse_bounded_ok in E
    end; split_and!; try done; try lia.
Qed.

Lemma apply_parameters_ok pairs seen q q' :
  apply_parameters pairs seen q = Ok q' → bounded_query q →
  bounded_query q' ∧ NoDup pairs.*1 ∧ ∀ key, key ∈ pairs.*1 → key ∉ seen.
Proof.
  revert seen q. induction pairs as [|[key value] pairs IH]; intros seen q; cbn.
  { intros [= <-] Hq. split_and!; [done | constructor | set_solver]. }
  intros Hv Hq. admitted_inv.
  match goal with E : apply_parameter _ _ _ = Ok _ |- _ => apply apply_parameter_ok in E; [| done] end.
  destruct (IH _ _ Hv) as (Hq' & Hn & Hs); [done |].
  split_and!; [done | | set_solver]. constructor; [| done]. intros Hin. by destruct (Hs key Hin); set_solver.
Qed.

(** A query that parses is bounded: at most 4 KiB of percent-encoded valid UTF-8, no
    parameter given twice, between 1 and 1000 items a page, an offset that fits the
    machine word, and every filter non-empty, at most 200 bytes and free of control
    characters; so no answer of the handler holds more than 1000 resources. *)
Theorem parsed_query_is_bounded raw q c :
  parse_query (Some raw) = Ok q →
  byte_len raw <= MAX_QUERY_BYTES ∧ bounded_query q ∧ NoDup (form_parse raw).*1 ∧
  (List.length (items (list_resources c q)) <= 1000)%nat.
Proof.
  unfold parse_query. cbn [default]. intros Hv. admitted_inv.
  apply apply_parameters_ok in Hv as (Hq & Hn & _).
  2: { split_and!; cbn; try done; intros v [=]. }
  split_and!; [done | done | done |]. cbn. rewrite length_take.
  destruct Hq as [[_ Hl] _]. unfold MAX_LIMIT in Hl. lia.
Qed.

End catalog.

(** ** Pages *)

Definition at_offset (q : CatalogQuery) (n : N) : CatalogQuery :=
  MkQuery (q_type q) (q_pay_to q) (q_scheme q) (q_network q) (q_extension q) (limit q) n.

Definition page (c : Catalog) (q : CatalogQuery) (k : nat) : list DiscoveryResource :=
  items (list_resources c (at_offset q (N.of_nat k * limit q))).

Lemma concat_pages {A} (m : nat) (l : list A) k :
  mjoin (map (λ i, take m (drop (i * m) l)) (seq 0 k)) = take (k * m) l.
Proof.
  induction k as [|k IH]; [done |].
  rewrite seq_S, map_app. cbn [map]. rewrite join_app, IH. cbn [mjoin list_join]. rewrite app_nil_r.
  change (0 + k)%nat with k. rewrite Nat.mul_succ_l.
  apply take_take_drop.
Qed.

(** The pages tile the listing: whatever the page size, reading pages 0, 1, 2, ...
    until the reported total is covered gives exactly the matching resources, in order,
    none twice and none skipped; and every page reports that total. *)
Theorem pages_tile_the_listing c q pages :
  total (pagination (list_resources c q)) <= N.of_nat pages * limit q →
  mjoin (map (page c q) (seq 0 pages)) = List.filter (λ r, resource_matches r q) (resources c) ∧
  ∀ k, total (pagination (list_resources c (at_offset q (N.of_nat k * limit q))))
       = total (pagination (list_resources c q)).
Proof.
  intros Htotal. cbn in Htotal. split; [| done].
  rewrite <- (firstn_all2 (n := pages * N.to_nat (limit q)) (List.filter _ (resources c))) at 1 by lia.
  rewrite <- concat_pages. f_equal. apply map_ext. intros k. unfold page, list_resources. cbn.
  by replace (N.to_nat (N.of_nat k * limit q)) with (k * N.to_nat (limit q))%nat by lia.
Qed.

(** ** A manifest *)

#[local] Existing Instance Demo.external.

(** The entry of the tests, at an hour, under a path. *)
Definition merchant_terms : DiscoveryPaymentRequirements :=
  MkDiscoveryRequirements "exact" "eip155:8453" "0x833589fCD6eDb6E08f4c7C32D4f71b54bdA02913" "1000"
    "0x1111111111111111111111111111111111111111" 300 (Some (ExtraEvm (MkDomain "USD Coin" "2"))).

Definition merchant (path hour : string) : CatalogEntry :=
  MkEntry ("https://merchant.example/" +:+ path) "http" 2 [merchant_terms] hour
    (Some "Independent evidence API") (Some "application/json") (Some "Independent API")
    (Some ["evidence"; "base"]) (Some "https://merchant.example/icon.png")
    (Some [("bazaar", Object [("info", Object []); ("schema", Object [])])])
    (MkAdmission "12" "https://github.com/example/project/issues/1" "https://merchant.example/payments").

(** A URL parser for hosts without port, query or fragment; times are hours. *)
Definition split_host (rest : string) : string * string :=
  match Auth.split_once "/" rest with Some (h, p) => (h, "/" +:+ p) | None => (rest, "/") end.

#[local] Instance demo_catalog : CatalogExternal := {|
  url_parse value :=
    match strip_prefix "https://" value with
    | Some rest =>
        let '(host, path) := split_host rest in
        Some (Config.MkUrl ("https://" +:+ host +:+ path) "https" (Some host) path None None "" None)
    | None => None
    end;
  parse_from_rfc3339 s := Z.of_N <$> parse_uint u64_max s;
  form_parse s := match Auth.split_once "=" s with Some kv => [kv] | None => [] end;
  manifest_from_str s :=
    if String.eqb s "manifest" then Some (MkManifest 1 [merchant "a" "9"; merchant "c" "11"; merchant "b" "11"])
    else if String.eqb s "twice" then Some (MkManifest 1 [merchant "a" "9"; merchant "a" "11"])
    else None;
  page_to_vec r := to_decimal (total (pagination r))
|}.

Definition demo_listing : Catalog :=
  match from_json_for "manifest" "eip155:8453" Config.BASE_MAINNET_USDC with
  | Ok c => c
  | Err _ => empty
  end.

Example newest_first :
  resource <$> resources demo_listing =
    ["https://merchant.example/b"; "https://merchant.example/c"; "https://merchant.example/a"].
Proof. vm_compute. reflexivity. Qed.

Example duplicates_are_refused :
  is_ok (from_json_for "twice" "eip155:8453" Config.BASE_MAINNET_USDC) = false.
Proof. vm_compute. reflexivity. Qed.

(** A host in brackets is not what [IpAddr] parses: an IPv6 literal passes the check for
    a public DNS hostname, while an IPv4 literal and [localhost] do not. *)
Example ipv6_literal_passes_the_host_check :
  map (λ u, is_ok (validate_public_https_url "resource" u))
    ["https://[::1]/work"; "https://127.0.0.1/work"; "https://localhost/work"] = [true; false; false].
Proof. vm_compute. reflexivity. Qed.

Lemma catalog_lists_the_admitted_witness :
  StronglySorted resource_lt (resources demo_listing).
Proof.
  destruct (catalog_lists_the_admitted "manifest" "eip155:8453" Config.BASE_MAINNET_USDC demo_listing)
    as (m & _ & _ & Hs & _); [vm_compute; reflexivity | exact Hs].
Defined.

Lemma parsed_query_is_bounded_witness :
  (List.length (items (list_resources demo_listing
     (MkQuery None None None (Some "eip155:8453") None 100 0))) <= 1000)%nat.
Proof.
  apply (parsed_query_is_bounded "network=eip155:8453" (MkQuery None None None (Some "eip155:8453") None 100 0)
           demo_listing).
  vm_compute. reflexivity.
Defined.

Lemma pages_tile_the_listing_witness :
  mjoin (map (page demo_listing (MkQuery None None None None None 2 0)) (seq 0 2)) = resources demo_listing.
Proof.
  destruct (pages_tile_the_listing demo_listing (MkQuery None None None None None 2 0) 2) as [E _].
  - vm_compute. discriminate.
  - rewrite E. vm_compute. reflexivity.
Defined.

End CatalogSpec.
