(* ===== verification/Startup.v ===== *)
(** * Starting the service

    Models [crates/x402-near-facilitator/src/main.rs]: the one ordered sequence from the
    configuration file to the listener, and the task that reconciles; and the
    [reconcile] command of [bin/admin.rs], which starts the same way.  The connection
    pool's own start is a field of [StartExternal]; serving requests is [Router],
    leadership is [Readiness]. *)

From stdpp Require Import base gmap strings list numbers.
From Stdlib Require Import Lia NArith ZArith Ascii String.
From S2P Require Import Prelude Text Json Readiness Schema Sql Store Clients Receipt Protocol Near Scheme.
From S2P Require Import Config Secrets Telemetry Auth Retry Evm Chain Bootstrap Service Probe Http Catalog.

Open Scope string_scope.
Open Scope list_scope.
Open Scope N_scope.

Module Startup.
Import Store Clients Service.

Class StartExternal : Type := {
  (** [serde_json::from_slice::<ServiceConfig>] *)
  config_from_slice : string → option ServiceConfig;
  (** [PgStore::connect(..).is_ok()], at a tick *)
  database_connects : nat → string → N → bool;
  (** [include_str!] of the catalog's manifest *)
  embedded_manifest : string
}.

Inductive StartError : Type :=
| LoadConfig (e : ConfigError)
| LocateCredentials (e : ConfigError)
| LoadCredentials (e : ConfigError)
| ApplyRpcUrls (e : ConfigError)
| LoadCatalog (e : Catalog.CatalogError)
| LoadTelemetry (e : ConfigError)
| InitializeTelemetry (e : Telemetry.TelemetryError)
| ConnectDatabase
| ValidateSchema (e : StoreError)
| SchemaIncompatible
| InitializeAuthentication (e : Auth.AuthError)
| ConstructProvider (e : Bootstrap.BootError)
| RegisterRelayer (e : StoreError)
| NotLeader
| ReconcileJournal (e : StoreError).

Section startup.
Context `{Near.External} `{Evm.EvmExternal} `{Bootstrap.BootExternal} `{Http.HttpExternal}
  `{Catalog.CatalogExternal} `{Telemetry.TelemetryExternal} `{StartExternal}.
Context (h : Secrets.Host).

(** [ServiceConfig::load] *)
Definition load_config (path : string) : Result ServiceConfig ConfigError :=
  try bytes := ok_or (Secrets.read_file h path) Read in
  try c := ok_or (config_from_slice bytes) Config.Json in
  try _ := validate c in
  Ok c.

(** What both binaries read before they touch anything. *)
Definition configure (path : string) : Result (ServiceConfig * Secrets.RuntimeSecrets) StartError :=
  try c := map_err LoadConfig (load_config path) in
  try files := map_err LocateCredentials (Secrets.from_environment h) in
  try secrets := map_err LoadCredentials (Secrets.load h files) in
  try c := map_err ApplyRpcUrls
             (apply_rpc_url_overrides Catalog.url_parse c (Secrets.primary_rpc_secret secrets)
                (Secrets.backup_rpc_secret secrets)) in
  Ok (c, secrets).

(** [AppState::new] with a fresh [ReadinessState]. *)
Definition new_app (c : ServiceConfig) (a : Auth.ApiKeyAuthenticator) (f : option Scheme.Facilitator)
  (p : Chain.ChainProvider) : Proc World AppState :=
  let* _ := modify (λ w, with_process (fresh_process (max_concurrent_verify (request_limits c)))
                           (with_gates Readiness.default w)) in
  ret (MkApp c a f p).

Definition connect_database (secrets : Secrets.RuntimeSecrets) (c : ServiceConfig)
  : Proc World (Result unit StartError) :=
  let* connected := consult (λ n, database_connects n (Secrets.database_url secrets)
                                    (database_max_connections c)) in
  ret (if connected then Ok tt else Err ConnectDatabase).

(** [main], up to the point where tasks are spawned and the listener opens. *)
Definition start (path : string) : Proc World (Result (AppState * Catalog.Catalog) StartError) :=
  let? configured := ret (configure path) in
  let '(c, secrets) := configured in
  let? catalog := ret (map_err LoadCatalog (Catalog.load_embedded_for embedded_manifest c)) in
  let? otel := ret (map_err LoadTelemetry (Secrets.otel_from_environment h Catalog.url_parse)) in
  let? _ := ret (map_err InitializeTelemetry (Telemetry.initialize h otel)) in
  let? _ := connect_database secrets c in
  let? compatible := map_err_proc ValidateSchema (schema_compatible Http.migration_checksum) in
  let? _ := ret (if compatible : bool then Ok tt else Err SchemaIncompatible) in
  let? auth := ret (map_err InitializeAuthentication
                      (Auth.new_authenticator (environment c) (Secrets.api_key_pepper secrets))) in
  let? built := map_err_proc ConstructProvider
                  (Bootstrap.build_chain_provider c (Secrets.relayer_key secrets)) in
  let '(facilitator, provider) := built in
  let? _ := map_err_proc RegisterRelayer
              (upsert_relayer (network c) (Chain.signer_account_id provider)
                 (Chain.provider_public_key provider)) in
  let* s := new_app c auth facilitator provider in
  let* _ := Probe.refresh_chain_readiness s in
  ret (Ok (s, catalog)).

(** One round of the reconciliation task. *)
Definition reconciliation_round (s : AppState) : Proc World bool :=
  let* g := gets (λ w, Readiness.snapshot (gates w)) in
  if Readiness.s_leadership g && negb (Readiness.s_reconciliation g) then
    let* r := reconcile s in ret (is_ok r)
  else ret true.

(** *** The administrative [reconcile] command *)

(** [sleep(100ms)], during which the leadership task runs. *)
Definition pause : Proc World unit := consult (λ _, tt).

Fixpoint await_leadership (polls : nat) : Proc World bool :=
  match polls with
  | O => ret false
  | S polls =>
      let* g := gets (λ w, Readiness.snapshot (gates w)) in
      if Readiness.s_leadership g then ret true
      else let* _ := pause in await_leadership polls
  end.

(** [LeadershipHandle::shutdown]: the leadership task ends with its gate closed. *)
Definition shutdown_leadership : Proc World unit :=
  modify (λ w, with_gates (Readiness.set_leadership false (gates w)) w).

Definition reconcile_command (path : string) : Proc World (Result unit StartError) :=
  let? configured := ret (configure path) in
  let '(c, secrets) := configured in
  let? _ := ret (map_err InitializeTelemetry (Telemetry.initialize h None)) in
  let? _ := connect_database secrets c in
  let? auth := ret (map_err InitializeAuthentication
                      (Auth.new_authenticator (environment c) (Secrets.api_key_pepper secrets))) in
  let? built := map_err_proc ConstructProvider
                  (Bootstrap.build_chain_provider c (Secrets.relayer_key secrets)) in
  let '(facilitator, provider) := built in
  let* s := new_app c auth facilitator provider in
  let* _ := Probe.refresh_chain_readiness s in
  let* acquired := timeout 10000000 (await_leadership 100) in
  if negb (default false acquired) then let* _ := shutdown_leadership in ret (Err NotLeader)
  else
  let? _ := map_err_proc ReconcileJournal (reconcile s) in
  let* _ := shutdown_leadership in
  ret (Ok tt).

End startup.
End Startup.
