(* ===== verification/Admin.v ===== *)
(** * The administration tool

    Models the [client] and [migrate] commands of
    [crates/x402-near-facilitator/src/bin/admin.rs], and [migrate] with
    [complete_authorization_scrub] of [store.rs].  A command's printed lines are its
    result.  [sqlx]'s migrator is a parameter; [AdminSpec.migrates] states what its
    documentation promises.  The [reconcile] command is in [Startup]; argument parsing and the
    generation of relayer keys are not modelled. *)

From stdpp Require Import base gmap strings list numbers.
From Stdlib Require Import Lia NArith ZArith Ascii String.
From S2P Require Import Prelude Text Json Readiness Schema Sql Store Clients Near Scheme Config Secrets Auth.
From S2P Require Import Retry Evm Chain Bootstrap Service Http Catalog Startup.

Open Scope string_scope.
Open Scope list_scope.
Open Scope N_scope.

Module Admin.
Import Store Clients.
#[local] Existing Instance Config.Environment_eq_dec.

Inductive AdminError : Type :=
| ReadDatabaseUrl (e : Config.ConfigError)
| ConnectDatabase
| ReadPepper (e : Config.ConfigError)
| GenerateKey (e : Auth.AuthError)
| NotDecimal
| StoreFailed (context : string) (e : StoreError)
| InvalidEnvironment
| ClientNotFound
| TierMismatch (network environment : string)
| PolicyInvalid (message : string).

(** ** Checks *)

Definition validate_decimal (value : string) : Result unit AdminError :=
  if is_empty value || negb (all_bytes is_ascii_digit value) then Err NotDecimal else Ok tt.

Definition environment_name (e : Config.Environment) : string :=
  match e with Config.Mainnet => "mainnet" | Config.Testnet => "testnet" end.

Definition parse_environment (value : string) : Result Config.Environment AdminError :=
  if String.eqb value "mainnet" then Ok Config.Mainnet
  else if String.eqb value "testnet" then Ok Config.Testnet
  else Err InvalidEnvironment.

Section admin.
Context `{Near.External} `{Auth.AuthExternal} `{Http.HttpExternal} `{Startup.StartExternal}.
Context (h : Secrets.Host).

Definition validate_exact_policy (network asset pay_to : string) : Result unit AdminError :=
  if String.eqb network "near:mainnet" || String.eqb network "near:testnet" then
    try _ := ok_or (Near.parse_account_id asset) (PolicyInvalid "parse asset account") in
    try _ := ok_or (Near.parse_account_id pay_to) (PolicyInvalid "parse payee account") in
    Ok tt
  else if String.eqb network "eip155:8453" || String.eqb network "eip155:84532" then
    if negb (Config.is_evm_address asset)
    then Err (PolicyInvalid ("asset must be a 0x EVM address for " +:+ network))
    else if negb (Config.is_evm_address pay_to)
    then Err (PolicyInvalid ("pay_to must be a 0x EVM address for " +:+ network))
    else Ok tt
  else Err (PolicyInvalid "network must be a supported near or eip155 network").

(** ** Client commands *)

Definition connect (database_url_file : string) : Proc World (Result unit AdminError) :=
  let? url := ret (map_err ReadDatabaseUrl (Secrets.read_secret h database_url_file)) in
  let* connected := consult (λ n, Startup.database_connects n url 2) in
  ret (if connected then Ok tt else Err ConnectDatabase).

(** [Uuid::new_v4()] *)
Definition fresh_id : Proc World N := λ _ n w, (Done (Http.new_v4 n), n, w).

Definition create (database_url_file pepper_file : string) (environment : Config.Environment)
  (name : string) (verify_rate settle_rate : N) (daily_yocto_near : option string)
  : Proc World (Result (N * string) AdminError) :=
  let? _ := connect database_url_file in
  let? pepper := ret (map_err ReadPepper (Secrets.read_secret h pepper_file)) in
  let? key := map_err_proc GenerateKey (Auth.generate environment pepper) in
  let* id := fresh_id in
  let client := Api.MkApiClient id name (environment_name environment)
                  (default (Config.default_client_budget environment) daily_yocto_near)
                  verify_rate settle_rate in
  let? _ := ret (validate_decimal (Api.daily_budget_yocto_near client)) in
  let* key_id := fresh_id in
  let? _ := map_err_proc (StoreFailed "create client")
              (create_client client key_id (Auth.generated_prefix key) (Auth.generated_digest key)) in
  ret (Ok (id, Auth.generated_raw key)).

Definition load_environment (client : N) : Proc World (Result Config.Environment AdminError) :=
  let? environment := map_err_proc (StoreFailed "load client environment") (client_environment_of client) in
  ret (parse_environment environment).

Definition rotate (database_url_file pepper_file : string) (client : N)
  : Proc World (Result (N * string) AdminError) :=
  let? _ := connect database_url_file in
  let? environment := load_environment client in
  let? pepper := ret (map_err ReadPepper (Secrets.read_secret h pepper_file)) in
  let? key := map_err_proc GenerateKey (Auth.generate environment pepper) in
  let* key_id := fresh_id in
  let? _ := map_err_proc (StoreFailed "rotate client key")
              (rotate_client_key client key_id (Auth.generated_prefix key) (Auth.generated_digest key)) in
  ret (Ok (client, Auth.generated_raw key)).

Definition revoke (database_url_file : string) (client : N) : Proc World (Result N AdminError) :=
  let? _ := connect database_url_file in
  let? changed := map_err_proc (StoreFailed "revoke client") (revoke_client client) in
  ret (if negb changed then Err ClientNotFound else Ok client).

Definition allow_payee (database_url_file : string) (client : N) (network asset pay_to : string)
  : Proc World (Result N AdminError) :=
  let? _ := connect database_url_file in
  let? environment := load_environment client in
  let? _ := ret (if bool_decide (Config.network_environment network = Some environment) then Ok tt
                 else Err (TierMismatch network (environment_name environment))) in
  let? _ := ret (validate_exact_policy network asset pay_to) in
  let? _ := map_err_proc (StoreFailed "allow payee") (Clients.allow_payee client network asset pay_to) in
  ret (Ok client).

Definition set_budget (database_url_file : string) (client : N) (daily_yocto_near : string)
  : Proc World (Result N AdminError) :=
  let? _ := ret (validate_decimal daily_yocto_near) in
  let? _ := connect database_url_file in
  let? changed := map_err_proc (StoreFailed "set client budget")
                    (set_client_budget client daily_yocto_near) in
  ret (if negb changed then Err ClientNotFound else Ok client).

(** ** Migrations *)

Definition AUTHORIZATION_SCRUB_PENDING : string := "x402-maintenance:0003-authorization-scrub:pending".

Definition set_comment (comment : string) : Stmt unit := λ d,
  Ok (tt, MkDatabase (settlements d) (global_sponsorship d) (client_sponsorship d) (relayers d)
            (api_clients d) (api_keys d) (api_client_payees d) (settlement_events d)
            (MkSchemaInfo (applied_migrations (schema_info d)) (Some comment))).

(** A statement that leaves every row as it is. *)
Definition upkeep : Proc World (Result unit StoreError) := query (select (λ _, tt)).

Definition complete_authorization_scrub : Proc World (Result unit StoreError) :=
  let? marker := authorization_scrub_marker in
  if bool_decide (marker = Some AUTHORIZATION_SCRUB_COMPLETE) then ret (Ok tt)
  else if bool_decide (marker = Some AUTHORIZATION_SCRUB_PENDING) then
    (* a dedicated connection, SET statement_timeout, VACUUM (FULL, ANALYZE), close *)
    let? _ := upkeep in
    let? _ := upkeep in
    let* rewrite := upkeep in
    let? _ := upkeep in
    let? _ := ret rewrite in
    query (set_comment AUTHORIZATION_SCRUB_COMPLETE)
  else ret (Err (Corrupt "authorization-scrub maintenance marker is missing or invalid")).

(** [embedded_migrator().run(&self.pool)] *)
Context (migrator_run : Proc World (Result unit StoreError)).

Definition migrate_store : Proc World (Result unit StoreError) :=
  let? _ := migrator_run in complete_authorization_scrub.

Definition migrate (database_url_file : string) : Proc World (Result unit AdminError) :=
  let? _ := connect database_url_file in
  map_err_proc (StoreFailed "apply migrations") migrate_store.

End admin.
End Admin.
