(* ===== verification/DemoService.v ===== *)
(** * A concrete facilitator

    The deployment of [Demo] with its database, one client with a key and a payee, and
    the request it posts. *)

From stdpp Require Import base gmap strings list numbers.
From Stdlib Require Import Lia NArith ZArith Ascii String.
From S2P Require Import Prelude Text Json Readiness Schema RateLimit Sql Store Clients Journal.
From S2P Require Import StoreProofs StoreSpec Receipt Protocol Canonical Near Scheme Config Auth ClientsSpec.
From S2P Require Import Demo NearSpec Retry Evm DemoEvm Chain Service Http.

Open Scope string_scope.
Open Scope list_scope.
Open Scope N_scope.

Module DemoService.
Import Store Journal StoreSpec Clients Service Http.

#[export] Existing Instance Demo.external.
#[export] Existing Instance DemoEvm.external.
#[export] Existing Instance ClientsSpec.demo_auth.
#[export] Instance http : HttpExternal := {|
  new_v4 n := N.of_nat n + 100;
  migration_checksum _ := "checksum";
  chain_id_from_str s := Some s
|}.

Definition config : ServiceConfig :=
  Demo.sample_config Near "near:mainnet" "usdc.near" "relayer.near" 30000000000000
    (MkSponsorship "1000" "1000" "40" "200" "100") None.

Definition authenticator : Auth.ApiKeyAuthenticator :=
  Auth.MkAuthenticator Mainnet ClientsSpec.demo_pepper.

(** The registered scheme over the provider's own chain. *)
Definition scheme (p : Near.NearChainProvider) : Scheme.Facilitator :=
  Scheme.MkFacilitator (Scheme.build p None) (λ _, true) Ok.

(** A facilitator whose chain answers [lookup] about the outer transaction. *)
Definition app (lookup : Result Near.TransactionLookup Near.NearRpcError) : AppState :=
  MkApp config authenticator (Some (scheme (Demo.provider lookup)))
    (Chain.NearProvider (Demo.provider lookup)).

(** The chain executes the transaction as soon as it sees it. *)
Definition demo_app : AppState := app (Ok (Near.LookupFinal Demo.final_outcome)).
(** A chain that takes its time: it acknowledges nothing and knows nothing yet. *)
Definition slow_app : AppState := app (Ok Near.LookupUnknown).

Definition gates : Readiness.ReadinessState :=
  Readiness.set_leadership true (Readiness.set_relayer true (Readiness.set_rpc true
    (Readiness.set_reconciliation true (Readiness.set_database true Readiness.default)))).

Definition schema : SchemaInfo :=
  MkSchemaInfo (list_to_map (embedded_migrator migration_checksum)) (Some AUTHORIZATION_SCRUB_COMPLETE).

(** The shop of [ClientsSpec], allowed to be paid, and a relayer in good standing. *)
Definition database : Database_ :=
  MkDatabase ∅ ∅ ∅
    {[ ("near:mainnet", "relayer.near", "ed25519:relayer") := MkRelayer RelayerActive None None ]}
    (<[7 := client_7]> (api_clients (db ClientsSpec.shop_world)))
    (api_keys (db ClientsSpec.shop_world))
    {[ (9, "near:mainnet", "usdc.near", "shop.near"); (7, "near:mainnet", "usdc.near", "shop.near") ]}
    [] schema.

Definition world : World := MkWorld database gates [] (fresh_process 64).

Definition request : HttpRequest :=
  MkHttpRequest
    [("authorization", Some ("Bearer " +:+ Auth.generated_raw ClientsSpec.demo_key));
     ("content-type", Some "application/json; charset=utf-8")]
    (Some Demo.request_text).

(** What the handler claims for it. *)
Definition payment_claim : NewSettlement :=
  MkNew 1 7 None (Demo.hash32 "h") (Demo.hash32 "f") "near" (Demo.hash32 "h") 2 "exact"
    "near:mainnet" "usdc.near" "shop.near" "2500" "alice.near" Near
    (Some "ed25519:alice") (Some "42") (Some "150") None None Null "40" "1000" "1000".

(** A deployment in which the spawned worker of settlement [id] runs at tick [k]. *)
Definition worker_at (s : AppState) (k : nat) (id : N) : Env World :=
  MkEnv (λ n w, if (n =? k)%nat
                then (run_new_settlement s id Demo.request_text (quiet_env World) 0%nat w).2 else w)
    (λ _, Up) (λ _, 0%Z).

End DemoService.
