(* ===== verification/ConfigSpec.v ===== *)
(** * What a validated configuration guarantees

    The launch policy of [config.rs] as facts about numbers and networks rather than
    strings, and that the policy it journals with every claim is one recovery reads
    back. *)

From stdpp Require Import base gmap strings list numbers.
From Stdlib Require Import Lia NArith ZArith Ascii String.
From S2P Require Import Prelude Text Json Readiness Schema Sql Store Receipt Protocol Canonical.
From S2P Require Import ProtocolSpec Near Config Auth Demo Retry Evm Chain Service.

Open Scope string_scope.
Open Scope list_scope.
Open Scope N_scope.

Module ConfigSpec.
Import Store Service.

Lemma invalid_if_ok b m u : invalid_if b m = Ok u → b = false.
Proof. by destruct b. Qed.

(** Inverts the checks of a validation that passed. *)
Ltac validated :=
  checks_inv;
  repeat match goal with H : invalid_if _ _ = Ok _ |- _ => apply invalid_if_ok in H end.

Section validated.
Context `{Near.External}.

Lemma validate_decimals_ok l u name value :
  validate_decimals l = Ok u → In (name, value) l → is_decimal value = true.
Proof.
  revert u. induction l as [|[n v] l IH]; intros u; [done |]. cbn [validate_decimals].
  intros Hv [E|Hin]; validated; [| by eapply IH].
  simplify_eq. unfold validate_unsigned_decimal in *. validated. unfold is_decimal.
  match goal with E : _ || _ = false |- _ => apply orb_false_iff in E as [-> E]; apply negb_false_iff in E as -> end.
  done.
Qed.

Lemma decimal_digits s : is_decimal s = true → all_bytes is_ascii_digit s = true.
Proof. unfold is_decimal. by intros [_ ?]%andb_true_iff. Qed.

Lemma compare_of_decimals a b :
  is_decimal a = true → is_decimal b = true →
  Config.compare_decimal a b = N.compare (dec_value a) (dec_value b).
Proof.
  intros Ha%decimal_digits Hb%decimal_digits. change Config.compare_decimal with Protocol.compare_decimal.
  by apply ProtocolSpec.compare_decimal_numeric.
Qed.

(** The amounts of a policy, as numbers. *)
Definition amount_policy (c : ServiceConfig) : Prop :=
  let s := sponsorship c in
  1000 <= dec_value (minimum_amount c) ∧
  dec_value (balance_hard_stop_yocto_near s) < dec_value (balance_warning_yocto_near s) ∧
  dec_value (reservation_yocto_near s) <= dec_value (default_client_daily_yocto_near s) ∧
  dec_value (reservation_yocto_near s) <= dec_value (global_daily_yocto_near s).

(** The fee a settlement may cost on an EVM chain fits what is reserved for it. *)
Definition liability_policy (c : ServiceConfig) (e : Eip155Config) : Prop :=
  0 < policy_confirmations e <= 2 ^ 31 - 1 ∧ 0 < dec_value (max_fee_per_gas_wei e) ∧
  0 < gas_limit e ∧
  gas_limit e * dec_value (max_fee_per_gas_wei e) < dec_value (reservation_yocto_near (sponsorship c)) ∧
  dec_value (reservation_yocto_near (sponsorship c)) <= u128_max.

Lemma parse_decimal max s n : is_decimal s = true → parse_uint max s = Some n → n = dec_value s ∧ n <= max.
Proof.
  intros Hs Hp. split; [| by eapply parse_uint_bound]. rewrite parse_uint_decimal in Hp by done.
  unfold try_from in Hp. case_match; by simplify_eq.
Qed.

Lemma validate_eip155_policy c u :
  validate_eip155 c = Ok u → is_decimal (reservation_yocto_near (sponsorship c)) = true →
  ∃ e, eip155 c = Some e ∧ is_decimal (max_fee_per_gas_wei e) = true ∧ liability_policy c e ∧
    chain_id e = expected_chain_id (environment c) ∧
    network c = "eip155:" +:+ to_decimal (expected_chain_id (environment c)) ∧
    eq_ignore_ascii_case (asset c) (expected_usdc (environment c)) = true.
Proof.
  intros Hv Hres. unfold validate_eip155, validate_unsigned_decimal in Hv. validated.
  repeat match goal with
  | E : negb _ = false |- _ => apply negb_false_iff in E
  | E : _ && _ = true |- _ => apply andb_true_iff in E as [? ?]
  | E : _ || _ = false |- _ => apply orb_false_iff in E as [? ?]
  | E : (_ =? _) = true |- _ => apply N.eqb_eq in E
  | E : (_ =? _) = false |- _ => apply N.eqb_neq in E
  | E : (_ <? _) = false |- _ => apply N.ltb_ge in E
  | E : (_ <=? _) = true |- _ => apply N.leb_le in E
  | E : (_ <=? _) = false |- _ => apply N.leb_gt in E
  | E : String.eqb _ _ = true |- _ => apply String.eqb_eq in E
  end.
  match goal with E : eip155 c = Some ?e |- _ => exists e end.
  match goal with E : checked_mul _ _ _ = Some _ |- _ => unfold checked_mul in E; case_match; simplify_eq end.
  assert (is_decimal (max_fee_per_gas_wei x) = true) as Hfee
    by (unfold is_decimal; apply andb_true_iff; by rewrite negb_true_iff).
  match goal with E : parse_uint _ (max_fee_per_gas_wei _) = Some _ |- _ =>
    apply parse_decimal in E as [-> _]; [| done] end.
  match goal with E : parse_uint _ (reservation_yocto_near _) = Some _ |- _ =>
    apply parse_decimal in E as [-> ?]; [| done] end.
  unfold liability_policy, MAX_JOURNALED_CONFIRMATIONS in *. split_and!; try done; lia.
Qed.

(** What [validate] checks before it looks at the chain. *)
Lemma validate_common c u :
  validate c = Ok u →
  (∀ name value, In (name, value) (decimal_fields c) → is_decimal value = true) ∧ amount_policy c ∧
  host_str (primary_rpc_url c) ≠ host_str (backup_rpc_url c) ∧
  is_loopback (bind_address c).1 = true ∧
  match chain_kind c with Near => validate_near c = Ok u | Eip155 => validate_eip155 c = Ok u end.
Proof.
  intros Hv. unfold validate in Hv. validated.
  repeat match goal with
  | E : _ || _ = false |- _ => apply orb_false_iff in E as [? ?]
  | E : negb _ = false |- _ => apply negb_false_iff in E
  | E : bool_decide _ = false |- _ => apply bool_decide_eq_false in E
  end.
  assert (∀ name value, In (name, value) (decimal_fields c) → is_decimal value = true) as Hd
    by (intros; by eapply validate_decimals_ok).
  assert (is_decimal "1000" = true) as H1000 by done.
  split_and!; try done; [| by destruct (chain_kind c); destruct u].
  repeat match goal with
  | E : is_lt (Config.compare_decimal _ _) = _ |- _ =>
      rewrite compare_of_decimals in E; [| (by eapply Hd; cbn; tauto) || done ..]
  | E : is_gt (Config.compare_decimal _ _) = _ |- _ =>
      rewrite compare_of_decimals in E; [| (by eapply Hd; cbn; tauto) || done ..]
  end.
  unfold amount_policy. change 1000 with (dec_value "1000").
  unfold is_lt, is_gt in *.
  repeat match goal with
  | E : match (?a ?= ?b) with _ => _ end = _ |- _ => destruct (N.compare_spec a b); try discriminate; clear E
  end; split_and!; lia.
Qed.

Lemma validate_profile c u :
  validate c = Ok u →
  network_environment (network c) = Some (environment c) ∧
  is_some_and (canonical_usdc_asset (network c)) (eq_ignore_ascii_case (asset c)) = true.
Proof.
  intros Hv. destruct (validate_common c u Hv) as (Hd & _ & _ & _ & Hk).
  destruct (chain_kind c).
  - unfold validate_near in Hk. validated.
    repeat match goal with
    | E : negb _ = false |- _ => apply negb_false_iff in E
    | E : String.eqb _ _ = true |- _ => apply String.eqb_eq in E
    end.
    rewrite H0, H1. destruct (environment c); split; reflexivity.
  - destruct (validate_eip155_policy c u Hk) as (e & _ & _ & _ & _ & Hn & Ha);
      [by eapply Hd; cbn; tauto |].
    rewrite Hn. destruct (environment c); split; try reflexivity; exact Ha.
Qed.

(** C34: A configuration that validates is a safe policy, in numbers: the minimum amount
    is at least 1000 atomic units, the hard stop lies below the warning, one reservation
    never exceeds either daily cap; the two RPC endpoints are different hosts and the
    service binds to loopback only; the network is the environment's own and the asset
    is its canonical USDC; and on an EVM chain the worst-case execution fee (gas limit
    times fee cap, computed without overflow) lies strictly below the reservation, which
    fits 128 bits, and the confirmation depth is positive and fits the journal. *)
Theorem validated_configuration_is_safe c u :
  validate c = Ok u →
  amount_policy c ∧
  host_str (primary_rpc_url c) ≠ host_str (backup_rpc_url c) ∧
  is_loopback (bind_address c).1 = true ∧
  network_environment (network c) = Some (environment c) ∧
  is_some_and (canonical_usdc_asset (network c)) (eq_ignore_ascii_case (asset c)) = true ∧
  (chain_kind c = Eip155 → ∃ e, eip155 c = Some e ∧ liability_policy c e).
Proof.
  intros Hv. destruct (validate_common c u Hv) as (Hd & Ha & Hh & Hl & Hk).
  destruct (validate_profile c u Hv) as [Hn Hasset].
  split_and!; try done. intros Hkind. rewrite Hkind in Hk.
  destruct (validate_eip155_policy c u Hk) as (e & He & _ & Hlia & _); [by eapply Hd; cbn; tauto |].
  by exists e.
Qed.

(** ** The journaled policy *)

Lemma environment_chain_id_parses e :
  parse_u64 (to_decimal (expected_chain_id e)) = Some (expected_chain_id e).
Proof. by destruct e. Qed.

(** The policy an EVM claim journals is read back exactly: for every configuration
    that validates, a row that carries its policy snapshot, network and asset (up to
    case) gives recovery the configured gas limit, fee cap and confirmation depth; no
    admissible policy leaves a row that recovery rejects as corrupt. *)
Theorem journaled_policy_roundtrip c u e record :
  validate c = Ok u → chain_kind c = Eip155 → eip155 c = Some e →
  Rec.policy_snapshot record = policy_snapshot c → Rec.network record = network c →
  eq_ignore_ascii_case (asset c) (Rec.asset record) = true →
  evm_policy_snapshot record
    = Ok (gas_limit e, dec_value (max_fee_per_gas_wei e), policy_confirmations e).
Proof.
  intros Hv Hkind He Hp Hn Ha. destruct (validate_common c u Hv) as (Hd & _ & _ & _ & Hk).
  rewrite Hkind in Hk.
  destruct (validate_eip155_policy c u Hk) as (e' & He' & Hfee & Hlia & Hid & Hnet & _);
    [by eapply Hd; cbn; tauto |].
  rewrite He in He'. injection He' as <-. destruct Hlia as (Hconf & Hpos & Hgas & Hlt & Hmax).
  unfold evm_policy_snapshot. rewrite Hp, Hn. unfold policy_snapshot. rewrite He, Hkind.
  cbn [as_object default json_object foldr fst snd].
  change (get_str "chainKind" _) with (Some "eip155").
  change (get_str "network" _) with (Some (network c)).
  change (get_str "asset" _) with (Some (asset c)).
  cbn [is_some_and]. rewrite Ha. rewrite !bool_decide_eq_true_2 by done. cbn [andb corrupt_unless result_bind].
  change (get "eip155" _ ≫= _) with
    (Some [("chainId", Num (PosInt (chain_id e))); ("gasLimit", Num (PosInt (gas_limit e)));
           ("maxFeePerGasWei", Str (max_fee_per_gas_wei e));
           ("requiredConfirmations", Num (PosInt (policy_confirmations e)))]).
  cbn [corrupt_or ok_or result_bind].
  change (get_u64 "chainId" _) with (Some (chain_id e)).
  change (get_u64 "gasLimit" _) with (Some (gas_limit e)).
  change (get_u64 "requiredConfirmations" _) with (Some (policy_confirmations e)).
  change (get_str "maxFeePerGasWei" _) with (Some (max_fee_per_gas_wei e)).
  rewrite Hnet, (proj2 (strip_prefix_spec _ _ _) eq_refl). cbn [mbind option_bind corrupt_or ok_or result_bind].
  rewrite environment_chain_id_parses. cbn [corrupt_or ok_or result_bind filter_opt].
  rewrite (proj2 (N.eqb_eq _ _) Hid). cbn [corrupt_unless result_bind].
  rewrite (proj2 (N.ltb_lt _ _) Hgas). cbn [corrupt_or ok_or result_bind].
  unfold parse_u128. rewrite parse_uint_decimal by done. unfold try_from.
  rewrite (proj2 (N.leb_le _ _)) by nia. cbn [corrupt_or ok_or result_bind filter_opt].
  rewrite (proj2 (N.ltb_lt _ _) Hpos). cbn [corrupt_or ok_or result_bind filter_opt].
  by rewrite (proj2 (N.ltb_lt _ _) (proj1 Hconf)).
Qed.

End validated.

(** ** The configurations of the tests *)

#[local] Existing Instance Demo.external.

Definition valid_mainnet_config : ServiceConfig :=
  MkConfig Mainnet Near MAINNET (V4 127 0 0 1, 8402) (Demo.https "rpc.mainnet.fastnear.com")
    (Demo.https "archival-rpc.mainnet.fastnear.com") NEAR_MAINNET_USDC "USDC" "1000"
    "x402-relayer.mike.near" 30000000000000 10 default_request_limits
    (MkSponsorship "500000000000000000000000" "100000000000000000000000" "10000000000000000000000"
       "1000000000000000000000000" "250000000000000000000000")
    default_payment_identifier false None.

Definition sepolia : Eip155Config := MkEip155 84532 2 120000 "1000000000".

Definition valid_base_sepolia_config : ServiceConfig :=
  MkConfig Testnet Eip155 "eip155:84532" (V4 127 0 0 1, 8404) (Demo.https "sepolia.base.org")
    (Demo.https "base-sepolia-rpc.publicnode.com") "0x036CbD53842c5426634e7929541eC2318f3dCF7e" "USDC"
    "1000" "0x51f2dbe5c2e1f3f0d9a5b6c7e8f9a0b1c2d3e4f5" 0 10 default_request_limits
    (MkSponsorship "500000000000000000" "100000000000000000" "10000000000000000" "1000000000000000000"
       "250000000000000000")
    default_payment_identifier true (Some sepolia).

Example accepts_launch_mainnet_policy : validate valid_mainnet_config = Ok tt.
Proof. vm_compute. reflexivity. Qed.

(** Without the EVM block, or with a reservation that L1 fees could exhaust. *)
Example rejects_missing_block :
  is_ok (validate (MkConfig Testnet Eip155 "eip155:84532" (V4 127 0 0 1, 8404)
    (Demo.https "sepolia.base.org") (Demo.https "base-sepolia-rpc.publicnode.com")
    "0x036CbD53842c5426634e7929541eC2318f3dCF7e" "USDC" "1000" "0x51f2dbe5c2e1f3f0d9a5b6c7e8f9a0b1c2d3e4f5"
    0 10 default_request_limits
    (MkSponsorship "500000000000000000" "100000000000000000" "10000000000000000" "1000000000000000000"
       "250000000000000000") default_payment_identifier true None)) = false.
Proof. vm_compute. reflexivity. Qed.

Lemma validated_configuration_is_safe_witness :
  ∃ e, eip155 valid_base_sepolia_config = Some e ∧ liability_policy valid_base_sepolia_config e.
Proof.
  apply (validated_configuration_is_safe valid_base_sepolia_config tt);
    [vm_compute; reflexivity | reflexivity].
Defined.

(** A row of that deployment, the asset in lower case. *)
Definition sepolia_record : Rec.SettlementRecord :=
  Rec.MkRecord 1 7 None "payment-hash" (Demo.hash32 "f") "scope" "nonce-1" Prepared
    Eip155 "eip155:84532" BASE_SEPOLIA_USDC "0xseller" "2500" "0xpayer" None
    (policy_snapshot valid_base_sepolia_config) EmptyString EmptyString EmptyString 0 "10000000000000000"
    None None None None None (Some "0xsigner") None None None None None 1 None None None 0.

Lemma journaled_policy_roundtrip_witness :
  evm_policy_snapshot sepolia_record = Ok (120000, 1000000000, 2).
Proof.
  apply (journaled_policy_roundtrip valid_base_sepolia_config tt sepolia sepolia_record);
    vm_compute; reflexivity.
Defined.

End ConfigSpec.
