(* ===== verification/RecoverySpec.v ===== *)
(** * What is journaled can be recovered

    The signed transaction that preparation hands to the journal passes every check
    recovery makes of it before it is looked up or sent again; and the sponsorship
    reserved for an EVM settlement covers the most its transaction can cost. *)

From stdpp Require Import base gmap strings list numbers.
From Stdlib Require Import Lia NArith ZArith Ascii String.
From S2P Require Import Prelude Text Json Readiness Schema Sql Store Receipt Near Config Demo.
From S2P Require Import NearSpec Retry Evm DemoEvm EvmSpec Chain Service.

Open Scope string_scope.
Open Scope list_scope.
Open Scope N_scope.

Module RecoverySpec.
Import Store Service.

Section recovery.
Context `{Near.External} `{Evm.EvmExternal}.

(** ** NEAR *)

(** The record carries the claim of [payment] and the submission [prepared]. *)
Record journals_near (record : Rec.SettlementRecord) (payment : Near.VerifiedPayment)
  (prepared : Near.PreparedTransaction) : Prop := MkJournalsNear {
  jn_hash : Rec.payment_hash record = Near.payment_hash payment;
  jn_payer : Rec.payer record = Near.payer payment;
  jn_key : Rec.delegate_public_key record = Near.key_text (Near.payer_public_key payment);
  jn_nonce : Rec.delegate_nonce record = to_decimal (Near.delegate_nonce payment);
  jn_expiry : Rec.delegate_max_block_height record
              = to_decimal (Near.verified_max_block_height payment);
  jn_relayer_key : Rec.relayer_public_key record
              = Some (Near.key_text (Near.signer_public_key prepared));
  jn_relayer_nonce : Rec.relayer_nonce record = Some (to_decimal (Near.relayer_nonce prepared))
}.

Lemma parse_u64_to_decimal n : n <= u64_max → parse_u64 (to_decimal n) = Some n.
Proof. intros Hn. by apply parse_uint_to_decimal. Qed.


(** ** EVM *)

(** The record carries the claim of [payment], with the identity the engine gives it,
    and the submission [prepared]. *)
Record journals_evm (record : Rec.SettlementRecord) (payment : Chain.VerifiedPayment)
  (prepared : Chain.Prepared) : Prop := MkJournalsEvm {
  je_network : Rec.network record = Chain.network (Chain.requirements payment);
  je_asset : Rec.asset record = Chain.asset (Chain.requirements payment);
  je_payer : Rec.payer record = Chain.payer payment;
  je_pay_to : Rec.pay_to record = Chain.pay_to (Chain.requirements payment);
  je_amount : Rec.amount record = Chain.amount_decimal (Chain.requirements payment);
  je_hash : Rec.payment_hash record = Chain.request_hash (Chain.identity payment);
  je_scope : Rec.anchor_scope record = Chain.anchor_scope (Chain.identity payment);
  je_anchor : Rec.anchor_value record = Chain.anchor_value (Chain.identity payment);
  je_metadata : ∃ m, Rec.authorization_metadata record = Some m ∧
    Chain.authorization (Chain.identity payment)
      = Chain.EvmAuthorization (version m) (valid_after m) (valid_before m);
  je_nonce : Rec.signer_account_nonce record
             = Some (to_decimal (Chain.prepared_signer_nonce prepared))
}.

(** The authorization transfers the accepted amount to the accepted recipient, in the
    range of a [U256]. *)
Definition pays_exactly (v : Evm.EvmVerifiedPayment) : Prop :=
  let a := Evm.authorization v in
  Evm.to a = Evm.pay_to v ∧ Evm.value a = Evm.amount v ∧
  Evm.value a < 2 ^ 256 ∧ Evm.valid_after a < 2 ^ 256 ∧ Evm.valid_before a < 2 ^ 256.

(** A verified EVM payment, unfolded. *)
Lemma verify_evm_inv p request policy env n w payment n' w' :
  Chain.verify (Chain.EvmProvider p) request policy env n w = (Done (Ok payment), n', w') →
  ∃ v, payment = Chain.MkVerified (Evm.address_to_string (Evm.payer v)) (Evm.payment_hash v)
      (Chain.MkRequirements (Evm.caip2 p) (Evm.address_to_string (Evm.asset p))
         (Evm.address_to_string (Evm.pay_to v)) (default u128_max (try_from u128_max (Evm.amount v)))
         (to_decimal (Evm.amount v))) (Chain.EvmVerified v) ∧
    Evm.payer v = Evm.from (Evm.authorization v) ∧
    Evm.payment_hash v = Evm.eip712_transfer_hash (Evm.authorization v) (Evm.transfer_domain p).
Proof.
  unfold Chain.verify, bind_ok at 1, map_err_proc, bind.
  destruct (Evm.verify p request env n w) as [[[[v|e]|] n1] w1] eqn:E; try done.
  apply EvmSpec.verify_inv in E as (Ha & Hp & Hh). intros Hrun. injection Hrun as <- _ _.
  exists v. by rewrite Ha.
Qed.

Lemma prepare_evm_inv p payment v head prepared env n w n' w' :
  Chain.verified_detail payment = Chain.EvmVerified v →
  Chain.prepare (Chain.EvmProvider p) payment head env n w = (Done (Ok prepared), n', w') →
  ∃ t n1 w1, Chain.signer_nonce head <= u64_max ∧
    Evm.prepare p v (Chain.signer_nonce head) env n w = (Done (Ok t), n1, w1) ∧
    Chain.submit_bytes prepared = Evm.signed_tx_rlp t ∧
    Chain.submit_hash prepared = Evm.b256_to_string (Evm.tx_hash t) ∧
    Chain.prepared_signer_nonce prepared = Chain.signer_nonce head.
Proof.
  intros Hv. unfold Chain.prepare. rewrite Hv.
  intros (nonce & [-> Hle]%ok_or_ok%try_from_Some & Hrun)%run_ret_ok.
  unfold bind_ok, map_err_proc, bind in Hrun.
  destruct (Evm.prepare p v (Chain.signer_nonce head) env n w) as [[[[t|e]|] n1] w1] eqn:E; try done.
  injection Hrun as <- _ _. exists t, n1, w1. split_and!; try done. cbn.
  apply EvmSpec.prepare_inv in E as (calldata & fees & signed & _ & _ & _ & _ & Hs & _ & _ & _ & ->).
  unfold Evm.sign_settlement_transaction in Hs. by apply result_bind_ok in Hs as (sig & _ & [= <-]).
Qed.


(** ** Cost *)

(** The sponsorship reserved for an EVM settlement covers the most it can cost: if
    the liability check passes for the estimated L1 fee, then a transaction within the
    configured gas limit and fee cap, at any price per gas it allows, costs together
    with that fee no more than the reservation; nothing in the check overflows. *)
Theorem reservation_covers_cost c e fee max_fee reservation gas price :
  evm_reservation_covers_liability c fee = true →
  eip155 c = Some e → parse_u128 (max_fee_per_gas_wei e) = Some max_fee →
  parse_u128 (reservation_yocto_near (sponsorship c)) = Some reservation →
  gas <= gas_limit e → price <= max_fee →
  gas * price + fee <= reservation ∧ gas_limit e * max_fee + fee <= u128_max.
Proof.
  unfold evm_reservation_covers_liability. intros Hc He Hm Hr Hg Hp.
  rewrite He, Hm, Hr in Hc.
  destruct (checked_mul _ _ _) as [l2|] eqn:E1; cbn in Hc; [| done].
  apply checked_mul_Some in E1 as [-> _].
  destruct (checked_add _ _ _) as [liability|] eqn:E2; cbn in Hc; [| done].
  apply checked_add_Some in E2 as [-> Hmax]. apply N.leb_le in Hc.
  pose proof (N.mul_le_mono _ _ _ _ Hg Hp). lia.
Qed.

End recovery.

(** ** Concrete settlements *)

#[local] Existing Instance Demo.external.
#[local] Existing Instance DemoEvm.external.

Definition near_provider : Near.NearChainProvider := Demo.provider (Ok Near.LookupUnknown).
Definition near_head : Near.RelayerHead := Near.MkHead 100 (Demo.hash32 "b") 7.
Definition near_prepared : Near.PreparedTransaction :=
  Near.MkPreparedTransaction (Demo.hash32 "t") 8 "relayer.near" Demo.relayer_pk "outer".

Definition near_record : Rec.SettlementRecord :=
  Rec.MkRecord 1 7 None (Demo.hash32 "h") (Demo.hash32 "f") "near" (Demo.hash32 "h") Prepared Near
    "near:mainnet" "usdc.near" "shop.near" "2500" "alice.near" None Null "ed25519:alice" "42" "150" 0
    "40" (Some "relayer.near") (Some "ed25519:relayer") (Some "8") (Some "outer")
    (Some (Near.hash_to_string (Demo.hash32 "t"))) None None None None None None 1 None None None 0.


Definition evm_verified : Evm.EvmVerifiedPayment :=
  Evm.MkEvmVerified "payer" DemoEvm.signed_hash "usdc" "shop" 2500
    (Evm.MkAuthorization "payer" "shop" 2500 10 1000 DemoEvm.single_nonce) DemoEvm.payer_sig.
Definition evm_payment : Chain.VerifiedPayment :=
  Chain.MkVerified "payer" DemoEvm.signed_hash
    (Chain.MkRequirements "eip155:8453" "usdc" "shop" 2500 "2500") (Chain.EvmVerified evm_verified).
Definition evm_head : Chain.SignerHead := Chain.MkSignerHead 105 "" 7 "facilitator" "facilitator" 1000000.
Definition evm_transaction : Evm.TxEip1559 :=
  Evm.MkTx 8453 7 100 20 2 (Some "usdc") 0 []
    (Evm.encode_vrs_call (Evm.authorization evm_verified) 27 "r" "s").
Definition evm_bytes : string := Evm.encoded_2718 (Evm.Eip1559 evm_transaction "signed").
Definition evm_prepared : Chain.Prepared :=
  Chain.MkPrepared evm_bytes "0xhash" "facilitator" "facilitator" 7
    (Chain.EvmPrepared (Evm.MkEvmPrepared "0xhash" "facilitator" 7 evm_bytes (Some 3))).
Definition evm_snapshot : Value :=
  Object [("chainKind", Str "eip155"); ("network", Str "eip155:8453"); ("asset", Str "usdc");
          ("eip155", Object [("chainId", Num (PosInt 8453)); ("gasLimit", Num (PosInt 100));
                             ("maxFeePerGasWei", Str "50"); ("requiredConfirmations", Num (PosInt 6))])].
Definition evm_record : Rec.SettlementRecord :=
  Rec.MkRecord 1 7 None DemoEvm.signed_hash (Demo.hash32 "f") "eip155:8453:usdc:payer" DemoEvm.single_nonce Prepared
    Eip155 "eip155:8453" "usdc" "shop" "2500" "payer" (Some (MkMetadata 2 "10" "1000")) evm_snapshot
    "" "" "" 0 "5003" None None None None None (Some "facilitator") (Some "7") (Some evm_bytes)
    (Some "0xhash") None (Some 6%Z) 1 None None None 0.


Definition evm_config : ServiceConfig :=
  Demo.sample_config Eip155 "eip155:8453" BASE_MAINNET_USDC
    "0x51f2dbe5c2e1f3f0d9a5b6c7e8f9a0b1c2d3e4f5" 0
    (MkSponsorship "100000" "100000" "5003" "2000" "1000") (Some (MkEip155 8453 2 100 "50")).

Lemma reservation_covers_cost_witness : 100 * 50 + 3 <= 5003 ∧ 100 * 50 + 3 <= u128_max.
Proof.
  apply (reservation_covers_cost evm_config (MkEip155 8453 2 100 "50") 3 50 5003 100 50);
    first [vm_compute; reflexivity | cbn; lia].
Defined.

End RecoverySpec.
