(* ===== verification/ServiceProofs.v ===== *)
(** * Nothing is sent that the journal does not hold

    A program logic over processes whose assertions are stable under the other
    tasks, the specifications of the store's transitions in it, and the proof that
    the settlement worker and the reconciliation keep the world's invariant: every
    transaction on the wire is the one its row carries, from [submitted] on. *)

From stdpp Require Import base gmap strings list numbers relations sorting.
From Stdlib Require Import Lia NArith ZArith Ascii String.
From S2P Require Import Prelude Text Json Readiness Schema Sql Store Journal StoreProofs.
From S2P Require Import Receipt Near Retry Evm Chain ChainProofs Service.

Open Scope string_scope.
Open Scope list_scope.
Open Scope N_scope.

Module ServiceProofs.
Import Store Journal StoreProofs ChainProofs Service.

(** ** The logic *)

(** An assertion the other tasks cannot break. *)
Class Stable (P : World → Prop) : Prop := stable : ∀ w w', world_le w w' → P w → P w'.

#[export] Instance stable_True : Stable (λ _, True).
Proof. by intros w w' _. Qed.
#[export] Instance stable_pure (φ : Prop) : Stable (λ _, φ).
Proof. by intros w w' _. Qed.
#[export] Instance stable_and P Q : Stable P → Stable Q → Stable (λ w, P w ∧ Q w).
Proof. intros HP HQ w w' L [? ?]. split; [by eapply HP | by eapply HQ]. Qed.
#[export] Instance stable_forall {A} (P : A → World → Prop) :
  (∀ a, Stable (P a)) → Stable (λ w, ∀ a, P a w).
Proof. intros HP w w' L H a. by eapply HP. Qed.
#[export] Instance stable_impl (φ : Prop) P : Stable P → Stable (λ w, φ → P w).
Proof. intros HP w w' L H Hφ. eapply HP; eauto. Qed.

Definition spec {A} (P : World → Prop) (c : Proc World A) (Q : A → World → Prop) : Prop :=
  ∀ env n w o n' w', rely world_step env → world_inv w → P w → c env n w = (o, n', w') →
    world_inv w' ∧ world_le w w' ∧ ∀ a, o = Done a → Q a w'.

Lemma spec_respects {A} (c : Proc World A) :
  spec (λ _, True) c (λ _ _, True) → respects world_step c.
Proof. intros Hc env n w o n' w' Hr Hrun Hw. by destruct (Hc _ _ _ _ _ _ Hr Hw I Hrun) as (? & ? & _). Qed.

Lemma spec_of_respects {A} P (c : Proc World A) :
  Stable P → respects world_step c → spec P c (λ _, P).
Proof.
  intros HP Hc env n w o n' w' Hr Hw HPw Hrun. destruct (Hc _ _ _ _ _ _ Hr Hrun Hw) as [Hw' L].
  split_and!; [done | done |]. intros. by eapply HP.
Qed.

Lemma spec_ret {A} (P : World → Prop) (a : A) (Q : A → World → Prop) :
  (∀ w, P w → Q a w) → spec P (ret a) Q.
Proof.
  intros HQ env n w o n' w' Hr Hw HP [= <- <- <-].
  split_and!; [done | split; reflexivity |]. intros a' [= <-]. auto.
Qed.

Lemma spec_weaken {A} P P' (c : Proc World A) Q Q' :
  spec P' c Q' → (∀ w, P w → P' w) → (∀ a w, Q' a w → Q a w) → spec P c Q.
Proof.
  intros Hc HP HQ env n w o n' w' Hr Hw HPw Hrun.
  destruct (Hc _ _ _ _ _ _ Hr Hw (HP _ HPw) Hrun) as (? & ? & H). split_and!; eauto.
Qed.

Lemma spec_bind {A B} P (c : Proc World A) (k : A → Proc World B) Q R :
  spec P c Q → (∀ a, spec (Q a) (k a) R) → spec P (bind c k) R.
Proof.
  intros Hc Hk env n w o n' w' Hr Hw HP. unfold bind.
  destruct (c env n w) as [[[a|] n1] w1] eqn:E; intros Hrun;
    destruct (Hc _ _ _ _ _ _ Hr Hw HP E) as (Hw1 & [L1 L1'] & HQ).
  - destruct (Hk a _ _ _ _ _ _ Hr Hw1 (HQ _ eq_refl) Hrun) as (Hw2 & [L2 L2'] & HR).
    split_and!; [done | split; by etrans | done].
  - injection Hrun as <- <- <-. split_and!; [done | done | done].
Qed.

(** A step that establishes nothing: the assertion is carried over. *)
Lemma spec_step {A B} P (c : Proc World A) (k : A → Proc World B) R :
  Stable P → respects world_step c → (∀ a, spec P (k a) R) → spec P (bind c k) R.
Proof. intros HP Hc Hk. eapply spec_bind; [by apply spec_of_respects | done]. Qed.

Lemma spec_step_ok {A B E} P (c : Proc World (Result A E)) (k : A → Proc World (Result B E)) R :
  Stable P → respects world_step c → (∀ a, spec P (k a) R) → (∀ e w, P w → R (Err e) w) →
  spec P (bind_ok c k) R.
Proof.
  intros HP Hc Hk He. eapply spec_bind; [by apply spec_of_respects |].
  intros [a|e]; [apply Hk | apply spec_ret; auto].
Qed.

(** The last step of a process whose result nobody looks at. *)
Lemma spec_end {A} P (c : Proc World A) :
  respects world_step c → spec P c (λ _ _, True).
Proof.
  intros Hc. eapply spec_weaken; [apply (spec_of_respects (λ _, True)); [apply _ | done] | done | done].
Qed.

Lemma spec_and {A} P (c : Proc World A) Q P' Q' :
  spec P c Q → spec P' c Q' → spec (λ w, P w ∧ P' w) c (λ a w, Q a w ∧ Q' a w).
Proof.
  intros H1 H2 env n w o n' w' Hr Hw [HP HP'] Hrun.
  destruct (H1 _ _ _ _ _ _ Hr Hw HP Hrun) as (Hw' & L & HQ).
  destruct (H2 _ _ _ _ _ _ Hr Hw HP' Hrun) as (_ & _ & HQ').
  split_and!; [done | done |]. intros a Ha. split; auto.
Qed.

(** The frame rule: a step keeps whatever the other tasks cannot break. *)
Lemma spec_frame {A} R P (c : Proc World A) Q :
  Stable R → spec P c Q → spec (λ w, R w ∧ P w) c (λ a w, R w ∧ Q a w).
Proof.
  intros HR Hc env n w o n' w' Hr Hw [HRw HPw] Hrun.
  destruct (Hc _ _ _ _ _ _ Hr Hw HPw Hrun) as (Hw' & L & HQ). split_and!; [done | done |].
  intros a Ha. split; [by eapply HR | auto].
Qed.

(** What a process returns, whatever the world. *)
Definition returns {A} (c : Proc World A) (φ : A → Prop) : Prop :=
  ∀ env n w a n' w', c env n w = (Done a, n', w') → φ a.

Lemma returns_ret {A} (a : A) (φ : A → Prop) : φ a → returns (ret a) φ.
Proof. intros Ha env n w a' n' w' [= <- _ _]. done. Qed.

Lemma returns_bind {A B} (c : Proc World A) (k : A → Proc World B) φ :
  (∀ a, returns (k a) φ) → returns (bind c k) φ.
Proof.
  intros Hk env n w b n' w'. unfold bind. destruct (c env n w) as [[[a|] n1] w1]; [| done].
  apply Hk.
Qed.

Lemma returns_bind_ok {A B E} (c : Proc World (Result A E)) (k : A → Proc World (Result B E)) φ :
  (∀ a, returns (k a) φ) → (∀ e, φ (Err e)) → returns (bind_ok c k) φ.
Proof. intros Hk He. apply returns_bind. intros [a|e]; [apply Hk | by apply returns_ret]. Qed.

Lemma spec_returns {A} P (c : Proc World A) (φ : A → Prop) :
  Stable P → respects world_step c → returns c φ → spec P c (λ a w, P w ∧ φ a).
Proof.
  intros HP Hc Hφ env n w o n' w' Hr Hw HPw Hrun.
  destruct (spec_of_respects P c HP Hc _ _ _ _ _ _ Hr Hw HPw Hrun) as (? & ? & HQ).
  split_and!; [done | done |]. intros a ->. split; [by apply (HQ a) | by eapply Hφ].
Qed.

(** ** What the store's transitions establish *)

(** The row of [id] carries the signed transaction [b]. *)
Definition signed_with (id : N) (b : string) (w : World) : Prop :=
  ∃ r, settlements (db w) !! id = Some r ∧ signed_bytes r = Some b.

(** ... and is past the durable [submitted] mark. *)
Definition launched (id : N) (b : string) (w : World) : Prop := journaled (db w) (MkSent id b).

#[export] Instance stable_signed_with id b : Stable (signed_with id b).
Proof.
  intros w w' [[L _] _] (r & Hr & Hb). destruct (L _ _ Hr) as (r' & Hr' & Lr).
  exists r'. split; [done | by apply Lr].
Qed.

#[export] Instance stable_launched id b : Stable (launched id b).
Proof. intros w w' [L _]. by apply journaled_le. Qed.

(** What a block establishes when it commits, and when it rolls back with an answer. *)
Lemma run_tx_outcome_spec {A} (body : Tx (TxEnd (Result A StoreError))) P (Q : A → World → Prop) :
  tx_steps body → Stable P → (∀ a, Stable (Q a)) →
  (∀ env n w a d' n', world_inv w → P w →
     body env n (db w) = (Done (Ok (Commit (Ok a), d')), n') → Q a (with_db d' w)) →
  (∀ env n w a d' n', world_inv w → P w →
     body env n (db w) = (Done (Ok (Rollback (Ok a), d')), n') → Q a w) →
  spec P (run_tx body) (λ r w, match r with Ok a => Q a w | Err _ => True end).
Proof.
  intros Hsteps HP HQ Hcommit Hroll env n w o n' w' Hr Hw HPw Hrun.
  pose proof (run_tx_respects body Hsteps env n w o n' w' Hr Hrun Hw) as [Hw' L].
  split_and!; [done | done |]. intros [a|e] ->; [| done].
  unfold run_tx in Hrun. destruct (Hr n w Hw) as [Hi Li].
  set (w1 := interfere env n w) in *. assert (P w1) as HP1 by by eapply HP.
  destruct (reply env n); try discriminate.
  destruct (body env (S n) (db w1)) as [[[[[r|r] d]|e]|] n1] eqn:E; try discriminate.
  - unfold bind, commit in Hrun. destruct (reply env n1); try discriminate.
    cbn in Hrun. injection Hrun as -> <- <-.
    eapply HQ; [| by eapply Hcommit]. apply Hr.
    by apply (world_step_db d w1 (Hsteps _ _ _ _ _ _ E) Hi).
  - unfold bind, request in Hrun.
    destruct (reply env n1); cbn in Hrun; try discriminate.
    injection Hrun as -> <- <-. eapply HQ; [apply (Hr n1 w1 Hi) | by eapply Hroll].
Qed.

(** A block that commits only with [Ok], from a database where [P] holds. *)
Lemma run_tx_spec {A} (body : Tx (TxEnd (Result A StoreError))) P (Q : A → World → Prop) :
  tx_steps body → Stable P → (∀ a, Stable (Q a)) →
  (∀ env n w a d' n', world_inv w → P w →
     body env n (db w) = (Done (Ok (Commit (Ok a), d')), n') → Q a (with_db d' w)) →
  (∀ env n d a d' n', body env n d ≠ (Done (Ok (Rollback (Ok a), d')), n')) →
  spec P (run_tx body) (λ r w, match r with Ok a => Q a w | Err _ => True end).
Proof.
  intros Hsteps HP HQ Hcommit Hroll. apply run_tx_outcome_spec; try done.
  intros env n w a d' n' _ _ E. by destruct (Hroll _ _ _ _ _ _ E).
Qed.

Lemma signed_with_written id r b d w :
  settlements d = <[id := r]> (settlements (db w)) → signed_bytes r = Some b →
  signed_with id b (with_db d w).
Proof. intros Hd Hb. exists r. split; [| done]. cbn. by rewrite Hd, lookup_insert_eq. Qed.

Lemma mark_prepared_spec e :
  spec (λ _, True) (mark_prepared e)
    (λ r w, match r with
            | Ok _ => signed_with (prep_settlement_id e) (prep_transaction_bytes e) w
            | Err _ => True
            end).
Proof.
  apply run_tx_spec; [apply prepared_tx_steps | apply _ | apply _ | |].
  - intros env n w a d' n' [Hd _] _ Hrun. unfold prepared_tx, refuse_transition in Hrun.
    tx_inv; try done. unfold update_prepared, is_reserved in *. result_inv. stmt_inv.
    match goal with Hl : settlements _ !! _ = Some ?old, Hc : check_row _ = true |- _ =>
      destruct (prepared_near_own _ _ _ (inv_rows _ Hd _ _ Hl) ltac:(done) Hc) as [Hk _] end.
    eapply signed_with_written; [reflexivity |]. unfold signed_bytes. cbn. by rewrite Hk.
  - intros env n d a d' n' Hrun. unfold prepared_tx, refuse_transition in Hrun. tx_inv; done.
Qed.

Lemma mark_prepared_evm_spec e :
  spec (λ _, True) (mark_prepared_evm e)
    (λ r w, match r with
            | Ok _ => signed_with (evm_settlement_id e) (evm_submitted_tx_rlp e) w
            | Err _ => True
            end).
Proof.
  unfold mark_prepared_evm. destruct (_ <? _)%Z; [by apply spec_ret |].
  apply run_tx_spec; [apply prepared_evm_tx_steps | apply _ | apply _ | |].
  - intros env n w a d' n' [Hd _] _ Hrun. unfold prepared_evm_tx, refuse_transition in Hrun.
    tx_inv; try done. unfold update_prepared_evm, is_reserved in *. result_inv. stmt_inv.
    match goal with Hl : settlements _ !! _ = Some ?old, Hc : check_row _ = true |- _ =>
      destruct (prepared_evm_own _ _ _ (inv_rows _ Hd _ _ Hl) ltac:(done) Hc) as [Hk _] end.
    eapply signed_with_written; [reflexivity |]. unfold signed_bytes. cbn. by rewrite Hk.
  - intros env n d a d' n' Hrun. unfold prepared_evm_tx, refuse_transition in Hrun. tx_inv; done.
Qed.

Lemma mark_submitted_spec id b :
  spec (signed_with id b) (mark_submitted id)
    (λ r w, match r with Ok _ => launched id b w | Err _ => True end).
Proof.
  apply run_tx_spec; [apply submitted_tx_steps | apply _ | apply _ | |].
  - intros env n w a d' n' [Hd _] (r & Hr & Hb) Hrun. unfold submitted_tx, refuse_transition in Hrun.
    tx_inv; try done. stmt_inv. eexists. cbn. rewrite lookup_insert_eq. done.
  - intros env n d a d' n' Hrun. unfold submitted_tx, refuse_transition in Hrun. tx_inv; done.
Qed.

(** ** Handing a transaction to the chain *)

Lemma log_sent_step id b w : launched id b w → world_step w (Near.log_sent id b w).
Proof.
  intros Hl (Hd & Hw & Ht). split; [split_and!; [done | | done] |].
  - intros s. cbn. rewrite elem_of_app, list_elem_of_singleton. intros [Hs| ->]; [by apply Hw | done].
  - split; [reflexivity |]. cbn. by apply prefix_app_r.
Qed.

(** Only a launched transaction may be transmitted. *)
Lemma transmit_spec {A} id b (answer : nat → A) :
  spec (launched id b) (transmit (Near.log_sent id b) answer) (λ _, launched id b).
Proof.
  intros env n w o n' w' Hr Hw Hl Hrun. unfold transmit in Hrun.
  destruct (Hr n w Hw) as [Hi Li]. set (w1 := interfere env n w) in *.
  assert (launched id b w1) as Hl1 by by eapply stable_launched.
  destruct (log_sent_step id b w1 Hl1 Hi) as [Hs Ls].
  assert (launched id b (Near.log_sent id b w1)) as Hl2 by by eapply stable_launched.
  assert (world_le w (Near.log_sent id b w1)) as L2.
  { destruct Li, Ls. split; by etrans. }
  destruct (reply env n); injection Hrun as <- <- <-; split_and!; done.
Qed.

(** ** Reads leave the journal alone *)

#[local] Hint Resolve settlement_respects claim_settlement_respects mark_awaiting_retry_respects
  resume_awaiting_retry_respects mark_prepared_respects mark_prepared_evm_respects
  mark_submitted_respects mark_terminal_respects raise_required_confirmations_respects
  note_reconciliation_respects upsert_relayer_respects quarantine_relayer_respects : respects.

Section engine.
Context `{Near.External} `{Evm.EvmExternal}.

(** ** Broadcasts *)

(** The bytes the chain-specific half of a prepared payment would send. *)
Definition detail_bytes (d : Chain.PreparedDetail) : string :=
  match d with
  | Chain.NearPrepared t => Near.signed_transaction_bytes t
  | Chain.EvmPrepared t => Evm.signed_tx_rlp t
  end.

(** Preparation hands the journal the very bytes it will broadcast. *)
Lemma prepare_consistent p payment head :
  returns (Chain.prepare p payment head)
    (λ r, match r with
          | Ok q => detail_bytes (Chain.prepared_detail q) = Chain.submit_bytes q
          | Err _ => True
          end).
Proof.
  unfold Chain.prepare. destruct p, (Chain.verified_detail payment); try by apply returns_ret.
  - apply returns_ret. unfold Chain.prepare_near.
    repeat match goal with |- context [result_bind ?r _] => destruct r; cbn [result_bind]; [| done] end.
    done.
  - apply returns_bind_ok; [| done]. intros. apply returns_bind_ok; [| done]. intros.
    by apply returns_ret.
Qed.

Lemma broadcast_exact_spec p id b :
  spec (launched id b) (Near.broadcast_exact p id b) (λ _, launched id b).
Proof.
  unfold Near.broadcast_exact. apply spec_step_ok; [apply _ | solve_respects | | done].
  intros t. apply transmit_spec.
Qed.

Lemma broadcast_spec p id prepared payment :
  spec (launched id (detail_bytes (Chain.prepared_detail prepared)))
    (Chain.broadcast p id prepared payment) (λ _ _, True).
Proof.
  unfold Chain.broadcast.
  destruct p, (Chain.prepared_detail prepared), (Chain.verified_detail payment);
    try (by apply spec_ret);
    (eapply spec_bind; [first [apply broadcast_exact_spec | apply transmit_spec] | intros; by apply spec_ret]).
Qed.

Lemma rebroadcast_spec p id b hash payer asset :
  spec (launched id b) (Chain.rebroadcast p id b hash payer asset) (λ _ _, True).
Proof.
  unfold Chain.rebroadcast. destruct p;
    (eapply spec_bind; [first [apply broadcast_exact_spec | apply transmit_spec] | intros; by apply spec_ret]).
Qed.

(** ** The gates and the small helpers *)

Context (s : AppState).

Lemma set_reconciliation_respects b : respects world_step (set_reconciliation b).
Proof. apply respects_modify. intros. apply world_step_gates. Qed.
Lemma set_relayer_respects b : respects world_step (set_relayer b).
Proof. apply respects_modify. intros. apply world_step_gates. Qed.
Lemma can_settle_respects : respects world_step can_settle.
Proof. unfold can_settle. solve_respects. Qed.
Lemma relayer_is_active_respects network_ account key :
  respects world_step (relayer_is_active network_ account key).
Proof. apply select_respects. Qed.
#[local] Hint Resolve set_reconciliation_respects set_relayer_respects can_settle_respects
  relayer_is_active_respects : respects.

Lemma terminalize_respects e : respects world_step (terminalize e).
Proof. unfold terminalize. solve_respects. Qed.
Lemma retryable_respects id code : respects world_step (retryable_service_failure id code).
Proof. unfold retryable_service_failure. solve_respects. Qed.
Lemma protocol_failure_respects id reason payer hash :
  respects world_step (terminal_protocol_failure s id reason payer hash).
Proof. apply terminalize_respects. Qed.
Lemma rejected_respects id payer hash :
  respects world_step (terminal_transaction_rejected s id payer hash).
Proof. apply terminalize_respects. Qed.
Lemma finalize_respects id payment o : respects world_step (finalize_terminal s id payment o).
Proof. apply terminalize_respects. Qed.
Lemma drift_respects reason nonce : respects world_step (quarantine_after_drift s reason nonce).
Proof. unfold quarantine_after_drift. solve_respects. Qed.
Lemma fresh_head_respects : respects world_step (fresh_signer_head s).
Proof. unfold fresh_signer_head. solve_respects. Qed.
#[local] Hint Resolve terminalize_respects retryable_respects protocol_failure_respects
  rejected_respects finalize_respects drift_respects fresh_head_respects : respects.

(** Walks through a process with an assertion in hand, up to a step that uses it. *)
Ltac walk :=
  repeat lazymatch goal with
  | |- spec _ (bind (mark_submitted _) _) _ => fail
  | |- spec _ (bind (Chain.prepare _ _ _) _) _ => fail
  | |- spec _ (bind_ok (mark_submitted_if_prepared _) _) _ => fail
  | |- spec _ _ _ =>
      first
        [ solve [apply spec_end; eauto with respects]
        | match goal with |- spec _ (match ?x with _ => _ end) _ => destruct x eqn:? end
        | apply spec_step; [apply _ | solve [eauto with respects] |]
        | apply spec_step_ok; [apply _ | solve [eauto with respects | solve_respects] | | done] ]
  | |- ∀ _, _ => intro
  end.

(** ** The worker *)

Lemma settle_prepared_near_spec id head prepared payment :
  detail_bytes (Chain.prepared_detail prepared) = Chain.submit_bytes prepared →
  spec (λ _, True)
    (settle_prepared_near s id head prepared (Chain.durable_submission (provider s) prepared) payment)
    (λ _ _, True).
Proof.
  intros Hb. unfold settle_prepared_near. eapply spec_bind; [apply mark_prepared_spec |].
  intros [u|e]; cbn [is_err is_ok negb]; [| walk]. cbn. walk.
  eapply spec_bind; [apply mark_submitted_spec |].
  intros [u'|e]; cbn [is_err is_ok negb]; [| walk]. walk.
  eapply spec_bind; [rewrite <- Hb; apply broadcast_spec |]. walk.
Qed.

Lemma settle_prepared_evm_spec id prepared payment :
  detail_bytes (Chain.prepared_detail prepared) = Chain.submit_bytes prepared →
  spec (λ _, True)
    (settle_prepared_evm s id prepared (Chain.durable_submission (provider s) prepared) payment)
    (λ _ _, True).
Proof.
  intros Hb. unfold settle_prepared_evm.
  destruct (Chain.recovery_policy _) as [|depth]; [walk |].
  destruct (try_from _ depth); [| walk].
  eapply spec_bind; [apply mark_prepared_evm_spec |].
  intros [u|e]; cbn [is_err is_ok negb]; [| walk]. cbn [evm_settlement_id evm_submitted_tx_rlp]. walk.
  eapply spec_bind; [apply mark_submitted_spec |].
  intros [u'|e]; cbn [is_err is_ok negb]; [| walk]. walk.
  eapply spec_bind; [cbn [Chain.submission_bytes Chain.durable_submission]; rewrite <- Hb; apply broadcast_spec |].
  walk.
Qed.

Lemma run_new_settlement_spec id request :
  spec (λ _, True) (run_new_settlement s id request) (λ _ _, True).
Proof.
  unfold run_new_settlement. walk.
  eapply spec_bind; [apply spec_returns; [apply stable_True | solve_respects | apply prepare_consistent] |].
  intros [prepared|e]; [| walk]. cbn beta iota.
  destruct (Chain.prepared_detail prepared) as [t|t] eqn:Ed.
  - intros env n w o n' w' Hr Hw [_ Hb]. rewrite <- Ed in Hb.
    by apply (settle_prepared_near_spec id _ prepared _ Hb env n w o n' w' Hr Hw I).
  - destruct (Evm.estimated_l1_fee_wei t) as [fee|]; [| walk].
    destruct (evm_reservation_covers_liability _ _); cbn [negb]; [| walk].
    intros env n w o n' w' Hr Hw [_ Hb]. rewrite <- Ed in Hb.
    by apply (settle_prepared_evm_spec id prepared _ Hb env n w o n' w' Hr Hw I).
Qed.

Lemma run_new_settlement_respects id request : respects world_step (run_new_settlement s id request).
Proof. apply spec_respects, run_new_settlement_spec. Qed.

(** ** Reconciliation *)

(** The record was read from a consistent row that is still there, further along. *)
Definition recorded (rec : Rec.SettlementRecord) (w : World) : Prop :=
  ∃ r0 r, settlement_from_row (Rec.id rec) r0 = Ok rec ∧ row_ok r0 ∧
    settlements (db w) !! Rec.id rec = Some r ∧ row_le r0 r.

#[export] Instance stable_recorded rec : Stable (recorded rec).
Proof.
  intros w w' [[L _] _] (r0 & r & Hrec & Hok & Hr & Lr). destruct (L _ _ Hr) as (r' & Hr' & Lr').
  exists r0, r'. split_and!; [done | done | done | by etrans].
Qed.

(** The columns the recovery reads of a record are those of its row. *)
Lemma settlement_from_row_columns id r rec :
  settlement_from_row id r = Ok rec →
  Rec.id rec = id ∧ Rec.state rec = state r ∧
  Rec.outer_transaction_bytes rec = outer_transaction_bytes (near_submission r) ∧
  Rec.submitted_tx_rlp rec = submitted_tx_rlp (evm_submission r).
Proof.
  unfold settlement_from_row. intros Hrec. result_inv. simplify_eq.
  match goal with H : state_from_str _ = Ok _ |- _ => rewrite state_from_as_str in H end.
  by simplify_eq.
Qed.

Lemma recorded_launch rec b w :
  recorded rec w →
  Rec.outer_transaction_bytes rec = Some b ∨ Rec.submitted_tx_rlp rec = Some b →
  signed_with (Rec.id rec) b w ∧ (Rec.state rec = Submitted → launched (Rec.id rec) b w).
Proof.
  intros (r0 & r & Hrec & (_ & _ & _ & _ & Hown) & Hr & L) Hb.
  destruct (settlement_from_row_columns _ _ _ Hrec) as (_ & Hs & Hn & He).
  assert (signed_bytes r0 = Some b) as Hb0.
  { unfold signed_bytes. rewrite Hn, He in Hb.
    destruct (Schema.chain_kind (claim r0)); cbn in Hown; rewrite Hown in Hb; cbn in Hb; by destruct Hb. }
  pose proof (le_bytes _ _ L _ Hb0) as Hb1. split; [by exists r |].
  intros Hst. exists r. split_and!; [done | done |].
  eapply state_le_past; [apply L |]. by rewrite <- Hs, Hst.
Qed.

Lemma recovered_submission_spec rec b :
  is_signed (Rec.state rec) = true →
  Rec.outer_transaction_bytes rec = Some b ∨ Rec.submitted_tx_rlp rec = Some b →
  spec (recorded rec) (mark_submitted_if_prepared rec)
    (λ r w, match r with Ok _ => launched (Rec.id rec) b w | Err _ => True end).
Proof.
  intros Hst Hb. unfold mark_submitted_if_prepared. case_bool_decide as Hp.
  - eapply spec_weaken; [apply (mark_submitted_spec _ b) | | done]. intros w Hw.
    by apply (recorded_launch _ _ _ Hw Hb).
  - apply spec_ret. intros w Hw. apply (recorded_launch _ _ _ Hw Hb).
    by destruct (Rec.state rec).
Qed.

(** [?] on a step that establishes its postcondition only when it succeeds. *)
Lemma spec_bind_ok {A B E} P (c : Proc World (Result A E)) (k : A → Proc World (Result B E)) Q :
  spec P c (λ r w, match r with Ok a => Q a w | Err _ => True end) →
  (∀ a, spec (Q a) (k a) (λ _ _, True)) → spec P (bind_ok c k) (λ _ _, True).
Proof.
  intros Hc Hk. eapply spec_bind; [exact Hc |]. intros [a|e]; [apply Hk | by apply spec_ret].
Qed.

Lemma finalize_reconciled_respects rec o :
  respects world_step (finalize_reconciled_terminal s rec o).
Proof. unfold finalize_reconciled_terminal. solve_respects. Qed.
Lemma and_ok_respects c : respects world_step c → respects world_step (and_ok c).
Proof. intros. unfold and_ok. solve_respects. Qed.
Lemma and_err_respects c m : respects world_step c → respects world_step (and_err c m).
Proof. intros. unfold and_err. solve_respects. Qed.
#[local] Hint Resolve finalize_reconciled_respects and_ok_respects and_err_respects : respects.

Lemma conclude_respects rec hash o : respects world_step (conclude_rebroadcast s rec hash o).
Proof. unfold conclude_rebroadcast. solve_respects. Qed.
Lemma can_reconcile_respects : respects world_step can_reconciliation_broadcast.
Proof. unfold can_reconciliation_broadcast. solve_respects. Qed.
Lemma recovery_balance_respects rec b :
  respects world_step (require_evm_recovery_balance s rec b).
Proof. unfold require_evm_recovery_balance. solve_respects. Qed.
#[local] Hint Resolve conclude_respects can_reconcile_respects recovery_balance_respects : respects.

Lemma recover_unknown_evm_spec rec b hash nonce :
  is_signed (Rec.state rec) = true → Rec.submitted_tx_rlp rec = Some b →
  spec (recorded rec) (recover_unknown_evm s rec b hash nonce) (λ _ _, True).
Proof.
  intros Hst Hb. unfold recover_unknown_evm.
  eapply spec_bind_ok; [apply recovered_submission_spec; eauto |]. walk.
  all: first [solve [apply spec_end; solve_respects] | eapply spec_bind; [apply rebroadcast_spec | walk]].
Qed.

Lemma recover_unknown_near_spec rec b hash :
  is_signed (Rec.state rec) = true → Rec.outer_transaction_bytes rec = Some b →
  spec (recorded rec) (recover_unknown_near s rec b hash) (λ _ _, True).
Proof.
  intros Hst Hb. unfold recover_unknown_near. walk.
  all: first [solve [apply spec_end; solve_respects] | idtac].
  eapply spec_bind_ok; [apply recovered_submission_spec; eauto |]. walk.
  all: first [solve [apply spec_end; solve_respects] | eapply spec_bind; [apply rebroadcast_spec | walk]].
Qed.

(** A [?] on a pure lookup keeps what it found. *)
Lemma spec_lookup {A B} P (o : option A) m (k : A → Proc World (Result B StoreError)) :
  (∀ a, o = Some a → spec P (k a) (λ _ _, True)) →
  spec P (bind_ok (ret (corrupt_or o m)) k) (λ _ _, True).
Proof.
  intros Hk. destruct o as [a|]; [by apply Hk |]. by apply spec_ret.
Qed.

Lemma reconcile_prepared_evm_spec rec :
  is_signed (Rec.state rec) = true →
  spec (recorded rec) (reconcile_prepared_evm s rec) (λ _ _, True).
Proof.
  intros Hst. unfold reconcile_prepared_evm. apply spec_lookup. intros signer _.
  destruct (negb _); [apply spec_end; solve_respects |].
  apply spec_lookup. intros hash _. apply spec_lookup. intros b Hb.
  apply spec_lookup. intros configured _.
  apply spec_step_ok; [apply _ | solve_respects | intros effective | done].
  apply spec_lookup. intros required _.
  apply spec_step_ok; [apply _ | solve_respects | intros [stored nonce] | done].
  destruct (Chain.validate_stored_submission _ _ _); [| apply spec_end; solve_respects].
  apply spec_step; [apply _ | solve_respects |]. intros status.
  destruct (Chain.verdict status);
    first [by apply recover_unknown_evm_spec | apply spec_end; solve_respects].
Qed.

Lemma reconcile_prepared_near_spec rec :
  is_signed (Rec.state rec) = true →
  spec (recorded rec) (reconcile_prepared_near s rec) (λ _ _, True).
Proof.
  intros Hst. unfold reconcile_prepared_near. destruct (negb _ || negb _); [apply spec_end; solve_respects |].
  apply spec_lookup. intros hash_text _. apply spec_lookup. intros hash _.
  apply spec_lookup. intros b Hb. apply spec_lookup. intros signer_text _.
  apply spec_lookup. intros signer _.
  destruct (validate_stored_transaction _ _ _ _); [| apply spec_end; solve_respects].
  apply spec_step; [apply _ | solve_respects |]. intros status.
  destruct (Chain.verdict status);
    first [by apply recover_unknown_near_spec | apply spec_end; solve_respects].
Qed.

Lemma reconcile_prepared_spec rec :
  is_signed (Rec.state rec) = true →
  spec (recorded rec) (reconcile_prepared s rec) (λ _ _, True).
Proof.
  intros Hst. unfold reconcile_prepared. destruct (provider s);
    [by apply reconcile_prepared_near_spec | by apply reconcile_prepared_evm_spec].
Qed.

(** *** The loops *)

Definition all_recorded (recs : list Rec.SettlementRecord) (w : World) : Prop :=
  ∀ rec, rec ∈ recs → recorded rec w.

#[export] Instance stable_all_recorded recs : Stable (all_recorded recs).
Proof. intros w w' L Hr rec Hin. eapply stable_recorded; eauto. Qed.

Lemma active_rows_lookup d id r : (id, r) ∈ active_rows d → settlements d !! id = Some r.
Proof.
  unfold active_rows. rewrite merge_sort_Permutation, list_elem_of_filter.
  intros [_ Hin]. by apply elem_of_map_to_list.
Qed.

Lemma records_of_recorded rows recs w :
  records_of rows = Ok recs → world_inv w →
  (∀ id r, (id, r) ∈ rows → settlements (db w) !! id = Some r) →
  all_recorded recs w.
Proof.
  intros Hrec [Hd _]. revert recs Hrec.
  induction rows as [|[id r] rows IH]; cbn; intros recs Hrec Hrows rec; [by simplify_eq; inversion 1 |].
  result_inv. simplify_eq. match goal with Hr : settlement_from_row _ _ = Ok ?x |- _ =>
    rename x into head_rec, Hr into Hhead end.
  pose proof (settlement_from_row_columns _ _ _ Hhead) as (Hid & _).
  intros [->|Hin]%elem_of_cons.
  - assert (settlements (db w) !! id = Some r) as Hl by (apply Hrows; left).
    exists r, r. rewrite Hid. split_and!; [done | by eapply inv_rows | done | reflexivity].
  - eapply IH; eauto. intros i x Hx. apply Hrows. by right.
Qed.

Lemma nonterminal_spec :
  spec (λ _, True) nonterminal_settlements
    (λ r w, match r with Ok recs => all_recorded recs w | Err _ => True end).
Proof.
  unfold nonterminal_settlements.
  eapply spec_bind with (Q := λ r w, match r with
    | Ok rows => ∀ recs, records_of rows = Ok recs → all_recorded recs w
    | Err _ => True end).
  - intros env n w o n' w' Hr Hw _ Hrun.
    destruct (select_respects active_rows _ _ _ _ _ _ Hr Hrun Hw) as [Hw' L].
    split_and!; [done | done |]. intros [rows|e] ->; [| done]. intros recs Hrecs.
    unfold query, request in Hrun. destruct (reply env n); cbn in Hrun; simplify_eq.
    destruct (Hr n w Hw) as [Hi _]. rewrite with_db_id in Hw' |- *.
    apply (records_of_recorded _ _ _ Hrecs Hw'). intros id r. apply active_rows_lookup.
  - intros [rows|e]; apply spec_ret; [| done]. intros w Hrows.
    destruct (records_of rows); [by apply Hrows | done].
Qed.

Lemma release_reserved_respects recs : respects world_step (release_reserved recs).
Proof. induction recs; cbn; solve_respects. Qed.

(** A step keeps whatever the other tasks cannot break. *)
Lemma spec_keep {A} P (c : Proc World A) Q : Stable P → spec P c Q → spec P c (λ _, P).
Proof.
  intros HP Hc env n w o n' w' Hr Hw HPw Hrun.
  destruct (Hc _ _ _ _ _ _ Hr Hw HPw Hrun) as (? & ? & _). split_and!; [done | done |].
  intros. by eapply HP.
Qed.

Lemma resolve_signed_spec recs :
  spec (all_recorded recs) (resolve_signed s recs) (λ _ _, True).
Proof.
  induction recs as [|rec recs IH]; cbn; [by apply spec_ret |].
  assert (spec (all_recorded (rec :: recs)) (resolve_signed s recs) (λ _ _, True)) as Hrest.
  { eapply spec_weaken; [exact IH | | done]. intros w Hw r Hr. apply Hw. by right. }
  assert (is_signed (Rec.state rec) = true →
    spec (all_recorded (rec :: recs)) (reconcile_prepared s rec) (λ _, all_recorded (rec :: recs)))
    as Hone.
  { intros Hst. eapply spec_keep; [apply _ |].
    eapply spec_weaken; [by apply reconcile_prepared_spec | | done]. intros w Hw. apply Hw. left. }
  destruct (Rec.state rec) eqn:Hst; try exact Hrest;
    (apply spec_step_ok; [apply _ | solve_respects | intros _ | done]);
    try exact Hrest.
  all: eapply spec_bind; [by apply Hone |]; intros [[]|e]; [| by apply spec_ret];
    (apply spec_step_ok; [apply _ | solve_respects | intros current | done]);
    destruct (is_some_and _ _); [by apply spec_ret | exact Hrest].
Qed.

Lemma nonterminal_respects : respects world_step nonterminal_settlements.
Proof. apply spec_respects. eapply spec_weaken; [apply nonterminal_spec | done | done]. Qed.
#[local] Hint Resolve nonterminal_respects release_reserved_respects : respects.

Lemma reconcile_respects : respects world_step (reconcile s).
Proof.
  apply spec_respects. unfold reconcile. apply spec_step; [apply _ | solve_respects |].
  intros [|]; cbn [negb]; [| by apply spec_ret].
  apply spec_step; [apply _ | solve_respects | intros _].
  eapply spec_bind_ok; [apply nonterminal_spec |]. intros recs.
  apply spec_step_ok; [apply _ | solve_respects | intros _ | done].
  eapply spec_bind; [apply resolve_signed_spec |]. intros [[]|e]; [| by apply spec_ret].
  apply spec_end. solve_respects.
Qed.

End engine.

End ServiceProofs.
