(* ===== verification/Termination.v ===== *)
(** * Every process comes to an end

    A process that is not killed returns: whatever the nodes and the database answer,
    however often they fail and whatever the other tasks do meanwhile, each loop is
    bounded and each wait ends.  Closure of that property under the constructors of
    processes and transactions, and its proof for the chain calls, the store calls,
    the settlement worker and the recovery pass. *)

From stdpp Require Import base gmap strings list numbers relations sorting.
From Stdlib Require Import Lia NArith ZArith Ascii String.
From S2P Require Import Prelude Text Json Readiness Schema Sql Store.
From S2P Require Import Receipt Near Retry Evm Chain Service.

Open Scope string_scope.
Open Scope list_scope.
Open Scope N_scope.

Module Termination.
Import Store Service.

(** The process is never killed. *)
Definition uninterrupted {W} (env : Env W) : Prop := ∀ m, reply env m ≠ Crash.

Definition completes {W A} (c : Proc W A) : Prop :=
  ∀ env n w, uninterrupted env → ∃ a n' w', c env n w = (Done a, n', w').

(** ** Processes *)

Section processes.
Context {W : Type}.

Lemma completes_ret {A} (a : A) : completes (W := W) (ret a).
Proof. by intros env n w _; do 3 eexists. Qed.

Lemma completes_gets {A} (f : W → A) : completes (gets f).
Proof. by intros env n w _; do 3 eexists. Qed.

Lemma completes_modify (f : W → W) : completes (modify f).
Proof. by intros env n w _; do 3 eexists. Qed.

Lemma completes_now : completes (W := W) now.
Proof. by intros env n w _; do 3 eexists. Qed.

Lemma completes_request {A} (f : W → A * W) lost : completes (request f lost).
Proof.
  intros env n w He. specialize (He n). unfold request.
  destruct (f (interfere env n w)), (reply env n); first [done | by do 3 eexists].
Qed.

Lemma completes_consult {A} (answer : nat → A) : completes (W := W) (consult answer).
Proof.
  intros env n w He. specialize (He n). unfold consult. destruct (reply env n); first [done | by do 3 eexists].
Qed.

Lemma completes_transmit {A} effect (answer : nat → A) : completes (W := W) (transmit effect answer).
Proof.
  intros env n w He. specialize (He n). unfold transmit. destruct (reply env n); first [done | by do 3 eexists].
Qed.

Lemma completes_bind {A B} (c : Proc W A) (k : A → Proc W B) :
  completes c → (∀ a, completes (k a)) → completes (bind c k).
Proof.
  intros Hc Hk env n w He. unfold bind. destruct (Hc env n w He) as (a & n' & w' & ->). by apply Hk.
Qed.

Lemma completes_bind_ok {A B E} (c : Proc W (Result A E)) (k : A → Proc W (Result B E)) :
  completes c → (∀ a, completes (k a)) → completes (bind_ok c k).
Proof. intros Hc Hk. apply completes_bind; [done |]. intros [a|e]; [apply Hk | apply completes_ret]. Qed.

Lemma completes_map_err {A E F} (f : E → F) (c : Proc W (Result A E)) :
  completes c → completes (map_err_proc f c).
Proof. intros Hc. apply completes_bind; [done |]. intros. apply completes_ret. Qed.

(** A deadline ends any wait: nothing is asked of what it bounds. *)
Lemma completes_timeout {A} micros (c : Proc W A) : completes (timeout micros c).
Proof.
  intros env n w He. unfold timeout. destruct (c _ n w) as [[[a|] n'] w']; [by do 3 eexists |].
  specialize (He (pred n')). destruct (reply env (pred n')); first [done | by do 3 eexists].
Qed.

Lemma completes_finally {A} (c : Proc W A) cleanup : completes c → completes (finally c cleanup).
Proof.
  intros Hc env n w He. unfold finally. destruct (Hc env n w He) as (a & n' & w' & ->). by do 3 eexists.
Qed.

(** Three calls at most. *)
Lemma completes_retry {A} (c : Proc W A) transient :
  completes c → completes (Retry.retry_while_transient c transient).
Proof.
  intros Hc. apply completes_bind; [done |]. generalize Retry.RPC_RETRY_DELAYS.
  induction l as [|x l IH]; intros a; cbn; [apply completes_ret |].
  destruct (transient a); [by apply completes_bind | apply completes_ret].
Qed.
End processes.

(** ** Transactions *)

Definition tx_completes {A} (c : Tx A) : Prop :=
  ∀ env n d, uninterrupted env → ∃ r n', c env n d = (Done r, n').

Lemma tx_completes_ret {A} (a : A) : tx_completes (tx_ret a).
Proof. by intros env n d _; do 2 eexists. Qed.
Lemma tx_completes_fail {A} e : tx_completes (A := A) (tx_fail e).
Proof. by intros env n d _; do 2 eexists. Qed.
Lemma tx_completes_now : tx_completes tx_now.
Proof. by intros env n d _; do 2 eexists. Qed.
Lemma tx_completes_stmt {A} (f : Stmt A) : tx_completes (tx_stmt f).
Proof.
  intros env n d He. specialize (He n). unfold tx_stmt. destruct (reply env n); first [done | by do 2 eexists].
Qed.
Lemma tx_completes_bind {A B} (c : Tx A) (k : A → Tx B) :
  tx_completes c → (∀ a, tx_completes (k a)) → tx_completes (tx_bind c k).
Proof.
  intros Hc Hk env n d He. unfold tx_bind.
  destruct (Hc env n d He) as ([[a d']|e] & n' & ->); [by apply Hk | by do 2 eexists].
Qed.
Lemma tx_completes_attempt {A} (c : Tx A) : tx_completes c → tx_completes (tx_attempt c).
Proof.
  intros Hc env n d He. unfold tx_attempt.
  destruct (Hc env n d He) as ([[a d']|e] & n' & ->); first [done | by do 2 eexists].
Qed.

Lemma completes_run_tx {A} (body : Tx (TxEnd (Result A StoreError))) :
  tx_completes body → completes (run_tx body).
Proof.
  intros Hb env n w He. unfold run_tx. pose proof (He n) as Hn.
  destruct (reply env n); try done; try (by do 3 eexists).
  destruct (Hb env (S n) (db (interfere env n w)) He) as ([[[r|r] d]|e] & n1 & ->);
    [| | by do 3 eexists]; apply completes_bind; try done;
    try (intros [|]; apply completes_ret).
  - intros env' m w' He'. specialize (He' m). unfold commit. destruct (reply env' m); first [done | by do 3 eexists].
  - apply completes_request.
Qed.

(** ** The calls of the service *)

Ltac head_of t := lazymatch t with ?f _ => head_of f | _ => t end.

Create HintDb completes.

(** Walks through a process, unfolding the operations it calls. *)
Ltac solve_completes :=
  repeat first
    [ solve [eauto with completes]
    | apply completes_retry
    | apply completes_ret | apply completes_gets | apply completes_modify | apply completes_now
    | apply completes_request | apply completes_consult | apply completes_transmit
    | apply completes_timeout | apply completes_finally
    | apply completes_bind | apply completes_bind_ok | apply completes_map_err
    | apply completes_run_tx
    | apply tx_completes_ret | apply tx_completes_fail | apply tx_completes_now
    | apply tx_completes_stmt | apply tx_completes_bind | apply tx_completes_attempt
    | progress intros
    | match goal with
      | |- completes (match ?x with _ => _ end) => destruct x
      | |- tx_completes (match ?x with _ => _ end) => destruct x
      | |- completes (let _ := _ in _) => cbv zeta
      | |- tx_completes (let _ := _ in _) => cbv zeta
      | |- completes ?c => let h := head_of c in unfold h
      | |- tx_completes ?c => let h := head_of c in unfold h
      end ].

(** *** The store *)

Lemma claim_settlement_completes new : completes (claim_settlement new).
Proof. solve_completes. Qed.
Lemma mark_awaiting_retry_completes id code : completes (mark_awaiting_retry id code).
Proof. solve_completes. Qed.
Lemma resume_awaiting_retry_completes retry : completes (resume_awaiting_retry retry).
Proof. solve_completes. Qed.
Lemma mark_terminal_completes e : completes (mark_terminal e).
Proof. solve_completes. Qed.

#[local] Hint Resolve claim_settlement_completes mark_awaiting_retry_completes
  resume_awaiting_retry_completes mark_terminal_completes : completes.

(** *** The chains *)

Section calls.
Context `{Near.External} `{Evm.EvmExternal}.

Lemma verify_completes p request policy : completes (Chain.verify p request policy).
Proof. solve_completes. Qed.
Lemma signer_head_completes p : completes (Chain.signer_head p).
Proof. solve_completes. Qed.
Lemma prepare_completes p payment head : completes (Chain.prepare p payment head).
Proof. solve_completes. Qed.
Lemma broadcast_completes p id prepared payment : completes (Chain.broadcast p id prepared payment).
Proof. solve_completes. Qed.
Lemma rebroadcast_completes p id bytes hash payer asset :
  completes (Chain.rebroadcast p id bytes hash payer asset).
Proof. solve_completes. Qed.
Lemma reconcile_status_completes p hash signer payer asset policy :
  completes (Chain.reconcile_status p hash signer payer asset policy).
Proof. solve_completes. Qed.

End calls.

#[export] Hint Resolve claim_settlement_completes mark_awaiting_retry_completes
  resume_awaiting_retry_completes mark_terminal_completes verify_completes signer_head_completes prepare_completes
  broadcast_completes rebroadcast_completes reconcile_status_completes : completes.

(** ** The engine *)

Section engine.
Context `{Near.External} `{Evm.EvmExternal}.
Context (s : AppState).

Lemma worker_completes id request : completes (run_new_settlement s id request).
Proof. solve_completes. Qed.

Lemma release_reserved_completes recs : completes (release_reserved recs).
Proof. induction recs; cbn [release_reserved]; solve_completes. Qed.

Lemma resolve_signed_completes recs : completes (resolve_signed s recs).
Proof. induction recs; cbn [resolve_signed]; solve_completes. Qed.

#[local] Hint Resolve release_reserved_completes resolve_signed_completes : completes.

Lemma reconcile_completes : completes (reconcile s).
Proof. solve_completes. Qed.

End engine.

#[export] Hint Resolve worker_completes reconcile_completes : completes.

End Termination.
