(* ===== verification/ProgressSpec.v ===== *)
(** * No settlement is left behind

    What the worker and the recovery of [crates/x402-near-facilitator/src/service.rs]
    owe a claimed settlement: a worker that returns has concluded its settlement, given
    it back, or closed the gate that only a recovery pass opens again; a recovery pass
    opens it only over a journal with nothing active; and after a crash before signing
    one undisturbed pass returns every reservation and opens it. *)

From stdpp Require Import base gmap strings list numbers relations sorting.
From Stdlib Require Import Lia NArith ZArith Ascii String.
From S2P Require Import Prelude Text Json Readiness Schema Sql Store Journal StoreProofs StoreSpec.
From S2P Require Import Receipt Near Retry Evm Chain ChainProofs Service ServiceProofs Termination.
From S2P Require Import Demo DemoEvm DemoService.

Open Scope string_scope.
Open Scope list_scope.
Open Scope N_scope.

Module ProgressSpec.
Import Store Journal StoreProofs StoreSpec ChainProofs Service ServiceProofs Termination.

(** ** The end of a settlement attempt *)

(** The event log has at least [k] entries. *)
Definition logged (k : nat) (w : World) : Prop := (k <= List.length (settlement_events (db w)))%nat.

(** Since the [k]th event, the settlement went back to awaiting a retry. *)
Definition given_back (k : nat) (id : N) (w : World) : Prop :=
  ∃ i e, (k <= i)%nat ∧ settlement_events (db w) !! i = Some e ∧
    event_settlement e = id ∧ event_to e = AwaitingRetry.

(** The settlement has its final answer. *)
Definition concluded (id : N) (w : World) : Prop :=
  ∃ r, settlements (db w) !! id = Some r ∧ is_terminal (state r) = true.

(** New settlements wait for a recovery pass. *)
Definition recovery_pending (w : World) : Prop :=
  Readiness.s_reconciliation (Readiness.snapshot (gates w)) = false.

Definition accounted (k : nat) (id : N) (w : World) : Prop :=
  concluded id w ∨ given_back k id w ∨ recovery_pending w.

#[export] Instance stable_logged k : Stable (logged k).
Proof. intros w w' [[_ L] _] Hk. apply prefix_length in L. unfold logged in *. lia. Qed.

#[export] Instance stable_given_back k id : Stable (given_back k id).
Proof.
  intros w w' [[_ L] _] (i & e & Hi & He & Hid & Hto). exists i, e.
  split_and!; [done | by eapply prefix_lookup_Some | done | done].
Qed.

#[export] Instance stable_concluded id : Stable (concluded id).
Proof.
  intros w w' [[L _] _] (r & Hr & Ht). destruct (L _ _ Hr) as (r' & Hr' & Lr).
  exists r'. split; [done |]. destruct (le_terminal _ _ Lr Ht) as [Hs _]. by rewrite Hs.
Qed.

(** ** What the two ways out establish *)

Lemma mark_awaiting_retry_spec k id code :
  spec (logged k) (mark_awaiting_retry id code)
    (λ r w, match r with Ok _ => given_back k id w | Err _ => True end).
Proof.
  unfold mark_awaiting_retry. destruct (is_empty code); [by apply spec_ret |].
  apply run_tx_spec; [apply awaiting_retry_tx_steps | apply _ | apply _ | |].
  - intros env n w a d' n' _ Hk Hrun. unfold awaiting_retry_tx in Hrun. tx_inv; try done. stmt_inv.
    eexists (List.length (settlement_events (db w))), _. cbn.
    split_and!; [exact Hk | by rewrite lookup_app_r, Nat.sub_diag by done | done | done].
  - intros env n d a d' n' Hrun. unfold awaiting_retry_tx in Hrun. tx_inv; done.
Qed.

Lemma mark_terminal_spec e :
  spec (λ _, True) (mark_terminal e)
    (λ r w, match r with Ok _ => concluded (term_settlement_id e) w | Err _ => True end).
Proof.
  unfold mark_terminal. destruct (is_terminal (term_state e)) eqn:Ht; cbn [negb]; [| by apply spec_ret].
  apply run_tx_outcome_spec; [apply terminal_tx_steps | apply _ | apply _ | |];
    intros env n w a d' n' _ _ Hrun; unfold terminal_tx in Hrun.
  - tx_inv; try done. unfold update_terminal in *. result_inv. stmt_inv.
    + match goal with Hl : settlements _ !! _ = Some ?x, H : forall r : Row, _ |- _ =>
        by pose proof (H x Hl) end.
    + eexists. cbn. by rewrite lookup_insert_eq.
  - tx_inv; try done. stmt_inv. by eexists.
Qed.

Lemma set_reconciliation_closes P : spec P (set_reconciliation false) (λ _, recovery_pending).
Proof.
  intros env n w o n' w' Hr Hw _ Hrun.
  destruct (set_reconciliation_respects false _ _ _ _ _ _ Hr Hrun Hw) as [Hw' L].
  split_and!; [done | done |]. intros [] ->. injection Hrun as _ <-. done.
Qed.

(** ** The worker *)

Section worker.
Context `{Near.External} `{Evm.EvmExternal}.
Context (s : AppState).

Lemma retryable_accounts k id code :
  spec (logged k) (retryable_service_failure id code) (λ _, accounted k id).
Proof.
  eapply spec_bind; [apply mark_awaiting_retry_spec |].
  intros [u|e]; cbn [is_err is_ok negb]; [apply spec_ret; intros w Hw; by right; left |].
  eapply spec_weaken; [apply (set_reconciliation_closes (λ _, True)) | done | by right; right].
Qed.

Lemma terminalize_accounts k e P :
  spec P (terminalize e) (λ _, accounted k (term_settlement_id e)).
Proof.
  eapply spec_bind; [eapply spec_weaken; [apply mark_terminal_spec | done | done] |].
  intros [u|err]; cbn [is_err is_ok negb]; [apply spec_ret; intros w Hw; by left |].
  eapply spec_weaken; [apply (set_reconciliation_closes (λ _, True)) | done | by right; right].
Qed.

Lemma closing_accounts k id P : spec P (set_reconciliation false) (λ _, accounted k id).
Proof. eapply spec_weaken; [apply (set_reconciliation_closes P) | done | by right; right]. Qed.

Lemma drift_accounts k id reason nonce :
  spec (λ _, True) (quarantine_after_drift s reason nonce) (λ _, accounted k id).
Proof.
  unfold quarantine_after_drift.
  do 2 (apply spec_step; [apply _ | eauto using quarantine_relayer_respects, set_relayer_respects | intros _]).
  apply closing_accounts.
Qed.

#[local] Hint Resolve settlement_respects set_relayer_respects can_settle_respects
  fresh_head_respects quarantine_relayer_respects : respects.

(** Walks to the end of a process, where every way out accounts for the settlement. *)
Ltac conclude_with k :=
  first
    [ apply closing_accounts
    | apply terminalize_accounts
    | eapply spec_weaken; [apply (retryable_accounts k) | intros ? Hw; apply Hw | done]
    | eapply spec_weaken; [apply drift_accounts | done | done] ].

Ltac account k :=
  repeat lazymatch goal with
  | |- spec _ (bind (mark_submitted _) _) _ => fail
  | |- spec _ (bind (Chain.prepare _ _ _) _) _ => fail
  | |- spec _ _ _ =>
      first
        [ conclude_with k
        | match goal with |- spec _ (match ?x with _ => _ end) _ => destruct x eqn:? end
        | apply spec_step; [apply _ | solve [eauto with respects] |] ]
  | |- ∀ _, _ => intro
  end.

(** A store step that establishes its assertion beside the log's length. *)
Lemma logged_bind {A B} k P Q (c : Proc World A) (f : A → Proc World B) R :
  spec P c Q → (∀ a, spec (λ w, logged k w ∧ Q a w) (f a) R) →
  spec (λ w, logged k w ∧ P w) (bind c f) R.
Proof. intros Hc Hf. eapply spec_bind; [apply spec_frame; [apply _ | exact Hc] | exact Hf]. Qed.

Lemma settle_prepared_near_accounts k id head prepared payment :
  detail_bytes (Chain.prepared_detail prepared) = Chain.submit_bytes prepared →
  spec (λ w, logged k w ∧ True)
    (settle_prepared_near s id head prepared (Chain.durable_submission (provider s) prepared) payment)
    (λ _, accounted k id).
Proof.
  intros Hb. unfold settle_prepared_near. eapply logged_bind; [apply mark_prepared_spec |].
  intros [u|e]; cbn [is_err is_ok negb]; [| account k]. cbn. account k.
  eapply logged_bind; [apply mark_submitted_spec |].
  intros [u'|e]; cbn [is_err is_ok negb]; [| account k]. account k.
  eapply logged_bind; [rewrite <- Hb; apply broadcast_spec |]. account k.
Qed.

Lemma settle_prepared_evm_accounts k id prepared payment :
  detail_bytes (Chain.prepared_detail prepared) = Chain.submit_bytes prepared →
  spec (λ w, logged k w ∧ True)
    (settle_prepared_evm s id prepared (Chain.durable_submission (provider s) prepared) payment)
    (λ _, accounted k id).
Proof.
  intros Hb. unfold settle_prepared_evm.
  destruct (Chain.recovery_policy _) as [|depth]; [account k |].
  destruct (try_from _ depth); [| account k].
  eapply logged_bind; [apply mark_prepared_evm_spec |].
  intros [u|e]; cbn [is_err is_ok negb]; [| account k].
  cbn [evm_settlement_id evm_submitted_tx_rlp]. account k.
  eapply logged_bind; [apply mark_submitted_spec |].
  intros [u'|e]; cbn [is_err is_ok negb]; [| account k]. account k.
  eapply logged_bind;
    [cbn [Chain.submission_bytes Chain.durable_submission]; rewrite <- Hb; apply broadcast_spec |].
  account k.
Qed.

Lemma run_new_settlement_accounts k id request :
  spec (logged k) (run_new_settlement s id request) (λ _, accounted k id).
Proof.
  unfold run_new_settlement. account k.
  eapply spec_bind; [apply spec_returns; [apply _ | solve_respects | apply prepare_consistent] |].
  intros [prepared|e]; [| account k]. cbn beta iota.
  destruct (Chain.prepared_detail prepared) as [t|t] eqn:Ed.
  - intros env n w o n' w' Hr Hw [Hk Hb]. rewrite <- Ed in Hb.
    by apply (settle_prepared_near_accounts k id _ prepared _ Hb env n w o n' w' Hr Hw).
  - destruct (Evm.estimated_l1_fee_wei t) as [fee|]; [| account k].
    destruct (evm_reservation_covers_liability _ _); cbn [negb]; [| account k].
    intros env n w o n' w' Hr Hw [Hk Hb]. rewrite <- Ed in Hb.
    by apply (settle_prepared_evm_accounts k id prepared _ Hb env n w o n' w' Hr Hw).
Qed.

(** C5: no claimed settlement is left behind.  A worker that is not killed returns,
    whatever the nodes and the database answer and the other tasks do; and by then the
    settlement has its final answer, or since the worker began it was given back to
    await a retry, or the gate that only a recovery pass opens again is closed. *)
Theorem no_settlement_abandoned id request env n w :
  rely world_step env → uninterrupted env → world_inv w →
  ∃ n' w', run_new_settlement s id request env n w = (Done tt, n', w') ∧
    (concluded id w' ∨
     given_back (List.length (settlement_events (db w))) id w' ∨
     recovery_pending w').
Proof.
  intros Hr He Hw. destruct (worker_completes s id request env n w He) as ([] & n' & w' & Hrun).
  exists n', w'. split; [done |].
  destruct (run_new_settlement_accounts _ id request _ _ _ _ _ _ Hr Hw (le_n _) Hrun) as (_ & _ & Ha).
  by apply (Ha tt).
Qed.

End worker.

(** ** The recovery pass *)

(** Some settlement is neither finished nor dormant. *)
Definition unfinished (d : Database_) : Prop :=
  ∃ id r, settlements d !! id = Some r ∧ is_active (state r) = true.

Lemma active_rows_spec d id r :
  (id, r) ∈ active_rows d ↔ settlements d !! id = Some r ∧ is_active (state r) = true.
Proof.
  unfold active_rows. rewrite merge_sort_Permutation, list_elem_of_filter, elem_of_map_to_list.
  cbn. tauto.
Qed.

Lemma unfinished_rows d : unfinished d ↔ active_rows d ≠ [].
Proof.
  split.
  - intros (id & r & Hr) Hn. apply active_rows_spec in Hr. rewrite Hn in Hr. by apply elem_of_nil in Hr.
  - intros Hn. destruct (active_rows d) as [|[id r] l] eqn:E; [done |]. exists id, r.
    apply active_rows_spec. rewrite E. left.
Qed.

Lemma active_rows_nodup d : NoDup (active_rows d).*1.
Proof.
  unfold active_rows. rewrite merge_sort_Permutation.
  eapply sublist_NoDup; [apply (NoDup_fst_map_to_list (settlements d)) |].
  apply fmap_sublist, sublist_filter.
Qed.

Lemma records_of_nil rows recs : records_of rows = Ok recs → recs = [] ↔ rows = [].
Proof. destruct rows as [|[id r] rows]; cbn; intros H; result_inv; simplify_eq; done. Qed.

Section recovery.
Context `{Near.External} `{Evm.EvmExternal}.
Context (s : AppState).

(** What a pass that returned without an error leaves. *)
Lemma reconcile_gate env n w n' w' :
  reconcile s env n w = (Done (Ok tt), n', w') → recovery_pending w' ↔ unfinished (db w').
Proof.
  unfold reconcile. intros (leader & n1 & w1 & _ & Hk)%bind_inv.
  destruct leader; cbn [negb] in Hk; [| discriminate].
  apply bind_inv in Hk as (u & n2 & w2 & _ & Hk).
  apply bind_ok_inv in Hk as (recs & n3 & w3 & _ & Hk).
  apply bind_ok_inv in Hk as (u1 & n4 & w4 & _ & Hk).
  apply bind_ok_inv in Hk as (u2 & n5 & w5 & _ & Hk).
  apply bind_ok_inv in Hk as (remaining & n6 & w6 & Hread & Hk).
  unfold nonterminal_settlements in Hread. apply bind_ok_inv in Hread as (rows & n7 & w7 & Hq & Hret).
  injection Hret as Hrecs <- <-. unfold query, request in Hq.
  destruct (reply env n5); cbn in Hq; simplify_eq. unfold bind, ret, set_reconciliation, modify in Hk.
  injection Hk as <- <-. unfold recovery_pending. cbn.
  rewrite unfinished_rows, <- (records_of_nil _ _ Hrecs). by case_bool_decide.
Qed.

(** C6: a recovery pass opens settlement only over a journal with nothing left to
    recover.  A pass that is not killed returns, whatever the nodes and the database
    answer and the other tasks do; and when it returns without an error the gate is
    open exactly when no settlement is reserved, prepared or submitted at that time. *)
Theorem recovery_opens_iff_drained env n w :
  uninterrupted env →
  ∃ r n' w', reconcile s env n w = (Done r, n', w') ∧
    (r = Ok tt → recovery_pending w' ↔ unfinished (db w')).
Proof.
  intros He. destruct (reconcile_completes s env n w He) as (r & n' & w' & Hrun).
  exists r, n', w'. split; [done |]. intros ->. by eapply reconcile_gate.
Qed.

(** *** After a crash before signing *)

(** A reservation whose recovery counter still has room in its INTEGER column. *)
Definition recoverable (r : Row) : Prop :=
  state r = Reserved ∧ reconciliation_attempts r < i32_max.

Lemma note_calm id r env n w :
  calm env → world_inv w → settlements (db w) !! id = Some r → reconciliation_attempts r < i32_max →
  ∃ n' t, note_reconciliation id env n w
      = (Done (Ok tt), n', with_db (with_settlements (<[id := to_reconciled t r]> (settlements (db w))) (db w)) w).
Proof.
  intros Hc [Hd _] Hl Hn. exists (S n), (clock env n). unfold note_reconciliation.
  erewrite bind_done by reflexivity. unfold bind_ok, bind. rewrite calm_query by done.
  unfold update_settlement. rewrite Hl.
  rewrite (update_no_conflict _ id r) by (done || apply Hd || by left).
  destruct (inv_rows _ Hd id r Hl) as (Hck & _).
  assert (check_row (to_reconciled (clock env n) r) = true) as ->; [| done].
  unfold check_row in *. norm_bools. rewrite !andb_true_iff. split_and!; try done.
  unfold counters_check in *. norm_bools. rewrite !andb_true_iff. split_and!; try done.
  cbn. apply N.leb_le. lia.
Qed.

(** One turn of the first loop. *)
Lemma release_one id r env n w :
  calm env → world_inv w → settlements (db w) !! id = Some r → recoverable r →
  ∃ n' w' r',
    (let? _ := note_reconciliation id in
     let* _ := retryable_service_failure id "recovered_before_prepare" in
     ret (Ok tt)) env n w = (Done (Ok tt), n', w') ∧
    world_inv w' ∧ gates w' = gates w ∧ settlements (db w') = <[id := r']> (settlements (db w)) ∧
    state r' = AwaitingRetry ∧ reserved_yocto_near r' = 0 ∧ claim r' = claim r ∧
    same_spent (db w) (db w').
Proof.
  intros Hc Hw Hl Hr. destruct (note_calm id r env n w Hc Hw Hl (proj2 Hr)) as (n1 & t & Hnote).
  pose proof (note_reconciliation_respects id _ _ _ _ _ _ (calm_rely world_step _ Hc) Hnote Hw) as [Hw1 _].
  destruct (relinquish_succeeds id "recovered_before_prepare" (to_reconciled t r) env n1 _ Hc Hw1)
    as (n2 & d2 & t2 & Hmark & Hset & Hspent); [cbn; by rewrite lookup_insert_eq | apply Hr | done |].
  pose proof (mark_awaiting_retry_respects id _ _ _ _ _ _ _ (calm_rely world_step _ Hc) Hmark Hw1) as [Hw2 _].
  do 3 eexists. split; [| split; [exact Hw2 |]].
  - erewrite bind_ok_done by exact Hnote. unfold retryable_service_failure.
    unfold bind at 1. unfold bind at 1. rewrite Hmark. reflexivity.
  - cbn. split_and!; [done | | ..]. rewrite Hset. cbn. apply insert_insert_eq. all: done || exact Hspent.
Qed.

(** What the first loop has done to the settlements [ids]. *)
Definition released (ids : list N) (w w' : World) : Prop :=
  world_inv w' ∧ gates w' = gates w ∧ same_spent (db w) (db w') ∧
  (∀ id, id ∉ ids → settlements (db w') !! id = settlements (db w) !! id) ∧
  (∀ id, id ∈ ids → ∃ r r', settlements (db w) !! id = Some r ∧ settlements (db w') !! id = Some r' ∧
     state r' = AwaitingRetry ∧ reserved_yocto_near r' = 0 ∧ claim r' = claim r).

Lemma released_step id ids r r' w w1 w' :
  id ∉ ids → settlements (db w) !! id = Some r →
  settlements (db w1) = <[id := r']> (settlements (db w)) → gates w1 = gates w →
  state r' = AwaitingRetry → reserved_yocto_near r' = 0 → claim r' = claim r →
  same_spent (db w) (db w1) → released ids w1 w' → released (id :: ids) w w'.
Proof.
  intros Hid Hl Hset Hg Hs Hr Hc Hsp (Hw' & Hg' & Hsp' & Hout & Hin).
  split_and!; [done | congruence | by etrans | |].
  - intros i [Hne Hi]%not_elem_of_cons. by rewrite Hout, Hset, lookup_insert_ne by done.
  - intros i [->|Hi]%elem_of_cons.
    + exists r, r'. by rewrite Hout, Hset, lookup_insert_eq by done.
    + destruct (Hin i Hi) as (x & x' & Hx & Hx'). exists x, x'.
      rewrite Hset, lookup_insert_ne in Hx by set_solver. done.
Qed.

Lemma release_reserved_calm recs env n w :
  calm env → world_inv w → NoDup (Rec.id <$> recs) →
  (∀ rec, rec ∈ recs → Rec.state rec = Reserved ∧
     ∃ r, settlements (db w) !! Rec.id rec = Some r ∧ recoverable r) →
  ∃ n' w', release_reserved recs env n w = (Done (Ok tt), n', w') ∧ released (Rec.id <$> recs) w w'.
Proof.
  intros Hc. revert n w. induction recs as [|rec recs IH]; intros n w Hw Hnd Hrecs.
  { exists n, w. split; [done |]. split_and!; [done | done | reflexivity | done |]. by intros id ?%elem_of_nil. }
  cbn in Hnd. apply NoDup_cons in Hnd as [Hid Hnd].
  destruct (Hrecs rec) as (Hst & r & Hl & Hr); [left |].
  destruct (release_one _ r env n w Hc Hw Hl Hr) as (n1 & w1 & r' & Hrun & Hw1 & Hg & Hset & Hs & H0' & Hcl & Hsp).
  destruct (IH n1 w1 Hw1 Hnd) as (n' & w' & Hrest & Hrel).
  { intros rec' Hin. destruct (Hrecs rec') as (Hst' & x & Hx & Hxr); [by right |]. split; [done |].
    exists x. split; [| done]. rewrite Hset, lookup_insert_ne; [done |].
    intros Heq. apply Hid. rewrite Heq. by apply list_elem_of_fmap_2. }
  exists n', w'. split; [| by eapply released_step].
  cbn [release_reserved]. rewrite bool_decide_eq_true_2 by done.
  apply bind_ok_inv in Hrun as (u & n2 & w2 & Hnote & Hk).
  apply bind_inv in Hk as (u' & n3 & w3 & Hret & Hk). injection Hk as -> ->.
  erewrite bind_ok_done by exact Hnote. by erewrite bind_done by exact Hret.
Qed.

Lemma resolve_reserved recs env n w :
  Forall (λ rec, Rec.state rec = Reserved) recs → resolve_signed s recs env n w = (Done (Ok tt), n, w).
Proof. induction 1 as [|rec recs Hst _ IH]; [done |]. cbn. by rewrite Hst. Qed.

(** Each record is decoded from its row. *)
Definition decoded : list (N * Row) → list Rec.SettlementRecord → Prop :=
  Forall2 (λ p rec, settlement_from_row p.1 p.2 = Ok rec).

Lemma records_of_decoded rows recs : records_of rows = Ok recs → decoded rows recs.
Proof.
  revert recs. induction rows as [|[id r] rows IH]; cbn; intros recs Hrecs; [by simplify_eq; constructor |].
  result_inv. simplify_eq. constructor; [done | by apply IH].
Qed.

(** An undisturbed read of what recovery works on. *)
Lemma nonterminal_calm env n w :
  calm env → world_inv w →
  ∃ recs, nonterminal_settlements env n w = (Done (Ok recs), S n, w) ∧
    decoded (active_rows (db w)) recs.
Proof.
  intros Hc [Hd _]. destruct (records_decode (active_rows (db w))) as (recs & Hrecs & _).
  { apply Forall_forall. intros [id r] Hin. apply (inv_rows _ Hd id r). by apply active_rows_lookup. }
  exists recs. split; [| by apply records_of_decoded]. unfold nonterminal_settlements.
  erewrite bind_ok_done by (by apply calm_select). unfold ret. by rewrite Hrecs.
Qed.

Lemma records_ids rows recs : decoded rows recs → Rec.id <$> recs = rows.*1.
Proof.
  induction 1 as [|p rec rows recs Hrec _ IH]; cbn; [done |].
  destruct (settlement_from_row_columns _ _ _ Hrec) as [-> _]. congruence.
Qed.

Lemma records_rows rows recs rec :
  decoded rows recs → rec ∈ recs →
  ∃ r, (Rec.id rec, r) ∈ rows ∧ Rec.state rec = state r.
Proof.
  induction 1 as [|[id r] rec' rows recs Hm _ IH]; [by intros ?%elem_of_nil |].
  intros [->|(x & Hx & Hs)%IH]%elem_of_cons; [| exists x; split; [by right | done]].
  destruct (settlement_from_row_columns _ _ _ Hm) as (-> & Hs & _). exists r. split; [left | done].
Qed.

(** Everything active was reserved, and has been given back. *)
Lemma released_drains w w' : released (active_rows (db w)).*1 w w' → ¬ unfinished (db w').
Proof.
  intros (_ & _ & _ & Hout & Hin) (id & r & Hr & Ha).
  destruct (decide (id ∈ (active_rows (db w)).*1)) as [Hi|Hi].
  - destruct (Hin id Hi) as (x & x' & _ & Hx' & Hs & _). rewrite Hr in Hx'. simplify_eq.
    by rewrite Hs in Ha.
  - apply Hi, list_elem_of_fmap. exists (id, r). split; [done |]. apply active_rows_spec.
    by rewrite <- Hout.
Qed.

(** The steps of a pass, composed. *)
Lemma reconcile_runs recs env n w n2 w2 n3 w3 :
  calm env → world_inv w3 → Readiness.s_leadership (Readiness.snapshot (gates w)) = true →
  let w1 := with_gates (Readiness.set_reconciliation false (gates w)) w in
  nonterminal_settlements env n w1 = (Done (Ok recs), S n, w1) →
  release_reserved recs env (S n) w1 = (Done (Ok tt), n2, w2) →
  resolve_signed s recs env n2 w2 = (Done (Ok tt), n3, w3) →
  ¬ unfinished (db w3) →
  reconcile s env n w
  = (Done (Ok tt), S n3, with_gates (Readiness.set_reconciliation true (gates w3)) w3).
Proof.
  intros Hc Hw3 Hlead w1 Hread Hloop Hres Hdone.
  destruct (nonterminal_calm env n3 w3 Hc Hw3) as (recs3 & Hread3 & Hm3).
  assert (recs3 = []) as ->.
  { rewrite unfinished_rows in Hdone. destruct (active_rows (db w3)); [by inversion Hm3 | by destruct Hdone]. }
  unfold reconcile. erewrite bind_done by reflexivity. cbv beta. rewrite Hlead. cbn [negb].
  erewrite bind_done by reflexivity. erewrite bind_ok_done by exact Hread.
  erewrite bind_ok_done by exact Hloop. erewrite bind_ok_done by exact Hres.
  by erewrite bind_ok_done by exact Hread3.
Qed.

(** C31: a crash before signing is undone by one recovery pass.  On a journal whose
    active settlements are all still reserved, an undisturbed pass of the leader
    returns, gives every one of them back (no budget held, the claim kept, awaiting a
    retry), leaves all others as they were, and opens settlement. *)
Theorem crash_before_signing_recovered env n w :
  calm env → world_inv w → Readiness.s_leadership (Readiness.snapshot (gates w)) = true →
  (∀ id r, settlements (db w) !! id = Some r → is_active (state r) = true → recoverable r) →
  ∃ n' w', reconcile s env n w = (Done (Ok tt), n', w') ∧
    ¬ recovery_pending w' ∧ ¬ unfinished (db w') ∧
    (∀ id r, settlements (db w) !! id = Some r →
       if is_active (state r)
       then ∃ r', settlements (db w') !! id = Some r' ∧ state r' = AwaitingRetry ∧
              reserved_yocto_near r' = 0 ∧ claim r' = claim r
       else settlements (db w') !! id = Some r).
Proof.
  intros Hc Hw Hlead Hall. set (w1 := with_gates (Readiness.set_reconciliation false (gates w)) w).
  assert (world_inv w1) as Hw1 by apply (world_step_gates _ _ Hw).
  destruct (nonterminal_calm env n w1 Hc Hw1) as (recs & Hread & Hm).
  pose proof (records_ids _ _ Hm) as Hids. pose proof (active_rows_nodup (db w1)) as Hnd.
  assert (∀ rec, rec ∈ recs → Rec.state rec = Reserved ∧
     ∃ r, settlements (db w1) !! Rec.id rec = Some r ∧ recoverable r) as Hrecs.
  { intros rec Hin. destruct (records_rows _ _ _ Hm Hin) as (r & Hr & Hst).
    apply active_rows_spec in Hr as [Hr Ha]. rewrite Hst.
    destruct (Hall _ r Hr Ha). split; [done | by exists r]. }
  destruct (release_reserved_calm recs env (S n) w1 Hc Hw1) as (n2 & w2 & Hloop & Hrel);
    [by rewrite Hids | done |].
  rewrite Hids in Hrel. pose proof (released_drains _ _ Hrel) as Hdone.
  destruct Hrel as (Hw2 & Hg2 & _ & Hout & Hin).
  assert (Forall (λ rec, Rec.state rec = Reserved) recs) as Hres
    by (apply Forall_forall; intros rec Hr; apply (Hrecs rec Hr)).
  exists (S n2), (with_gates (Readiness.set_reconciliation true (gates w2)) w2).
  split_and!; [| done | done |].
  - eapply reconcile_runs; [done | done | done | exact Hread | exact Hloop | by apply resolve_reserved | done].
  - intros id r Hr. destruct (is_active (state r)) eqn:Ha; cbn.
    + destruct (Hin id) as (x & x' & Hx & Hx' & Hrest).
      { apply list_elem_of_fmap. exists (id, r). split; [done |]. by apply active_rows_spec. }
      exists x'. cbn in Hx. rewrite Hr in Hx. by simplify_eq.
    + rewrite Hout; [done |]. intros ([i x] & -> & [Hx Hax]%active_rows_spec)%list_elem_of_fmap.
      cbn in *. congruence.
Qed.

End recovery.

(** ** A claim whose worker died *)

Section witnesses.
#[local] Existing Instances Demo.external DemoEvm.external.

(** Settlement 1 is reserved and nobody works on it; the process leads. *)
Definition orphaned : World := with_gates DemoService.gates (journal claimed_a).

Lemma orphaned_inv : world_inv orphaned.
Proof. apply world_step_gates, reachable_inv, journal_reachable. Qed.

Lemma orphaned_recoverable id r : settlements (db orphaned) !! id = Some r → recoverable r.
Proof.
  intros Hr%elem_of_map_to_list%list_elem_of_In.
  assert (forallb (λ p, bool_decide (state p.2 = Reserved) && (reconciliation_attempts p.2 <? i32_max))
            (map_to_list (settlements (db orphaned))) = true) as Hall by (vm_compute; reflexivity).
  apply (proj1 (forallb_forall _ _) Hall) in Hr. apply andb_true_iff in Hr as [Hs Ha].
  split; [by apply bool_decide_eq_true in Hs | by apply N.ltb_lt in Ha].
Qed.

Lemma no_settlement_abandoned_witness :
  ∃ n' w', run_new_settlement DemoService.demo_app 1 Demo.request_text (quiet_env World) 0%nat orphaned
      = (Done tt, n', w') ∧
    (concluded 1 w' ∨ given_back (List.length (settlement_events (db orphaned))) 1 w' ∨ recovery_pending w').
Proof.
  apply (no_settlement_abandoned DemoService.demo_app 1 Demo.request_text (quiet_env World) 0%nat orphaned).
  - apply (calm_rely world_step), quiet_calm.
  - intros m. discriminate.
  - apply orphaned_inv.
Defined.

Example orphan_recovered :
  (reconcile DemoService.demo_app (quiet_env World) 0%nat orphaned).1.1 = Done (Ok tt).
Proof. vm_compute. reflexivity. Qed.

Lemma recovery_opens_iff_drained_witness :
  ∃ n' w', reconcile DemoService.demo_app (quiet_env World) 0%nat orphaned = (Done (Ok tt), n', w') ∧
    (recovery_pending w' ↔ unfinished (db w')).
Proof.
  destruct (recovery_opens_iff_drained DemoService.demo_app (quiet_env World) 0%nat orphaned)
    as (r & n' & w' & Hrun & Hgate); [intros m; discriminate |].
  pose proof orphan_recovered as Hr. rewrite Hrun in Hr. injection Hr as ->. eauto.
Defined.

Lemma crash_before_signing_recovered_witness :
  ∃ n' w', reconcile DemoService.demo_app (quiet_env World) 0%nat orphaned = (Done (Ok tt), n', w') ∧
    ¬ recovery_pending w' ∧ ¬ unfinished (db w').
Proof.
  destruct (crash_before_signing_recovered DemoService.demo_app (quiet_env World) 0%nat orphaned)
    as (n' & w' & Hrun & Hopen & Hdone & _).
  - apply quiet_calm.
  - apply orphaned_inv.
  - vm_compute. reflexivity.
  - intros id r Hr _. apply orphaned_recoverable in Hr. done.
  - eauto.
Defined.

End witnesses.

End ProgressSpec.
