(* ===== verification/ResumeSpec.v ===== *)
(** * A signed settlement is brought to its end

    After a crash behind the durable prepare, one undisturbed recovery pass over a chain
    that has decided concludes the settlement with the chain's outcome, gives back what
    was only reserved, and opens settlement again. *)

From stdpp Require Import base gmap strings list numbers relations sorting.
From Stdlib Require Import Lia NArith ZArith Ascii String.
From S2P Require Import Prelude Text Json Readiness Schema Sql Store Journal StoreProofs StoreSpec.
From S2P Require Import Receipt Near Config Retry Evm EvmSpec Chain ChainProofs Service ServiceProofs Termination ProgressSpec.
From S2P Require Import Demo DemoEvm DemoService RecoverySpec.

Open Scope string_scope.
Open Scope list_scope.
Open Scope N_scope.

Module ResumeSpec.
Import Store Journal StoreProofs StoreSpec ChainProofs Service ServiceProofs ProgressSpec.

Section resume.
Context `{Near.External} `{Evm.EvmExternal}.
Context (s : AppState).

(** ** The two loops *)

Definition is_reserved_record (rec : Rec.SettlementRecord) : Prop := Rec.state rec = Reserved.

(** The first loop only works on reservations. *)
Lemma release_reserved_filter recs env n w :
  release_reserved recs env n w = release_reserved (filter is_reserved_record recs) env n w.
Proof.
  revert n w. induction recs as [|rec recs IH]; intros n w; [done |].
  cbn [release_reserved]. case_bool_decide as Hst.
  - rewrite filter_cons_True by done. cbn [release_reserved]. rewrite bool_decide_eq_true_2 by done.
    unfold bind_ok, bind. destruct (note_reconciliation _ _ _ _) as [[[[u|e]|] n1] w1]; try done.
    destruct (retryable_service_failure _ _ _ _ _) as [[[v|] n2] w2]; [apply IH | done].
  - by rewrite filter_cons_False.
Qed.

(** The second loop passes over reservations. *)
Lemma resolve_signed_skip pre recs env n w :
  Forall is_reserved_record pre →
  resolve_signed s (pre ++ recs) env n w = resolve_signed s recs env n w.
Proof. induction 1 as [|rec pre Hst _ IH]; [done |]. cbn. by rewrite Hst. Qed.

(** ** Concluding one row *)

(** A success on an EVM chain is at least as deep as the row asks. *)
Definition confirmed (r : Row) (o : Chain.TerminalOutcome) : Prop :=
  match Schema.chain_kind (claim r), Chain.success o with
  | Eip155, true => ∃ q depth, required_confirmations (evm_submission r) = Some q ∧
      Chain.confirmations o = Some depth ∧ depth <= i32_max ∧ (q <= Z.of_N depth)%Z
  | _, _ => True
  end.

(** Up to the conclusion recovery may only have raised the row's confirmation depth. *)
Record advanced (id : N) (r : Row) (w w1 : World) (r1 : Row) : Prop := MkAdvanced {
  adv_inv : world_inv w1;
  adv_gates : gates w1 = gates w;
  adv_spent : same_spent (db w) (db w1);
  adv_rows : settlements (db w1) = <[id := r1]> (settlements (db w));
  adv_claim : claim r1 = claim r;
  adv_state : state r1 = state r;
  adv_date : reservation_date r1 = reservation_date r
}.

(** An outcome seen under [depth] confirmations. *)
Definition at_depth (depth : option N) (o : Chain.TerminalOutcome) : Chain.TerminalOutcome :=
  Chain.MkOutcome (Chain.success o) (Chain.tx_hash o) (Chain.recipient_delta_atomic o)
    (Chain.fee_atomic o) (Chain.gas_units o) (Chain.failure_detail o) (Chain.mined_block_number o)
    (Chain.mined_block_hash o) depth.

(** The chain has decided: the recovery of [rec] goes straight to its conclusion. *)
Definition decided (rec : Rec.SettlementRecord) (r : Row) (o : Chain.TerminalOutcome) : Prop :=
  ∀ env n w t, calm env → world_inv w → settlements (db w) !! Rec.id rec = Some (to_reconciled t r) →
    ∃ n1 w1 r1 depth,
      reconcile_prepared s rec env n w = finalize_reconciled_terminal s rec (at_depth depth o) env n1 w1 ∧
      advanced (Rec.id rec) (to_reconciled t r) w w1 r1 ∧ confirmed r1 (at_depth depth o).

(** The answer recovery stores for an outcome. *)
Definition outcome_answer (rec : Rec.SettlementRecord) (o : Chain.TerminalOutcome) : string :=
  term_response_bytes (outcome_entry (Rec.id rec) (Rec.payer rec) (network (config s)) o).

(** The numbers of an outcome fit their columns. *)
Definition outcome_fits (o : Chain.TerminalOutcome) : Prop :=
  numeric_fits 40 (Chain.gas_units o) = true ∧ numeric_fits 40 (Chain.fee_atomic o) = true ∧
  opt_fits 20 (Chain.mined_block_number o) = true.

Lemma numeric_in_decimal n : numeric_in (to_decimal n) = Ok n.
Proof. rewrite numeric_in_ok by apply is_decimal_to_decimal. by rewrite dec_value_to_decimal. Qed.

Lemma outcome_storable d r id payer_ o :
  row_ok r → is_signed (state r) = true → confirmed r o → outcome_fits o →
  day_has_room d r (Chain.fee_atomic o) →
  ∃ cols, storable d r (outcome_entry id payer_ (network (config s)) o) HTTP_OK cols ∧
    ∀ t, terminal_response_bytes (cols t)
         = Some (term_response_bytes (outcome_entry id payer_ (network (config s)) o)).
Proof.
  intros Hok Hs Hk (Fg & Ff & Fb) Hroom. set (e := outcome_entry id payer_ _ o).
  exists (λ t, MkTerminal (Some HTTP_OK) (Some (term_response_bytes e)) (term_error_code e)
    (term_error_detail e) (Some (Chain.gas_units o)) (Some (Chain.fee_atomic o))
    (Chain.mined_block_number o) (term_mined_block_hash e) (term_confirmations e) (Some t)).
  split; [| done]. split; cbn [term_state term_http_status term_actual_yocto_near e outcome_entry].
  - by destruct (Chain.success o).
  - done.
  - apply is_decimal_to_decimal.
  - by rewrite dec_value_to_decimal.
  - exists (Chain.gas_units o), (Chain.fee_atomic o), (Chain.mined_block_number o). cbn.
    rewrite !numeric_in_decimal. split_and!; try done.
    destruct (Chain.mined_block_number o); cbn; by rewrite ?numeric_in_decimal.
  - intros t. apply conclude_check; cbn; try done.
    + by destruct (Chain.success o).
    + destruct (Chain.confirmations o) as [depth|]; cbn; [| done]. unfold try_from.
      destruct (depth <=? i32_max) eqn:E; cbn; [| done]. apply N.leb_le in E.
      unfold in_i32, i32_min, i32_max in *. rewrite !andb_true_iff, !Z.leb_le. lia.
    + unfold evm_success_check, confirmed in *. cbn.
      destruct (Schema.chain_kind (claim r)), (Chain.success o); try done.
      destruct Hk as (q & depth & -> & -> & Hd & Hq). cbn. unfold try_from.
      rewrite (proj2 (N.leb_le _ _) Hd). cbn. by apply Z.leb_le.
Qed.

(** One signed record, from the count of the attempt to the terminal row. *)
Lemma conclude_decided rec r o env n w :
  calm env → world_inv w → settlements (db w) !! Rec.id rec = Some r →
  is_signed (state r) = true → fee_overrun rec (Chain.fee_atomic o) = Ok false →
  reconciliation_attempts r < i32_max → decided rec r o → outcome_fits o →
  day_has_room (db w) r (Chain.fee_atomic o) →
  ∃ n' w' r', (let? _ := note_reconciliation (Rec.id rec) in reconcile_prepared s rec) env n w
      = (Done (Ok tt), n', w') ∧
    world_inv w' ∧ gates w' = gates w ∧ settlements (db w') = <[Rec.id rec := r']> (settlements (db w)) ∧
    state r' = (if Chain.success o then Succeeded else Failed) ∧
    terminal_response_bytes (terminal r') = Some (outcome_answer rec o).
Proof.
  intros Hc Hw Hl Hs Hfee Hn Hdec Hfit Hroom.
  destruct (note_calm _ r env n w Hc Hw Hl Hn) as (n1 & t & Hnote).
  pose proof (note_reconciliation_respects _ _ _ _ _ _ _ (calm_rely world_step _ Hc) Hnote Hw) as [Hw1 _].
  set (w1 := with_db _ w) in *.
  destruct (Hdec env n1 w1 t Hc Hw1) as (n2 & w2 & r2 & depth & Hrun & [Hw2 Hg Hsp Hset Hcl Hst Hdate] & Hconf);
    [apply lookup_insert_eq |].
  assert (settlements (db w2) !! Rec.id rec = Some r2) as Hl2 by (rewrite Hset; apply lookup_insert_eq).
  assert (is_signed (state r2) = true) as Hs2 by by rewrite Hst.
  destruct (outcome_storable (db w2) r2 (Rec.id rec) (Rec.payer rec) (at_depth depth o)) as (cols & Hsto & Hbytes);
    [by eapply inv_rows, Hl2; apply Hw2 | done | done | done | |].
  { eapply (same_spent_room (db w1) (db w2) r r2); [done | exact Hdate | by rewrite Hcl | exact Hroom]. }
  destruct (conclude_succeeds (outcome_entry (Rec.id rec) (Rec.payer rec) (network (config s)) (at_depth depth o))
              _ _ _ env n2 w2 Hc Hw2 Hl2 Hs2 Hsto) as (n3 & d3 & t3 & Hmark & Hset3).
  pose proof (mark_terminal_respects _ _ _ _ _ _ _ (calm_rely world_step _ Hc) Hmark Hw2) as [Hw3 _].
  eexists _, _, (to_terminal _ (cols t3) t3 r2). split; [| split; [exact Hw3 |]].
  - erewrite bind_ok_done by exact Hnote. rewrite Hrun. unfold finalize_reconciled_terminal.
    cbn [at_depth Chain.fee_atomic]. rewrite Hfee. do 2 erewrite bind_ok_done by reflexivity.
    erewrite bind_ok_done by exact Hmark. reflexivity.
  - split; [exact Hg |]. cbn [db with_db]. rewrite Hset3, Hset. split_and!; [| | apply Hbytes].
    + cbn [db w1 with_db settlements with_settlements]. by rewrite !insert_insert_eq.
    + cbn. by destruct (Chain.success o).
Qed.

(** ** The pass *)

(** The second loop on a list with one signed record. *)
Lemma resolve_decided pre rec post r o env n w :
  Forall is_reserved_record pre → Forall is_reserved_record post →
  calm env → world_inv w → settlements (db w) !! Rec.id rec = Some r →
  is_signed (Rec.state rec) = true → is_signed (state r) = true →
  fee_overrun rec (Chain.fee_atomic o) = Ok false →
  reconciliation_attempts r < i32_max → decided rec r o → outcome_fits o →
  day_has_room (db w) r (Chain.fee_atomic o) →
  ∃ n' w' r', resolve_signed s (pre ++ rec :: post) env n w = (Done (Ok tt), n', w') ∧
    world_inv w' ∧ gates w' = gates w ∧ settlements (db w') = <[Rec.id rec := r']> (settlements (db w)) ∧
    state r' = (if Chain.success o then Succeeded else Failed) ∧
    terminal_response_bytes (terminal r') = Some (outcome_answer rec o).
Proof.
  intros Hpre Hpost Hc Hw Hl Hst Hs Hfee Hn Hdec Hfit Hroom.
  destruct (conclude_decided rec r o env n w Hc Hw Hl Hs Hfee Hn Hdec Hfit Hroom)
    as (n1 & w1 & r' & Hrun & Hw1 & Hg & Hset & Hst' & Hans).
  apply bind_ok_inv in Hrun as ([] & n2 & w2 & Hnote & Hrec).
  destruct (settlement_from_row_ok (Rec.id rec) r') as (rec' & Hrec' & _ & Hstate & _).
  { eapply (inv_rows _ (proj1 Hw1) (Rec.id rec)). rewrite Hset. apply lookup_insert_eq. }
  exists (S n1), w1, r'. split; [| done]. rewrite resolve_signed_skip by done. cbn [resolve_signed].
  assert (∀ k, (let? current := settlement (Rec.id rec) in
     if is_some_and current (λ current, negb (is_terminal (Rec.state current))) then ret (Ok tt)
     else k) env n1 w1 = k env (S n1) w1) as Hread.
  { intros k. unfold settlement at 1. unfold bind_ok at 1. unfold bind at 1. unfold bind_ok, bind, select_row.
    rewrite calm_select by done. cbv beta. rewrite Hset, lookup_insert_eq. cbn [record_of].
    rewrite Hrec'. cbn. rewrite Hstate, Hst'. by destruct (Chain.success o). }
  destruct (Rec.state rec); try done;
    (erewrite bind_ok_done by exact Hnote; erewrite bind_ok_done by exact Hrec;
     rewrite Hread; by apply resolve_reserved).
Qed.

(** The journal holds one signed settlement; everything else active is a reservation. *)
Record interrupted (w : World) (id : N) (r : Row) : Prop := MkInterrupted {
  int_row : settlements (db w) !! id = Some r;
  int_signed : is_signed (state r) = true;
  int_attempts : reconciliation_attempts r < i32_max;
  int_others : ∀ i x, i ≠ id → settlements (db w) !! i = Some x → is_active (state x) = true → recoverable x
}.

(** What recovery reads of such a journal. *)
Lemma interrupted_records w id r rec recs :
  interrupted w id r → settlement_from_row id r = Ok rec → decoded (active_rows (db w)) recs →
  ∃ pre post, recs = pre ++ rec :: post ∧
    Forall is_reserved_record pre ∧ Forall is_reserved_record post ∧
    ∀ x, x ∈ pre ++ post → Rec.id x ≠ id ∧
      ∃ y, settlements (db w) !! Rec.id x = Some y ∧ recoverable y.
Proof.
  intros [Hl Hs Hn Hothers] Hrec Hdec.
  assert ((id, r) ∈ active_rows (db w)) as (l1 & l2 & Hrows)%list_elem_of_split.
  { apply active_rows_spec. split; [done | by destruct (state r)]. }
  pose proof (active_rows_nodup (db w)) as Hnd. pose proof (records_ids _ _ Hdec) as Hids.
  assert (∀ i x, (i, x) ∈ active_rows (db w) → settlements (db w) !! i = Some x ∧ is_active (state x) = true)
    as Hact by (intros i x; apply active_rows_spec).
  rewrite Hrows in *. apply Forall2_app_inv_l in Hdec as (pre & post' & Hpre & Hpost & ->).
  inversion Hpost as [|? rec' ? post Hrec' Hpost']; subst. cbn in Hrec'. rewrite Hrec in Hrec'.
  injection Hrec' as <-. exists pre, post.
  assert (∀ x, x ∈ pre ++ post → Rec.id x ≠ id ∧
      ∃ y, settlements (db w) !! Rec.id x = Some y ∧ recoverable y ∧ Rec.state x = state y) as Hall.
  { intros x Hx. assert (Rec.id x ≠ id) as Hne.
    { rewrite fmap_app in Hnd. cbn in Hnd. apply NoDup_app in Hnd as (_ & H1 & [H2 _]%NoDup_cons).
      intros Heq. apply elem_of_app in Hx as [Hx|Hx].
      - apply (H1 id); [| left]. rewrite <- (records_ids _ _ Hpre), <- Heq. by apply list_elem_of_fmap_2.
      - apply H2. rewrite <- (records_ids _ _ Hpost'), <- Heq. by apply list_elem_of_fmap_2. }
    split; [done |].
    assert (∃ y, (Rec.id x, y) ∈ l1 ++ (id, r) :: l2 ∧ Rec.state x = state y) as (y & Hy & Hxy).
    { apply elem_of_app in Hx as [Hx|Hx].
      - destruct (records_rows _ _ _ Hpre Hx) as (y & Hy & E). exists y. split; [set_solver | done].
      - destruct (records_rows _ _ _ Hpost' Hx) as (y & Hy & E). exists y. split; [set_solver | done]. }
    destruct (Hact _ _ Hy). exists y. eauto. }
  assert (∀ l, l ⊆ pre ++ post → Forall is_reserved_record l) as Hres.
  { intros l Hl'. apply Forall_forall. intros x Hx. destruct (Hall x) as (_ & y & _ & [Hy _] & E); [by apply Hl' |].
    unfold is_reserved_record. congruence. }
  split_and!; [done | apply Hres; set_solver | apply Hres; set_solver |].
  intros x Hx. destruct (Hall x Hx) as (? & y & ? & ? & _). eauto.
Qed.

Lemma filter_reserved l : Forall is_reserved_record l → filter is_reserved_record l = l.
Proof. induction 1 as [|x l Hx _ IH]; [done |]. rewrite filter_cons_True by done. by rewrite IH. Qed.

(** What the pass leaves of an interrupted settlement. *)
Record resumed (id : N) (rec : Rec.SettlementRecord) (o : Chain.TerminalOutcome) (w' : World) : Prop :=
  MkResumed {
  res_open : ¬ recovery_pending w';
  res_drained : ¬ unfinished (db w');
  res_row : ∃ r', settlements (db w') !! id = Some r' ∧
    state r' = (if Chain.success o then Succeeded else Failed) ∧
    terminal_response_bytes (terminal r') = Some (outcome_answer rec o)
}.

Lemma settlement_from_row_chain id r rec :
  settlement_from_row id r = Ok rec → Rec.chain_kind rec = Schema.chain_kind (claim r).
Proof.
  unfold settlement_from_row. intros Hrec. result_inv. simplify_eq.
  match goal with H : chain_kind_from_str _ = Ok _ |- _ => rewrite chain_kind_from_as_str in H end.
  by simplify_eq.
Qed.

(** Nothing but [id] is left when the rest of what was active was given back. *)
Lemma released_all_but id ids w w2 :
  released ids w w2 →
  (∀ i x, i ≠ id → settlements (db w) !! i = Some x → is_active (state x) = true → i ∈ ids) →
  ∀ i x, i ≠ id → settlements (db w2) !! i = Some x → is_active (state x) = false.
Proof.
  intros (_ & _ & _ & Hout & Hin) Hids i x Hne Hx. destruct (is_active (state x)) eqn:Ha; [| done].
  destruct (decide (i ∈ ids)) as [Hi|Hi].
  - destruct (Hin i Hi) as (y & y' & _ & Hy' & Hs & _). rewrite Hx in Hy'. simplify_eq. by rewrite Hs in Ha.
  - exfalso. apply Hi. eapply Hids; [done | by rewrite <- Hout | exact Ha].
Qed.

(** The first loop leaves nothing active but the interrupted settlement. *)
Lemma release_interrupted id r rec recs env n w :
  calm env → world_inv w → interrupted w id r → settlement_from_row id r = Ok rec →
  decoded (active_rows (db w)) recs →
  ∃ n2 w2, release_reserved recs env n w = (Done (Ok tt), n2, w2) ∧
    world_inv w2 ∧ gates w2 = gates w ∧ same_spent (db w) (db w2) ∧ settlements (db w2) !! id = Some r ∧
    ∀ i x, i ≠ id → settlements (db w2) !! i = Some x → is_active (state x) = false.
Proof.
  intros Hc Hw Hint Hrec Hm.
  destruct (interrupted_records w id r rec recs Hint Hrec Hm) as (pre & post & -> & Hpre & Hpost & Hrows).
  destruct (settlement_from_row_columns _ _ _ Hrec) as (Hid & Hst & _).
  destruct Hint as [Hl Hs _ _]. pose proof (records_ids _ _ Hm) as Hids.
  assert (NoDup (Rec.id <$> pre ++ post)) as Hnd.
  { eapply sublist_NoDup; [pose proof (active_rows_nodup (db w)) as Hnd; rewrite <- Hids in Hnd; exact Hnd |].
    apply fmap_sublist, sublist_app; [done | by apply sublist_cons]. }
  assert (Forall is_reserved_record (pre ++ post)) as Hres by by apply Forall_app.
  destruct (release_reserved_calm (pre ++ post) env n w Hc Hw Hnd) as (n2 & w2 & Hloop & Hrel).
  { intros x Hx. split; [by apply (proj1 (Forall_forall _ _) Hres) | apply (Hrows x Hx)]. }
  exists n2, w2. split.
  { rewrite release_reserved_filter, filter_app, filter_cons_False, !filter_reserved; [exact Hloop | done | done |].
    unfold is_reserved_record. rewrite Hst. by destruct (state r). }
  pose proof Hrel as (Hw2 & Hg2 & Hsp & Hout & _). split_and!; [done | done | done | |].
  - rewrite Hout; [done |]. intros (x & -> & Hx)%list_elem_of_fmap. by destruct (Hrows x Hx).
  - apply (released_all_but id _ w w2 Hrel). intros j y Hj Hy Hay.
    assert (j ∈ Rec.id <$> (pre ++ rec :: post)) as Hjn.
    { rewrite Hids. apply list_elem_of_fmap. exists (j, y). split; [done |]. by apply active_rows_spec. }
    rewrite fmap_app, fmap_cons, Hid in Hjn. rewrite fmap_app. set_solver.
Qed.

Lemma recovery_concludes id r rec o env n w :
  calm env → world_inv w → Readiness.s_leadership (Readiness.snapshot (gates w)) = true →
  interrupted w id r → settlement_from_row id r = Ok rec → decided rec r o →
  fee_overrun rec (Chain.fee_atomic o) = Ok false → outcome_fits o →
  day_has_room (db w) r (Chain.fee_atomic o) →
  ∃ n' w', reconcile s env n w = (Done (Ok tt), n', w') ∧ resumed id rec o w'.
Proof.
  intros Hc Hw Hlead Hint Hrec Hdec Hfee Hfit Hroom.
  set (w1 := with_gates (Readiness.set_reconciliation false (gates w)) w).
  assert (world_inv w1) as Hw1 by apply (world_step_gates _ _ Hw).
  assert (interrupted w1 id r) as Hint1 by (by destruct Hint).
  destruct (nonterminal_calm env n w1 Hc Hw1) as (recs & Hread & Hm).
  destruct (release_interrupted id r rec recs env (S n) w1 Hc Hw1 Hint1 Hrec Hm)
    as (n2 & w2 & Hloop & Hw2 & Hg2 & Hsp & Hl2 & Hrest).
  destruct (interrupted_records w1 id r rec recs Hint1 Hrec Hm) as (pre & post & -> & Hpre & Hpost & _).
  destruct (settlement_from_row_columns _ _ _ Hrec) as (Hid & Hst & _).
  destruct Hint as [_ Hs Hn _].
  destruct (resolve_decided pre rec post r o env n2 w2) as (n3 & w3 & r' & Hres & Hw3 & Hg3 & Hset & Hst' & Hans);
    try done; [by rewrite Hid | by rewrite Hst | by eapply same_spent_room |].
  rewrite Hid in Hset. assert (¬ unfinished (db w3)) as Hdone.
  { intros (i & x & Hx & Ha). rewrite Hset in Hx. destruct (decide (i = id)) as [->|Hne].
    - rewrite lookup_insert_eq in Hx. injection Hx as <-. rewrite Hst' in Ha. by destruct (Chain.success o).
    - rewrite lookup_insert_ne in Hx by done. by rewrite (Hrest i x Hne Hx) in Ha. }
  exists (S n3). eexists. split.
  - eapply reconcile_runs; [done | done | done | exact Hread | exact Hloop | exact Hres | done].
  - split; [done | done |]. exists r'. cbn. by rewrite Hset, lookup_insert_eq.
Qed.

(** ** NEAR *)

(** The lookup of a transaction at the backup endpoint. *)
Definition backup_lookup (p : Near.NearChainProvider) (hash signer : string) (n : nat)
  : Result Near.TransactionLookup Near.NearRpcError :=
  match Near.backup_rpc p with
  | Some backup => Near.transaction_status_final backup n hash signer
  | None => Err Near.backup_not_configured
  end.

(** The journaled transaction is this relayer's and sound, and whenever they are asked
    the two endpoints' answers about it add up to the outcome [o]. *)
Record near_decision (p : Near.NearChainProvider) (rec : Rec.SettlementRecord)
  (o : Chain.TerminalOutcome) : Prop := MkNearDecision {
  nd_provider : provider s = Chain.NearProvider p;
  nd_key : Rec.relayer_public_key rec = Some (Chain.provider_public_key (provider s));
  nd_account : Rec.relayer_account_id rec = Some (Chain.signer_account_id (provider s));
  nd_accounts : Near.account_id_valid (Chain.signer_account_id (provider s)) = true ∧
    Near.account_id_valid (Rec.payer rec) = true ∧ Near.account_id_valid (Rec.asset rec) = true;
  nd_transaction : ∃ text hash bytes,
    Rec.outer_transaction_hash rec = Some text ∧ Near.hash_from_str text = Some hash ∧
    Near.hash_from_str (Near.hash_to_string hash) = Some hash ∧
    Rec.outer_transaction_bytes rec = Some bytes ∧
    validate_stored_transaction rec bytes hash (Chain.signer_account_id (provider s)) = Ok tt ∧
    ∀ i j, let signer := Chain.signer_account_id (provider s) in
      Chain.verdict (Chain.judge_lookups p hash (Rec.payer rec) (Rec.asset rec)
        (Near.transaction_status_final (Near.rpc p) i hash signer) (backup_lookup p hash signer j))
      = Chain.VerdictTerminal o
}.

Lemma calm_consult {W A} (answer : nat → A) (env : Env W) n w :
  calm env → consult answer env n w = (Done (answer n), S n, w).
Proof. intros [Hi Hr]. unfold consult. by rewrite Hi, Hr. Qed.

Lemma calm_backup p hash signer env n w :
  calm env → ∃ n' j, Near.query_transaction_backup p hash signer env n w
    = (Done (backup_lookup p hash signer j), n', w).
Proof.
  intros Hc. unfold Near.query_transaction_backup, backup_lookup.
  destruct (Near.backup_rpc p) as [backup|].
  - exists (S n), n. erewrite bind_ok_done by reflexivity.
    exact (calm_consult (λ n, Near.transaction_status_final backup n hash signer) env n w Hc).
  - exists n, O. done.
Qed.

Lemma advanced_refl id r w :
  world_inv w → settlements (db w) !! id = Some r → advanced id r w w r.
Proof. intros Hw Hl. split; try done. by rewrite insert_id. Qed.

Lemma near_decided p rec r o :
  Schema.chain_kind (claim r) = Near → near_decision p rec o → decided rec r o.
Proof.
  intros Hk [Hp Hkey Hacc (Vs & Vp & Va) (text & hash & bytes & Ht & Hh & Hhh & Hb & Hval & Hlook)]
    env n w t Hc Hw Hl.
  set (signer := Chain.signer_account_id (provider s)) in *.
  destruct (calm_backup p hash signer env (S n) w Hc) as (n' & j & Hback).
  exists n', w, (to_reconciled t r), (Chain.confirmations o). split; [| split; [by apply advanced_refl |]].
  - unfold reconcile_prepared. rewrite Hp. unfold reconcile_prepared_near.
    rewrite !bool_decide_eq_true_2 by done. cbn [negb orb]. rewrite Ht, Hb, Hacc. cbn [corrupt_or ok_or].
    erewrite bind_ok_done by reflexivity. rewrite Hh.
    do 3 erewrite bind_ok_done by reflexivity. unfold Near.parse_account_id at 1. rewrite Vs.
    erewrite bind_ok_done by reflexivity. rewrite Hval, Hp.
    unfold Chain.reconcile_status, Near.parse_account_id. rewrite Hhh, Vs, Vp, Va.
    unfold Near.query_transaction. unfold bind at 1. unfold bind at 1. rewrite calm_consult by done.
    unfold bind. rewrite Hback. unfold ret. rewrite Hlook. by destruct o.
  - unfold confirmed. cbn. by rewrite Hk.
Qed.

(** ** EVM *)

(** The outcome of a mined receipt. *)
Definition mined_outcome (f : Evm.ReceiptFacts) (depth : N) : Chain.TerminalOutcome :=
  Chain.evm_terminal_to_neutral (Evm.MkEvmTerminal (Evm.facts_success f) (Evm.facts_tx_hash f)
    (Evm.facts_block_number f) (Evm.facts_block_hash f) depth (Evm.facts_gas_used f)
    (Evm.facts_fee_wei f) (Evm.facts_execution_fee_wei f) (Evm.facts_l1_fee_wei f)).

(** Whenever it is asked, the reader is on the chain, serves the mined receipt [f] and
    the transaction [tr] of [hash], and its head, which may move, is [required] blocks
    deep and not so deep that the count leaves its column. *)
Record serves (p : Evm.EvmChainProvider) (reader : Evm.EvmReader) (hash : string) (f : Evm.ReceiptFacts)
  (tr : Evm.TransactionObservation) (required : N) : Prop := MkServes {
  srv_receipt : ∀ i, EvmSpec.saw_receipt reader hash f i;
  srv_transaction : ∀ i, ∃ v, Evm.get_transaction_by_hash reader i hash = Some v ∧
    Evm.parse_raw_transaction hash (Evm.chain_id p) (Evm.provider_signer_address p) (Evm.asset p) v = Ok tr;
  srv_chain : ∀ i, Evm.get_chain_id reader i = Some (Evm.chain_id p);
  srv_depth : ∀ i, ∃ h, Evm.get_block_number reader i = Some h ∧
    Evm.facts_block_number f <= h ∧ required <= h - Evm.facts_block_number f + 1 ∧
    h - Evm.facts_block_number f + 1 <= i32_max
}.

Lemma calm_ask {A} (f : nat → option A) a env n w :
  calm env → f n = Some a → Evm.ask f env n w = (Done (Ok a), S n, w).
Proof. intros Hc Hf. unfold Evm.ask. rewrite calm_consult by done. by rewrite Hf. Qed.

(** A read that succeeds at once is not retried. *)
Lemma retry_read_first {A} (c : Proc World (Result A Evm.EvmRpcError)) a env n w n' w' :
  c env n w = (Done (Ok a), n', w') → Evm.retry_read c env n w = (Done (Ok a), n', w').
Proof. intros Hc. unfold Evm.retry_read, Retry.retry_transient, Retry.retry_while_transient, bind. by rewrite Hc. Qed.

Section served.
Context (p : Evm.EvmChainProvider) (reader : Evm.EvmReader) (hash : string) (f : Evm.ReceiptFacts).
Context (tr : Evm.TransactionObservation) (required : N) (Hsrv : serves p reader hash f tr required).

Lemma receipt_served env n w :
  calm env → Evm.retry_read (Evm.receipt_once reader hash) env n w
    = (Done (Ok (Evm.ReceiptMined f)), S n, w).
Proof using Hsrv.
  intros Hc. apply retry_read_first. unfold Evm.receipt_once. destruct (srv_receipt _ _ _ _ _ _ Hsrv n) as (v & Hv & Hp).
  erewrite bind_ok_done by (apply calm_ask; [done | exact Hv]). by rewrite Hp.
Qed.

Lemma transaction_served env n w :
  calm env → Evm.retry_read (Evm.transaction_once p reader hash) env n w = (Done (Ok tr), S n, w).
Proof using Hsrv.
  intros Hc. apply retry_read_first. unfold Evm.transaction_once.
  destruct (srv_transaction _ _ _ _ _ _ Hsrv n) as (v & Hv & Hp).
  erewrite bind_ok_done by (apply calm_ask; [done | exact Hv]). by rewrite Hp.
Qed.

Lemma head_served env n w :
  calm env → ∃ h, Evm.retry_read (Evm.block_head_once reader) env n w
      = (Done (Ok (Evm.chain_id p, h)), S (S n), w) ∧
    Evm.facts_block_number f <= h ∧ required <= h - Evm.facts_block_number f + 1 ∧
    h - Evm.facts_block_number f + 1 <= i32_max.
Proof using Hsrv.
  intros Hc. destruct (srv_depth _ _ _ _ _ _ Hsrv (S n)) as (h & Hh & Hd). exists h. split; [| done].
  apply retry_read_first. unfold Evm.block_head_once.
  erewrite bind_ok_done by (apply calm_ask; [done | apply Hsrv]).
  by erewrite bind_ok_done by (apply calm_ask; [done | exact Hh]).
Qed.
End served.

Lemma merge_transactions_same tr : Evm.merge_transactions tr tr = Ok tr.
Proof. destruct tr; cbn; by rewrite ?N.eqb_refl, ?String.eqb_refl. Qed.

(** A receipt deep enough is terminal. *)
Lemma classify_deep f head required :
  required ≠ 0 → Evm.facts_block_number f <= head →
  required <= head - Evm.facts_block_number f + 1 → head - Evm.facts_block_number f + 1 <= i32_max →
  ∃ t, Evm.classify_confirmations f head required = Ok (Evm.StatusTerminal t) ∧
    Chain.evm_terminal_to_neutral t = mined_outcome f (head - Evm.facts_block_number f + 1).
Proof.
  intros Hr Hle Hd Hm. unfold Evm.classify_confirmations, checked_sub, saturating_add.
  rewrite (proj2 (N.eqb_neq _ _) Hr), (proj2 (N.leb_le _ _) Hle). cbn [ok_or result_bind].
  rewrite N.min_r by (unfold i32_max, u64_max in *; lia). rewrite (proj2 (N.leb_le _ _) Hd). eauto.
Qed.

(** Two such readers decide the transaction. *)
Lemma reconcile_served p hash f tr required env n w :
  calm env → required ≠ 0 → serves p (Evm.primary_reader p) hash f tr required →
  serves p (Evm.backup_reader p) hash f tr required →
  ∃ n' depth t, Evm.reconcile_with_confirmations p hash required env n w
      = (Done (Ok (Evm.StatusTerminal t)), n', w) ∧
    Chain.evm_terminal_to_neutral t = mined_outcome f depth ∧ required <= depth ∧ depth <= i32_max.
Proof.
  intros Hc Hr Hp Hb.
  destruct (head_served _ _ _ _ _ _ Hp env (S (S (S (S n)))) w Hc) as (hp & Hhp & Lp & Dp & Mp).
  destruct (head_served _ _ _ _ _ _ Hb env (S (S (S (S (S (S n)))))) w Hc) as (hb & Hhb & Lb & Db & Mb).
  destruct (classify_deep f (N.min hp hb) required Hr) as (t & Ht & Ho); [lia | lia | lia |].
  eexists _, _, t. split; [| split; [exact Ho | lia]].
  unfold Evm.reconcile_with_confirmations. rewrite (proj2 (N.eqb_neq _ _) Hr).
  do 2 erewrite bind_done by (eapply receipt_served; done).
  do 2 erewrite bind_done by (eapply transaction_served; done).
  cbn [Evm.merge_receipts result_bind]. rewrite decide_True by done. rewrite merge_transactions_same.
  do 2 erewrite bind_ok_done by reflexivity.
  erewrite bind_ok_done; cycle 1.
  { unfold Evm.safe_block_number. erewrite bind_done by exact Hhp. erewrite bind_done by exact Hhb.
    cbn. by rewrite !N.eqb_refl. }
  erewrite bind_ok_done; cycle 1.
  { erewrite bind_ok_done; [reflexivity |]. unfold Evm.merged_receipt.
    do 2 erewrite bind_done by (eapply receipt_served; done). cbn. by rewrite decide_True. }
  cbn. rewrite decide_True by done. by rewrite Ht.
Qed.

(** Raising the confirmation depth of a signed row. *)
Lemma raise_calm id minimum r env n w :
  calm env → world_inv w → settlements (db w) !! id = Some r →
  Schema.chain_kind (claim r) = Eip155 → is_signed (state r) = true →
  (1 <= minimum <= Z.of_N i32_max)%Z →
  ∃ n' t, raise_required_confirmations id minimum env n w
    = (Done (Ok (greatest (required_confirmations (evm_submission r)) minimum)), n',
       with_db (with_settlements (<[id := to_raised minimum t r]> (settlements (db w))) (db w)) w).
Proof.
  intros Hc [Hd _] Hl Hk Hs [Hm Hx]. exists (S n), (clock env n). unfold raise_required_confirmations.
  rewrite (proj2 (Z.ltb_ge _ _) Hm). erewrite bind_done by reflexivity.
  unfold bind_ok, bind. rewrite calm_query by done. unfold update_raised, update_settlement. rewrite Hl.
  rewrite bool_decide_eq_true_2, Hs by done. cbn [andb].
  rewrite (update_no_conflict _ id r) by (done || apply Hd || by left).
  destruct (inv_rows _ Hd id r Hl) as (Hck & _).
  assert (check_row (to_raised minimum (clock env n) r) = true) as ->.
  { unfold check_row in *. norm_bools. rewrite !andb_true_iff. split_and!; try done.
    - unfold submission_check in *. cbn. rewrite Hk in *. destruct (state r); try done.
      all: unfold evm_submission_present in *; norm_bools; rewrite !andb_true_iff, !bool_decide_eq_true.
      all: split_and!; done.
    - unfold evm_success_check. cbn. rewrite Hk. by destruct (state r).
    - unfold counters_check in *. norm_bools. rewrite !andb_true_iff. split_and!; try done.
      cbn [evm_submission to_raised required_confirmations is_none_or].
      unfold in_i32. rewrite !andb_true_iff, !Z.leb_le.
      destruct (required_confirmations (evm_submission r)) as [q|]; cbn in *; unfold in_i32, i32_min in *;
        rewrite ?andb_true_iff, ?Z.leb_le in *; lia. }
  cbn. by rewrite lookup_insert_eq.
Qed.

(** The journaled transaction is this signer's and sound, its reservation covers the fee
    of the receipt [f], and both readers serve that receipt at the row's depth. *)
Record evm_decision (p : Evm.EvmChainProvider) (rec : Rec.SettlementRecord) (r : Row)
  (f : Evm.ReceiptFacts) : Prop := MkEvmDecision {
  ed_provider : provider s = Chain.EvmProvider p;
  ed_signer : Rec.signer_address rec = Some (Chain.signer_account_id (provider s));
  ed_depth : 1 <= Evm.required_confirmations p <= i32_max;
  ed_fee : ∃ reservation, parse_u128 (Rec.reserved_yocto_near rec) = Some reservation ∧
    Evm.facts_fee_wei f <= reservation;
  ed_transaction : ∃ text hash bytes stored nonce tr,
    let required := Z.to_N (greatest (required_confirmations (evm_submission r))
                              (Z.of_N (Evm.required_confirmations p))) in
    Rec.submitted_tx_hash rec = Some text ∧ Evm.b256_from_str text = Some hash ∧
    Rec.submitted_tx_rlp rec = Some bytes ∧
    evm_binding rec (Chain.signer_account_id (provider s)) text required = Ok (stored, nonce) ∧
    Chain.validate_stored_submission (provider s) bytes stored = Ok tt ∧
    serves p (Evm.primary_reader p) hash f tr required ∧
    serves p (Evm.backup_reader p) hash f tr required
}.

Lemma evm_decided p rec r f :
  Schema.chain_kind (claim r) = Eip155 → is_signed (state r) = true →
  evm_decision p rec r f → decided rec r (mined_outcome f 0).
Proof.
  intros Hk Hs [Hp Hsigner [Hd1 Hd2] _ (text & hash & bytes & stored & nonce & tr & Htx)] env n w t Hc Hw Hl.
  cbv zeta in Htx. destruct Htx as (Ht & Hh & Hb & Hbind & Hval & Hprim & Hback).
  set (configured := Z.of_N (Evm.required_confirmations p)) in *.
  set (effective := greatest _ _) in *.
  destruct (raise_calm (Rec.id rec) configured _ env n w Hc Hw Hl Hk Hs) as (n1 & t1 & Hraise); [lia |].
  pose proof (raise_required_confirmations_respects _ _ _ _ _ _ _ _ (calm_rely world_step _ Hc) Hraise Hw) as [Hw1 _].
  cbn [evm_submission to_reconciled] in Hraise. fold effective in Hraise.
  set (w1 := with_db _ w) in *.
  assert (1 <= effective)%Z as He by (unfold effective; destruct (required_confirmations _); cbn; lia).
  destruct (reconcile_served p hash f tr (Z.to_N effective) env n1 w1 Hc) as (n2 & depth & o & Hrun & Ho & Hdeep & Hmax);
    [lia | done | done |].
  exists n2, w1, (to_raised configured t1 (to_reconciled t r)), (Some depth). split_and!.
  - unfold reconcile_prepared. rewrite Hp. unfold reconcile_prepared_evm. rewrite Hp in *.
    rewrite Hsigner, Ht, Hb. cbn [corrupt_or ok_or]. erewrite bind_ok_done by reflexivity.
    rewrite String.eqb_refl. cbn [negb]. do 2 erewrite bind_ok_done by reflexivity.
    cbn [Chain.required_confirmations mbind option_bind]. unfold try_from.
    rewrite (proj2 (N.leb_le _ _) Hd2). erewrite bind_ok_done by reflexivity.
    erewrite bind_ok_done by exact Hraise. rewrite (proj2 (Z.ltb_ge effective 0)) by lia.
    erewrite bind_ok_done by reflexivity. rewrite Hbind. erewrite bind_ok_done by reflexivity.
    cbv beta iota. rewrite Hval. unfold Chain.reconcile_status, Evm.reconcile_hash_with_confirmations.
    rewrite Hh. unfold bind at 1. unfold bind at 1. erewrite bind_ok_done by reflexivity. rewrite Hrun.
    unfold ret, Chain.just. cbn [Chain.verdict]. by rewrite Ho.
  - split; try done. by split; eauto.
  - unfold confirmed. cbn. rewrite Hk. destruct (Evm.facts_success f); [| done].
    eexists _, depth. split_and!; [reflexivity | done | done |]. fold effective. lia.
Qed.

(** ** Either chain *)

(** The chain the row settles on has decided [o]. *)
Inductive chain_decided (rec : Rec.SettlementRecord) (r : Row) (o : Chain.TerminalOutcome) : Prop :=
| OnNear p : Schema.chain_kind (claim r) = Near → near_decision p rec o → chain_decided rec r o
| OnEvm p f : Schema.chain_kind (claim r) = Eip155 → evm_decision p rec r f →
    o = mined_outcome f 0 → chain_decided rec r o.

Lemma chain_decided_concludes id rec r o :
  settlement_from_row id r = Ok rec → is_signed (state r) = true → chain_decided rec r o →
  decided rec r o ∧ fee_overrun rec (Chain.fee_atomic o) = Ok false.
Proof.
  intros Hrec Hs [p Hk Hdec | p f Hk Hdec ->]; unfold fee_overrun;
    rewrite (settlement_from_row_chain _ _ _ Hrec), Hk; cbn.
  - split; [by eapply near_decided | done].
  - split; [by eapply evm_decided |]. destruct (ed_fee _ _ _ _ Hdec) as (v & -> & Hv). cbn.
    by rewrite (proj2 (N.ltb_ge _ _) Hv).
Qed.

(** C7: a settlement interrupted after signing is brought to its end.  On a journal
    with one signed settlement, everything else active being reservations, and a chain
    that has decided its transaction (NEAR: the two endpoints' answers add up to an
    outcome; EVM: both readers serve one mined receipt at the row's confirmation depth,
    whatever their heads, with a fee the reservation covers), one undisturbed recovery
    pass of the leader returns; the settlement then has the chain's outcome and the
    answer built from it, nothing is left unfinished, and settlement is open again. *)
Theorem interrupted_settlement_resumed id r rec o env n w :
  calm env → world_inv w → Readiness.s_leadership (Readiness.snapshot (gates w)) = true →
  interrupted w id r → settlement_from_row id r = Ok rec → chain_decided rec r o →
  outcome_fits o → day_has_room (db w) r (Chain.fee_atomic o) →
  ∃ n' w' r', reconcile s env n w = (Done (Ok tt), n', w') ∧
    ¬ recovery_pending w' ∧ ¬ unfinished (db w') ∧
    settlements (db w') !! id = Some r' ∧
    state r' = (if Chain.success o then Succeeded else Failed) ∧
    terminal_response_bytes (terminal r') = Some (outcome_answer rec o).
Proof.
  intros Hc Hw Hlead Hint Hrec Hchain Hfit Hroom.
  destruct (chain_decided_concludes id rec r o Hrec (int_signed _ _ _ Hint) Hchain) as [Hdec Hfee].
  destruct (recovery_concludes id r rec o env n w) as (n' & w' & Hrun & [Ho Hd (r' & Hr)]); try done.
  exists n', w', r'. done.
Qed.

End resume.

(** ** A worker that died waiting for the chain *)

Section witness.
#[local] Existing Instances Demo.external DemoEvm.external.

(** The claim, and then a worker whose chain never answered. *)
Definition claimed : World :=
  (claim_settlement DemoService.payment_claim (quiet_env World) 0%nat DemoService.world).2.
Definition waiting : World :=
  (run_new_settlement DemoService.slow_app 1 "request" (quiet_env World) 0%nat claimed).2.

Lemma after_quiet {A} (c : Proc World A) w :
  respects world_step c → world_inv w → world_inv (c (quiet_env World) 0%nat w).2.
Proof.
  intros Hc Hw. destruct (c (quiet_env World) 0%nat w) as [[o n'] w'] eqn:E.
  by apply (Hc _ _ _ _ _ _ (calm_rely world_step _ (quiet_calm World)) E).
Qed.

Lemma waiting_inv : world_inv waiting.
Proof.
  apply after_quiet; [apply run_new_settlement_respects |].
  apply after_quiet; [apply claim_settlement_respects |].
  apply initial_inv. vm_compute. split_and!; reflexivity.
Qed.

Lemma only_one (m : gmap N Row) i x :
  forallb (λ p, p.1 =? 1) (map_to_list m) = true → m !! i = Some x → i = 1.
Proof.
  intros Hall Hx%elem_of_map_to_list%list_elem_of_In.
  by apply N.eqb_eq, (proj1 (forallb_forall _ _) Hall (i, x)).
Qed.

Lemma waiting_alone i x : settlements (db waiting) !! i = Some x → i = 1.
Proof. apply only_one. vm_compute. reflexivity. Qed.

Definition demo_outcome : Chain.TerminalOutcome :=
  match Chain.interpret_near_final Demo.final_outcome (Demo.hash32 "t") "relayer.near" "alice.near" "usdc.near" with
  | Chain.InterpretedTerminal o => o
  | Chain.Indeterminate _ => Chain.MkOutcome false "" None 0 0 None None None None
  end.

(** The same on an EVM chain: claimed, prepared, and its worker gone. *)
Definition evm_app : AppState :=
  MkApp RecoverySpec.evm_config DemoService.authenticator None (Chain.EvmProvider DemoEvm.provider).

Definition evm_claim : NewSettlement :=
  MkNew 1 7 None DemoEvm.signed_hash (Demo.hash32 "f") "eip155:8453:usdc:payer" DemoEvm.single_nonce
    2 "exact" "eip155:8453" "usdc" "shop" "2500" "payer" Eip155 None None None
    (Some (MkMetadata 2 "10" "1000")) (Some "facilitator") RecoverySpec.evm_snapshot "5003" "100000" "100000".

Definition evm_claimed : World :=
  (claim_settlement evm_claim (quiet_env World) 0%nat DemoService.world).2.
Definition evm_waiting : World :=
  (mark_prepared_evm (Store.MkEvmPrepared 1 "7" RecoverySpec.evm_bytes "0xhash" 6)
     (quiet_env World) 0%nat evm_claimed).2.

Lemma evm_waiting_inv : world_inv evm_waiting.
Proof.
  apply after_quiet; [apply mark_prepared_evm_respects |].
  apply after_quiet; [apply claim_settlement_respects |].
  apply initial_inv. vm_compute. split_and!; reflexivity.
Qed.

Lemma evm_waiting_alone i x : settlements (db evm_waiting) !! i = Some x → i = 1.
Proof. apply only_one. vm_compute. reflexivity. Qed.

Definition evm_facts : Evm.ReceiptFacts :=
  match Evm.parse_raw_receipt "0xhash" (Some DemoEvm.receipt) with
  | Ok (Evm.ReceiptMined f) => f
  | _ => Evm.MkFacts 0 None false "" 0 0 0 0
  end.

Lemma evm_served height :
  105 <= height <= 110 → serves DemoEvm.provider (DemoEvm.reader height) "0xhash" evm_facts
    (Evm.TxMined 7 100 "0xblock") 6.
Proof.
  intros Hh. split.
  - intros i. exists (Some DemoEvm.receipt). split; [reflexivity | vm_compute; reflexivity].
  - intros i. exists (Some DemoEvm.transaction). split; [reflexivity | vm_compute; reflexivity].
  - reflexivity.
  - intros i. exists height. change (Evm.facts_block_number evm_facts) with 100.
    unfold i32_max. split_and!; [reflexivity | lia | lia | lia].
Qed.

Lemma interrupted_settlement_resumed_witness :
  (∃ n' w' r', reconcile DemoService.demo_app (quiet_env World) 0%nat waiting = (Done (Ok tt), n', w') ∧
     ¬ recovery_pending w' ∧ settlements (db w') !! 1 = Some r' ∧ state r' = Succeeded) ∧
  ∃ n' w' r', reconcile evm_app (quiet_env World) 0%nat evm_waiting = (Done (Ok tt), n', w') ∧
    ¬ recovery_pending w' ∧ settlements (db w') !! 1 = Some r' ∧ state r' = Succeeded.
Proof.
  split.
  - eassert (settlements (db waiting) !! 1 = Some _) as E by (vm_compute; reflexivity).
    match type of E with _ = Some ?row => set (r := row) in E end.
    eassert (settlement_from_row 1 r = Ok _) as Erec by (vm_compute; reflexivity).
    match type of Erec with _ = Ok ?row => set (rec := row) in Erec end.
    destruct (interrupted_settlement_resumed DemoService.demo_app 1 r rec demo_outcome
                (quiet_env World) 0%nat waiting) as (n' & w' & r' & Hrun & Ho & _ & Hr & Hs & _).
    + apply quiet_calm.
    + apply waiting_inv.
    + vm_compute. reflexivity.
    + split; [exact E | reflexivity | vm_compute; reflexivity |].
      intros i x Hne Hx. exfalso. apply Hne. by apply (waiting_alone i x).
    + exact Erec.
    + apply (OnNear _ _ _ _ (Demo.provider (Ok (Near.LookupFinal Demo.final_outcome)))); [reflexivity |].
      split; [reflexivity | reflexivity | reflexivity | split_and!; reflexivity |].
      eexists _, _, _. split_and!; try reflexivity.
    + split_and!; reflexivity.
    + split; intros l Hl; vm_compute in Hl; injection Hl as <-; reflexivity.
    + exists n', w', r'. split_and!; [exact Hrun | exact Ho | exact Hr |]. rewrite Hs. reflexivity.
  - eassert (settlements (db evm_waiting) !! 1 = Some _) as E by (vm_compute; reflexivity).
    match type of E with _ = Some ?row => set (r := row) in E end.
    eassert (settlement_from_row 1 r = Ok _) as Erec by (vm_compute; reflexivity).
    match type of Erec with _ = Ok ?row => set (rec := row) in Erec end.
    destruct (interrupted_settlement_resumed evm_app 1 r rec (mined_outcome evm_facts 0)
                (quiet_env World) 0%nat evm_waiting) as (n' & w' & r' & Hrun & Ho & _ & Hr & Hs & _).
    + apply quiet_calm.
    + apply evm_waiting_inv.
    + vm_compute. reflexivity.
    + split; [exact E | reflexivity | vm_compute; reflexivity |].
      intros i x Hne Hx. exfalso. apply Hne. by apply (evm_waiting_alone i x).
    + exact Erec.
    + apply (OnEvm _ _ _ _ DemoEvm.provider evm_facts); [reflexivity | | reflexivity].
      split; [reflexivity | reflexivity | | |].
      * unfold i32_max. cbn. lia.
      * eexists. split; [reflexivity |]. vm_compute. discriminate.
      * eexists "0xhash", "0xhash", RecoverySpec.evm_bytes, _, _, _. cbv zeta.
        split_and!; [reflexivity | reflexivity | vm_compute; reflexivity | vm_compute; reflexivity
          | vm_compute; reflexivity | apply (evm_served 110); lia | apply (evm_served 105); lia].
    + split_and!; reflexivity.
    + split; intros l Hl; vm_compute in Hl; injection Hl as <-; reflexivity.
    + exists n', w', r'. split_and!; [exact Hrun | exact Ho | exact Hr |]. rewrite Hs. reflexivity.
Defined.

End witness.

End ResumeSpec.
