(* ===== verification/ReasonCodes.v ===== *)
(** * Failures are reported by fixed codes

    Whatever a node, the upstream verifier or the database says, the worker and the
    recovery only ever write codes of a closed list into the journal: the codes stored
    with a failed settlement, answered to clients and used as labels of the metrics of
    [crates/x402-near-facilitator/src/telemetry.rs] carry no outside text. *)

From stdpp Require Import base gmap strings list numbers relations.
From Stdlib Require Import Lia NArith ZArith Ascii String.
From S2P Require Import Prelude Text Json Readiness Schema Sql Store Journal StoreProofs StoreSpec.
From S2P Require Import Receipt Near Config Retry Evm Chain ChainProofs Service ServiceProofs ProgressSpec.
From S2P Require Import Demo DemoEvm DemoService.

Open Scope string_scope.
Open Scope list_scope.
Open Scope N_scope.

Module ReasonCodes.
Import Store StoreProofs ChainProofs Service ServiceProofs.

(** ** The codes *)

Definition near_reasons : list string := Near.reason <$>
  [Near.InvalidX402Version; Near.UnsupportedScheme; Near.InvalidNetwork; Near.NetworkMismatch;
   Near.AssetMismatch; Near.PayToMismatch; Near.AmountMismatch; Near.InvalidMaxTimeout;
   Near.InvalidPayloadShape; Near.InvalidSignedDelegateAction; Near.InvalidSignature;
   Near.NoRelayerConfigured; Near.RelayerCannotBePayer; Near.InvalidActionCount;
   Near.InvalidActionKind; Near.InvalidMethodName; Near.TokenContractMismatch;
   Near.InvalidFtTransferArgs; Near.RecipientMismatch; Near.TransferAmountMismatch;
   Near.InvalidAttachedDeposit; Near.GasLimitExceeded; Near.CurrentBlockHeightUnavailable;
   Near.DelegateActionExpired; Near.TimeoutWindowExceedsMaximum; Near.DelegateNonceOutOfRange;
   Near.AccessKeyLookupFailed; Near.AccessKeyNotFound; Near.DelegateNonceAlreadyUsed;
   Near.FunctionCallKeyNotAllowed; Near.UnsupportedAccessKeyPermission; Near.AccountLookupFailed;
   Near.SenderAccountNotFound; Near.TokenAccountLookupFailed; Near.TokenAccountNotFound;
   Near.TokenContractHasNoCode; Near.BalanceCheckFailed; Near.InsufficientFunds;
   Near.StorageCheckFailed; Near.RecipientNotRegisteredForStorage].

Definition evm_reasons : list string :=
  ["onchain_failure"; "invalid_format"; "invalid_payment_amount"; "authorization_not_yet_valid";
   "authorization_expired"; "chain_id_mismatch"; "recipient_mismatch"; "asset_mismatch";
   "insufficient_funds"; "insufficient_allowance"; "invalid_signature"; "simulation_failed";
   "unsupported_chain"; "unsupported_scheme"; "accepted_requirements_mismatch";
   "unsupported_eip6492"; "unsupported_permit2_scheme"; "invalid_token_domain";
   "invalid_payment"; "invalid_payer_address"; "payer_mismatch"].

Definition engine_codes : list string :=
  ["transaction_failed"; "transaction_rejected"; "settlement_identity_mismatch"].

(** The codes a settlement may fail with. *)
Definition failure_codes : list string :=
  near_reasons ++ evm_reasons ++ engine_codes.

(** The codes it may await a retry with. *)
Definition retry_codes : list string :=
  ["leadership_unavailable"; "rpc_unavailable"; "relayer_unavailable";
   "transaction_preparation_failed"; "l1_fee_estimation_failed";
   "sponsorship_reservation_insufficient"; "settlement_journal_unavailable";
   "recovered_before_prepare"].

Definition coded_row (r : Row) : Prop :=
  (∀ c, error_code (terminal r) = Some c → c ∈ failure_codes) ∧
  error_detail (terminal r) = None ∧
  (∀ c, retry_code r = Some c → c ∈ retry_codes).

Definition coded (w : World) : Prop := map_Forall (λ _ r, coded_row r) (settlements (db w)).

Definition codes_step (w w' : World) : Prop := coded w → coded w'.

#[export] Instance codes_step_preorder : PreOrder codes_step.
Proof. split; [by intros w Hw |]. intros a b c H1 H2 Ha. by apply H2, H1. Qed.

(** ** The store *)

Lemma codes_write d id r w :
  settlements d = <[id := r]> (settlements (db w)) → (coded w → coded_row r) →
  codes_step w (with_db d w).
Proof.
  intros Hd Hr Hw. unfold coded. cbn. rewrite Hd. apply map_Forall_insert_2; [auto | done].
Qed.

Lemma codes_same d w : settlements d = settlements (db w) → codes_step w (with_db d w).
Proof. intros Hd Hw. unfold coded. cbn. by rewrite Hd. Qed.

Lemma codes_update id guard f d n d' w :
  db w = d → update_settlement id guard f d = Ok (n, d') →
  (∀ r, coded_row r → coded_row (f r)) → codes_step w (with_db d' w).
Proof.
  intros <- [(_ & -> & _)|(_ & r & Hl & _ & _ & _ & ->)]%update_settlement_inv Hf; [by apply codes_same |].
  eapply codes_write; [reflexivity |]. intros Hw. apply Hf. by eapply Hw.
Qed.

Lemma codes_awaiting_retry id code :
  code ∈ retry_codes → respects codes_step (mark_awaiting_retry id code).
Proof.
  intros Hcode. unfold mark_awaiting_retry. destruct (is_empty code); [solve_respects |].
  apply respects_run_tx; [apply _ |]. intros env n d r d' n' w Hrun <-.
  unfold awaiting_retry_tx in Hrun. tx_inv; try done. stmt_inv.
  eapply codes_write; [reflexivity |]. intros Hw.
  match goal with Hl : settlements _ !! _ = Some ?old |- _ => destruct (Hw _ _ Hl) as (He & Hd & _) end.
  split_and!; [done | done |]. cbn. by intros c [= <-].
Qed.

Lemma codes_terminal e :
  (∀ c, term_error_code e = Some c → c ∈ failure_codes) → term_error_detail e = None →
  respects codes_step (mark_terminal e).
Proof.
  intros He Hdet. unfold mark_terminal. destruct (is_terminal _); [| solve_respects].
  apply respects_run_tx; [apply _ |]. intros env n d r d' n' w Hrun <-.
  unfold terminal_tx in Hrun. tx_inv; try done. unfold update_terminal in *. result_inv. stmt_inv.
  - match goal with Hl : settlements _ !! _ = Some ?x, H : forall r : Row, _ |- _ =>
      by pose proof (H x Hl) end.
  - eapply codes_write; [reflexivity |]. intros Hw.
    match goal with Hl : settlements _ !! _ = Some ?old |- _ => destruct (Hw _ _ Hl) as (_ & _ & Hr) end.
    done.
Qed.

(** The other transitions leave the codes of a row alone. *)
Ltac keeps_codes :=
  eapply codes_write; [reflexivity |]; let Hw := fresh in intros Hw;
  match goal with Hl : settlements _ !! _ = Some _ |- _ => exact (Hw _ _ Hl) end.

Lemma codes_prepared e : respects codes_step (mark_prepared e).
Proof.
  apply respects_run_tx; [apply _ |]. intros env n d r d' n' w Hrun <-.
  unfold prepared_tx, refuse_transition in Hrun. tx_inv; try done.
  unfold update_prepared, is_reserved in *. result_inv. stmt_inv. keeps_codes.
Qed.

Lemma codes_prepared_evm e : respects codes_step (mark_prepared_evm e).
Proof.
  unfold mark_prepared_evm. destruct (_ <? _)%Z; [solve_respects |].
  apply respects_run_tx; [apply _ |]. intros env n d r d' n' w Hrun <-.
  unfold prepared_evm_tx, refuse_transition in Hrun. tx_inv; try done.
  unfold update_prepared_evm, is_reserved in *. result_inv. stmt_inv. keeps_codes.
Qed.

Lemma codes_submitted id : respects codes_step (mark_submitted id).
Proof.
  apply respects_run_tx; [apply _ |]. intros env n d r d' n' w Hrun <-.
  unfold submitted_tx, refuse_transition in Hrun. tx_inv; try done. stmt_inv. keeps_codes.
Qed.

Lemma codes_note id : respects codes_step (note_reconciliation id).
Proof.
  assert (∀ t, respects codes_step (query (update_settlement id (λ _, true) (to_reconciled t)))) as Hq.
  { intros t. apply respects_query; [apply _ |]. intros w a d Hu. by eapply codes_update. }
  unfold note_reconciliation. solve_respects.
Qed.

Lemma codes_raise id minimum : respects codes_step (raise_required_confirmations id minimum).
Proof.
  assert (∀ t, respects codes_step (query (update_raised id minimum t))) as Hq.
  { intros t. apply respects_query; [apply _ |]. intros w a d Hu. unfold update_raised in Hu. result_inv.
    match goal with x : N * Database_ |- _ => destruct x as [n d1] end.
    assert (d1 = d) as -> by (case_match; simplify_eq; done). by eapply codes_update. }
  pose proof (λ A (f : Database_ → A), respects_select codes_step f).
  unfold raise_required_confirmations, select_row. solve_respects.
Qed.

Lemma codes_quarantine a b c r n : respects codes_step (quarantine_relayer a b c r n).
Proof.
  apply respects_query; [apply _ |]. intros w u d. unfold set_quarantined. intros Hq. result_inv.
  case_match; simplify_eq; by apply codes_same.
Qed.

Lemma codes_select {A} (f : Database_ → A) : respects codes_step (query (select f)).
Proof. apply respects_select, _. Qed.

Lemma codes_gates b : respects codes_step (set_reconciliation b) ∧ respects codes_step (set_relayer b).
Proof. split; apply respects_modify; intros w Hw; exact Hw. Qed.

Lemma codes_transmit {A} id bytes (answer : nat → A) :
  respects codes_step (transmit (Near.log_sent id bytes) answer).
Proof.
  intros env n w o n' w' Hr. unfold transmit. pose proof (Hr n w) as Hi.
  destruct (reply env n); intros [= <- <- <-]; exact Hi.
Qed.

#[local] Hint Resolve codes_prepared codes_prepared_evm codes_submitted codes_note codes_raise
  codes_quarantine codes_select codes_transmit : respects.
#[local] Hint Extern 1 (respects _ (set_reconciliation _)) => apply codes_gates : respects.
#[local] Hint Extern 1 (respects _ (set_relayer _)) => apply codes_gates : respects.

(** ** The engine *)

Section engine.
Context `{Near.External} `{Evm.EvmExternal}.
Context (s : AppState).

(** The errors a fallible process may return. *)
Definition fails_with {A E} (c : Proc World (Result A E)) (φ : E → Prop) : Prop :=
  returns c (λ r, match r with Err e => φ e | Ok _ => True end).

Lemma fails_ret {A E} (r : Result A E) (φ : E → Prop) :
  match r with Err e => φ e | Ok _ => True end → fails_with (ret r) φ.
Proof. intros Hr. by apply returns_ret. Qed.

Lemma fails_bind_ok {A B E} (c : Proc World (Result A E)) (k : A → Proc World (Result B E)) φ :
  fails_with c φ → (∀ a, fails_with (k a) φ) → fails_with (bind_ok c k) φ.
Proof.
  intros Hc Hk env n w r n' w' (a & n1 & w1 & H1 & H2)%bind_inv.
  destruct a as [a|e]; [by eapply Hk |]. injection H2 as <- _ _. exact (Hc _ _ _ _ _ _ H1).
Qed.

Lemma fails_map_err {A E F} (f : E → F) (c : Proc World (Result A E)) φ ψ :
  fails_with c ψ → (∀ e, ψ e → φ (f e)) → fails_with (map_err_proc f c) φ.
Proof.
  intros Hc Hf env n w r n' w' (a & n1 & w1 & H1 & H2)%bind_inv. injection H2 as <- _ _.
  specialize (Hc _ _ _ _ _ _ H1). destruct a; cbn; auto.
Qed.

Lemma fails_any {A E} (c : Proc World (Result A E)) : fails_with c (λ _, True).
Proof. intros env n w [a|e] n' w' _; done. Qed.

Lemma near_reason_listed f : Near.reason f ∈ near_reasons.
Proof. apply list_elem_of_fmap_2. destruct f; repeat (apply elem_of_cons; first [by left | right]); done. Qed.

Ltac listed := repeat (apply elem_of_cons; first [left; reflexivity | right]).

Lemma evm_verify_fails p request :
  fails_with (Evm.verify p request) (λ e, Evm.reason e ∈ evm_reasons).
Proof.
  unfold Evm.verify.
  apply fails_bind_ok; [apply fails_ret |].
  { unfold Evm.parse_eip3009, Evm.validate_token_domain, Near.ensure.
    destruct (Evm.facilitator_request request) as [[r|]|]; cbn; [| listed | listed].
    destruct (String.eqb (Evm.req_asset r) _); cbn; [| listed].
    destruct (_ && _); cbn; [done | listed]. }
  intros r. apply fails_bind_ok; [apply fails_ret |].
  { unfold Evm.classify_signature_before_rpc. destruct (Evm.classify_settleable_signature _ _ _) as [|[]]; cbn;
      [done | listed | listed]. }
  intros h. apply fails_bind_ok; [eapply fails_map_err; [apply fails_any |] |].
  { intros [|[]] _; cbn; listed. }
  intros response. apply fails_bind_ok; [apply fails_ret; destruct response; cbn; [done | listed] |].
  intros payer. apply fails_bind_ok; [apply fails_ret |].
  { destruct (Evm.address_from_str payer); cbn; [done | listed]. }
  intros payer'. apply fails_bind_ok; [apply fails_ret | intros; by apply fails_ret].
  unfold Near.ensure. destruct (String.eqb _ _); cbn; [done | listed].
Qed.

(** A verification fails with a code of the list, whatever the nodes answer. *)
Lemma verify_fails p request policy :
  fails_with (Chain.verify p request policy) (λ e, Chain.reason e ∈ failure_codes).
Proof.
  unfold Chain.verify, failure_codes. destruct p as [p|p].
  - apply fails_bind_ok; [eapply fails_map_err; [apply fails_any |] | intros; by apply fails_ret].
    intros f _. apply elem_of_app. left. apply near_reason_listed.
  - apply fails_bind_ok; [eapply fails_map_err; [apply evm_verify_fails |] | intros; by apply fails_ret].
    intros e He. apply elem_of_app. right. apply elem_of_app. by left.
Qed.

Lemma engine_code c : c ∈ engine_codes → c ∈ failure_codes.
Proof. intros Hc. apply elem_of_app. right. apply elem_of_app. by right. Qed.

(** ** Writing rows *)

Lemma codes_failure id reason payer hash :
  reason ∈ failure_codes → respects codes_step (terminalize (failure_entry id reason payer hash (network (config s)))).
Proof.
  intros Hr. unfold terminalize. apply respects_bind; [apply _ | | solve_respects].
  apply codes_terminal; [by intros c [= <-] | done].
Qed.

Lemma codes_outcome id payer o :
  respects codes_step (mark_terminal (outcome_entry id payer (network (config s)) o)).
Proof.
  apply codes_terminal; [| done]. cbn [term_error_code outcome_entry].
  destruct (Chain.success o); [done |]. intros c [= <-]. apply engine_code. listed.
Qed.

Lemma codes_protocol_failure id reason payer hash :
  reason ∈ failure_codes → respects codes_step (terminal_protocol_failure s id reason payer hash).
Proof. intros Hr. by apply codes_failure. Qed.

Lemma codes_rejected id payer hash : respects codes_step (terminal_transaction_rejected s id payer hash).
Proof. apply codes_failure, engine_code. listed. Qed.

Lemma codes_retryable id code :
  code ∈ retry_codes → respects codes_step (retryable_service_failure id code).
Proof.
  intros Hc. pose proof (codes_awaiting_retry id code Hc). unfold retryable_service_failure. solve_respects.
Qed.

Lemma codes_finalize id payment o : respects codes_step (finalize_terminal s id payment o).
Proof.
  pose proof (codes_outcome id (Chain.payer payment) o). unfold finalize_terminal, terminalize. solve_respects.
Qed.

#[local] Hint Resolve codes_outcome codes_rejected codes_finalize : respects.
#[local] Hint Extern 1 (respects _ (retryable_service_failure _ _)) => apply codes_retryable; listed : respects.

(** ** The worker *)

Lemma codes_settlement id : respects codes_step (settlement id).
Proof. unfold settlement, select_row. solve_respects. Qed.
Lemma codes_can_settle : respects codes_step can_settle.
Proof. unfold can_settle. solve_respects. Qed.
Lemma codes_fresh_head : respects codes_step (fresh_signer_head s).
Proof. unfold fresh_signer_head, relayer_is_active. solve_respects. Qed.
Lemma codes_drift reason nonce : respects codes_step (quarantine_after_drift s reason nonce).
Proof. unfold quarantine_after_drift. solve_respects. Qed.
Lemma codes_broadcast p id prepared payment : respects codes_step (Chain.broadcast p id prepared payment).
Proof. unfold Chain.broadcast, Near.broadcast_exact, Evm.broadcast_raw. solve_respects. Qed.
Lemma codes_rebroadcast p id bytes hash payer asset :
  respects codes_step (Chain.rebroadcast p id bytes hash payer asset).
Proof. unfold Chain.rebroadcast, Near.broadcast_exact, Evm.broadcast_raw. solve_respects. Qed.
#[local] Hint Resolve codes_settlement codes_can_settle codes_fresh_head codes_drift codes_broadcast
  codes_rebroadcast : respects.

Lemma codes_settle_near id head prepared submission payment :
  respects codes_step (settle_prepared_near s id head prepared submission payment).
Proof. unfold settle_prepared_near. solve_respects. Qed.
Lemma codes_settle_evm id prepared submission payment :
  respects codes_step (settle_prepared_evm s id prepared submission payment).
Proof. unfold settle_prepared_evm. solve_respects. Qed.
#[local] Hint Resolve codes_settle_near codes_settle_evm : respects.

(** A step whose result is known to satisfy [φ]. *)
Lemma respects_returns {A B} (c : Proc World A) (k : A → Proc World B) φ :
  respects codes_step c → returns c φ → (∀ a, φ a → respects codes_step (k a)) →
  respects codes_step (bind c k).
Proof.
  intros Hc Hφ Hk env n w o n' w' Hr. unfold bind.
  destruct (c env n w) as [[[a|] n1] w1] eqn:E; intros Hrun.
  - etrans; [by eapply Hc | by eapply (Hk a); [eapply Hφ | |]].
  - injection Hrun as <- <- <-. by eapply Hc.
Qed.

Lemma codes_worker id request : respects codes_step (run_new_settlement s id request).
Proof.
  unfold run_new_settlement. apply respects_bind; [apply _ | solve_respects |]. intros open.
  destruct (negb open); [solve_respects |].
  eapply respects_returns; [solve_respects | apply verify_fails |].
  intros [payment|e] He.
  - assert ("settlement_identity_mismatch" ∈ failure_codes) as Hm by (apply engine_code; listed).
    pose proof (codes_protocol_failure id _ None None Hm). solve_respects.
  - pose proof (codes_protocol_failure id (Chain.reason e) None None He). solve_respects.
Qed.

(** ** Recovery *)

Lemma codes_expired id payer hash :
  respects codes_step (terminal_protocol_failure s id (Near.reason Near.DelegateActionExpired) payer hash).
Proof. apply codes_protocol_failure, elem_of_app. left. apply near_reason_listed. Qed.
Lemma codes_finalize_reconciled rec o : respects codes_step (finalize_reconciled_terminal s rec o).
Proof. unfold finalize_reconciled_terminal. solve_respects. Qed.
Lemma codes_mark_if_prepared rec : respects codes_step (mark_submitted_if_prepared rec).
Proof. unfold mark_submitted_if_prepared. solve_respects. Qed.
Lemma codes_recovery_balance rec b : respects codes_step (require_evm_recovery_balance s rec b).
Proof. unfold require_evm_recovery_balance. solve_respects. Qed.
#[local] Hint Resolve codes_expired codes_finalize_reconciled codes_mark_if_prepared
  codes_recovery_balance : respects.

Lemma codes_conclude rec hash o : respects codes_step (conclude_rebroadcast s rec hash o).
Proof. unfold conclude_rebroadcast, and_ok. solve_respects. Qed.
#[local] Hint Resolve codes_conclude : respects.
Lemma codes_recover_evm rec bytes hash nonce : respects codes_step (recover_unknown_evm s rec bytes hash nonce).
Proof. unfold recover_unknown_evm, can_reconciliation_broadcast, and_err. solve_respects. Qed.
Lemma codes_recover_near rec bytes hash : respects codes_step (recover_unknown_near s rec bytes hash).
Proof. unfold recover_unknown_near, can_reconciliation_broadcast, and_ok, and_err. solve_respects. Qed.
#[local] Hint Resolve codes_recover_evm codes_recover_near : respects.

Lemma codes_reconcile_prepared rec : respects codes_step (reconcile_prepared s rec).
Proof.
  unfold reconcile_prepared, reconcile_prepared_evm, reconcile_prepared_near, and_ok, and_err.
  solve_respects.
Qed.
#[local] Hint Resolve codes_reconcile_prepared : respects.

Lemma codes_release recs : respects codes_step (release_reserved recs).
Proof. induction recs; cbn [release_reserved]; solve_respects. Qed.
Lemma codes_resolve recs : respects codes_step (resolve_signed s recs).
Proof. induction recs; cbn [resolve_signed]; solve_respects. Qed.
#[local] Hint Resolve codes_release codes_resolve : respects.

Lemma codes_reconcile : respects codes_step (reconcile s).
Proof. unfold reconcile, nonterminal_settlements. solve_respects. Qed.

(** C28: failures are reported by fixed codes.  Whatever text the nodes, the upstream
    verifier and the database answer with, and among tasks that do the same, a worker
    or a recovery pass, finished or killed anywhere, leaves no failed settlement with a
    code outside the closed list or with any detail, and none awaiting a retry with a
    code outside its list; and a rejected verification names a code of the list. *)
Theorem failures_have_fixed_codes env n w :
  rely codes_step env → coded w →
  (∀ id request o n' w', run_new_settlement s id request env n w = (o, n', w') → coded w') ∧
  (∀ o n' w', reconcile s env n w = (o, n', w') → coded w') ∧
  (∀ request policy e n' w', Chain.verify (provider s) request policy env n w = (Done (Err e), n', w') →
     Chain.reason e ∈ failure_codes).
Proof.
  intros Hr Hw. split_and!.
  - intros id request o n' w' Hrun. by apply (codes_worker id request _ _ _ _ _ _ Hr Hrun).
  - intros o n' w' Hrun. by apply (codes_reconcile _ _ _ _ _ _ Hr Hrun).
  - intros request policy e n' w' Hrun. exact (verify_fails _ _ _ _ _ _ _ _ _ Hrun).
Qed.

End engine.

(** ** A rejected payment *)

Section witness.
#[local] Existing Instances Demo.external DemoEvm.external.

Lemma orphaned_coded : coded ProgressSpec.orphaned.
Proof.
  apply map_Forall_to_list, Forall_forall. intros [id r] Hr%list_elem_of_In.
  assert (forallb (λ p, bool_decide (error_code (terminal p.2) = None)
                        && bool_decide (error_detail (terminal p.2) = None)
                        && bool_decide (retry_code p.2 = None))
            (map_to_list (settlements (db ProgressSpec.orphaned))) = true) as Hall by (vm_compute; reflexivity).
  apply (proj1 (forallb_forall _ _) Hall) in Hr. cbn in Hr. norm_bools.
  split_and!; [congruence | done | congruence].
Qed.

Lemma failures_have_fixed_codes_witness :
  coded (run_new_settlement DemoService.demo_app 1 Demo.request_text (quiet_env World) 0%nat ProgressSpec.orphaned).2.
Proof.
  destruct (run_new_settlement DemoService.demo_app 1 Demo.request_text (quiet_env World) 0%nat ProgressSpec.orphaned)
    as [[o n'] w'] eqn:E.
  apply (proj1 (failures_have_fixed_codes DemoService.demo_app (quiet_env World) 0%nat ProgressSpec.orphaned
                  (calm_rely codes_step _ (quiet_calm World)) orphaned_coded) 1 Demo.request_text o n' w' E).
Defined.

End witness.

End ReasonCodes.
