(* ===== verification/HttpProofs.v ===== *)
(** * Reasoning about the HTTP handlers

    What a settlement record read from the journal says for good, the specifications
    of the store's reads and of the claim in the logic of [ServiceProofs], and the
    proof that every answer of the settle handler is a refusal or a journaled one. *)

From stdpp Require Import base gmap strings list numbers relations.
From Stdlib Require Import Lia NArith ZArith Ascii String.
From S2P Require Import Prelude Text Json Readiness Schema RateLimit Sql Store Clients Journal.
From S2P Require Import StoreProofs Receipt Protocol Canonical Near Scheme Config Auth ClientsSpec Retry.
From S2P Require Import Evm Chain ChainProofs Service ServiceProofs Http.

Open Scope string_scope.
Open Scope list_scope.
Open Scope N_scope.

Module HttpProofs.
Import Store Journal StoreProofs Clients ChainProofs Service ServiceProofs Http.

(** ** Records *)

(** What stays true of the row a record was read from: its claim, and its answer once
    it is terminal. *)
Definition reads (rec : Rec.SettlementRecord) (w : World) : Prop :=
  ∃ r, settlements (db w) !! Rec.id rec = Some r ∧
    api_client_id (claim r) = Rec.api_client_id rec ∧
    request_fingerprint (claim r) = Rec.request_fingerprint rec ∧
    (is_terminal (Rec.state rec) = true →
       state r = Rec.state rec ∧
       terminal_http_status (terminal r) = Rec.terminal_http_status rec ∧
       terminal_response_bytes (terminal r) = Rec.terminal_response_bytes rec).

(** The row of [id] was claimed by [client] for the request with [fingerprint]. *)
Definition claimed_by (id client : N) (fingerprint : string) (w : World) : Prop :=
  ∃ r, settlements (db w) !! id = Some r ∧ api_client_id (claim r) = client ∧
    request_fingerprint (claim r) = fingerprint.

#[export] Instance stable_reads rec : Stable (reads rec).
Proof.
  intros w w' [[L _] _] (r & Hr & Hc & Hf & Ht). destruct (L _ _ Hr) as (r' & Hr' & Lr).
  exists r'. rewrite (le_claim _ _ Lr). split_and!; try done. intros Hter.
  destruct (Ht Hter) as (Hs & Hst & Hb). rewrite <- Hs in Hter.
  destruct (le_terminal _ _ Lr Hter) as [-> ->]. done.
Qed.

#[export] Instance stable_claimed_by id client fingerprint : Stable (claimed_by id client fingerprint).
Proof.
  intros w w' [[L _] _] (r & Hr & Hc & Hf). destruct (L _ _ Hr) as (r' & Hr' & Lr).
  exists r'. rewrite (le_claim _ _ Lr). done.
Qed.

Lemma record_reads id r rec w :
  settlement_from_row id r = Ok rec → settlements (db w) !! id = Some r →
  Rec.id rec = id ∧ reads rec w.
Proof.
  intros H Hr. unfold settlement_from_row in H. result_inv.
  rewrite state_from_as_str in *. simplify_eq.
  repeat match goal with H : fixed_hash _ _ = Ok _ |- _ => unfold fixed_hash in H; checks_inv; simplify_eq end.
  split; [done |]. exists r. done.
Qed.

Lemma reads_claimed rec client fingerprint w :
  reads rec w → claimed_by (Rec.id rec) client fingerprint w →
  Rec.api_client_id rec = client ∧ Rec.request_fingerprint rec = fingerprint.
Proof.
  intros (r & Hr & Hc & Hf & _) (r' & Hr' & Hc' & Hf'). simplify_eq. done.
Qed.

Lemma reads_claim rec w :
  reads rec w → claimed_by (Rec.id rec) (Rec.api_client_id rec) (Rec.request_fingerprint rec) w.
Proof. intros (r & Hr & Hc & Hf & _). exists r. done. Qed.

(** ** Reads *)

(** A select: its value is the function at a database between here and there. *)
Lemma select_spec {A} P (f : Database_ → A) (Q : A → World → Prop) :
  Stable P → (∀ w, world_inv w → P w → Q (f (db w)) w) →
  spec P (query (select f)) (λ r w, match r with Ok a => Q a w | Err _ => P w end).
Proof.
  intros HP HQ env n w o n' w' Hr Hw HPw Hrun.
  pose proof (respects_select world_step f env n w o n' w' Hr Hrun Hw) as [Hw' L].
  split_and!; [done | done |]. intros r ->. unfold query, request, select in Hrun.
  assert (P (interfere env n w)) as HPi by (eapply HP; [| done]; by apply Hr).
  destruct (Hr n w Hw) as [Hi _].
  destruct (reply env n); cbn in Hrun; rewrite ?with_db_id in Hrun; simplify_eq; auto.
Qed.

Lemma settlement_spec P id :
  Stable P →
  spec P (settlement id)
    (λ r w, P w ∧ match r with Ok (Some rec) => Rec.id rec = id ∧ reads rec w | _ => True end).
Proof.
  intros HP. unfold settlement, bind_ok. eapply spec_bind.
  - apply (select_spec P (λ d, settlements d !! id) (λ o w, P w ∧ settlements (db w) !! id = o));
      [done | by intros w _ ?].
  - intros [o|e]; apply spec_ret; [| by intros w ?].
    intros w [HPw Ho]. split; [done |]. unfold record_of. destruct o as [r|]; [| done].
    destruct (settlement_from_row id r) as [rec|e] eqn:E; cbn; [| done].
    by eapply record_reads.
Qed.

(** A record found for a request is this client's, for this very request. *)
Definition found_for (client : N) (fingerprint : string) (o : option ClaimOutcome) (w : World) : Prop :=
  match o with
  | Some (Existing rec) =>
      reads rec w ∧ Rec.api_client_id rec = client ∧ Rec.request_fingerprint rec = fingerprint
  | Some (New _) => False
  | _ => True
  end.

Lemma scan_existing_found client identifier hash fingerprint b rows o w :
  (∀ id r, (id, r) ∈ rows → settlements (db w) !! id = Some r) →
  scan_existing client identifier hash fingerprint b rows = Ok o →
  found_for client fingerprint o w.
Proof.
  revert b. induction rows as [|[id r] rows IH]; intros b Hrows; cbn.
  - intros [= <-]. by destruct b.
  - intros H. result_inv.
    destruct (record_reads _ _ _ w ltac:(done) (Hrows id r ltac:(by left))) as [_ Hreads].
    destruct (_ && _) eqn:E.
    + apply andb_true_iff in E as [Ec%N.eqb_eq _].
      destruct (String.eqb _ _) eqn:Ef; simplify_eq; cbn; [| done].
      apply String.eqb_eq in Ef. done.
    + eapply IH; [| done]. intros i y Hy. apply Hrows. by right.
Qed.

Lemma find_existing_spec client identifier hash fingerprint P :
  Stable P →
  spec P (find_existing_settlement client identifier hash fingerprint)
    (λ r w, P w ∧ match r with Ok o => found_for client fingerprint o w | Err _ => True end).
Proof.
  intros HP. unfold find_existing_settlement, bind_ok.
  assert (∀ (f : Database_ → list (N * Row)),
    (∀ d id r, (id, r) ∈ f d → settlements d !! id = Some r) →
    spec P (query (select f))
      (λ r w, match r with
              | Ok rows => P w ∧ ∀ id r, (id, r) ∈ rows → settlements (db w) !! id = Some r
              | Err _ => P w
              end)) as Hsel.
  { intros f Hf. apply (select_spec P f (λ rows w, P w ∧ ∀ id r, (id, r) ∈ rows →
      settlements (db w) !! id = Some r)); [done |]. intros w _ ?. split; [done | apply Hf]. }
  destruct identifier as [identifier|]; (eapply spec_bind; [apply Hsel |]).
  - intros d id r. unfold rows_by_identifier_or_hash. rewrite list_elem_of_filter.
    by intros [_ ?%elem_of_map_to_list].
  - intros [rows|e]; apply spec_ret; [| by intros w ?]. intros w [? Hrows]. split; [done |].
    destruct (scan_existing _ _ _ _ _ rows) eqn:E; [| done]. by eapply scan_existing_found.
  - intros d id r. unfold rows_by_hash. rewrite list_elem_of_filter.
    by intros [_ ?%elem_of_map_to_list].
  - intros [rows|e]; apply spec_ret; [| by intros w ?]. intros w [? Hrows]. split; [done |].
    destruct rows as [|[id r] rows]; cbn; [done |].
    destruct (settlement_from_row id r) as [rec|e] eqn:E; cbn; [| done].
    destruct (record_reads _ _ _ w E (Hrows id r ltac:(by left))) as [_ Hreads].
    destruct (_ && _) eqn:Eb; cbn; [| done].
    apply andb_true_iff in Eb as [?%N.eqb_eq ?%String.eqb_eq]. done.
Qed.

(** ** The claim *)

Lemma claim_tx_spec new date :
  metadata_version_ok new = true →
  spec (λ _, True) (run_tx (claim_tx new date))
    (λ r w, match r with
            | Ok Claimed => claimed_by (new_id new) (new_api_client_id new) (new_request_fingerprint new) w
            | _ => True
            end).
Proof.
  intros Hv. eapply spec_weaken; [apply (run_tx_outcome_spec _ (λ _, True)
    (λ o w, match o with
            | Claimed => claimed_by (new_id new) (new_api_client_id new) (new_request_fingerprint new) w
            | _ => True
            end)) | done | by intros [[]|] w].
  - by apply claim_tx_steps.
  - apply _.
  - intros []; apply _.
  - intros env n w [] d' n' _ _ Hrun; try done. unfold claim_tx in Hrun. tx_inv; try done. stmt_inv.
    unfold insert_reserved in *. result_inv.
    match goal with H : insert_settlement _ _ _ = _ |- _ =>
      apply insert_settlement_inv in H as [[? ?]|(_ & _ & _ & _ & _ & ->)]; [done |] end.
    unfold reserved_row in *. result_inv. simplify_eq.
    eexists. cbn. rewrite lookup_insert_eq. done.
  - intros env n w [] d' n' _ _ Hrun; try done. unfold claim_tx in Hrun. tx_inv; done.
Qed.

(** The outcome of a claim concerns this client's row for this very request. *)
Definition claim_for (client : N) (fingerprint : string) (o : ClaimOutcome) (w : World) : Prop :=
  match o with
  | New rec | Existing rec =>
      reads rec w ∧ Rec.api_client_id rec = client ∧ Rec.request_fingerprint rec = fingerprint
  | _ => True
  end.

Lemma found_claim client fingerprint o w :
  found_for client fingerprint (Some o) w → claim_for client fingerprint o w.
Proof. by destruct o. Qed.

Lemma settlement_claimed_spec id client fingerprint :
  spec (claimed_by id client fingerprint) (settlement id)
    (λ r w, match r with
            | Ok (Some rec) => Rec.id rec = id ∧ reads rec w ∧ Rec.api_client_id rec = client ∧
                Rec.request_fingerprint rec = fingerprint
            | _ => True
            end).
Proof.
  eapply spec_weaken; [apply (settlement_spec (claimed_by id client fingerprint)); apply _ | done |].
  intros [[rec|]|e] w; [| done | done]. intros (Hc & <- & Hr).
  destruct (reads_claimed _ _ _ _ Hr Hc). done.
Qed.

Lemma find_existing_for_spec new :
  spec (λ _, True) (find_existing_for new)
    (λ r w, match r with
            | Ok o => found_for (new_api_client_id new) (new_request_fingerprint new) o w
            | Err _ => True
            end).
Proof.
  eapply spec_weaken; [apply (find_existing_spec _ _ _ _ (λ _, True)); apply _ | done |].
  by intros [o|e] w [_ ?].
Qed.

Lemma claim_settlement_spec new :
  spec (λ _, True) (claim_settlement new)
    (λ r w, match r with
            | Ok o => claim_for (new_api_client_id new) (new_request_fingerprint new) o w
            | Err _ => True
            end).
Proof.
  unfold claim_settlement. destruct (_ && _) eqn:Hguard; [by apply spec_ret |].
  assert (metadata_version_ok new = true) as Hv by (unfold metadata_version_ok; by rewrite Hguard).
  eapply spec_bind; [apply find_existing_for_spec |].
  intros [[o|]|e]; [apply spec_ret; intros w; apply found_claim | | by apply spec_ret].
  assert (respects world_step (anchor_is_claimed (new_anchor_scope new) (new_anchor_value new))).
  { apply respects_select, _. }
  assert (respects world_step (active_evm_signer_exists (new_chain_kind new) (new_network new)
            (new_signer_address new))).
  { unfold active_evm_signer_exists. repeat case_match; try apply respects_ret, _. apply respects_select, _. }
  assert (∀ o, (∀ w, claim_for (new_api_client_id new) (new_request_fingerprint new) o w) →
    spec (λ _, True) (let? existing := find_existing_for new in ret (Ok (default o existing)))
      (λ r w, match r with
              | Ok o => claim_for (new_api_client_id new) (new_request_fingerprint new) o w
              | Err _ => True
              end)) as Hretry.
  { intros o Ho. eapply spec_bind; [apply find_existing_for_spec |].
    intros [[x|]|e]; apply spec_ret; cbn; [intros w; apply found_claim | auto | done]. }
  eapply spec_weaken with (P' := λ _, True); [| done | intros r w Hq; exact Hq].
  apply spec_step_ok; [apply _ | done | | done]. intros [|]; [by apply Hretry |].
  apply spec_step_ok; [apply _ | done | | done]. intros [|]; [by apply Hretry |].
  apply spec_step; [apply _ | apply respects_now, _ |]. intros t.
  eapply spec_bind; [by apply claim_tx_spec |].
  intros [[| |]|e]; [| | by apply spec_ret | by apply spec_ret].
  - eapply spec_bind; [apply settlement_claimed_spec |].
    intros [[rec|]|e]; apply spec_ret; cbn; [| done | done]. intros w (_ & ? & ? & ?). done.
  - unfold claim_conflict. eapply spec_weaken with (P' := λ _, True); [| done | intros r w Hq; exact Hq].
    eapply spec_bind; [apply find_existing_for_spec |].
    intros [[o|]|e]; [apply spec_ret; intros w; apply found_claim | | by apply spec_ret].
    eapply spec_weaken with (P' := λ _, True); [| done | intros r w Hq; exact Hq].
    apply spec_step_ok; [apply _ | done | | done]. intros [|]; [by apply spec_ret |].
    apply spec_step_ok; [apply _ | done | | done]. intros [|]; by apply spec_ret.
Qed.

(** ** Resuming, spawning and waiting *)

Lemma resume_awaiting_retry_spec retry client fingerprint :
  spec (claimed_by (retry_settlement_id retry) client fingerprint) (resume_awaiting_retry retry)
    (λ r w, claimed_by (retry_settlement_id retry) client fingerprint w ∧
            match r with Ok (Resumed rec) => Rec.id rec = retry_settlement_id retry | _ => True end).
Proof.
  unfold resume_awaiting_retry. apply spec_step; [apply _ | apply respects_now, _ |]. intros t.
  apply spec_step_ok; [apply _ | apply run_tx_respects, resume_tx_steps | | by intros e w].
  intros [| |]; [| by apply spec_ret | by apply spec_ret].
  eapply spec_bind.
  { apply (settlement_spec (claimed_by (retry_settlement_id retry) client fingerprint)), _. }
  intros [[rec|]|e]; apply spec_ret; cbn; [| by intros w [? _] | by intros w [? _]].
  intros w (? & ? & _). done.
Qed.

Lemma spawn_worker_spec id client fingerprint request :
  spec (claimed_by id client fingerprint) (spawn (SpawnWorker id request))
    (λ _, claimed_by id client fingerprint).
Proof.
  intros env n w o n' w' _ Hw (r & Hr & Hc) [= <- <- <-].
  destruct (world_step_process (MkProcess (windows (process w)) (free_slots (process w))
    (spawned (process w) ++ [SpawnWorker id request]) (readiness_failure (process w))) w) as [Hw' L];
    [| done | split_and!; [done | done |]].
  - cbn. intros i q. rewrite elem_of_app, list_elem_of_singleton. intros [H|[= -> ->]]; eauto.
  - intros _ _. exists r. done.
Qed.

(** A change of the process that starts no worker. *)
Lemma process_respects (f : Process → Process) :
  (∀ p id request, SpawnWorker id request ∈ spawned (f p) → SpawnWorker id request ∈ spawned p) →
  respects world_step (modify (λ w, with_process (f (process w)) w)).
Proof.
  intros Hf. apply respects_modify. intros w. apply world_step_process. intros id request Hin.
  left. by eapply Hf.
Qed.

Lemma spawn_touch_respects prefix : respects world_step (spawn (SpawnTouch prefix)).
Proof.
  apply (process_respects (λ p, MkProcess (windows p) (free_slots p) (spawned p ++ [SpawnTouch prefix])
    (readiness_failure p))). intros p id request. cbn.
  rewrite elem_of_app, list_elem_of_singleton. by intros [?|[=]].
Qed.

Lemma check_respects prefix op limit : respects world_step (RateLimit.check prefix op limit).
Proof.
  unfold RateLimit.check. apply respects_bind; [apply _ | apply respects_now, _ |]. intros t.
  apply respects_bind; [apply _ | apply respects_gets, _ |]. intros m.
  destruct (RateLimit.admit_call _ _ _) as [a wd]. apply respects_bind; [apply _ | | intros; apply respects_ret, _].
  apply (process_respects (λ p, MkProcess (<[(prefix, op) := wd]> m) (free_slots p) (spawned p)
    (readiness_failure p))). done.
Qed.

Lemma timeout_spec {A} P micros (c : Proc World A) Q :
  spec P c Q → spec P (timeout micros c) (λ o w, match o with Some a => Q a w | None => True end).
Proof.
  intros Hc env n w o n' w' Hr Hw HP. unfold timeout.
  destruct (c (cut (clock env n + micros) env) n w) as [[o1 n1] w1] eqn:E. intros Hrun.
  assert (rely world_step (cut (clock env n + micros) env)) as Hr' by exact Hr.
  destruct (Hc _ _ _ _ _ _ Hr' Hw HP E) as (Hw1 & L & HQ).
  assert (w1 = w') as -> by (destruct o1; [| destruct (reply env (pred n1))]; congruence).
  split_and!; [done | done |]. intros a ->. destruct o1 as [a1|].
  - injection Hrun as <- _. by apply HQ.
  - destruct (reply env (pred n1)); by simplify_eq.
Qed.

(** A record of this client's row for this request. *)
Definition own_record (client : N) (fingerprint : string) (rec : Rec.SettlementRecord) (w : World) : Prop :=
  reads rec w ∧ Rec.api_client_id rec = client ∧ Rec.request_fingerprint rec = fingerprint.

#[export] Instance stable_own_record client fingerprint rec : Stable (own_record client fingerprint rec).
Proof. unfold own_record. apply _. Qed.

Lemma own_record_claimed client fingerprint rec w :
  own_record client fingerprint rec w → claimed_by (Rec.id rec) client fingerprint w.
Proof. intros (Hr & <- & <-). by apply reads_claim. Qed.

Lemma poll_terminal_spec polls id client fingerprint :
  spec (claimed_by id client fingerprint) (poll_terminal polls id)
    (λ o w, match o with Some (Ok rec) => own_record client fingerprint rec w | _ => True end).
Proof.
  induction polls as [|polls IH]; [by apply spec_ret |]. cbn.
  eapply spec_bind.
  { apply (settlement_spec (claimed_by id client fingerprint)), _. }
  intros [[rec|]|e]; [| by apply spec_ret | by apply spec_ret].
  destruct (_ || _).
  - apply spec_ret. intros w (Hc & <- & Hr). destruct (reads_claimed _ _ _ _ Hr Hc). done.
  - eapply spec_weaken; [exact IH | | done]. by intros w [? _].
Qed.

Lemma wait_for_terminal_spec s id client fingerprint :
  spec (claimed_by id client fingerprint) (wait_for_terminal s id)
    (λ o w, match o with Some (Ok rec) => own_record client fingerprint rec w | _ => True end).
Proof.
  eapply spec_bind; [apply timeout_spec, poll_terminal_spec |].
  intros [o|]; apply spec_ret; [by destruct o | done].
Qed.

(** ** Answers *)

(** An answer that settles nothing: not a success, or a failed protocol response. *)
Definition refused (resp : Response) : Prop :=
  status resp ≠ OK ∨
  ∃ reason message payer tx_hash network,
    resp = settle_json (response_failure reason message payer tx_hash network).

(** An answer the journal holds, in the row this client claimed for this request. *)
Definition answered (client : N) (fingerprint : string) (resp : Response) (w : World) : Prop :=
  ∃ id r st, settlements (db w) !! id = Some r ∧
    api_client_id (claim r) = client ∧ request_fingerprint (claim r) = fingerprint ∧
    is_terminal (state r) = true ∧
    terminal_response_bytes (terminal r) = Some (body resp) ∧
    terminal_http_status (terminal r) = Some st ∧
    status resp = default SERVICE_UNAVAILABLE (status_from_u16 st).

Definition sound_answer (client : N) (fingerprint : string) (resp : Response) (w : World) : Prop :=
  refused resp ∨ answered client fingerprint resp w.

#[export] Instance stable_sound_answer client fingerprint resp :
  Stable (sound_answer client fingerprint resp).
Proof.
  intros w w' [[L _] _] [H|(id & r & st & Hr & Hc & Hf & Ht & Hb & Hs & Hst)]; [by left |].
  right. destruct (L _ _ Hr) as (r' & Hr' & Lr). destruct (le_terminal _ _ Lr Ht) as [Es Et].
  exists id, r', st. rewrite (le_claim _ _ Lr), Es, Et. done.
Qed.

Lemma spec_ret_inv {A} (P : World → Prop) (a : A) (Q : A → World → Prop) :
  (∀ w, world_inv w → P w → Q a w) → spec P (ret a) Q.
Proof.
  intros HQ env n w o n' w' Hr Hw HP [= <- <- <-].
  split_and!; [done | split; reflexivity |]. intros a' [= <-]. auto.
Qed.

Lemma api_error_refused e : api_status e ≠ OK → refused (into_response e).
Proof. by left. Qed.

Lemma unavailable_refused code message : refused (into_response (unavailable code message)).
Proof. by apply api_error_refused. Qed.

Lemma rate_limited_refused code message : refused (into_response (rate_limited code message)).
Proof. by apply api_error_refused. Qed.

Lemma refusal_refused s reason payer : refused (refusal s reason payer).
Proof. right. unfold refusal. eauto 10. Qed.

#[local] Hint Resolve unavailable_refused rate_limited_refused refusal_refused : core.

Lemma stored_answer client fingerprint rec w :
  world_inv w → own_record client fingerprint rec w → is_terminal (Rec.state rec) = true →
  sound_answer client fingerprint (stored_terminal_response rec) w.
Proof.
  intros (Hd & _) ((r & Hr & Hc & Hf & Ht) & Ec & Ef) Hter. right.
  destruct (Ht Hter) as (Hs & Hst & Hb). rewrite <- Hs in Hter.
  destruct (inv_rows _ Hd _ _ Hr) as [Hck _].
  assert (terminal_check r = true) as Htc.
  { unfold check_row in Hck. by rewrite !andb_true_iff in Hck; destruct_and! Hck. }
  unfold terminal_check in Htc. rewrite Hter, !andb_true_iff, !bool_decide_eq_true in Htc.
  destruct Htc as [[[st Est] [b Eb]] _].
  exists (Rec.id rec), r, st. unfold stored_terminal_response. cbn.
  rewrite <- Hst, <- Hb, Est, Eb. split_and!; try done; congruence.
Qed.

Lemma completed_answer client fingerprint rec w :
  world_inv w → own_record client fingerprint rec w →
  sound_answer client fingerprint (completed_settlement_response rec) w.
Proof.
  intros Hw Hr. unfold completed_settlement_response.
  destruct (is_terminal _) eqn:E; [by apply stored_answer | left; apply unavailable_refused].
Qed.

Section answers.
Context `{Near.External} `{Evm.EvmExternal} `{Auth.AuthExternal} `{HttpExternal}.
Context (s : AppState).

Lemma prior_settlement_spec client identifier hash fingerprint :
  spec (λ _, True) (prior_settlement_response s client identifier hash fingerprint)
    (λ r w, match r with Ok (Some resp) => sound_answer client fingerprint resp w | _ => True end).
Proof.
  eapply spec_bind.
  { eapply spec_weaken; [apply (find_existing_spec client identifier hash fingerprint (λ _, True)), _
      | done | intros r w Hq; exact Hq]. }
  intros [[[rec|rec| | | |]|]|e]; try by apply spec_ret.
  - destruct (bool_decide _); [by apply spec_ret |].
    destruct (is_terminal (Rec.state rec)) eqn:Et.
    + apply spec_ret_inv. intros w Hw [_ Ho]. by apply stored_answer.
    + eapply spec_bind.
      { eapply spec_weaken; [apply (wait_for_terminal_spec s (Rec.id rec) client fingerprint) | | done].
        intros w [_ Ho]. by apply own_record_claimed. }
      intros [[rec'|e]|]; apply spec_ret_inv; [| done |].
      * intros w Hw Ho. by apply completed_answer.
      * intros w _ _. left. apply unavailable_refused.
  - apply spec_ret. intros w _. left. by apply api_error_refused.
  - apply spec_ret. intros w _. left. apply refusal_refused.
Qed.

Lemma race_spec client identifier hash fingerprint :
  spec (λ _, True) (prior_settlement_race_response s client identifier hash fingerprint)
    (λ o w, match o with Some resp => sound_answer client fingerprint resp w | None => True end).
Proof.
  eapply spec_bind; [apply prior_settlement_spec |].
  intros [o|e]; apply spec_ret; [by destruct o |]. intros w _. left. apply unavailable_refused.
Qed.

Lemma unless_settled_spec client identifier hash fingerprint resp :
  refused resp →
  spec (λ _, True) (unless_settled s client identifier hash fingerprint resp)
    (λ resp w, sound_answer client fingerprint resp w).
Proof.
  intros Hresp. eapply spec_bind; [apply race_spec |].
  intros [r|]; apply spec_ret; cbn; [done | by left].
Qed.

Lemma resume_spec rec client parsed fingerprint :
  spec (claimed_by (Rec.id rec) (Api.id client) fingerprint) (resume s rec client parsed)
    (λ r w, match r with
            | Ok id => claimed_by id (Api.id client) fingerprint w
            | Err resp => sound_answer (Api.id client) fingerprint resp w
            end).
Proof.
  unfold resume. eapply spec_bind.
  { apply (resume_awaiting_retry_spec (retry_reservation s (Rec.id rec) client) (Api.id client) fingerprint). }
  cbn [retry_settlement_id retry_reservation].
  intros [[rec'| |]|e]; [| apply spec_ret; intros w _; left; apply unavailable_refused
    | apply spec_ret; intros w _; left; apply rate_limited_refused |].
  - eapply spec_weaken with (P' := λ w, claimed_by (Rec.id rec') (Api.id client) fingerprint w);
      [| intros w [Hc Hid]; by rewrite Hid | intros r w Hq; exact Hq].
    eapply spec_bind; [apply spawn_worker_spec |]. intros ?. by apply spec_ret.
  - destruct e; try (apply spec_ret; intros w _; left; apply unavailable_refused).
    eapply spec_bind.
    { eapply spec_weaken; [apply (settlement_spec (claimed_by (Rec.id rec) (Api.id client) fingerprint)), _
        | by intros w [? _] | intros r w Hq; exact Hq]. }
    intros [[cur|]|e]; apply spec_ret; [| intros w _; left; apply unavailable_refused
      | intros w _; left; apply unavailable_refused].
    intros w (Hc & Hid & _). destruct (bool_decide _); [left; apply unavailable_refused | by rewrite Hid].
Qed.

Lemma conclude_claim_spec claim client parsed payer fingerprint :
  spec (claim_for (Api.id client) fingerprint claim) (conclude_claim s claim client parsed payer)
    (λ r w, match r with
            | Ok id => claimed_by id (Api.id client) fingerprint w
            | Err resp => sound_answer (Api.id client) fingerprint resp w
            end).
Proof.
  destruct claim as [rec|rec| | | |]; cbn.
  - eapply spec_weaken with (P' := claimed_by (Rec.id rec) (Api.id client) fingerprint);
      [| apply own_record_claimed | intros r w Hq; exact Hq].
    eapply spec_bind; [apply spawn_worker_spec |]. intros ?. by apply spec_ret.
  - destruct (is_terminal (Rec.state rec)) eqn:Et.
    { apply spec_ret_inv. intros w Hw Ho. by apply stored_answer. }
    eapply spec_weaken with (P' := claimed_by (Rec.id rec) (Api.id client) fingerprint);
      [| apply own_record_claimed | intros r w Hq; exact Hq].
    destruct (bool_decide _); [apply resume_spec | by apply spec_ret].
  - apply spec_ret. intros w _. left. by apply api_error_refused.
  - apply spec_ret. intros w _. left. apply refusal_refused.
  - apply spec_ret. intros w _. left. apply unavailable_refused.
  - apply spec_ret. intros w _. left. apply rate_limited_refused.
Qed.

Lemma claim_and_wait_spec client parsed fingerprint verified :
  spec (λ _, True) (claim_and_wait s client parsed fingerprint verified)
    (sound_answer (Api.id client) fingerprint).
Proof.
  unfold claim_and_wait. apply spec_step; [apply _ | |].
  { intros env n w o n' w' _ [= <- <- <-]. reflexivity. }
  intros id. eapply spec_bind; [apply claim_settlement_spec |].
  assert (∀ id, new_api_client_id (new_settlement s id client parsed fingerprint verified) = Api.id client
    ∧ new_request_fingerprint (new_settlement s id client parsed fingerprint verified) = fingerprint) as Hnew.
  { intros i. unfold new_settlement. by destruct (Chain.authorization _). }
  destruct (Hnew id) as [-> ->].
  intros [claim|e]; [| apply spec_ret; intros w _; left; apply unavailable_refused].
  eapply spec_bind; [apply conclude_claim_spec |].
  intros [id'|resp]; [| by apply spec_ret].
  eapply spec_bind; [apply wait_for_terminal_spec |].
  intros [[rec|e]|]; apply spec_ret_inv; intros w Hw Ho; [by apply completed_answer | |];
    left; apply unavailable_refused.
Qed.

Lemma gate_spec f parsed hash client fingerprint :
  spec (λ _, True) (facilitator_verify_gate s f parsed hash client fingerprint)
    (λ o w, match o with Some resp => sound_answer client fingerprint resp w | None => True end).
Proof.
  unfold facilitator_verify_gate. apply spec_step; [apply _ | |].
  { apply (Retry.respects_retry world_step). apply scheme_verify_respects; typeclasses eauto. }
  assert (∀ r, refused r → spec (λ _, True)
    (let* r := unless_settled s client (Protocol.payment_identifier (Protocol.meta parsed)) hash fingerprint r in
     ret (Some r))
    (λ o w, match o with Some resp => sound_answer client fingerprint resp w | None => True end)) as Hrefuse.
  { intros r Hr. eapply spec_bind; [by apply unless_settled_spec |]. intros x. by apply spec_ret. }
  intros [v|e]; [| apply Hrefuse, unavailable_refused].
  destruct (default false _); [by apply spec_ret |].
  destruct (response_is_rpc_ambiguous v); apply Hrefuse; [apply unavailable_refused | apply refusal_refused].
Qed.

Lemma settle_fresh_spec client parsed hash fingerprint :
  spec (λ _, True) (settle_fresh s client parsed hash fingerprint)
    (sound_answer (Api.id client) fingerprint).
Proof.
  unfold settle_fresh. apply spec_step; [apply _ | apply respects_gets, _ |].
  intros [|]; cbn [negb]; [| apply unless_settled_spec, unavailable_refused].
  apply spec_step; [apply _ | apply respects_select, _ |].
  intros [[|]|e]; [| apply unless_settled_spec, refusal_refused
    | apply spec_ret; intros w _; left; apply unavailable_refused].
  eapply spec_bind with (Q := λ o w, match o with Some resp => sound_answer (Api.id client) fingerprint resp w
                                     | None => True end).
  { destruct (facilitator s); [apply gate_spec | by apply spec_ret]. }
  intros [resp|]; [by apply spec_ret |].
  apply spec_step; [apply _ | apply chain_verify_respects; apply _ |].
  intros [verified|rejection].
  - destruct (negb _); [apply spec_ret; intros w _; left; apply unavailable_refused
      | apply claim_and_wait_spec].
  - destruct (Chain.rpc_ambiguous rejection); apply unless_settled_spec;
      [apply unavailable_refused | apply refusal_refused].
Qed.

(** What the settle handler answers for a request it has admitted. *)
Lemma settle_protocol_spec client parsed :
  spec (λ _, True) (settle_protocol s client parsed)
    (λ resp w, refused resp ∨ ∃ hash, offline_identity s parsed = Ok hash ∧
       answered (Api.id client)
         (Canonical.request_fingerprint Near.sha256 (Protocol.value parsed) hash) resp w).
Proof.
  unfold settle_protocol, static_settle_failure.
  destruct (static_failure_reason s parsed) as [reason|]; cbn.
  { apply spec_ret. intros w _. left. right. eauto 10. }
  destruct (offline_identity s parsed) as [hash|resp] eqn:Ei.
  2: { apply spec_ret. intros w _. left. unfold offline_identity in Ei.
       destruct (chain_kind (config s)); repeat case_match; simplify_eq; try apply refusal_refused.
       destruct (Chain.offline_payment_hash _ _); cbn in Ei; simplify_eq. apply refusal_refused. }
  eapply spec_bind; [apply prior_settlement_spec |].
  set (fingerprint := Canonical.request_fingerprint _ _ _).
  assert (∀ resp w, sound_answer (Api.id client) fingerprint resp w → refused resp ∨
    ∃ h, Ok hash = Ok (E := Response) h ∧ answered (Api.id client)
         (Canonical.request_fingerprint Near.sha256 (Protocol.value parsed) h) resp w) as Hfin.
  { intros resp w [Hr|Ha]; [by left | right; eauto]. }
  intros [[resp|]|e].
  - apply spec_ret. intros w. apply Hfin.
  - eapply spec_weaken; [apply (settle_fresh_spec client parsed hash fingerprint) | done | apply Hfin].
  - apply spec_ret. intros w _. left. apply unavailable_refused.
Qed.

End answers.

End HttpProofs.
