(* ===== verification/HttpSpec.v ===== *)
(** * What the HTTP layer promises

    A settled request is answered with the stored bytes, whatever the gates and the
    chain; every successful answer of the settle handler is one the journal holds for
    that client and that very request; verification touches nothing and returns its
    permit; readiness says what it checks. *)

From stdpp Require Import base gmap strings list numbers relations.
From Stdlib Require Import Lia NArith ZArith Ascii String.
From S2P Require Import Prelude Text Json Readiness Schema RateLimit Sql Store Clients Journal.
From S2P Require Import StoreProofs StoreSpec Receipt Protocol Canonical ProtocolSpec Near Scheme Config Auth ClientsSpec.
From S2P Require Import Demo NearSpec Retry Evm DemoEvm Chain ChainProofs Service ServiceProofs Http.
From S2P Require Import HttpProofs DemoService.

Open Scope string_scope.
Open Scope list_scope.
Open Scope N_scope.

Module HttpSpec.
Import Store Journal StoreProofs StoreSpec Clients ChainProofs Service ServiceProofs Http HttpProofs.

Section handlers.
Context `{Near.External} `{Evm.EvmExternal} `{Auth.AuthExternal} `{HttpExternal}.
Context (s : AppState).

(** ** Admission *)

Lemma authenticate_respects (R : relation World) `{!PreOrder R} headers :
  (∀ prefix, respects R (spawn (SpawnTouch prefix))) → respects R (authenticate s headers).
Proof.
  intros Hs. assert (∀ p, respects R (lookup_api_key p)).
  { intros p. unfold lookup_api_key. apply respects_bind_ok; [done | apply respects_select; done |].
    intros. apply respects_ret; done. }
  assert (respects R (Auth.authenticate (auth s) headers)) by (unfold Auth.authenticate; solve_respects).
  unfold authenticate. solve_respects.
Qed.

Lemma admit_respects (R : relation World) `{!PreOrder R} request op :
  (∀ prefix, respects R (spawn (SpawnTouch prefix))) →
  (∀ prefix op limit, respects R (RateLimit.check prefix op limit)) →
  respects R (admit_request s request op).
Proof.
  intros Hs Hc. pose proof (authenticate_respects R (request_headers request) Hs).
  unfold admit_request. solve_respects.
Qed.

Lemma returns_through {A B} (c : Proc World A) (k : A → Proc World B) ψ φ :
  returns c ψ → (∀ a, ψ a → returns (k a) φ) → returns (bind c k) φ.
Proof.
  intros Hc Hk env n w b n' w'. unfold bind.
  destruct (c env n w) as [[[a|] n1] w1] eqn:E; [| done]. eapply Hk. by eapply Hc.
Qed.

Lemma authenticate_returns headers :
  returns (authenticate s headers) (λ r, match r with Ok _ => True | Err e => api_status e ≠ OK end).
Proof.
  apply returns_bind. intros [a|[]]; try by apply returns_ret.
  apply returns_bind. intros ?. by apply returns_ret.
Qed.

Lemma read_and_parse_error request e : read_and_parse s request = Err e → api_status e ≠ OK.
Proof.
  unfold read_and_parse, ensure_json.
  destruct (Auth.get_all _ _) as [|[ct|] l]; cbn; try by intros [= <-].
  destruct (eq_ignore_ascii_case _ _); cbn; [| by intros [= <-]].
  destruct (filter_opt _ _); cbn; [| by intros [= <-]].
  destruct (Protocol.parse_request _ _ _ _); cbn; [done | by intros [= <-]].
Qed.

(** An admitted request is the parse of the body; a refusal to admit is an error
    status. *)
Lemma admit_returns request op :
  returns (admit_request s request op)
    (λ r, match r with
          | Ok (_, parsed) => read_and_parse s request = Ok parsed
          | Err resp => status resp ≠ OK
          end).
Proof.
  eapply returns_through; [apply authenticate_returns |]. intros [a|e] He; [| by apply returns_ret].
  destruct op; apply returns_bind; intros [|]; apply returns_ret; try done;
    destruct (read_and_parse s request) as [parsed|e] eqn:E; try done;
    by apply read_and_parse_error in E.
Qed.

(** An admitted client is one that this very run authenticated. *)
Lemma admit_authenticates request op env n w client parsed n' w' :
  admit_request s request op env n w = (Done (Ok (client, parsed)), n', w') →
  ∃ a n1 w1, Auth.authenticate (auth s) (request_headers request) env n w = (Done (Ok a), n1, w1) ∧
    Auth.client a = client.
Proof.
  intros (r & n1 & w1 & Ha & Hk)%bind_inv. unfold authenticate in Ha.
  apply bind_inv in Ha as (a & n2 & w2 & Ha & Hr). exists (match a with Ok a => a | Err _ => Auth.MkAuthenticated client EmptyString end), n2, w2.
  destruct a as [a|[]]; try by injection Hr as <- <- <-.
  apply bind_inv in Hr as (u & n3 & w3 & _ & Hr). injection Hr as <- <- <-. split; [done |].
  destruct op; apply bind_inv in Hk as ([|] & n4 & w4 & _ & Hk); cbn [negb] in Hk;
    unfold ret in Hk; destruct (read_and_parse s request); by simplify_eq.
Qed.

(** ** Replay *)

Lemma lookup_replays w client identifier hash fingerprint id r o :
  db_inv (db w) → settlements (db w) !! id = Some r →
  api_client_id (claim r) = client → payment_hash (claim r) = hash →
  request_fingerprint (claim r) = fingerprint → Schema.payment_identifier (claim r) = identifier →
  lookup_verdict (settlements (db w)) client identifier hash fingerprint o →
  ∃ rec, o = Some (Existing rec) ∧ settlement_from_row id r = Ok rec.
Proof.
  intros Hd Hr Hc Hh Hf Hi Hv. destruct (inv_unique _ Hd) as [Uh Ui _ _ _ _].
  destruct Hv as [id' r' rec Hr' Hrec Hm Hf'|id' r' i Ei Hr' [Hc' Hi'] Hf'|id' r' Hr' Hh' Hm|Hn _].
  - exists rec. split; [done |]. assert (id' = id) as ->; [| by simplify_eq].
    destruct identifier as [i|].
    + destruct Hm as [Hc' Hi']. eapply (Ui id' id r' r (client, i)); try done;
        unfold key_identifier; by rewrite ?Hi, ?Hi', ?Hc, ?Hc'.
    + destruct Hm as [Hh' Hc']. eapply (Uh id' id r' r hash); try done;
        unfold key_payment_hash; congruence.
  - subst identifier. assert (id' = id) as ->.
    { eapply (Ui id' id r' r (client, i)); try done; unfold key_identifier; by rewrite ?Ei, ?Hi', ?Hc, ?Hc'. }
    simplify_eq.
  - assert (id' = id) as ->.
    { eapply (Uh id' id r' r hash); try done; unfold key_payment_hash; congruence. }
    simplify_eq. destruct (Schema.payment_identifier (claim r)) as [i|] eqn:Ei.
    + by destruct (Hm id r Hr).
    + by destruct Hm.
  - by destruct (Hn id r Hr).
Qed.


(** ** Answers *)

Lemma spec_pure {A} (φ : Prop) P (c : Proc World A) Q :
  (φ → spec P c Q) → spec (λ w, P w ∧ φ) c Q.
Proof. intros Hc env n w o n' w' Hr Hw [HP Hφ] Hrun. by apply (Hc Hφ env n w o n' w'). Qed.

(** What a successful answer to [client] is: the wire form of a protocol failure, or of
    the answer the journal holds for that client and request. *)
Definition accounted (request : HttpRequest) (client : Api.ApiClient) (resp : Response) (w : World) : Prop :=
  ∃ parsed resp0, read_and_parse s request = Ok parsed ∧
    resp = finalize_wire_response resp0 (Protocol.wire parsed) ∧
    ((∃ reason message payer tx_hash network,
        resp0 = settle_json (response_failure reason message payer tx_hash network)) ∨
     ∃ hash, offline_identity s parsed = Ok hash ∧
       answered (Api.id client)
         (Canonical.request_fingerprint Near.sha256 (Protocol.value parsed) hash) resp0 w).

Lemma settle_admitted_spec request client parsed :
  read_and_parse s request = Ok parsed →
  spec (λ _, True)
    (let* response := settle_protocol s client parsed in
     ret (finalize_wire_response response (Protocol.wire parsed)))
    (λ resp w, status resp = OK → accounted request client resp w).
Proof.
  intros Hp. eapply spec_bind; [apply settle_protocol_spec |].
  intros resp0. apply spec_ret. intros w Hr Hok.
  exists parsed, resp0. split_and!; [done | done |].
  destruct Hr as [[Hr|Hr]|Hr]; [| by left | by right].
  exfalso. apply Hr. unfold finalize_wire_response in Hok.
  destruct (Protocol.wire parsed); [| done]. destruct (status resp0 =? OK) eqn:E; [by apply N.eqb_eq |].
  done.
Qed.

Lemma admit_keeps_journal request op : respects world_step (admit_request s request op).
Proof. apply admit_respects; [apply _ | apply spawn_touch_respects | apply check_respects]. Qed.

Lemma settle_inner_respects request : respects world_step (settle_inner s request).
Proof.
  apply spec_respects. eapply spec_bind.
  { apply (spec_returns (λ _, True)); [apply _ | apply admit_keeps_journal | apply admit_returns]. }
  intros [[client parsed]|resp]; [| by apply spec_ret]. apply spec_pure. intros Hp.
  eapply spec_weaken; [by apply settle_admitted_spec | done | done].
Qed.

(** A successful answer of the handler itself goes to the client it authenticated. *)
Lemma settle_inner_accounted request env n w resp n' w' :
  rely world_step env → world_inv w → settle_inner s request env n w = (Done resp, n', w') →
  status resp = OK →
  ∃ a n1 w1, Auth.authenticate (auth s) (request_headers request) env n w = (Done (Ok a), n1, w1) ∧
    accounted request (Auth.client a) resp w'.
Proof.
  intros Hr Hw Hrun Hok. apply bind_inv in Hrun as (o & n1 & w1 & Ha & Hk).
  pose proof (admit_keeps_journal _ _ _ _ _ _ _ _ Hr Ha Hw) as [Hw1 _].
  pose proof (admit_returns _ _ _ _ _ _ _ _ Ha) as Hp.
  destruct o as [[client parsed]|refusal]; [| by injection Hk as <- _ _].
  apply admit_authenticates in Ha as (a & n2 & w2 & Ha & <-). exists a, n2, w2. split; [done |].
  by apply (settle_admitted_spec request (Auth.client a) parsed Hp _ _ _ _ _ _ Hr Hw1 I Hk).
Qed.

Lemma settle_respects request : respects world_step (settle s request).
Proof.
  apply respects_bind; [apply _ | apply respects_timeout, settle_inner_respects |].
  intros ?. apply respects_ret, _.
Qed.

(** C3: Every successful answer is accounted for: among any other tasks, with any
    failures, lost acknowledgements, timeouts and crashes, the settle handler keeps the
    journal, and if it answers 200 then the request authenticated, in this run, as some
    client, and the answer is the wire form of a protocol failure ([success: false]) or
    of the status and bytes stored in a terminal row that the journal holds for that
    client and that very request. *)
Theorem settle_answers_are_journaled request env n w resp n' w' :
  rely world_step env → world_inv w → settle s request env n w = (Done resp, n', w') →
  world_inv w' ∧ world_le w w' ∧
  (status resp = OK →
   ∃ a n1 w1, let deadline := (clock env n + seconds (settle_timeout_seconds (request_limits (config s))))%Z in
     Auth.authenticate (auth s) (request_headers request) (cut deadline env) n w = (Done (Ok a), n1, w1) ∧
     accounted request (Auth.client a) resp w').
Proof.
  intros Hr Hw Hrun. destruct (settle_respects request _ _ _ _ _ _ Hr Hrun Hw) as [Hw' L].
  split_and!; [done | done |]. intros Hok.
  apply bind_inv in Hrun as (o & n1 & w1 & Ht & Hk). unfold ret in Hk. injection Hk as <- <- <-.
  unfold timeout in Ht.
  destruct (settle_inner s request _ n w) as [[[a|] n2] w2] eqn:E; [| by destruct (reply env (pred n2)); simplify_eq].
  injection Ht as <- <- <-. by eapply settle_inner_accounted.
Qed.

(** ** Verification is read-only *)

Definition is_worker (t : Spawned) : bool :=
  match t with SpawnWorker _ _ => true | SpawnTouch _ => false end.

(** Nothing but rate-limit windows, permits and key bookkeeping differs. *)
Definition untouched (w w' : World) : Prop :=
  db w' = db w ∧ gates w' = gates w ∧ wire w' = wire w ∧
  List.filter is_worker (spawned (process w')) = List.filter is_worker (spawned (process w)).

#[local] Instance untouched_preorder : PreOrder untouched.
Proof. split; [by intros w |]. intros a b c (?&?&?&?) (?&?&?&?). split_and!; congruence. Qed.

Lemma verify_protocol_respects (R : relation World) `{!PreOrder R} client parsed :
  (∀ f, respects R (modify (with_free_slots f))) → (∀ w, R w (with_free_slots N.succ w)) →
  respects R (verify_protocol s client parsed).
Proof.
  intros Hslots Hback. unfold verify_protocol.
  destruct (static_verify_failure s parsed); [apply respects_ret; done |].
  apply respects_bind; [done | apply respects_select; done |].
  intros [[|]|e]; try (apply respects_ret; done).
  apply respects_bind; [done | |].
  { unfold try_acquire. solve_respects. }
  intros [|]; [| apply respects_ret; done]. cbn [negb].
  apply respects_finally; [done | | done].
  destruct (facilitator s) as [f|].
  - unfold near_routed_verify. apply respects_bind; [done | | intros; apply respects_ret; done].
    apply (Retry.respects_retry R). apply respects_timeout. apply scheme_verify_respects; done.
  - apply respects_bind; [done | | intros; apply respects_ret; done]. apply respects_timeout.
    unfold evm_verify. apply respects_bind; [done | apply chain_verify_respects; done
      | intros; apply respects_ret; done].
Qed.

Lemma verify_respects (R : relation World) `{!PreOrder R} request :
  (∀ prefix, respects R (spawn (SpawnTouch prefix))) →
  (∀ prefix op limit, respects R (RateLimit.check prefix op limit)) →
  (∀ f, respects R (modify (with_free_slots f))) → (∀ w, R w (with_free_slots N.succ w)) →
  respects R (verify s request).
Proof.
  intros Hs Hc Hslots Hback. unfold verify, verify_inner.
  apply respects_bind; [done | | intros; apply respects_ret; done]. apply respects_timeout.
  apply respects_bind; [done | by apply admit_respects |].
  intros [[client parsed]|resp]; [| apply respects_ret; done].
  apply respects_bind; [done | by apply verify_protocol_respects | intros; apply respects_ret; done].
Qed.

(** Verification is read-only: whatever the request, the chain's answers, the
    failures and the timeouts, the verify handler changes neither the database nor the
    gates, sends nothing to the chain and starts no settlement worker. *)
Theorem verify_is_read_only request env n w o n' w' :
  rely untouched env → verify s request env n w = (o, n', w') → untouched w w'.
Proof.
  intros Hr Hrun. eapply (verify_respects untouched); [| | | | exact Hr | exact Hrun].
  - intros prefix. apply respects_modify. intros x. unfold untouched. cbn.
    by rewrite List.filter_app, app_nil_r.
  - intros prefix op limit. unfold RateLimit.check. apply respects_bind; [apply _ | apply respects_now, _ |].
    intros t. apply respects_bind; [apply _ | apply respects_gets, _ |]. intros m.
    destruct (RateLimit.admit_call _ _ _). apply respects_bind; [apply _ | | intros; apply respects_ret, _].
    by apply respects_modify.
  - intros f. by apply respects_modify.
  - done.
Qed.

(** *** Permits *)

Definition same_slots (w w' : World) : Prop := free_slots (process w') = free_slots (process w).

#[local] Instance same_slots_preorder : PreOrder same_slots.
Proof. split; [by intros w |]. intros a b c. unfold same_slots. congruence. Qed.

Lemma try_acquire_run env n w :
  try_acquire env n w =
    if free_slots (process w) =? 0 then (Done false, n, w)
    else (Done true, n, with_free_slots N.pred w).
Proof. unfold try_acquire, bind, gets, modify, ret. by destruct (_ =? 0). Qed.

(** A permit taken around [c] is back when [c] is done, dropped or dead. *)
Lemma permit_returned {A} (c : Proc World A) (refuse : A) :
  respects same_slots c →
  respects same_slots
    (let* permit := try_acquire in
     if negb permit then ret refuse else finally c (with_free_slots N.succ)).
Proof.
  intros Hc env n w o n' w' Hr. unfold bind. rewrite try_acquire_run.
  destruct (N.eqb_spec (free_slots (process w)) 0) as [E|E]; cbn [negb].
  - intros [= <- <- <-]. reflexivity.
  - unfold finally. destruct (c env n (with_free_slots N.pred w)) as [[o1 n1] w1] eqn:Ec.
    intros [= <- <- <-]. pose proof (Hc _ _ _ _ _ _ Hr Ec) as Hs.
    unfold same_slots in *. cbn in *. rewrite Hs. lia.
Qed.

(** Verification capacity never leaks: however a verification ends - answered,
    refused, timed out while it waits on the chain, or killed - it leaves as many free
    permits as it found. *)
Theorem verify_returns_its_permit request env n w o n' w' :
  rely same_slots env → verify s request env n w = (o, n', w') →
  free_slots (process w') = free_slots (process w).
Proof.
  revert env n w o n' w'. change (respects same_slots (verify s request)).
  unfold verify, verify_inner.
  apply respects_bind; [apply _ | | intros; apply respects_ret, _]. apply respects_timeout.
  apply respects_bind; [apply _ | |].
  { apply admit_respects; [apply _ | by intros; apply respects_modify |].
    intros prefix op limit. unfold RateLimit.check. apply respects_bind; [apply _ | apply respects_now, _ |].
    intros t. apply respects_bind; [apply _ | apply respects_gets, _ |]. intros m.
    destruct (RateLimit.admit_call _ _ _). apply respects_bind; [apply _ | | intros; apply respects_ret, _].
    by apply respects_modify. }
  intros [[client parsed]|resp]; [| apply respects_ret, _].
  apply respects_bind; [apply _ | | intros; apply respects_ret, _].
  unfold verify_protocol. destruct (static_verify_failure s parsed); [apply respects_ret, _ |].
  apply respects_bind; [apply _ | apply respects_select, _ |].
  intros [[|]|e]; try apply respects_ret, _. apply permit_returned.
  destruct (facilitator s) as [f|].
  - unfold near_routed_verify. apply respects_bind; [apply _ | | intros; apply respects_ret, _].
    apply (Retry.respects_retry same_slots). apply respects_timeout. apply scheme_verify_respects; typeclasses eauto.
  - apply respects_bind; [apply _ | | intros; apply respects_ret, _]. apply respects_timeout.
    unfold evm_verify. apply respects_bind; [apply _ | apply chain_verify_respects; typeclasses eauto
      | intros; apply respects_ret, _].
Qed.

Lemma slots_respects f : respects world_step (modify (with_free_slots f)).
Proof.
  apply (process_respects (λ p, MkProcess (windows p) (f (free_slots p)) (spawned p) (readiness_failure p))).
  done.
Qed.

Lemma verify_keeps_journal request : respects world_step (verify s request).
Proof.
  apply verify_respects; [apply _ | apply spawn_touch_respects | apply check_respects | apply slots_respects |].
  intros w. apply world_step_process. eauto.
Qed.

(** ** Readiness *)

Lemma ready_keeps_journal : respects world_step (ready s).
Proof.
  assert (∀ A (f : Database_ → A), respects world_step (query (select f))) by (intros; apply respects_select, _).
  assert (∀ l, respects world_step (migrations_applied l)) by (induction l as [|[v c] l IH]; cbn; solve_respects).
  assert (∀ b, respects world_step (modify (λ w, with_gates (Readiness.set_database b (gates w)) w))).
  { intros b. apply respects_modify. intros w. apply world_step_gates. }
  unfold ready, operationally_ready, ping, schema_compatible, authorization_scrub_marker,
    active_clients_have_payee_policy. solve_respects.
Qed.

Definition schema_current (d : Database_) : bool :=
  forallb (λ vc : N * string, bool_decide (applied_migrations (schema_info d) !! vc.1 = Some vc.2))
    (embedded_migrator migration_checksum)
  && bool_decide (settlements_comment (schema_info d) = Some AUTHORIZATION_SCRUB_COMPLETE).

Lemma calm_operationally_ready network asset env n w :
  calm env →
  ∃ n', operationally_ready migration_checksum network asset env n w =
    (Done (Ok (schema_current (db w) && policies_complete network asset (db w))), n', w).
Proof.
  intros Hc. unfold operationally_ready, ping, schema_compatible, authorization_scrub_marker,
    active_clients_have_payee_policy.
  assert (∀ l m, ∃ m', migrations_applied l env m w =
    (Done (Ok (forallb (λ vc : N * string,
       bool_decide (applied_migrations (schema_info (db w)) !! vc.1 = Some vc.2)) l)), m', w)) as Hm.
  { induction l as [|[v c] l IH]; intros m; cbn; [by eexists |].
    unfold bind_ok, bind. rewrite calm_select by done.
    destruct (bool_decide _); cbn; [apply IH | by eexists]. }
  unfold bind_ok, bind. rewrite calm_select by done.
  destruct (Hm (embedded_migrator migration_checksum) (S n)) as (m & ->).
  unfold schema_current. destruct (forallb _ _); cbn [negb andb]; [| by eexists].
  rewrite calm_select by done. cbn [ret]. unfold ret. cbn.
  destruct (bool_decide _); cbn [negb]; [| by eexists].
  rewrite calm_select by done. by eexists.
Qed.

(** [/readyz] says what it checks: with the database reachable it answers 200
    exactly when every embedded migration is applied with its checksum, the
    authorization scrub is complete, there is an active client and every one has a
    payee for this network and asset, and the leadership, reconciliation, RPC and
    relayer gates are open; otherwise 503 with [Retry-After].  It records the database's
    part in its gate and changes nothing else. *)
Theorem readyz_reports_the_gates env n w :
  calm env →
  let database := schema_current (db w)
                  && policies_complete (network (config s)) (asset (config s)) (db w) in
  let g := Readiness.snapshot (Readiness.set_database database (gates w)) in
  ∃ resp n', ready s env n w =
      (Done resp, n', with_gates (Readiness.set_database database (gates w)) w) ∧
    (status resp = OK ∧ retry_after resp = None ∧
       database && Readiness.s_leadership g && Readiness.s_reconciliation g
         && Readiness.s_rpc g && Readiness.s_relayer g = true ∨
     status resp = SERVICE_UNAVAILABLE ∧ retry_after resp = Some RETRY_SECONDS ∧
       database && Readiness.s_leadership g && Readiness.s_reconciliation g
         && Readiness.s_rpc g && Readiness.s_relayer g = false).
Proof.
  intros Hc database g. unfold ready.
  destruct (calm_operationally_ready (network (config s)) (asset (config s)) env n w Hc) as (n1 & E).
  unfold bind. rewrite E. fold database. unfold modify, gets. cbn [ok default]. fold g.
  eexists _, n1. split; [reflexivity |]. cbn [status retry_after].
  change (id database) with database. cbn [gates with_gates]. fold g.
  destruct (_ && Readiness.s_relayer g); [left | right]; done.
Qed.

(** ** Supported kinds *)

(** What an EVM instance advertises it serves: its own network in version 2 and, only if
    it accepts version 1, the alias that translates back to that network. *)
Lemma advertised_kinds_are_served k :
  k ∈ Scheme.kinds (evm_supported s) →
  (Scheme.kind_version k = 2 ∧ Scheme.kind_network k = network (config s)) ∨
  (Scheme.kind_version k = 1 ∧ accept_v1 (config s) = true ∧
   Protocol.caip2_for_v1_network (Scheme.kind_network k) = Some (network (config s))).
Proof.
  unfold evm_supported, evm_supported_for. cbn [Scheme.kinds]. rewrite elem_of_cons.
  intros [->|Hk]; [by left |]. right.
  destruct (accept_v1 (config s)); [| by apply elem_of_nil in Hk].
  destruct (Protocol.v1_network_name (network (config s))) as [alias|] eqn:E; [| by apply elem_of_nil in Hk].
  apply elem_of_cons in Hk as [->|Hk]; [| by apply elem_of_nil in Hk].
  split_and!; [done | done |]. by apply ProtocolSpec.v1_network_roundtrip.
Qed.

End handlers.

(** ** A request, end to end *)

#[local] Existing Instances DemoService.http Demo.external DemoEvm.external ClientsSpec.demo_auth.
Abbreviation demo_app := DemoService.demo_app.
Abbreviation request := DemoService.request.

(** The request claims settlement 115, whose worker runs while the handler waits. *)
Definition settling : Env World := DemoService.worker_at demo_app 30 115.
Definition settled : World := (settle demo_app request settling 0%nat DemoService.world).2.
Definition success : Response :=
  settle_json (MkSettleResponse true None None (Some "alice.near")
                 (Near.hash_to_string (Demo.hash32 "t")) "near:mainnet").

Lemma settling_rely : rely world_step settling.
Proof.
  intros n w. unfold settling, DemoService.worker_at. cbn [interfere].
  destruct (n =? 30)%nat; [| reflexivity].
  destruct (run_new_settlement demo_app 115 Demo.request_text (quiet_env World) 0%nat w)
    as [[o n'] w'] eqn:E.
  eapply run_new_settlement_respects; [| exact E]. intros m x. reflexivity.
Qed.

Lemma demo_world_inv : world_inv DemoService.world.
Proof. apply initial_inv. vm_compute. split_and!; reflexivity. Qed.

Example request_is_answered : (settle demo_app request settling 0%nat DemoService.world).1 = (Done success, 31%nat).
Proof. vm_compute. reflexivity. Qed.
Example request_is_sent : wire settled = [MkSent 115 "outer"].
Proof. vm_compute. reflexivity. Qed.

Lemma request_settles :
  settle demo_app request settling 0%nat DemoService.world = (Done success, 31%nat, settled).
Proof. rewrite (surjective_pairing (settle _ _ _ _ _)). by rewrite request_is_answered. Qed.

Lemma settled_inv : world_inv settled.
Proof.
  eapply (settle_respects demo_app request);
    [exact settling_rely | exact request_settles | exact demo_world_inv].
Qed.

Definition parsed : Protocol.ParsedRequest :=
  match read_and_parse demo_app request with
  | Ok parsed => parsed
  | Err _ => Protocol.MkParsed Null Protocol.V2
               (Protocol.MkMeta 0 EmptyString EmptyString EmptyString EmptyString EmptyString None None None)
  end.

(** Asked again with every gate shut, it gets the same bytes. *)
Definition later : World := with_gates Readiness.default settled.

Lemma later_inv : world_inv later.
Proof. apply world_step_gates, settled_inv. Qed.


Lemma settle_answers_are_journaled_witness :
  ∃ client, accounted demo_app request client success settled.
Proof.
  destruct (settle_answers_are_journaled demo_app request settling 0%nat DemoService.world success 31%nat settled)
    as (_ & _ & H); [exact settling_rely | exact demo_world_inv | exact request_settles |].
  destruct H as (a & n1 & w1 & _ & Ha); [reflexivity |]. by exists (Auth.client a).
Defined.

(** A verification that succeeds, and one killed while it waits on the scheme layer. *)
Definition verified : World := (verify demo_app request (quiet_env World) 0%nat DemoService.world).2.

Definition status_of (o : Outcome Response) : option N :=
  match o with Done resp => Some (status resp) | Crashed => None end.

Example request_verifies :
  status_of (verify demo_app request (quiet_env World) 0%nat DemoService.world).1.1 = Some OK.
Proof. vm_compute. reflexivity. Qed.

Lemma verify_is_read_only_witness : untouched DemoService.world verified.
Proof.
  destruct (verify demo_app request (quiet_env World) 0%nat DemoService.world) as [[o n] w] eqn:E.
  unfold verified. rewrite E.
  apply (verify_is_read_only demo_app request (quiet_env World) 0%nat DemoService.world o n w);
    [intros m x; split_and!; reflexivity | exact E].
Defined.

Definition killed : Env World :=
  MkEnv (λ _ w, w) (λ n, if (n =? 2)%nat then Crash else Up) (λ _, 0%Z).

Example verification_dies :
  status_of (verify demo_app request killed 0%nat DemoService.world).1.1 = None.
Proof. vm_compute. reflexivity. Qed.

Lemma verify_returns_its_permit_witness :
  free_slots (process (verify demo_app request killed 0%nat DemoService.world).2) = 64.
Proof.
  destruct (verify demo_app request killed 0%nat DemoService.world) as [[o n] w] eqn:E.
  apply (verify_returns_its_permit demo_app request killed 0%nat DemoService.world o n w);
    [intros m x; reflexivity | exact E].
Defined.

Lemma readyz_reports_the_gates_witness :
  ∃ resp n', ready demo_app (quiet_env World) 0%nat DemoService.world = (Done resp, n', DemoService.world) ∧
    status resp = OK.
Proof.
  destruct (readyz_reports_the_gates demo_app (quiet_env World) 0%nat DemoService.world (quiet_calm _))
    as (resp & n' & E & [(Hs & _)|(_ & _ & Hg)]); [| vm_compute in Hg; discriminate].
  exists resp, n'. split; [exact E | exact Hs].
Defined.

End HttpSpec.
