(* ===== verification/VerifySpec.v ===== *)
(** * What a verification says

    On a NEAR instance the verify handler hands the request to the registered scheme.
    Its answer is truthful: a payer is only ever named if that account signed the
    delegate in this very request, and a payment is only called valid if, while the
    request was being served, the chain showed everything that makes it payable. *)

From stdpp Require Import base gmap strings list numbers.
From Stdlib Require Import Lia NArith ZArith Ascii String.
From S2P Require Import Prelude Text Json Readiness Schema RateLimit Sql Store Clients Journal.
From S2P Require Import Receipt Protocol Canonical Near Scheme Config Auth ClientsSpec.
From S2P Require Import Demo NearSpec Retry Evm DemoEvm Chain Service ServiceProofs Http.
From S2P Require Import HttpProofs DemoService HttpSpec.

Open Scope string_scope.
Open Scope list_scope.
Open Scope N_scope.

Module VerifySpec.
Import Store Clients Service Http.

(** ** Ticks only pass *)

Definition forward {A} (c : Proc World A) : Prop :=
  ∀ env n w o n' w', c env n w = (o, n', w') → (n <= n')%nat.

Lemma forward_ret {A} (a : A) : forward (ret a).
Proof. by intros env n w o n' w' [= _ <- _]. Qed.
Lemma forward_gets {A} (f : World → A) : forward (gets f).
Proof. by intros env n w o n' w' [= _ <- _]. Qed.
Lemma forward_modify f : forward (modify f).
Proof. by intros env n w o n' w' [= _ <- _]. Qed.
Lemma forward_now : forward now.
Proof. by intros env n w o n' w' [= _ <- _]. Qed.
Lemma forward_consult {A} (f : nat → A) : forward (consult f).
Proof. intros env n w o n' w'. unfold consult. destruct (reply env n); intros [= _ <- _]; lia. Qed.
Lemma forward_query {A} (f : Stmt A) : forward (query f).
Proof.
  intros env n w o n' w'. unfold query, request.
  destruct (reply env n); try destruct (f _) as [[? ?]|?]; intros [= _ <- _]; lia.
Qed.

Lemma forward_bind {A B} (c : Proc World A) (k : A → Proc World B) :
  forward c → (∀ a, forward (k a)) → forward (bind c k).
Proof.
  intros Hc Hk env n w o n' w'. unfold bind.
  destruct (c env n w) as [[[a|] n1] w1] eqn:E; apply Hc in E.
  - intros H%Hk. lia.
  - by intros [= _ <- _].
Qed.

Lemma forward_bind_ok {A B E} (c : Proc World (Result A E)) (k : A → Proc World (Result B E)) :
  forward c → (∀ a, forward (k a)) → forward (bind_ok c k).
Proof. intros Hc Hk. apply forward_bind; [done |]. intros [a|e]; [apply Hk | apply forward_ret]. Qed.

Lemma forward_timeout {A} d (c : Proc World A) : forward c → forward (timeout d c).
Proof.
  intros Hc env n w o n' w'. unfold timeout.
  destruct (c _ n w) as [[[a|] n1] w1] eqn:E; apply Hc in E; [by intros [= _ <- _] |].
  destruct (reply env (pred n1)); by intros [= _ <- _].
Qed.

Create HintDb forward.
#[local] Hint Resolve forward_ret forward_gets forward_modify forward_now forward_consult forward_query
  forward_timeout : forward.

Ltac solve_forward :=
  repeat first
    [ progress intros
    | solve [eauto with forward]
    | apply forward_bind_ok
    | apply forward_bind
    | case_match ].

Lemma forward_retry {A} (c : Proc World A) t : forward c → forward (Retry.retry_while_transient c t).
Proof.
  intros Hc. apply forward_bind; [done |]. generalize Retry.RPC_RETRY_DELAYS.
  induction l as [|d l IH]; intros a; cbn; solve_forward.
Qed.

(** A retried call returns what one of its calls returned. *)
Lemma retry_inv {A} (c : Proc World A) t env n w a n' w' :
  forward c → Retry.retry_while_transient c t env n w = (Done a, n', w') →
  ∃ m w1, (n <= m)%nat ∧ c env m w1 = (Done a, n', w').
Proof.
  intros Hc (b & n1 & w1 & H1 & Hloop)%bind_inv. revert b n1 w1 n w H1 Hloop.
  generalize Retry.RPC_RETRY_DELAYS. induction l as [|d l IH]; cbn; intros b n1 w1 n w H1.
  - intros [= <- <- <-]. by exists n, w.
  - destruct (t b); [| by intros [= <- <- <-]; exists n, w].
    intros (b2 & n2 & w2 & H2 & Hl)%bind_inv. apply Hc in H1.
    destruct (IH _ _ _ _ _ H2 Hl) as (m & wm & Hm & Hcm). exists m, wm. split; [lia | done].
Qed.

Section handlers.
Context `{Near.External} `{Evm.EvmExternal} `{Auth.AuthExternal} `{HttpExternal}.

Lemma forward_near_verify p request policy : forward (Near.verify_proto_request p request policy).
Proof. unfold Near.verify_proto_request, map_err_proc. solve_forward. Qed.
#[local] Hint Resolve forward_near_verify : forward.

Lemma forward_scheme f request : forward (Scheme.facilitator_verify f request).
Proof. unfold Scheme.facilitator_verify, Scheme.verify. solve_forward. Qed.
#[local] Hint Resolve forward_scheme : forward.

Lemma forward_admit s request op : forward (admit_request s request op).
Proof.
  assert (∀ a h, forward (Auth.authenticate a h)).
  { intros a h. unfold Auth.authenticate, map_err_proc, lookup_api_key. solve_forward. }
  unfold admit_request, authenticate, spawn, RateLimit.check. solve_forward.
Qed.

Lemma forward_try_acquire : forward try_acquire.
Proof. unfold try_acquire. solve_forward. Qed.

(** ** The scheme's word *)

(** [who] signed the delegate of this request. *)
Definition signed_by (request who : string) : Prop :=
  ∃ wire m encoded decoded, Near.wire_request_from_str request = Some wire ∧
    as_object (Near.payload wire) = Some m ∧ get "signedDelegateAction" m = Some (Str encoded) ∧
    Near.decode_signed_delegate encoded = Ok decoded ∧
    Near.delegate_verify (Near.decoded_delegate decoded) = true ∧
    Near.sender_id (Near.delegate_action (Near.decoded_delegate decoded)) = who.

(** What a scheme answer given between two ticks may say. *)
Definition truthful (f : Scheme.NearExactFacilitator) (request : string) (n n' : nat) (v : Value) : Prop :=
  (∀ who, value_get "payer" v = Some (Str who) → signed_by request who) ∧
  (value_get "isValid" v = Some (Bool true) →
   ∃ m payment, (n <= m <= n')%nat ∧
     NearSpec.acceptable (Scheme.scheme_provider f) (Scheme.scheme_policy f) m request payment ∧
     value_get "payer" v = Some (Str (Near.payer payment))).

Lemma attributable_payer_signed request failure who :
  Scheme.attributable_payer request failure = Some who → signed_by request who.
Proof.
  unfold Scheme.attributable_payer. destruct (negb _); [done |].
  destruct (Near.wire_request_from_str request) as [wire|] eqn:Ew; [cbn | done].
  destruct (as_object (Near.payload wire)) as [m|] eqn:Em; [cbn | done].
  destruct (get "signedDelegateAction" m) as [field|] eqn:Ef; [cbn | done].
  destruct field as [| | |encoded| |]; try done. cbn.
  destruct (Near.decode_signed_delegate encoded) as [decoded|] eqn:Ed; [cbn | done].
  destruct (Near.delegate_verify _) eqn:Ev; [| done]. intros [= <-].
  by exists wire, m, encoded, decoded.
Qed.

Lemma acceptable_signed p policy m request payment :
  NearSpec.acceptable p policy m request payment → signed_by request (Near.payer payment).
Proof.
  intros (wire & t & bytes & d & a & block & Hw & _ & Hd & _ & ->).
  destruct Hd as [(obj & encoded & Hm & Hg & Hb) Hs [Hv Hc] _ _ _].
  exists wire, obj, encoded, (Near.MkDecoded bytes d (Near.hash_signed_delegate_bytes bytes)).
  split_and!; [done | done | done | | done | done]. unfold Near.decode_signed_delegate. rewrite Hb. cbn. rewrite Hs. cbn. by rewrite Hc.
Qed.

Lemma scheme_truthful f request env n w v n' w' :
  Scheme.verify f request env n w = (Done v, n', w') → truthful f request n n' v.
Proof.
  intros (r & n1 & w1 & Hr & Hv)%bind_inv. injection Hv as <- <- <-. destruct r as [payment|failure].
  - pose proof (NearSpec.verify_sound _ _ _ _ _ _ _ _ _ Hr) as Ha. split.
    + intros who [= <-]. by eapply acceptable_signed.
    + intros _. exists n, payment. apply forward_near_verify in Hr. split_and!; [done | done | done | done].
  - split.
    + unfold Scheme.invalid_response. destruct (Scheme.payer_is_attributable failure); [| done].
      destruct (Scheme.attributable_payer request failure) as [p|] eqn:Ep; [| done].
      intros who [= <-]. by eapply attributable_payer_signed.
    + unfold Scheme.invalid_response, Scheme.with_member. by repeat case_match.
Qed.

Lemma truthful_widen f request n m m' n' v :
  (n <= m)%nat → (m' <= n')%nat → truthful f request m m' v → truthful f request n n' v.
Proof.
  intros Hn Hn' [Hp Hv]. split; [done |]. intros Hvalid.
  destruct (Hv Hvalid) as (k & payment & Hk & Ha). exists k, payment. split; [lia | done].
Qed.

(** ** The handler's answer *)

Context (s : AppState) (f : Scheme.Facilitator) (Hf : facilitator s = Some f).

(** An answer of the scheme, or a refusal by the instance's own policy. *)
Definition verify_answer (parsed : Protocol.ParsedRequest) (n n' : nat) (resp : Response) : Prop :=
  (∃ reason, resp = verify_json (invalid reason None None)) ∨
  ∃ v, resp = raw_json OK (Canonical.write_canonical_json v) ∧
    truthful (Scheme.registered f) (raw parsed) n n' v.

Lemma routed_answer parsed deadline env n w resp n' w' :
  near_routed_verify f parsed deadline env n w = (Done resp, n', w') → status resp = OK →
  ∃ v, resp = raw_json OK (Canonical.write_canonical_json v) ∧
    truthful (Scheme.registered f) (raw parsed) n n' v.
Proof.
  intros (r & n1 & w1 & Hr & Hk)%bind_inv Hok. injection Hk as <- <- <-.
  apply retry_inv in Hr as (m & wm & Hm & Ht); [| eauto with forward].
  destruct r as [[v|[]]|]; try done. destruct (response_is_rpc_ambiguous v); [done |].
  exists v. split; [done |]. unfold timeout in Ht.
  destruct (Scheme.facilitator_verify f (raw parsed) _ m wm) as [[[a|] n2] w2] eqn:E;
    [| by destruct (reply env (pred n2)); simplify_eq].
  injection Ht as -> <- <-. unfold Scheme.facilitator_verify in E. destruct (Scheme.routes f _); [| done].
  apply bind_inv in E as (v' & n3 & w3 & Hv & Hret). injection Hret as -> <- <-.
  eapply truthful_widen; [exact Hm | reflexivity |]. by eapply scheme_truthful.
Qed.

Lemma protocol_answer client parsed env n w resp n' w' :
  verify_protocol s client parsed env n w = (Done resp, n', w') → status resp = OK →
  verify_answer parsed n n' resp.
Proof.
  unfold verify_protocol, static_verify_failure. destruct (static_failure_reason s parsed) as [reason|]; cbn.
  { intros [= <- <- <-] _. left. by exists reason. }
  intros (allowed & n1 & w1 & Ha & Hk)%bind_inv Hok.
  apply (forward_query (select _)) in Ha.
  destruct allowed as [[|]|]; [| by injection Hk as <- <- <-; left; eexists | by injection Hk as <- <- <-].
  apply bind_inv in Hk as (permit & n2 & w2 & Hp & Hk).
  apply forward_try_acquire in Hp.
  destruct permit; cbn [negb] in Hk; [| by injection Hk as <- <- <-].
  rewrite Hf in Hk. unfold finally in Hk.
  destruct (near_routed_verify f parsed _ env n2 w2) as [[o n3] w3] eqn:E. injection Hk as -> -> <-.
  destruct (routed_answer _ _ _ _ _ _ _ _ E Hok) as (v & -> & Hv). right. exists v. split; [done |].
  eapply truthful_widen; [| reflexivity | exact Hv]. lia.
Qed.

(** C11: Verification is truthful.  Whatever 200 the verify handler of a NEAR instance
    answers is, in the request's dialect, a refusal by the instance's own policy or the
    scheme's answer to this very request; a payer named in it has signed the delegate in
    the request; and a payment called valid satisfied, at one final block read while the
    request was served, every condition on envelope, delegate and chain state under
    which it can be settled. *)
Theorem verify_answers_are_truthful request env n w resp n' w' :
  verify s request env n w = (Done resp, n', w') → status resp = OK →
  ∃ parsed resp0, read_and_parse s request = Ok parsed ∧
    resp = finalize_wire_response resp0 (Protocol.wire parsed) ∧ verify_answer parsed n n' resp0.
Proof.
  intros (o & n1 & w1 & Ht & Hk)%bind_inv Hok. injection Hk as <- <- <-. unfold timeout in Ht.
  destruct (verify_inner s request _ n w) as [[[a|] n2] w2] eqn:E;
    [| by destruct (reply env (pred n2)); simplify_eq].
  injection Ht as <- <- <-. cbn in Hok |- *. apply bind_inv in E as (r & n3 & w3 & Ha & Hk).
  pose proof (HttpSpec.admit_returns _ _ _ _ _ _ _ _ _ Ha) as Hp. apply forward_admit in Ha.
  destruct r as [[client parsed]|refusal]; [| by injection Hk as <- <- <-].
  apply bind_inv in Hk as (resp0 & n4 & w4 & Hv & Hret). injection Hret as <- <- <-.
  exists parsed, resp0. split_and!; [done | done |].
  assert (status resp0 = OK) as Hok0.
  { unfold finalize_wire_response in Hok. destruct (Protocol.wire parsed); [| done].
    destruct (status resp0 =? OK) eqn:E; [by apply N.eqb_eq |]. done. }
  destruct (protocol_answer _ _ _ _ _ _ _ _ Hv Hok0) as [Hl|(v & -> & Ht)]; [by left |].
  right. exists v. split; [done |]. by eapply truthful_widen.
Qed.

End handlers.

#[local] Existing Instances DemoService.http Demo.external DemoEvm.external ClientsSpec.demo_auth.
Abbreviation demo_app := DemoService.demo_app.
Abbreviation demo_provider := (Demo.provider (Ok (Near.LookupFinal Demo.final_outcome))).

(** The demo request is valid, and its answer names the payer. *)
Definition demo_answer : Response :=
  match (verify demo_app DemoService.request (quiet_env World) 0%nat DemoService.world).1.1 with
  | Done resp => resp
  | Crashed => settlement_pending
  end.

Example demo_answer_is_valid :
  demo_answer = raw_json OK (Canonical.write_canonical_json (Scheme.success_response "alice.near")).
Proof. vm_compute. reflexivity. Qed.

Lemma verify_answers_are_truthful_witness :
  ∃ parsed n' resp0, read_and_parse demo_app DemoService.request = Ok parsed ∧
    demo_answer = finalize_wire_response resp0 (Protocol.wire parsed) ∧
    verify_answer (DemoService.scheme demo_provider) parsed 0 n' resp0.
Proof.
  destruct (verify demo_app DemoService.request (quiet_env World) 0%nat DemoService.world) as [[o n'] w'] eqn:E.
  assert (o = Done demo_answer) as Ho.
  { transitivity (verify demo_app DemoService.request (quiet_env World) 0%nat DemoService.world).1.1;
      [by rewrite E | vm_compute; reflexivity]. }
  rewrite Ho in E.
  destruct (verify_answers_are_truthful demo_app (DemoService.scheme demo_provider) eq_refl
              DemoService.request (quiet_env World) 0%nat DemoService.world demo_answer n' w' E)
    as (parsed & resp0 & H); [by rewrite demo_answer_is_valid |].
  by exists parsed, n', resp0.
Defined.

End VerifySpec.
