(* ===== verification/RouterSpec.v ===== *)
(** * What the routes let a stranger do

    Every request but an authenticated [POST /settle] is inert; and the landing page
    shows the configured values as text. *)

From stdpp Require Import base gmap strings list numbers.
From Stdlib Require Import Lia NArith ZArith Ascii String.
From S2P Require Import Prelude Text Json Readiness Schema RateLimit Sql Store Clients Journal Receipt.
From S2P Require Import Protocol Canonical Near Scheme Config Auth ClientsSpec Demo Retry Evm DemoEvm Chain.
From S2P Require Import Service Http Catalog CatalogSpec Router DemoService HttpSpec.

Open Scope string_scope.
Open Scope list_scope.
Open Scope N_scope.

Module RouterSpec.
Import Store Clients Service Http Router.

(** What the framework documents of its routing. *)
Class RoutingLaws `{RouterExternal} : Prop := {
  dispatch_sound : ∀ m p h, dispatch routes m p = inl h →
    ∃ m', (p, (m', h)) ∈ routes ∧ (m' = m ∨ (m = HEAD ∧ m' = GET));
  dispatch_complete : ∀ m p h, (p, (m, h)) ∈ routes → dispatch routes m p = inl h
}.

(** ** The landing page *)

Definition is_markup (c : ascii) : bool := Ascii.eqb c "<" || Ascii.eqb c ">".

Fixpoint markup (s : string) : string :=
  match s with
  | EmptyString => EmptyString
  | String c s' => if is_markup c then String c (markup s') else markup s'
  end.

Lemma markup_app s t : markup (s +:+ t) = markup s +:+ markup t.
Proof.
  induction s as [|c s IH]; [done |]. rewrite append_cons. cbn [markup]. rewrite IH.
  by destruct (is_markup c).
Qed.

Lemma replace_app c b s t : replace c b (s +:+ t) = replace c b s +:+ replace c b t.
Proof.
  induction s as [|d s IH]; [done |]. rewrite append_cons. cbn [replace]. by rewrite IH, append_assoc.
Qed.

(** Whatever the value, its escaped form has no markup. *)
Lemma escaped_has_no_markup value : markup (escape_html_text value) = EmptyString.
Proof.
  unfold escape_html_text. induction value as [|c s IH]; [done |]. cbn [replace].
  rewrite !replace_app, markup_app, IH.
  destruct (Ascii.eqb_spec "&" c) as [<-|]; [done |]. cbn [replace].
  destruct (Ascii.eqb_spec "<" c) as [<-|]; [done |]. rewrite !append_nil_r. cbn [replace].
  destruct (Ascii.eqb_spec ">" c) as [<-|]; [done |]. rewrite append_nil_r. cbn [markup].
  unfold is_markup. destruct (Ascii.eqb_spec c "<"); [congruence |].
  destruct (Ascii.eqb_spec c ">"); [congruence | done].
Qed.

(** ** Inert requests *)

(** Nothing durable, nothing sent, no worker, and settlement as open as before. *)
Definition inert (w w' : World) : Prop :=
  db w' = db w ∧ wire w' = wire w ∧ Readiness.can_settle (gates w') = Readiness.can_settle (gates w) ∧
  List.filter HttpSpec.is_worker (spawned (process w')) = List.filter HttpSpec.is_worker (spawned (process w)).

#[local] Instance inert_preorder : PreOrder inert.
Proof. split; [by intros w |]. intros a b c (?&?&?&?) (?&?&?&?). split_and!; congruence. Qed.

Section router.
Context `{Near.External} `{Evm.EvmExternal} `{Auth.AuthExternal} `{HttpExternal}
  `{Catalog.CatalogExternal} `{RouterExternal} `{!RoutingLaws}.
Context (s : AppState) (catalog : Catalog.Catalog).

Lemma serve_respects (R : relation World) `{!PreOrder R} i :
  respects R (settle s (http i)) → respects R (verify s (http i)) → respects R (ready s) →
  respects R (serve s catalog i).
Proof.
  intros Hs Hv Hr. unfold serve. destruct (dispatch _ _ _) as [h|]; [| by apply respects_ret].
  apply respects_bind; [done | | intros; by apply respects_ret]. destruct h; try (by apply respects_ret); done.
Qed.

Lemma landing_markup network asset :
  markup (landing_page network asset) = markup (landing_page EmptyString EmptyString).
Proof. unfold landing_page. by rewrite !markup_app, !escaped_has_no_markup. Qed.

(** Against the keys stored now, the request's credential is a client's. *)
Definition authenticates (headers : Auth.HeaderMap) (w : World) : Prop :=
  ∃ r n n', Auth.authenticate (auth s) headers (quiet_env World) n w = (Done (Ok r), n', w).

Lemma inert_touch prefix : respects inert (spawn (SpawnTouch prefix)).
Proof. apply respects_modify. intros w. unfold inert. cbn. by rewrite List.filter_app, app_nil_r. Qed.
Lemma inert_check prefix op limit : respects inert (RateLimit.check prefix op limit).
Proof.
  unfold RateLimit.check. assert (∀ m, respects inert (modify (RateLimit.with_windows m)))
    by (intros; by apply respects_modify). solve_respects.
Qed.
#[local] Hint Resolve inert_touch inert_check : respects.

Lemma inert_verify request : respects inert (verify s request).
Proof.
  apply HttpSpec.verify_respects; eauto with respects typeclass_instances; [| done].
  intros f. by apply respects_modify.
Qed.

Lemma inert_ready : respects inert (ready s).
Proof.
  assert (∀ A (f : Database_ → A), respects inert (query (select f))) by (intros; apply respects_select, _).
  assert (∀ l, respects inert (migrations_applied l)) by (induction l as [|[] l IH]; cbn; solve_respects).
  assert (∀ b, respects inert (modify (λ w, with_gates (Readiness.set_database b (gates w)) w)))
    by (intros; by apply respects_modify).
  unfold ready, operationally_ready, ping, schema_compatible, authorization_scrub_marker,
    active_clients_have_payee_policy. solve_respects.
Qed.

Lemma authenticated_now headers env n w r n' w' :
  rely inert env → Auth.authenticate (auth s) headers env n w = (Done (Ok r), n', w') →
  authenticates headers w.
Proof.
  intros Hr. unfold authenticates, Auth.authenticate.
  intros (raw & Hraw & (prefix & Hp & (calc & Hd & Hk)%run_ret_ok)%run_ret_ok)%run_ret_ok.
  unfold bind_ok, map_err_proc, bind in Hk. rewrite ClientsSpec.lookup_api_key_run in Hk.
  destruct (Hr n w) as [Hdb _]. rewrite Hdb in Hk.
  exists r, 0%nat, 1%nat. unfold bind_ok, map_err_proc, bind, ret. rewrite Hraw, Hp, Hd.
  rewrite ClientsSpec.lookup_api_key_run. cbn. destruct (reply env n); try done.
  destruct (ClientsSpec.found prefix (db w)) as [candidate|]; [| done]. cbn in Hk |- *.
  injection Hk as Hk _ _. by rewrite Hk.
Qed.

(** A request that the stored keys refuse gets no further than its refusal. *)
Lemma inert_refused request env n w o n' w' :
  rely inert env → settle s request env n w = (o, n', w') →
  ¬ authenticates (request_headers request) w → inert w w'.
Proof.
  intros Hr Hrun Hno. unfold settle, bind, timeout in Hrun. set (env' := cut _ env) in Hrun.
  assert (rely inert env') as Hr' by exact Hr.
  destruct (settle_inner s request env' n w) as [[o1 n1] w1] eqn:E.
  assert (inert w w1) as Hi.
  2: { destruct o1; [| destruct (reply env (pred n1))]; injection Hrun as _ _ <-; exact Hi. }
  unfold settle_inner, bind in E.
  destruct (admit_request s request OpSettle env' n w) as [[o2 n2] w2] eqn:Ea.
  assert (inert w w2) as Hi.
  { eapply (HttpSpec.admit_respects s inert); [apply inert_touch | apply inert_check | exact Hr' | exact Ea]. }
  destruct o2 as [[[client parsed]|response]|]; [exfalso | by injection E as _ _ <- | by injection E as _ _ <-].
  apply Hno. unfold admit_request in Ea. apply bind_inv in Ea as ([authenticated|e] & n3 & w3 & Hauth & Hk); [| done].
  apply bind_inv in Hauth as ([r|e] & n4 & w4 & Hauth & Hk'); [by eapply authenticated_now |].
  by destruct e.
Qed.


End router.

(** ** A stranger at the demo deployment *)

#[local] Existing Instances DemoService.http Demo.external DemoEvm.external ClientsSpec.demo_auth
  CatalogSpec.demo_catalog.

Definition refusal (status : N) : Response := MkResponse status None None EmptyString.

(** The framework's matching: by path, then by method. *)
Definition find_route (table : list (string * (Method * Handler))) (m : Method) (p : string)
  : Handler + Response :=
  match find (λ route, String.eqb route.1 p) table with
  | Some (_, (m', h)) =>
      if bool_decide (m' = m) || (bool_decide (m = HEAD) && bool_decide (m' = GET)) then inl h
      else inr (refusal 405)
  | None => inr (refusal 404)
  end.

#[local] Instance demo_router : RouterExternal := {|
  dispatch := find_route;
  openapi_yaml := "openapi: 3.1.0";
  version := "0.1.0";
  supported_to_vec _ := "{}"
|}.

#[local] Instance demo_routing : RoutingLaws.
Proof.
  split; intros m p h; cbn [dispatch demo_router]; unfold find_route.
  - destruct (find _ routes) as [[p' [m' h']]|] eqn:E; [| done].
    apply find_some in E as [Hin Hp%String.eqb_eq]. cbn in Hp. subst p'.
    destruct (bool_decide (m' = m) || _) eqn:Em; [| done]. intros [= <-]. exists m'.
    split; [by apply list_elem_of_In |]. apply orb_true_iff in Em.
    rewrite andb_true_iff, !bool_decide_eq_true in Em. tauto.
  - intros Hin. repeat (apply elem_of_cons in Hin as [Hin|Hin]; [by simplify_eq |]).
    by apply elem_of_nil in Hin.
Qed.

Definition stranger : Incoming :=
  MkIncoming POST "/settle" None (MkHttpRequest [("content-type", Some "application/json")] (Some "{}")).

Example stranger_refused :
  (serve DemoService.demo_app Catalog.empty stranger (quiet_env World) 0%nat DemoService.world).1.1
  = Done (into_response (api_error UNAUTHORIZED "invalid_api_key" "missing or invalid API key")).
Proof. vm_compute. reflexivity. Qed.


End RouterSpec.
