(* ===== verification/StartupSpec.v ===== *)
(** * What a start guarantees

    The provider that is built is the one the configuration describes; the service
    comes up with settlement closed and nothing sent, on a schema it was built for; and
    a start that fails changes nothing. *)

From stdpp Require Import base gmap strings list numbers.
From Stdlib Require Import Lia NArith ZArith Ascii String.
From S2P Require Import Prelude Text Json Readiness Schema Sql Store Clients Journal Receipt Protocol.
From S2P Require Import Near Scheme Config Secrets Telemetry Auth Demo NearSpec Retry Evm DemoEvm Chain Bootstrap.
From S2P Require Import ChainProofs Service Probe ProbeSpec Http Catalog Startup ConfigSpec HttpSpec.
From S2P Require Import JsonRpc JsonRpcSpec ClientsSpec DemoService CatalogSpec.

Open Scope string_scope.
Open Scope list_scope.
Open Scope N_scope.

Module StartupSpec.
Import Store Clients Service Bootstrap Startup.

(** [InMemorySigner] keeps the account it is made for. *)
Class BootLaws `{BootExternal} : Prop := {
  near_signer_account : ∀ key signer account,
    near_signer_from_str key = Some signer → Near.account_id (signer account) = account
}.

(** ** The provider *)

Section provider.
Context `{Near.External} `{Evm.EvmExternal} `{BootExternal} `{!BootLaws}.

(** The provider a configuration describes. *)
Inductive built_from (c : ServiceConfig) : option Scheme.Facilitator → Chain.ChainProvider → Prop :=
| built_near p :
    chain_kind c = Near → Near.network_as_str (Near.provider_network p) = network c →
    Near.rpc p = near_rpc (primary_rpc_url c) → Near.backup_rpc p = Some (near_rpc (backup_rpc_url c)) →
    Near.relayer_account_id p = relayer_account_id c →
    Scheme.scheme_policy (Scheme.registered (build_facilitator p)) = Near.MkPolicy (max_inner_gas c) →
    built_from c (Some (build_facilitator p)) (Chain.NearProvider p)
| built_evm p e :
    chain_kind c = Eip155 → eip155 c = Some e → Evm.caip2 p = network c →
    Evm.address_from_str (asset c) = Some (Evm.asset p) →
    Evm.primary_reader p = connect_http (serialization (primary_rpc_url c)) →
    Evm.backup_reader p = connect_http (serialization (backup_rpc_url c)) →
    serialization (primary_rpc_url c) ≠ serialization (backup_rpc_url c) →
    Evm.required_confirmations p = policy_confirmations e → Evm.gas_limit p = gas_limit e →
    Evm.max_fee_per_gas p = dec_value (max_fee_per_gas_wei e) →
    eq_ignore_ascii_case (relayer_account_id c) (Chain.signer_account_id (Chain.EvmProvider p)) = true →
    built_from c None (Chain.EvmProvider p).

Lemma near_network_name c u :
  validate c = Ok u → chain_kind c = Near →
  Near.network_as_str (near_network (environment c)) = network c ∧ max_inner_gas c = MAX_INNER_GAS.
Proof.
  intros Hv Hk. destruct (ConfigSpec.validate_common c u Hv) as (_ & _ & _ & _ & Hn). rewrite Hk in Hn.
  unfold validate_near in Hn. ConfigSpec.validated.
  repeat match goal with E : negb _ = false |- _ => apply negb_false_iff in E end.
  match goal with E : String.eqb (network c) _ = true |- _ => apply String.eqb_eq in E as -> end.
  match goal with E : (max_inner_gas c =? _) = true |- _ => apply N.eqb_eq in E as -> end.
  by destruct (environment c).
Qed.

Lemma connect_inv id u0 u1 signer a conf gas fee env n w p n' w' :
  connect id [u0; u1] signer a conf gas fee env n w = (Done (Ok p), n', w') →
  url_eqb u0 u1 = false ∧ Evm.chain_id p = id ∧ Evm.asset p = a ∧ Evm.evm_signer p = signer ∧
  Evm.primary_reader p = connect_http (serialization u0) ∧
  Evm.backup_reader p = connect_http (serialization u1) ∧
  Evm.required_confirmations p = conf ∧ Evm.gas_limit p = gas ∧ Evm.max_fee_per_gas p = fee.
Proof.
  unfold connect. destruct (url_eqb u0 u1) eqn:E; [done |].
  destruct (_ || _ || _); [done |]. intros (domain & Hd & Hk)%run_ret_ok.
  destruct (negb _); [done |]. apply run_consult in Hk as [_ Hk].
  destruct (upstream_from_config _ _ _) as [[reader verify]|]; [| done]. injection Hk as <- _ _. done.
Qed.

Lemma evm_policy c u :
  validate c = Ok u → chain_kind c = Eip155 →
  ∃ e, eip155 c = Some e ∧ is_decimal (max_fee_per_gas_wei e) = true ∧ ConfigSpec.liability_policy c e ∧
    chain_id e = expected_chain_id (environment c) ∧
    network c = "eip155:" +:+ to_decimal (expected_chain_id (environment c)) ∧
    url_eqb (primary_rpc_url c) (backup_rpc_url c) = false.
Proof.
  intros Hv Hk. destruct (ConfigSpec.validate_common c u Hv) as (Hd & _ & _ & _ & He). rewrite Hk in He.
  destruct (ConfigSpec.validate_eip155_policy c u He) as (e & E1 & E2 & E3 & E4 & E5 & _);
    [by eapply Hd; cbn; tauto |].
  exists e. split_and!; try done. clear -Hv. unfold validate in Hv. by ConfigSpec.validated.
Qed.

Lemma evm_build_matches c u key f p env n w n' w' :
  validate c = Ok u → chain_kind c = Eip155 →
  build_evm c key env n w = (Done (Ok (f, p)), n', w') → built_from c f p.
Proof.
  intros Hv Hk Hb. destruct (evm_policy c u Hv Hk) as (e & He & Hdec & _ & Hid & Hnet & Hurl).
  unfold build_evm in Hb. apply run_ret_ok in Hb as (e' & He' & Hb).
  apply ok_or_ok in He'. assert (e' = e) as -> by congruence. clear He'.
  apply run_ret_ok in Hb as (fee & Hfee%ok_or_ok & Hb).
  apply (ConfigSpec.parse_decimal _ _ _ Hdec) in Hfee as [-> _].
  apply bind_ok_inv in Hb as (q & n1 & w1 & Hc & Hb). apply map_err_proc_ok in Hc.
  unfold connect_from_config in Hc. apply run_ret_ok in Hc as (signer & _ & Hc).
  apply run_ret_ok in Hc as (a & Ha%ok_or_ok & Hc).
  apply connect_inv in Hc as (_ & Hci & Has & _ & Hp & Hbk & Hco & Hg & Hf).
  destruct (signer_identity_matches _ _) eqn:Hs; [| done]. injection Hb as <- <- _ _.
  apply (built_evm c q e); try done.
  - unfold Evm.caip2. by rewrite Hnet, Hci, Hid.
  - by rewrite Has.
  - apply String.eqb_neq. exact Hurl.
Qed.

Lemma build_matches c u key f p env n w n' w' :
  validate c = Ok u → build_chain_provider c key env n w = (Done (Ok (f, p)), n', w') → built_from c f p.
Proof.
  intros Hv. unfold build_chain_provider. destruct (chain_kind c) eqn:Hk; [| by eapply evm_build_matches].
  intros Hb. injection Hb as Hb _ _. unfold build_near in Hb. result_inv.
  destruct (near_network_name c u Hv Hk) as [Hn Hg].
  repeat match goal with E : ok_or _ _ = Ok _ |- _ => apply ok_or_ok in E end.
  match goal with E : Near.parse_account_id _ = Some _ |- _ => apply NearSpec.parse_account_id_ok in E as [_ ->] end.
  match goal with E : near_signer_from_str _ = Some _ |- _ => pose proof (near_signer_account _ _ (relayer_account_id c) E) end.
  simplify_eq. apply built_near; try done. cbn. by rewrite Hg.
Qed.

(** The failures left to a validated configuration are those of its credentials and of
    the outside. *)
Lemma validated_boot_error c u key e env n w n' w' :
  validate c = Ok u → build_chain_provider c key env n w = (Done (Err e), n', w') →
  match e with
  | ParseRelayerKey | EvmConnect ConnectFailed | SignerMismatch _ _ => True
  | EvmConnect (ConnectConfig m) =>
      m ∈ ["signer key is not a valid secp256k1 hex key"; "asset is not a valid 0x address";
           "upstream EVM configuration was rejected"]
  | ParseRelayerAccount | MissingEip155Block | ParseMaxFee => False
  end.
Proof.
  intros Hv. unfold build_chain_provider. destruct (chain_kind c) eqn:Hk.
  - intros [= Hb _ _]. destruct (ConfigSpec.validate_common c u Hv) as (_ & _ & _ & _ & Hn). rewrite Hk in Hn.
    unfold validate_near in Hn. ConfigSpec.validated. unfold build_near in Hb.
    match goal with E : Near.parse_account_id (relayer_account_id c) = Some _ |- _ => rewrite E in Hb end.
    cbn in Hb.
    destruct (near_signer_from_str key); [done |]. by injection Hb as <-.
  - destruct (evm_policy c u Hv Hk) as (b & He & Hdec & (Hconf & Hfee & Hgas & Hlia & Hmax) & Hid & _ & Hurl).
    unfold build_evm, connect_from_config, connect, map_err_proc, bind_ok, bind, ret. rewrite He. cbn.
    rewrite parse_uint_decimal by done. unfold try_from.
    destruct (N.leb_spec (dec_value (max_fee_per_gas_wei b)) u128_max); [cbn | nia].
    destruct (private_key_from_str key); cbn; [| intros [= <- _ _]; set_solver].
    destruct (Evm.address_from_str (asset c)); cbn; [| intros [= <- _ _]; set_solver].
    rewrite Hurl. destruct (N.eqb_spec (policy_confirmations b) 0), (N.eqb_spec (gas_limit b) 0),
      (N.eqb_spec (dec_value (max_fee_per_gas_wei b)) 0); try lia. cbn. rewrite Hid.
    assert (∃ d, canonical_domain_name (expected_chain_id (environment c)) = Some d) as [d ->]
      by (destruct (environment c); by eexists). cbn.
    destruct (negb _); [intros [= <- _ _]; set_solver |]. unfold consult.
    destruct (reply env n); try done; destruct (upstream_from_config _ _ _) as [[r v]|]; cbn;
      try (by intros [= <- _ _]); destruct (signer_identity_matches _ _); by intros [= <- _ _].
Qed.

Lemma build_respects (R : relation World) `{!PreOrder R} c key : respects R (build_chain_provider c key).
Proof. unfold build_chain_provider, build_evm, connect_from_config, connect. solve_respects. Qed.

End provider.

(** ** The start *)

(** What other processes leave alone while this one starts: its own gates and tasks, the
    log of what it sent, the schema, and the relayers that are registered. *)
Record steady (w w' : World) : Prop := MkSteady {
  steady_leadership : Readiness.leadership (gates w') = Readiness.leadership (gates w);
  steady_reconciliation : Readiness.reconciliation (gates w') = Readiness.reconciliation (gates w);
  steady_wire : wire w' = wire w;
  steady_schema : schema_info (db w') = schema_info (db w);
  steady_relayers : ∀ k, is_Some (relayers (db w) !! k) → is_Some (relayers (db w') !! k);
  steady_spawned : spawned (process w') = spawned (process w);
  steady_slots : free_slots (process w') = free_slots (process w)
}.

#[local] Instance steady_preorder : PreOrder steady.
Proof.
  split; [by intros w |]. intros a b c [] []. split; try congruence. intros k Hk. eauto.
Qed.

Lemma query_select_inv {A} (f : Database_ → A) env n w a n' w' :
  query (select f) env n w = (Done (Ok a), n', w') → w' = interfere env n w ∧ a = f (db w').
Proof.
  unfold query, request, select. destruct (reply env n); try done. intros [= <- _ <-].
  by destruct (interfere env n w).
Qed.

Section start.
Context `{Near.External} `{Evm.EvmExternal} `{BootExternal} `{!BootLaws} `{Http.HttpExternal}
  `{Catalog.CatalogExternal} `{Telemetry.TelemetryExternal} `{StartExternal}.
Context (h : Secrets.Host).

Lemma migrations_applied_inv l env n w n' w' :
  rely steady env → migrations_applied l env n w = (Done (Ok true), n', w') →
  steady w w' ∧
  forallb (λ vc : N * string,
    bool_decide (applied_migrations (schema_info (db w)) !! vc.1 = Some vc.2)) l = true.
Proof.
  intros Hr. revert n w. induction l as [|[v c] l IH]; intros n w; cbn.
  { by intros [= _ <-]. }
  intros (applied & n1 & w1 & [-> ->]%query_select_inv & Hk)%bind_ok_inv.
  pose proof (Hr n w) as Hs. rewrite (steady_schema _ _ Hs) in Hk.
  destruct (bool_decide _); [| done]. apply IH in Hk as [Hs' Hl]. rewrite (steady_schema _ _ Hs) in Hl.
  split; [by transitivity (interfere env n w) | done].
Qed.

Lemma schema_compatible_inv env n w n' w' :
  rely steady env → schema_compatible Http.migration_checksum env n w = (Done (Ok true), n', w') →
  steady w w' ∧ HttpSpec.schema_current (db w) = true.
Proof.
  intros Hr (applied & n1 & w1 & Ha & Hk)%bind_ok_inv. destruct applied; [| done]. cbn [negb] in Hk.
  apply migrations_applied_inv in Ha as [Hs Hl]; [| done]. unfold HttpSpec.schema_current. rewrite Hl.
  apply bind_ok_inv in Hk as (marker & n2 & w2 & [-> ->]%query_select_inv & Hk).
  pose proof (Hr n1 w1) as Hs'. injection Hk as Hb <- <-.
  split; [by transitivity w1 |]. by rewrite <- (steady_schema _ _ Hs), <- (steady_schema _ _ Hs').
Qed.

Lemma refresh_steady s : respects steady (Probe.refresh_chain_readiness s).
Proof. by apply ProbeSpec.refresh_respects; [apply _ | ..]. Qed.

Lemma configure_valid path c secrets : configure h path = Ok (c, secrets) → validate c = Ok tt.
Proof.
  unfold configure. intros Hc. result_inv. unfold apply_rpc_url_overrides, map_err in *. repeat case_match; try done.
  result_inv. simplify_eq. by match goal with u : () |- _ => destruct u end.
Qed.

Lemma upsert_registers net account key env n w n' w' :
  rely steady env → upsert_relayer net account key env n w = (Done (Ok tt), n', w') →
  steady w w' ∧ is_Some (relayers (db w') !! (net, account, key)).
Proof.
  intros Hr. pose proof (Hr n w) as Hs. unfold upsert_relayer, query, request, insert_relayer.
  destruct (reply env n); [| done | by case_match | done]. set (w1 := interfere env n w) in *.
  destruct (relayers (db w1) !! _) eqn:E; intros [= _ <-].
  - rewrite with_db_id. by rewrite E.
  - cbn. rewrite lookup_insert, decide_True by done. split; [| by eexists].
    transitivity w1; [done |]. split; cbn; try done. intros k [x Hk].
    destruct (decide (k = (net, account, key))) as [->|]; [by rewrite Hk in E |].
    rewrite lookup_insert_ne by done. by eexists.
Qed.


(** *** Failing *)

Lemma bind_ok_err {W A B E} (c : Proc W (Result A E)) (k : A → Proc W (Result B E)) env n w e n' w' :
  bind_ok c k env n w = (Done (Err e), n', w') →
  c env n w = (Done (Err e), n', w') ∨
  ∃ a n1 w1, c env n w = (Done (Ok a), n1, w1) ∧ k a env n1 w1 = (Done (Err e), n', w').
Proof.
  intros ([a|e'] & n1 & w1 & Hc & Hk)%bind_inv; [right; by exists a, n1, w1 |].
  left. by injection Hk as -> <- <-.
Qed.

(** Steps of the start that only read. *)
Lemma reads_then {A B} (c : Proc World (Result A StartError)) (k : A → Proc World (Result B StartError))
    env w :
  calm env → ProbeSpec.calmly c →
  (∀ a n e n' w', k a env n w = (Done (Err e), n', w') → w' = w) →
  ∀ n e n' w', bind_ok c k env n w = (Done (Err e), n', w') → w' = w.
Proof.
  intros Hc Hr Hk n e n' w' Hrun. destruct (Hr env n w Hc) as (a & n1 & E).
  apply bind_ok_err in Hrun as [Ha|(b & n2 & w2 & Ha & Hb)]; rewrite E in Ha; [by injection Ha as _ _ <- |].
  injection Ha as _ _ <-. by eapply Hk.
Qed.


End start.

(** ** Starting among others *)

Section respects.
Context `{Near.External} `{Evm.EvmExternal} `{BootExternal} `{Http.HttpExternal}
  `{Catalog.CatalogExternal} `{Telemetry.TelemetryExternal} `{StartExternal}.
Context (h : Secrets.Host) (R : relation World) `{!PreOrder R}.

(** What a start does to the world: it reads the database, registers its relayer,
    replaces its process and its gates, and probes the chain. *)
Class Restartable : Prop := {
  restart_select : ∀ A (f : Database_ → A), respects R (query (select f));
  restart_register : ∀ network account key, respects R (upsert_relayer network account key);
  restart_process : ∀ slots w, R w (with_process (fresh_process slots) (with_gates Readiness.default w));
  restart_refresh : ∀ s, respects R (Probe.refresh_chain_readiness s)
}.
Context `{!Restartable}.
#[local] Hint Resolve build_respects restart_select restart_register restart_refresh : respects.

Lemma new_app_respects c a f p : respects R (new_app c a f p).
Proof.
  unfold new_app. apply respects_bind; [done | | intros; by apply respects_ret].
  apply respects_modify. intros w. apply restart_process.
Qed.
#[local] Hint Resolve new_app_respects : respects.

Lemma start_respects path : respects R (start h path).
Proof.
  assert (∀ l, respects R (Clients.migrations_applied l)) by (induction l as [|[]]; cbn; solve_respects).
  unfold start, connect_database, Clients.schema_compatible, Clients.authorization_scrub_marker.
  solve_respects.
Qed.

Lemma reconcile_command_respects path :
  (∀ s, respects R (reconcile s)) → respects R shutdown_leadership →
  respects R (reconcile_command h path).
Proof.
  intros Hr Hs. assert (∀ k, respects R (await_leadership k)).
  { induction k; cbn; unfold pause; solve_respects. }
  assert (∀ k d, respects R (timeout d (await_leadership k))) by (intros; by apply respects_timeout).
  unfold reconcile_command, connect_database. solve_respects.
Qed.

End respects.

(** ** A start *)

#[local] Existing Instances DemoService.http Demo.external DemoEvm.external CatalogSpec.demo_catalog.

Definition demo_evm_signer : Evm.EvmSigner :=
  Evm.MkEvmSigner "0x51f2dbe5c2e1f3f0d9a5b6c7e8f9a0b1c2d3e4f5" (λ _, Ok "signed").

#[local] Instance demo_boot : BootExternal := {|
  near_signer_from_str _ := Some (λ a, Near.MkSigner a (Near.relayer_key Demo.signer) (Near.sign Demo.signer));
  json_rpc_client _ := JsonRpcSpec.silent;
  private_key_from_str _ := Some demo_evm_signer;
  signer_key_hex _ := ClientsSpec.bytes 64 "a";
  eip155_inner_valid _ := true;
  upstream_from_config _ _ _ := Some (DemoEvm.reader 110, λ _ _, Ok (Evm.Valid "payer"));
  connect_http _ := DemoEvm.reader 110;
  registry_routes _ _ := true;
  registry_aggregate r := Ok r
|}.

#[local] Instance demo_laws : BootLaws.
Proof. by split; intros key signer account [= <-]. Qed.

#[local] Instance demo_telemetry : Telemetry.TelemetryExternal := {|
  Telemetry.url_with_path u path := Config.serialization u +:+ path;
  Telemetry.exporter_builds _ _ := true;
  Telemetry.subscriber_free := true
|}.

#[local] Instance demo_start : StartExternal := {|
  config_from_slice s :=
    if String.eqb s "config" then Some ConfigSpec.valid_base_sepolia_config else None;
  database_connects _ _ _ := true;
  embedded_manifest := "manifest"
|}.

Definition demo_host : Secrets.Host :=
  Secrets.MkHost
    (λ name, if existsb (String.eqb name) ["DATABASE_URL_FILE"; "RELAYER_KEY_FILE"; "API_KEY_PEPPER_FILE"]
             then Some name else None)
    (λ _, Some (Secrets.MkMetadata true 384))
    (λ path, Some (if String.eqb path "config.json" then "config"
                   else "0123456789abcdef0123456789abcdef" +:+ Secrets.newline))
    (λ _, None).

Definition started := start demo_host "config.json" (quiet_env World) 0%nat DemoService.world.

Example demo_starts : is_ok (match started.1.1 with Done r => r | Crashed => Err NotLeader end) = true.
Proof. vm_compute. reflexivity. Qed.


(** A start from a file that holds no configuration. *)
Definition refused := start demo_host "other.json" (quiet_env World) 0%nat DemoService.world.

Example demo_refused : refused.1.1 = Done (Err (LoadConfig Config.Json)).
Proof. vm_compute. reflexivity. Qed.


End StartupSpec.
