(* ===== verification/KeysSpec.v ===== *)
(** * What a generated key is good for

    A key file the administration tool writes is one the service loads, for the very
    identity the tool printed; and writing it never touches a file that was there. *)

From stdpp Require Import base gmap strings list numbers.
From Stdlib Require Import Lia NArith ZArith Ascii String.
From S2P Require Import Prelude Text Encoding Json Readiness Schema Sql Near Scheme Config Secrets Auth.
From S2P Require Import Demo Retry Evm DemoEvm Chain Bootstrap Keys ConfigSpec DemoService StartupSpec.

Open Scope string_scope.
Open Scope list_scope.
Open Scope N_scope.

Module KeysSpec.
Import Secrets Bootstrap Keys.

(** Printable text without spaces. *)
Definition plain (s : string) : bool := all_bytes (Encoding.between 33 126) s.

Lemma plain_no_whitespace s : plain s = true → Encoding.has_whitespace s = false.
Proof.
  induction s as [|a s IH]; [done |]. unfold plain. cbn [all_bytes].
  intros [Ha Hs]%andb_true_iff. cbn [Encoding.has_whitespace]. rewrite (IH Hs), orb_false_r.
  apply andb_true_iff in Ha as [H1%N.leb_le H2%N.leb_le].
  assert (Encoding.between 9 13 a = false) as -> by (apply andb_false_iff; right; apply N.leb_gt; lia).
  destruct (N.eqb_spec (byte_val a) 32); [lia |]. cbn.
  destruct s as [|b s]; [done |]. destruct (N.eqb_spec (byte_val a) 194); [lia |]. cbn.
  destruct s as [|c s]; [done |]. destruct (N.eqb_spec (byte_val a) 226); [lia |].
  rewrite !bool_decide_eq_false_2; [done | intros [=]; lia..].
Qed.

Lemma plain_utf8 s : plain s = true → Encoding.utf8_valid (s +:+ newline) = true.
Proof.
  induction s as [|a s IH]; [done |]. unfold plain. cbn [all_bytes].
  intros [Ha Hs]%andb_true_iff. rewrite append_cons. cbn [Encoding.utf8_valid].
  apply andb_true_iff in Ha as [H1%N.leb_le H2%N.leb_le].
  assert (Encoding.between 0 127 a = true) as -> by (apply andb_true_iff; split; apply N.leb_le; lia).
  by apply IH.
Qed.

(** What [near_crypto], [alloy] and [hex] document of the keys they make: they print as
    plain text and read back what they print. *)
Class KeyLaws `{BootExternal} `{KeyExternal} : Prop := {
  near_key_plain : ∀ tick, plain (secret_text (random_near_key tick)) = true ∧
    (0 < String.length (secret_text (random_near_key tick)) < 1000)%nat;
  near_key_parses : ∀ tick, ∃ signer,
    near_signer_from_str (secret_text (random_near_key tick)) = Some signer ∧
    ∀ account, Near.relayer_key (signer account) = public_key (random_near_key tick);
  evm_key_hex : ∀ tick, String.length (signer_key_hex (random_evm_signer tick)) = 64%nat ∧
    all_bytes is_lower_hex (signer_key_hex (random_evm_signer tick)) = true;
  evm_key_parses : ∀ tick, private_key_from_str ("0x" +:+ signer_key_hex (random_evm_signer tick))
    = Some (random_evm_signer tick)
}.

(** The files that were there still are, as they were. *)
Definition keeps_files (h h' : Host) : Prop :=
  ∀ path metadata, symlink_metadata h path = Some metadata →
    symlink_metadata h' path = Some metadata ∧ read_file h' path = read_file h path.

Lemma write_keeps umask io path line h r h' :
  write_new_file umask io path line h = (r, h') → keeps_files h h'.
Proof.
  unfold write_new_file. destruct (symlink_metadata h path) as [m|] eqn:E; [by intros [= _ <-] |].
  destruct io; intros [= _ <-] q metadata Hq; [done | ..]; cbn;
    destruct (String.eqb_spec q path) as [->|]; (done || congruence).
Qed.

Lemma create_mode_private umask : N.land (create_mode umask) 63 = 0.
Proof.
  apply N.bits_inj. intros i. unfold create_mode. rewrite N.land_spec, N.ldiff_spec, N.bits_0.
  assert (N.testbit 384 i && N.testbit 63 i = false) as Hb by (rewrite <- N.land_spec; apply N.bits_0).
  destruct (N.testbit 63 i), (N.testbit 384 i), (N.testbit umask i); done.
Qed.

Lemma written_secret umask io path line h h' :
  plain line = true → (0 < String.length line < 1000)%nat →
  write_new_file umask io path line h = (Ok tt, h') → read_secret h' path = Ok line.
Proof.
  unfold write_new_file. intros Hp Hl. destruct (symlink_metadata h path); [done |].
  destruct io; try done. set (bits := create_mode umask). intros Hw.
  assert (h' = with_file path bits (line +:+ newline) h) as -> by congruence.
  apply secret_accepted_iff. split_and!.
  - exists (MkMetadata true bits). cbn. rewrite String.eqb_refl. split_and!; [done | done |].
    left. apply create_mode_private.
  - destruct line; [cbn in Hl; lia | done].
  - by apply plain_no_whitespace.
  - exists (line +:+ newline). cbn [read_file with_file]. rewrite String.eqb_refl, append_length.
    split_and!; [done | cbn; lia | by apply plain_utf8 | by left].
Qed.

Section loaded.
Context `{Near.External} `{Evm.EvmExternal} `{BootExternal} `{!StartupSpec.BootLaws} `{KeyExternal} `{!KeyLaws}.

Lemma evm_key_plain tick :
  let signer := random_evm_signer tick in
  plain ("0x" +:+ signer_key_hex signer) = true ∧
  String.length ("0x" +:+ signer_key_hex signer) = 66%nat.
Proof.
  destruct (evm_key_hex tick) as [Hl Hh]. split; [| by rewrite append_length, Hl].
  unfold plain. rewrite append_cons. cbn [all_bytes]. apply andb_true_iff. split; [done |].
  rewrite append_cons. cbn [all_bytes]. apply andb_true_iff. split; [done |].
  eapply all_bytes_weaken; [| exact Hh]. intros c Hc. unfold is_lower_hex, is_ascii_digit, in_range in Hc.
  unfold Encoding.between, byte_val in *. apply orb_true_iff in Hc.
  rewrite !andb_true_iff, !N.leb_le in *. cbn in Hc. lia.
Qed.

(** The provider a service builds from its own key signs as the key's identity. *)
Lemma evm_key_identity c u tick env n w r n' w' :
  let signer := random_evm_signer tick in
  Config.validate c = Ok u → Config.chain_kind c = Eip155 →
  Config.relayer_account_id c = Evm.address_to_string (Evm.evm_address signer) →
  build_chain_provider c ("0x" +:+ signer_key_hex signer) env n w = (Done r, n', w') →
  match r with
  | Ok (_, p) => Chain.signer_account_id p = Config.relayer_account_id c
  | Err e => e = EvmConnect ConnectFailed ∨
      ∃ m, e = EvmConnect (ConnectConfig m) ∧ m ≠ "signer key is not a valid secp256k1 hex key"
  end.
Proof.
  intros signer Hv Hk Ha. unfold build_chain_provider. rewrite Hk.
  destruct (StartupSpec.evm_policy c u Hv Hk) as (b & He & Hdec & (Hconf & Hfee & Hgas & Hlia & Hmax) & Hid & _ & Hurl).
  unfold build_evm, connect_from_config, connect, map_err_proc, bind_ok, bind, ret. rewrite He. cbn [ok_or].
  rewrite parse_uint_decimal by done. unfold try_from.
  destruct (N.leb_spec (dec_value (Config.max_fee_per_gas_wei b)) u128_max); [cbn [ok_or] | nia].
  unfold signer. rewrite evm_key_parses. cbn [ok_or]. cbv beta. fold signer.
  destruct (Evm.address_from_str (Config.asset c)); cbn [ok_or map_err]; [| intros [= <- _ _]; right; by eexists].
  rewrite Hurl. destruct (_ || _ || _); [intros [= <- _ _]; right; by eexists |].
  destruct (canonical_domain_name _); cbn [ok_or map_err]; [| intros [= <- _ _]; right; by eexists].
  destruct (negb _); [intros [= <- _ _]; right; by eexists |]. unfold consult.
  destruct (reply env n); try done; destruct (upstream_from_config _ _ _) as [[reader verify]|]; cbn [map_err];
    try (intros [= <- _ _]; by left); unfold signer_identity_matches; cbn; rewrite Ha;
    unfold eq_ignore_ascii_case; rewrite String.eqb_refl; by intros [= <- _ _].
Qed.

Lemma near_key_identity c u tick env n w :
  Config.validate c = Ok u → Config.chain_kind c = Near →
  ∃ f p, build_chain_provider c (secret_text (random_near_key tick)) env n w = (Done (Ok (f, p)), n, w) ∧
    Chain.provider_public_key p = Near.key_text (public_key (random_near_key tick)).
Proof.
  intros Hv Hk. unfold build_chain_provider. rewrite Hk.
  destruct (ConfigSpec.validate_common c u Hv) as (_ & _ & _ & _ & Hn). rewrite Hk in Hn.
  unfold Config.validate_near in Hn. ConfigSpec.validated. unfold build_near.
  match goal with E : Near.parse_account_id (Config.relayer_account_id c) = Some _ |- _ => rewrite E end.
  destruct (near_key_parses tick) as (signer & Hs & Hp). rewrite Hs. cbn [ok_or result_bind].
  do 2 eexists. split; [reflexivity |]. cbn. unfold Near.relayer_public_key. cbn. by rewrite Hp.
Qed.

Definition output (command : KeyCommand) : string :=
  match command with GenerateRelayer path | GenerateEvmRelayer path => path end.

(** What a service with a valid configuration makes of a key, against what was printed
    when it was generated. *)
Definition serves_as (command : KeyCommand) (key printed : string) : Prop :=
  ∀ c u env n w, Config.validate c = Ok u →
  match command with
  | GenerateRelayer _ => Config.chain_kind c = Near →
      ∃ f p, build_chain_provider c key env n w = (Done (Ok (f, p)), n, w) ∧
        Chain.provider_public_key p = printed
  | GenerateEvmRelayer _ => Config.chain_kind c = Eip155 → Config.relayer_account_id c = printed →
      ∀ r n' w', build_chain_provider c key env n w = (Done r, n', w') →
      match r with
      | Ok (_, p) => Chain.signer_account_id p = printed
      | Err e => e = EvmConnect ConnectFailed ∨
          ∃ m, e = EvmConnect (ConnectConfig m) ∧ m ≠ "signer key is not a valid secp256k1 hex key"
      end
  end.

(** Whatever the system does with the write, files that existed are left as they were,
    and an existing path is refused. *)
Lemma key_keeps_files umask io tick command h r h' :
  key umask io tick command h = (r, h') → keeps_files h h' ∧
  (is_Some (symlink_metadata h (output command)) → r = Err CreateFailed ∧ h' = h).
Proof.
  destruct command as [path|path]; cbn [key output]; unfold generate_relayer, generate_signer_key_file;
    (destruct (write_new_file _ _ _ _ _) as [w h1] eqn:E; intros [= <- <-];
     split; [by eapply write_keeps |]; intros [m Hm]; unfold write_new_file in E; rewrite Hm in E;
     by injection E as <- <-).
Qed.


End loaded.

(** ** A key for the demo deployment *)

#[local] Existing Instances DemoService.http Demo.external DemoEvm.external StartupSpec.demo_boot
  StartupSpec.demo_laws.

#[local] Instance demo_keys : KeyExternal := {|
  random_near_key _ := MkSecretKey "ed25519:secret" (Near.relayer_key Demo.signer);
  random_evm_signer _ := StartupSpec.demo_evm_signer
|}.

#[local] Instance demo_key_laws : KeyLaws.
Proof.
  split; intros tick; [split; [reflexivity | cbn; lia] | eexists; split; reflexivity | split; reflexivity | reflexivity].
Qed.

(** A host with no files, under the usual mask. *)
Definition fresh_host : Host := MkHost (λ _, None) (λ _, None) (λ _, None) (λ _, None).


End KeysSpec.
