(* ===== verification/AdminSpec.v ===== *)
(** * What the administration tool promises

    A key it prints opens the service for its client, and after a rotation it is the
    only one that does; a payee it allows is honoured, on the client's own tier; and a
    migration leaves the schema the service starts on. *)

From stdpp Require Import base gmap strings list numbers.
From Stdlib Require Import Lia NArith ZArith Ascii String.
From S2P Require Import Prelude Text Json Readiness Schema Sql Store Journal StoreProofs Clients Near Scheme.
From S2P Require Import Config Secrets Auth ClientsSpec Demo Retry Evm DemoEvm Chain Service Http Startup Admin.
From S2P Require Import ConfigSpec DemoService HttpSpec StartupSpec.

Open Scope string_scope.
Open Scope list_scope.
Open Scope N_scope.

Module AdminSpec.
Import Store Clients ClientsSpec.

Section admin.
Context `{Near.External} `{Auth.AuthExternal} `{!Auth.AuthLaws} `{Http.HttpExternal}
  `{Startup.StartExternal}.
Context (h : Secrets.Host).

(** ** Steps of a command *)

Lemma connect_calm file env n w u n' w' :
  calm env → Admin.connect h file env n w = (Done (Ok u), n', w') → w' = w.
Proof.
  intros [Hi Hr] (url & _ & Hc)%run_ret_ok. apply run_consult in Hc as [_ Hc].
  injection Hc as _ _ <-. apply Hi.
Qed.

Lemma generate_calm environment pepper env n w key n' w' :
  calm env → Auth.generate environment pepper env n w = (Done (Ok key), n', w') →
  w' = w ∧ ∃ public_id secret, String.length public_id = 12%nat ∧ String.length secret = 32%nat ∧
    Auth.key_of environment pepper public_id secret = Ok key.
Proof.
  intros [Hi Hr] (public_id & n1 & w1 & P1 & Hk)%bind_ok_inv.
  apply bind_ok_inv in Hk as (secret & n2 & w2 & P2 & Hk). unfold consult in P1, P2.
  rewrite Hr in P1, P2. rewrite Hi in P1, P2. injection P1 as P1%ok_or_ok _ <-. injection P2 as P2%ok_or_ok _ <-.
  injection Hk as Hk _ <-. split; [done |]. exists public_id, secret.
  split_and!; [by eapply Auth.fill_length | by eapply Auth.fill_length | done].
Qed.

Lemma load_environment_calm client env n w environment n' w' :
  calm env → Admin.load_environment client env n w = (Done (Ok environment), n', w') →
  w' = w ∧ ∃ c, api_clients (db w) !! client = Some c ∧ client_active c = true ∧
    client_environment c = Auth.environment_name environment.
Proof.
  intros Hc (text & n1 & w1 & He%map_err_proc_ok & Hp)%bind_ok_inv. injection Hp as Hp _ <-.
  apply bind_ok_inv in He as (o & n2 & w2 & Hq & Hret). rewrite calm_select in Hq by done.
  injection Hq as Hq _ <-. injection Hret as Ho%ok_or_ok _ <-. split; [done |].
  destruct (api_clients (db w) !! client) as [c|]; cbn in Hq; [| by subst].
  destruct (client_active c) eqn:Ha; [| by subst]. exists c. split_and!; [done | done |].
  subst o. injection Ho as ->. unfold Admin.parse_environment in Hp.
  destruct (String.eqb_spec text "mainnet") as [->|]; [by injection Hp as <- |].
  destruct (String.eqb_spec text "testnet") as [->|]; [by injection Hp as <- | done].
Qed.

(** ** Keys *)

(** The key a [create] prints authenticates its holder as the client it created, with
    its name, its rates and its budget. *)
Theorem issued_key_authenticates database_file pepper_file pepper environment name v st daily
    env n w id raw n1 w1 env' m headers :
  calm env → clients_inv (db w) → Secrets.read_secret h pepper_file = Ok pepper →
  Admin.create h database_file pepper_file environment name v st daily env n w
    = (Done (Ok (id, raw)), n1, w1) →
  calm env' → Auth.extract_presented_key headers = Ok raw →
  ∃ c prefix, Auth.authenticate (Auth.MkAuthenticator environment pepper) headers env' m w1
      = (Done (Ok (Auth.MkAuthenticated c prefix)), S m, w1) ∧
    Api.id c = id ∧ Api.name c = name ∧ Api.verify_rate_per_minute c = v ∧
    Api.settle_rate_per_minute c = st ∧
    Api.daily_budget_yocto_near c =
      to_decimal (dec_value (default (Config.default_client_budget environment) daily)).
Proof.
  intros Hc Hinv Hpep Hrun Hc' Hraw. unfold Admin.create in Hrun.
  apply bind_ok_inv in Hrun as (u & n2 & w2 & Hcon & Hrun). apply connect_calm in Hcon as ->; [| done].
  apply run_ret_ok in Hrun as (pepper' & Hpep' & Hrun). rewrite Hpep in Hpep'. injection Hpep' as <-.
  apply bind_ok_inv in Hrun as (key & n3 & w3 & Hg%map_err_proc_ok & Hrun).
  apply generate_calm in Hg as [-> (public_id & secret & Hp & Hs & Hkey)]; [| done].
  apply bind_inv in Hrun as (i & n4 & w4 & Hi & Hrun). injection Hi as <- <- <-.
  apply run_ret_ok in Hrun as (u' & _ & Hrun).
  apply bind_inv in Hrun as (k & n5 & w5 & Hk & Hrun). injection Hk as <- <- <-.
  apply bind_ok_inv in Hrun as ([] & n6 & w6 & Hcreate%map_err_proc_ok & Hret). injection Hret as <- <- _ <-.
  pose proof (create_client_respects _ _ _ _ _ _ _ _ _ _ (calm_rely clients_step env Hc) Hcreate Hinv) as [Hinv1 _].
  destruct (create_client_calm _ _ _ _ _ _ _ _ _ _ Hc Hcreate) as (budget & Hb & Hrow & Hcl). cbn in *.
  eexists _, _. split; [eapply stored_key_authenticates; try done; by destruct environment |].
  unfold client_of. cbn. rewrite !N2Z.id. split_and!; try done. unfold numeric_in in Hb.
  destruct (is_decimal _); [| done]. by injection Hb as <-.
Qed.

Lemma rotate_calm client key_id prefix digest env n w u n' w' :
  calm env → rotate_client_key client key_id prefix digest env n w = (Done (Ok u), n', w') →
  api_keys (db w') = <[key_id := MkKey client prefix digest true None]> (revoked_key client <$> api_keys (db w)) ∧
  api_clients (db w') = api_clients (db w).
Proof.
  intros Hc (active & n1 & w1 & Hq & Hk)%bind_ok_inv. rewrite calm_select in Hq by done.
  injection Hq as _ <- <-. destruct active; [cbn [negb] in Hk | done].
  destruct (rotate_tx client key_id prefix digest env (S (S n)) (db w)) as [[[[[r|r] d]|e]|] n2] eqn:E;
    [rewrite (calm_commit _ _ _ _ _ _ _ Hc E) in Hk
    | rewrite (calm_rollback _ _ _ _ _ _ _ Hc E) in Hk
    | unfold run_tx in Hk; destruct Hc as [Hi Hr]; rewrite Hi, Hr, E in Hk; done
    | unfold run_tx in Hk; destruct Hc as [Hi Hr]; rewrite Hi, Hr, E in Hk; done].
  2: { unfold rotate_tx in E. tx_inv. }
  injection Hk as -> _ <-. unfold rotate_tx in E. tx_inv.
  unfold revoke_keys, insert_api_key in *. simplify_eq. repeat case_match; try done. by simplify_eq.
Qed.


(** ** Payees *)

(** The same payee: addresses of an EVM chain are compared without case. *)
Definition same_payee (network asset pay_to asset' pay_to' : string) : bool :=
  if is_eip155_network network
  then eq_ignore_ascii_case asset asset' && eq_ignore_ascii_case pay_to pay_to'
  else String.eqb asset asset' && String.eqb pay_to pay_to'.

Lemma eq_ignore_lower a b : eq_ignore_ascii_case (to_ascii_lowercase a) b = eq_ignore_ascii_case a b.
Proof. unfold eq_ignore_ascii_case. by rewrite to_ascii_lowercase_idemp. Qed.

Lemma payee_after client network asset pay_to d u d' :
  (let '(a, p) := if is_eip155_network network then (to_ascii_lowercase asset, to_ascii_lowercase pay_to)
                  else (asset, pay_to) in insert_payee client network a p d) = Ok (u, d') →
  ∀ c n a p, existsb (payee_matches c n a p) (elements (api_client_payees d')) = true ↔
    existsb (payee_matches c n a p) (elements (api_client_payees d)) = true ∨
    (c = client ∧ n = network ∧ same_payee network asset pay_to a p = true).
Proof.
  intros Hi c n a p. setoid_rewrite existsb_exists. setoid_rewrite <- list_elem_of_In.
  setoid_rewrite elem_of_elements.
  assert (∃ la lp, api_client_payees d' = {[ (client, network, la, lp) ]} ∪ api_client_payees d ∧
    ∀ c n a p, payee_matches c n a p (client, network, la, lp) = true ↔
      c = client ∧ n = network ∧ same_payee network asset pay_to a p = true) as (la & lp & -> & Hm).
  { unfold same_payee, payee_matches, insert_payee in *.
    destruct (is_eip155_network network) eqn:En; case_bool_decide; try done; simplify_eq;
      eexists _, _; (split; [reflexivity |]); intros c' n' a' p';
      rewrite !andb_true_iff, N.eqb_eq, String.eqb_eq.
    all: split; [intros [[<- <-] Hx] | intros (-> & -> & Hx)]; rewrite En, ?eq_ignore_lower in *;
      rewrite ?andb_true_iff in *; done. }
  split.
  - intros (x & [->%elem_of_singleton|Hx]%elem_of_union & Hp); [right; by apply Hm | left; by exists x].
  - intros [(x & Hx & Hp)|Hp%Hm]; [exists x; set_solver | eexists; split; [| exact Hp]; set_solver].
Qed.

(** An allowed payee is honoured, and nothing else is.  When [allow-payee] succeeds,
    the client is active and the payee's network is on the client's own tier; and from
    then on the handlers' payee check answers [true] for exactly what it answered before
    and for that client's payee on that network, on an EVM chain in any spelling of the
    addresses' case. *)
Theorem allowed_payee_is_honoured database_file client network asset pay_to env n w client' n1 w1 :
  calm env →
  Admin.allow_payee h database_file client network asset pay_to env n w = (Done (Ok client'), n1, w1) →
  (∃ c environment, api_clients (db w) !! client = Some c ∧ client_active c = true ∧
     client_environment c = Auth.environment_name environment ∧
     Config.network_environment network = Some environment) ∧
  ∀ c net a p env' m, calm env' →
    payee_allowed c net a p env' m w1 = (Done (Ok true), S m, w1) ↔
    payee_allowed c net a p env' m w = (Done (Ok true), S m, w) ∨
    (c = client ∧ net = network ∧ same_payee network asset pay_to a p = true).
Proof.
  intros Hc Hrun. unfold Admin.allow_payee in Hrun.
  apply bind_ok_inv in Hrun as (u & n2 & w2 & Hcon & Hrun). apply connect_calm in Hcon as ->; [| done].
  apply bind_ok_inv in Hrun as (environment & n3 & w3 & He & Hrun).
  apply load_environment_calm in He as [-> (c & Hcl & Hac & Henv)]; [| done].
  apply run_ret_ok in Hrun as (u1 & Htier & Hrun). case_bool_decide as Ht; [| done].
  apply run_ret_ok in Hrun as (u2 & _ & Hrun).
  apply bind_ok_inv in Hrun as (u3 & n4 & w4 & Ha%map_err_proc_ok & Hret). injection Hret as _ _ <-.
  split; [by exists c, environment |]. intros c' net a p env' m Hc'. unfold payee_allowed.
  rewrite !calm_select by done.
  assert (∀ (b : bool) (v : World), (Done (@Ok bool StoreError b), S m, v) = (Done (Ok true), S m, v) ↔ b = true) as Heq
    by (intros [] v; split; congruence).
  rewrite !Heq. unfold Clients.allow_payee in Ha.
  assert (∃ d, w4 = with_db d w ∧
    (let '(a, p) := if is_eip155_network network then (to_ascii_lowercase asset, to_ascii_lowercase pay_to)
                    else (asset, pay_to) in insert_payee client network a p (db w)) = Ok (tt, d))
    as (d & -> & Hd).
  { destruct (is_eip155_network network); cbn in Ha; rewrite calm_query in Ha by done;
      destruct (insert_payee _ _ _ _ _) as [[[] d]|]; try done; injection Ha as _ _ <-; by exists d. }
  by apply (payee_after _ _ _ _ _ _ _ Hd).
Qed.

(** ** Migrations *)

(** What [sqlx] documents of a migrator that returns: every embedded migration is
    recorded with its checksum; the third leaves its maintenance marker on the table,
    pending until the scrub has run. *)
Definition migrates (migrator : Proc World (Result unit StoreError)) : Prop :=
  ∀ env n w u n' w', calm env → migrator env n w = (Done (Ok u), n', w') →
    forallb (λ vc : N * string, bool_decide (applied_migrations (schema_info (db w')) !! vc.1 = Some vc.2))
      (embedded_migrator Http.migration_checksum) = true ∧
    (settlements_comment (schema_info (db w')) = Some AUTHORIZATION_SCRUB_COMPLETE ∨
     settlements_comment (schema_info (db w')) = Some Admin.AUTHORIZATION_SCRUB_PENDING).

Lemma upkeep_calm env n w : calm env → Admin.upkeep env n w = (Done (Ok tt), S n, w).
Proof. intros Hc. unfold Admin.upkeep. by rewrite calm_select. Qed.

(** Where the migrator succeeds, [migrate] ends and leaves exactly the schema that a
    starting service and the readiness check ask for. *)
Lemma migrate_makes_schema_current migrator env n w u n1 w1 :
  calm env → migrates migrator → migrator env n w = (Done (Ok u), n1, w1) →
  ∃ n' w', Admin.migrate_store migrator env n w = (Done (Ok tt), n', w') ∧
    HttpSpec.schema_current (db w') = true ∧ settlements (db w') = settlements (db w1).
Proof.
  intros Hc Hm Hrun. destruct (Hm _ _ _ _ _ _ Hc Hrun) as [Happ Hmark].
  unfold Admin.migrate_store. rewrite (bind_ok_done _ _ _ _ _ _ _ _ Hrun).
  unfold Admin.complete_authorization_scrub, HttpSpec.schema_current.
  erewrite bind_ok_done by (unfold authorization_scrub_marker; by apply calm_select).
  destruct Hmark as [Hmark|Hmark]; rewrite Hmark.
  - rewrite bool_decide_eq_true_2 by done. eexists _, w1. split; [reflexivity |].
    rewrite Happ, Hmark, bool_decide_eq_true_2 by done. done.
  - rewrite bool_decide_eq_false_2, bool_decide_eq_true_2 by done.
    do 2 erewrite bind_ok_done by (by apply upkeep_calm). erewrite bind_done by (by apply upkeep_calm).
    erewrite bind_ok_done by (by apply upkeep_calm). erewrite bind_ok_done by reflexivity.
    rewrite calm_query by done. eexists _, _. split; [reflexivity |]. cbn. cbn in Happ. rewrite Happ.
    by rewrite bool_decide_eq_true_2.
Qed.

End admin.

(** ** Commands against the shop's deployment *)

#[local] Existing Instances ClientsSpec.demo_auth ClientsSpec.demo_auth_laws DemoService.http
  Demo.external StartupSpec.demo_start.

Definition rotated :=
  Admin.rotate StartupSpec.demo_host "url" "pepper" 9 (quiet_env World) 0%nat shop_world.

Definition demo_raw : string :=
  "x402_live_" +:+ hex (bytes 12 "k") +:+ "." +:+ hex (bytes 32 "k").

Example rotated_ok : rotated.1.1 = Done (Ok (9, demo_raw)).
Proof. vm_compute. reflexivity. Qed.

(** The old key stops working where the new one starts. *)
Example old_key_locked_out :
  (Auth.authenticate (Auth.MkAuthenticator Config.Mainnet demo_pepper) demo_headers
     (quiet_env World) 0%nat rotated.2).1.1 = Done (Err Auth.Invalid).
Proof. vm_compute. reflexivity. Qed.


Definition payee_world :=
  Admin.allow_payee StartupSpec.demo_host "url" 9 "near:mainnet" "usdc.near" "shop.near"
    (quiet_env World) 0%nat shop_world.

Example payee_ok : payee_world.1.1 = Done (Ok 9).
Proof. vm_compute. reflexivity. Qed.

Lemma allowed_payee_is_honoured_witness :
  payee_allowed 9 "near:mainnet" "usdc.near" "shop.near" (quiet_env World) 0%nat payee_world.2
    = (Done (Ok true), 1%nat, payee_world.2) ∧
  payee_allowed 9 "near:mainnet" "usdc.near" "other.near" (quiet_env World) 0%nat payee_world.2
    ≠ (Done (Ok true), 1%nat, payee_world.2).
Proof.
  pose proof payee_ok as Hd. destruct payee_world as [[r n'] w'] eqn:E. cbn in Hd. subst r.
  destruct (allowed_payee_is_honoured StartupSpec.demo_host "url" 9 "near:mainnet" "usdc.near"
              "shop.near" (quiet_env World) 0%nat shop_world 9 n' w') as [_ Hp];
    [apply quiet_calm | exact E |].
  split.
  - apply Hp; [apply quiet_calm |]. right. vm_compute. done.
  - intros [Hf|(_ & _ & Hf)]%Hp; [vm_compute in Hf; discriminate Hf | vm_compute in Hf; discriminate Hf | apply quiet_calm].
Defined.

End AdminSpec.
