(* ===== verification/Frame.v ===== *)
(** * What settlement leaves alone

    The settlement store, the engine and the HTTP handlers never write the client and
    key tables.  Stated against an interface: any preorder on worlds that such steps
    move along is respected by all of them. *)

From stdpp Require Import base gmap strings list numbers relations.
From Stdlib Require Import Lia NArith ZArith Ascii String.
From S2P Require Import Prelude Text Json Readiness Schema RateLimit Sql Store Clients Journal.
From S2P Require Import Receipt Protocol Canonical Near Scheme Config Auth Retry Evm Chain ChainProofs.
From S2P Require Import Service Http.

Open Scope string_scope.
Open Scope list_scope.
Open Scope N_scope.

Module Frame.
Import Store Clients ChainProofs Service Http.

(** The client and key tables are the same. *)
Definition keeps (d d' : Database_) : Prop :=
  api_clients d' = api_clients d ∧ api_keys d' = api_keys d.

#[export] Instance keeps_preorder : PreOrder keeps.
Proof. split; [by intros d |]. intros a b c [] []. split; congruence. Qed.

(** What a step that leaves the tables alone may be for [R]. *)
Class Frames (R : relation World) : Prop := {
  frames_preorder :: PreOrder R;
  frames_db : ∀ w d, keeps (db w) d → R w (with_db d w);
  frames_gates : ∀ w g, R w (with_gates g w);
  frames_sent : ∀ w id bytes, R w (Near.log_sent id bytes w);
  frames_process : ∀ w p, R w (with_process p w)
}.

(** ** Blocks *)

Definition tx_keeps {A} (c : Tx A) : Prop :=
  ∀ env n d a d' n', c env n d = (Done (Ok (a, d')), n') → keeps d d'.

Lemma tx_keeps_ret {A} (a : A) : tx_keeps (tx_ret a).
Proof. intros env n d b d' n' [= <- <- <-]. reflexivity. Qed.
Lemma tx_keeps_fail {A} e : tx_keeps (tx_fail (A := A) e).
Proof. intros env n d b d' n' [=]. Qed.
Lemma tx_keeps_now : tx_keeps tx_now.
Proof. intros env n d b d' n' [= <- <- <-]. reflexivity. Qed.
Lemma tx_keeps_bind {A B} (c : Tx A) (k : A → Tx B) :
  tx_keeps c → (∀ a, tx_keeps (k a)) → tx_keeps (tx_bind c k).
Proof.
  intros Hc Hk env n d b d' n' (a & d1 & n1 & H1 & H2)%tx_bind_inv.
  etrans; [by eapply Hc | by eapply Hk].
Qed.
Lemma tx_keeps_stmt {A} (f : Stmt A) :
  (∀ d a d', f d = Ok (a, d') → keeps d d') → tx_keeps (tx_stmt f).
Proof. intros Hf env n d b d' n' H%tx_stmt_inv. by eapply Hf. Qed.
Lemma tx_keeps_attempt {A} (c : Tx A) : tx_keeps c → tx_keeps (tx_attempt c).
Proof.
  intros Hc env n d b d' n' [(a & -> & H)|(e & -> & ->)]%tx_attempt_inv; [by eapply Hc | reflexivity].
Qed.

(** ** Statements *)

Lemma keeps_select {A} (f : Database_ → A) d a d' : select f d = Ok (a, d') → keeps d d'.
Proof. intros [= _ <-]. reflexivity. Qed.

Lemma keeps_update id guard f d a d' : update_settlement id guard f d = Ok (a, d') → keeps d d'.
Proof. unfold update_settlement. repeat case_match; intros; simplify_eq; done. Qed.

Lemma keeps_insert id r d a d' : insert_settlement id r d = Ok (a, d') → keeps d d'.
Proof. unfold insert_settlement. repeat case_match; intros; simplify_eq; done. Qed.

Lemma keeps_event id from to code m d a d' : insert_event id from to code m d = Ok (a, d') → keeps d d'.
Proof. by intros [= _ <-]. Qed.

Lemma keeps_reserve_global date r l d a d' : reserve_global_budget date r l d = Ok (a, d') → keeps d d'.
Proof. unfold reserve_global_budget. intros H. result_inv. case_match; simplify_eq; done. Qed.
Lemma keeps_reserve_client date c r l d a d' : reserve_client_budget date c r l d = Ok (a, d') → keeps d d'.
Proof. unfold reserve_client_budget. intros H. result_inv. repeat case_match; simplify_eq; done. Qed.
Lemma keeps_release_global date r l d a d' : release_global date r l d = Ok (a, d') → keeps d d'.
Proof. unfold release_global. intros H. result_inv. case_match; simplify_eq; done. Qed.
Lemma keeps_release_client date c r l d a d' : release_client date c r l d = Ok (a, d') → keeps d d'.
Proof. unfold release_client. intros H. result_inv. case_match; simplify_eq; done. Qed.

Create HintDb frame discriminated.
#[export] Hint Resolve keeps_select keeps_update keeps_insert keeps_event keeps_reserve_global
  keeps_reserve_client keeps_release_global keeps_release_client : frame.

(** Walks a block down to its statements. *)
Ltac solve_keeps :=
  repeat first
    [ apply tx_keeps_ret | apply tx_keeps_fail | apply tx_keeps_now
    | apply tx_keeps_bind; [| intros] | apply tx_keeps_attempt
    | apply tx_keeps_stmt; intros ? ? ? ?
    | solve [eauto with frame]
    | match goal with |- tx_keeps (match ?x with _ => _ end) => destruct x end ].

Lemma keeps_release_budget date c r a : tx_keeps (release_budget date c r a).
Proof. unfold release_budget. solve_keeps. Qed.
#[export] Hint Resolve keeps_release_budget : frame.

Lemma keeps_claim_tx new date : tx_keeps (claim_tx new date).
Proof.
  unfold claim_tx. solve_keeps. unfold insert_reserved in *. result_inv. eauto with frame.
Qed.

Lemma keeps_refuse {A} id to : tx_keeps (refuse_transition (A := A) id to).
Proof. unfold refuse_transition. solve_keeps. Qed.
#[export] Hint Resolve keeps_refuse : frame.

Lemma keeps_awaiting_retry_tx id code : tx_keeps (awaiting_retry_tx id code).
Proof. unfold awaiting_retry_tx. solve_keeps. Qed.
Lemma keeps_resume_tx retry date : tx_keeps (resume_tx retry date).
Proof.
  unfold resume_tx. solve_keeps. unfold update_resumed in *. result_inv. eauto with frame.
Qed.
Lemma keeps_prepared_tx e : tx_keeps (prepared_tx e).
Proof. unfold prepared_tx. solve_keeps. unfold update_prepared in *. result_inv. eauto with frame. Qed.
Lemma keeps_prepared_evm_tx e : tx_keeps (prepared_evm_tx e).
Proof. unfold prepared_evm_tx. solve_keeps. unfold update_prepared_evm in *. result_inv. eauto with frame. Qed.
Lemma keeps_submitted_tx id : tx_keeps (submitted_tx id).
Proof. unfold submitted_tx. solve_keeps. Qed.
Lemma keeps_terminal_tx e : tx_keeps (terminal_tx e).
Proof. unfold terminal_tx. solve_keeps. unfold update_terminal in *. result_inv. eauto with frame. Qed.

(** ** Processes *)

Section frame.
Context (R : relation World) `{!Frames R}.

Lemma frame_tx {A} (body : Tx (TxEnd (Result A StoreError))) :
  tx_keeps body → respects R (run_tx body).
Proof.
  intros Hb. apply respects_run_tx; [apply _ |]. intros env n d r d' n' w E <-.
  apply frames_db. by eapply Hb.
Qed.

Lemma frame_query {A} (f : Stmt A) :
  (∀ d a d', f d = Ok (a, d') → keeps d d') → respects R (query f).
Proof. intros Hf. apply respects_query; [apply _ |]. intros w a d E. apply frames_db. by eapply Hf. Qed.

Lemma frame_select {A} (f : Database_ → A) : respects R (query (select f)).
Proof. apply respects_select, _. Qed.

#[local] Hint Resolve frame_select : respects.
#[local] Hint Extern 0 (PreOrder _) => apply frames_preorder : respects.

Lemma frame_settlement id : respects R (settlement id).
Proof. unfold settlement, select_row. solve_respects. Qed.
Lemma frame_find_existing c i h f : respects R (find_existing_settlement c i h f).
Proof. unfold find_existing_settlement. solve_respects. Qed.
#[local] Hint Resolve frame_settlement frame_find_existing : respects.

Lemma frame_claim new : respects R (claim_settlement new).
Proof.
  pose proof (λ date, frame_tx _ (keeps_claim_tx new date)).
  unfold claim_settlement, claim_conflict, find_existing_for, anchor_is_claimed, active_evm_signer_exists.
  solve_respects.
Qed.

Lemma frame_awaiting_retry id code : respects R (mark_awaiting_retry id code).
Proof.
  pose proof (frame_tx _ (keeps_awaiting_retry_tx id code)). unfold mark_awaiting_retry. solve_respects.
Qed.
Lemma frame_resume retry : respects R (resume_awaiting_retry retry).
Proof.
  pose proof (λ date, frame_tx _ (keeps_resume_tx retry date)). unfold resume_awaiting_retry. solve_respects.
Qed.
Lemma frame_raise id minimum : respects R (raise_required_confirmations id minimum).
Proof.
  assert (∀ t, respects R (query (update_raised id minimum t))).
  { intros t. apply frame_query. intros d a d'. unfold update_raised. intros H. result_inv.
    destruct x as [m d1]. destruct (m =? 1); simplify_eq; eauto with frame. }
  unfold raise_required_confirmations, select_row. solve_respects.
Qed.
Lemma frame_prepared e : respects R (mark_prepared e).
Proof. apply frame_tx, keeps_prepared_tx. Qed.
Lemma frame_prepared_evm e : respects R (mark_prepared_evm e).
Proof.
  pose proof (frame_tx _ (keeps_prepared_evm_tx e)). unfold mark_prepared_evm. solve_respects.
Qed.
Lemma frame_submitted id : respects R (mark_submitted id).
Proof. apply frame_tx, keeps_submitted_tx. Qed.
Lemma frame_terminal e : respects R (mark_terminal e).
Proof. pose proof (frame_tx _ (keeps_terminal_tx e)). unfold mark_terminal. solve_respects. Qed.
Lemma frame_note id : respects R (note_reconciliation id).
Proof.
  unfold note_reconciliation. apply respects_bind; [apply _ | apply respects_now, _ |]. intros t.
  apply respects_bind_ok; [apply _ | | intros; apply respects_ret, _].
  apply frame_query. eauto with frame.
Qed.
Lemma frame_upsert a b c : respects R (upsert_relayer a b c).
Proof. apply frame_query. intros d u d'. unfold insert_relayer. case_match; by intros [= _ <-]. Qed.
Lemma frame_quarantine a b c r n : respects R (quarantine_relayer a b c r n).
Proof.
  apply frame_query. intros d u d'. unfold set_quarantined. intros H. result_inv.
  case_match; simplify_eq. done.
Qed.
Lemma frame_relayer_is_active a b c : respects R (relayer_is_active a b c).
Proof. apply frame_select. Qed.
Lemma frame_nonterminal : respects R nonterminal_settlements.
Proof. unfold nonterminal_settlements. solve_respects. Qed.
#[local] Hint Resolve frame_claim frame_awaiting_retry frame_resume frame_raise frame_prepared
  frame_prepared_evm frame_submitted frame_terminal frame_note frame_upsert frame_quarantine
  frame_relayer_is_active frame_nonterminal : respects.

(** *** The engine *)

Context `{Near.External} `{Evm.EvmExternal}.
Context (s : AppState).

Lemma frame_set_gates g : respects R (modify (λ w, with_gates (g w) w)).
Proof. apply respects_modify. intros w. apply frames_gates. Qed.
Lemma frame_set_reconciliation b : respects R (set_reconciliation b).
Proof. apply frame_set_gates. Qed.
Lemma frame_set_relayer b : respects R (set_relayer b).
Proof. apply frame_set_gates. Qed.
Lemma frame_transmit {A} id bytes (answer : nat → A) : respects R (transmit (Near.log_sent id bytes) answer).
Proof.
  intros env n w o n' w' Hr. unfold transmit. pose proof (Hr n w) as Hi.
  destruct (reply env n); intros [= <- <- <-]; try done;
    (etrans; [exact Hi | apply frames_sent]).
Qed.
#[local] Hint Resolve frame_set_reconciliation frame_set_relayer frame_transmit : respects.

Lemma frame_broadcast_exact p id bytes : respects R (Near.broadcast_exact p id bytes).
Proof. unfold Near.broadcast_exact. solve_respects. Qed.
Lemma frame_broadcast_raw p id bytes : respects R (Evm.broadcast_raw p id bytes).
Proof. unfold Evm.broadcast_raw. solve_respects. Qed.
#[local] Hint Resolve frame_broadcast_exact frame_broadcast_raw : respects.

Lemma frame_broadcast p id prepared payment : respects R (Chain.broadcast p id prepared payment).
Proof. unfold Chain.broadcast. solve_respects. Qed.
Lemma frame_rebroadcast p id bytes hash payer asset :
  respects R (Chain.rebroadcast p id bytes hash payer asset).
Proof. unfold Chain.rebroadcast. solve_respects. Qed.
#[local] Hint Resolve frame_broadcast frame_rebroadcast : respects.

Lemma frame_fresh_signer_head : respects R (fresh_signer_head s).
Proof. unfold fresh_signer_head. solve_respects. Qed.
Lemma frame_terminalize e : respects R (terminalize e).
Proof. unfold terminalize. solve_respects. Qed.
Lemma frame_retryable id code : respects R (retryable_service_failure id code).
Proof. unfold retryable_service_failure. solve_respects. Qed.
#[local] Hint Resolve frame_fresh_signer_head frame_terminalize frame_retryable : respects.

Lemma frame_finalize id payment o : respects R (finalize_terminal s id payment o).
Proof. unfold finalize_terminal. solve_respects. Qed.
Lemma frame_protocol_failure id reason payer hash : respects R (terminal_protocol_failure s id reason payer hash).
Proof. unfold terminal_protocol_failure. solve_respects. Qed.
Lemma frame_rejected id payer hash : respects R (terminal_transaction_rejected s id payer hash).
Proof. unfold terminal_transaction_rejected. solve_respects. Qed.
Lemma frame_drift reason nonce : respects R (quarantine_after_drift s reason nonce).
Proof. unfold quarantine_after_drift. solve_respects. Qed.
#[local] Hint Resolve frame_finalize frame_protocol_failure frame_rejected frame_drift : respects.

Lemma frame_settle_evm id prepared submission payment :
  respects R (settle_prepared_evm s id prepared submission payment).
Proof. unfold settle_prepared_evm, can_settle. solve_respects. Qed.
Lemma frame_settle_near id head prepared submission payment :
  respects R (settle_prepared_near s id head prepared submission payment).
Proof. unfold settle_prepared_near, can_settle. solve_respects. Qed.
#[local] Hint Resolve frame_settle_evm frame_settle_near : respects.

Lemma frame_worker id request : respects R (run_new_settlement s id request).
Proof. unfold run_new_settlement, can_settle. solve_respects. Qed.

Lemma frame_finalize_reconciled record o : respects R (finalize_reconciled_terminal s record o).
Proof. unfold finalize_reconciled_terminal. solve_respects. Qed.
Lemma frame_mark_if_prepared record : respects R (mark_submitted_if_prepared record).
Proof. unfold mark_submitted_if_prepared. solve_respects. Qed.
Lemma frame_recovery_balance record balance : respects R (require_evm_recovery_balance s record balance).
Proof. unfold require_evm_recovery_balance. solve_respects. Qed.
#[local] Hint Resolve frame_finalize_reconciled frame_mark_if_prepared frame_recovery_balance : respects.

Lemma frame_conclude record hash outcome : respects R (conclude_rebroadcast s record hash outcome).
Proof. unfold conclude_rebroadcast, and_ok. solve_respects. Qed.
#[local] Hint Resolve frame_conclude : respects.

Lemma frame_recover_evm record bytes hash nonce : respects R (recover_unknown_evm s record bytes hash nonce).
Proof. unfold recover_unknown_evm, can_reconciliation_broadcast, and_err. solve_respects. Qed.
Lemma frame_recover_near record bytes hash : respects R (recover_unknown_near s record bytes hash).
Proof. unfold recover_unknown_near, can_reconciliation_broadcast, and_ok, and_err. solve_respects. Qed.
#[local] Hint Resolve frame_recover_evm frame_recover_near : respects.

Lemma frame_reconcile_prepared record : respects R (reconcile_prepared s record).
Proof.
  unfold reconcile_prepared, reconcile_prepared_evm, reconcile_prepared_near, and_ok, and_err.
  solve_respects.
Qed.
#[local] Hint Resolve frame_reconcile_prepared : respects.

Lemma frame_release_reserved records : respects R (release_reserved records).
Proof. induction records; cbn; solve_respects. Qed.
Lemma frame_resolve_signed records : respects R (resolve_signed s records).
Proof. induction records; cbn; solve_respects. Qed.
#[local] Hint Resolve frame_release_reserved frame_resolve_signed : respects.

Lemma frame_reconcile : respects R (reconcile s).
Proof. unfold reconcile. solve_respects. Qed.

(** *** The HTTP handlers *)

Context `{Auth.AuthExternal} `{HttpExternal}.

Lemma frame_process (f : World → Process) : respects R (modify (λ w, with_process (f w) w)).
Proof. apply respects_modify. intros w. apply frames_process. Qed.
Lemma frame_spawn t : respects R (spawn t).
Proof. apply frame_process. Qed.
Lemma frame_slots f : respects R (modify (with_free_slots f)).
Proof. apply frame_process. Qed.
Lemma frame_check prefix op limit : respects R (RateLimit.check prefix op limit).
Proof.
  assert (∀ m, respects R (modify (RateLimit.with_windows m))) by (intros m; apply frame_process).
  unfold RateLimit.check. solve_respects.
Qed.
Lemma frame_lookup prefix : respects R (lookup_api_key prefix).
Proof. unfold lookup_api_key. solve_respects. Qed.
#[local] Hint Resolve frame_spawn frame_slots frame_check frame_lookup respects_timeout : respects.

Lemma frame_authenticate headers : respects R (authenticate s headers).
Proof. unfold authenticate, Auth.authenticate. solve_respects. Qed.
#[local] Hint Resolve frame_authenticate : respects.

Lemma frame_admit request op : respects R (admit_request s request op).
Proof. unfold admit_request. solve_respects. Qed.
Lemma frame_poll polls id : respects R (poll_terminal polls id).
Proof. induction polls; cbn; solve_respects. Qed.
#[local] Hint Resolve frame_admit frame_poll : respects.

Lemma frame_prior c i h f : respects R (prior_settlement_response s c i h f).
Proof. unfold prior_settlement_response, wait_for_terminal. solve_respects. Qed.
#[local] Hint Resolve frame_prior : respects.

Lemma frame_unless_settled c i h f r : respects R (unless_settled s c i h f r).
Proof. unfold unless_settled, prior_settlement_race_response. solve_respects. Qed.
#[local] Hint Resolve frame_unless_settled : respects.

Lemma frame_claim_and_wait client parsed fingerprint verified :
  respects R (claim_and_wait s client parsed fingerprint verified).
Proof.
  assert (respects R (λ _ n w, (Done (new_v4 n), n, w))).
  { intros env n w o n' w' _ [= <- <- <-]. reflexivity. }
  unfold claim_and_wait, conclude_claim, resume, spawn_settlement_worker, wait_for_terminal.
  solve_respects.
Qed.
#[local] Hint Resolve frame_claim_and_wait : respects.

Lemma frame_gate f parsed hash client fingerprint :
  respects R (facilitator_verify_gate s f parsed hash client fingerprint).
Proof.
  assert (∀ (c : Proc World (Result Value unit)) t, respects R c → respects R (Retry.retry_while_transient c t))
    by (intros; by apply (Retry.respects_retry R)).
  unfold facilitator_verify_gate. solve_respects.
Qed.
#[local] Hint Resolve frame_gate : respects.

Lemma frame_settle request : respects R (settle s request).
Proof.
  assert (respects R (settle_inner s request)).
  { unfold settle_inner, settle_protocol, settle_fresh, can_settle, payee_allowed. solve_respects. }
  unfold settle. solve_respects.
Qed.

Lemma frame_verify request : respects R (verify s request).
Proof.
  assert (∀ f parsed d, respects R (near_routed_verify f parsed d)).
  { intros f parsed d. unfold near_routed_verify. apply respects_bind; [apply _ | | intros; apply respects_ret, _].
    apply (Retry.respects_retry R). apply respects_timeout. apply scheme_verify_respects; typeclasses eauto. }
  assert (∀ parsed, respects R (evm_verify s parsed)) by (intros; unfold evm_verify; solve_respects).
  assert (∀ client parsed, respects R (verify_protocol s client parsed)).
  { intros client parsed. unfold verify_protocol, payee_allowed, try_acquire. solve_respects.
    apply respects_finally; [apply _ | | intros w; apply frames_process]. solve_respects. }
  unfold verify, verify_inner. apply respects_bind; [apply _ | apply respects_timeout | intros; apply respects_ret, _].
  solve_respects.
Qed.

Lemma frame_ready : respects R (ready s).
Proof.
  assert (∀ l, respects R (migrations_applied l)) by (induction l; cbn; solve_respects).
  pose proof frame_set_gates.
  unfold ready, operationally_ready, ping, schema_compatible, authorization_scrub_marker,
    active_clients_have_payee_policy. solve_respects.
Qed.

End frame.

End Frame.
