(* ===== verification/ServiceSpec.v ===== *)
(** * What the facilitator promises

    The worlds that any number of HTTP requests, workers, reconciliation passes,
    administrative and store calls can reach, finished, failed or killed anywhere; what
    is on the wire in them; that a task of an instance that is not the leader sends
    nothing; and that none of them brings a revoked credential back. *)

From stdpp Require Import base gmap strings list numbers relations.
From Stdlib Require Import Lia NArith ZArith Ascii String.
From S2P Require Import Prelude Text Json Readiness Schema Sql Store Journal StoreProofs.
From S2P Require Import StoreSpec Contract Receipt Near Scheme Config Auth ClientsSpec Demo NearSpec Retry Evm DemoEvm Chain.
From S2P Require Import RateLimit Clients Probe ProbeSpec ChainProofs Service ServiceProofs Http DemoService HttpProofs.
From S2P Require Import HttpSpec Router RouterSpec Secrets Telemetry Bootstrap Catalog CatalogSpec Startup StartupSpec Frame.

Open Scope string_scope.
Open Scope list_scope.
Open Scope N_scope.

Module ServiceSpec.
Import Store Clients Journal StoreProofs StoreSpec ChainProofs Service ServiceProofs ClientsSpec.

(** ** Tasks *)

Inductive Task : Type :=
| Serve (catalog : Catalog.Catalog) (i : Router.Incoming)
| Refresh
| Worker (id : N) (request : string)
| Recovery
| Admin (call : AdminCall)
| Store (call : StoreCall)
| Start (h : Secrets.Host) (path : string)
| ReconcileCommand (h : Secrets.Host) (path : string).

Section tasks.
Context `{Near.External} `{Evm.EvmExternal} `{Auth.AuthExternal} `{Http.HttpExternal}.
Context `{Bootstrap.BootExternal} `{Catalog.CatalogExternal} `{Telemetry.TelemetryExternal}
  `{Startup.StartExternal} `{Router.RouterExternal}.

Section app.
Context (s : AppState).

Definition run_task (t : Task) : Proc World unit :=
  match t with
  | Serve catalog i => discard (Router.serve s catalog i)
  | Refresh => discard (Probe.refresh_chain_readiness s)
  | Admin call => exec_admin call
  | Worker id request => run_new_settlement s id request
  | Recovery => discard (reconcile s)
  | Store call => exec call
  | Start h path => discard (Startup.start h path)
  | ReconcileCommand h path => discard (Startup.reconcile_command h path)
  end.

Lemma refresh_journal : respects world_step (Probe.refresh_chain_readiness s).
Proof.
  apply ProbeSpec.refresh_respects; [apply _ | intros; apply world_step_gates.. |].
  intros; apply world_step_process; eauto.
Qed.

End app.

#[local] Instance journal_restartable : StartupSpec.Restartable world_step.
Proof.
  split; [intros; apply select_respects | intros; apply upsert_relayer_respects | | apply refresh_journal].
  intros slots w. etrans; [apply world_step_gates | apply world_step_process]. by intros ? ? []%elem_of_nil.
Qed.

Lemma run_task_respects s t : respects world_step (run_task s t).
Proof.
  destruct t; [apply discard_respects, RouterSpec.serve_respects;
        [apply _ | apply HttpSpec.settle_respects | apply HttpSpec.verify_keeps_journal
        | apply HttpSpec.ready_keeps_journal]
    | apply discard_respects, refresh_journal
    | apply run_new_settlement_respects | apply discard_respects, reconcile_respects
    | apply exec_admin_journal | apply exec_respects
    | apply discard_respects, StartupSpec.start_respects; apply _
    | apply discard_respects, StartupSpec.reconcile_command_respects;
      [apply _ | apply _ | apply reconcile_respects | apply respects_modify; intros; apply world_step_gates]].
Qed.

(** One task of an instance with any configuration, finished, failed or killed half
    way, among others that keep the journal. *)
Inductive task_step : relation World :=
| run_one s t env n w o n' w' :
    rely world_step env → run_task s t env n w = (o, n', w') → task_step w w'.

Inductive operating (w : World) : Prop :=
| operates w0 : initial w0 → rtc task_step w0 w → operating w.

Lemma operating_inv w : operating w → world_inv w.
Proof.
  intros [w0 Hi Hr]. eapply (rtc_invariant task_step world_inv); [| exact Hr | by apply initial_inv].
  intros a b [s t env n x o n' y Hrely Ht] Hx. by apply (run_task_respects s t _ _ _ _ _ _ Hrely Ht).
Qed.

(** C8: Every task of the service (any HTTP request, the worker, the reconciliation
    pass, the chain refresh, administration, single store calls, a start of the process
    and the [reconcile] command), of an instance with any configuration, run against any
    chain, any failures of the database, any lost acknowledgement and a crash at any
    point, among any other tasks that keep the journal, keeps it too: the rows'
    constraints, the ledgers, the event log; whatever they hand to the chain is, at that moment, the
    signed transaction of a row already marked [submitted]; and nothing journaled or
    sent before is altered. *)
Theorem engine_keeps_journal s t env n w o n' w' :
  rely world_step env → world_inv w → run_task s t env n w = (o, n', w') →
  world_inv w' ∧ world_le w w'.
Proof. intros Hr Hw Ht. by apply (run_task_respects s t _ _ _ _ _ _ Hr Ht). Qed.

(** C2: the service implements the settlement contract.  Seen through the book of
    claims and the list of what was sent, every world it reaches is one the contract
    reaches from nothing, and every task, finished, failed or killed anywhere among any
    others, is a run of the contract: payments are claimed once, signed once, launched
    before they are sent, answered once, and sent only as signed. *)
Theorem service_refines_contract s t env n w o n' w' :
  operating w → rely world_step env → run_task s t env n w = (o, n', w') →
  rtc Contract.contract_step Contract.empty_book (Contract.book_of w) ∧
  rtc Contract.contract_step (Contract.book_of w) (Contract.book_of w').
Proof.
  intros Hw Hr Ht. pose proof (operating_inv w Hw) as Hi. split.
  - destruct Hw as [w0 Hw0 Hrun]. rewrite <- (Contract.initial_book w0) by (split; apply Hw0).
    clear Hi Ht Hr. assert (world_inv w0) as Hi0 by by apply initial_inv. clear Hw0.
    induction Hrun as [w|w0 w1 w [s1 t1 env1 n1 x o1 m1 y Hrely Hone] _ IH]; [apply rtc_refl |].
    destruct (run_task_respects s1 t1 _ _ _ _ _ _ Hrely Hone Hi0) as [Hi1 L].
    etrans; [by apply Contract.world_le_contract | by apply IH].
  - destruct (run_task_respects s t _ _ _ _ _ _ Hr Ht Hi) as [Hi' L]. by apply Contract.world_le_contract.
Qed.

(** Nothing reaches the chain that the journal does not hold: in every world the
    engine can reach, each transaction ever handed to an RPC node is, byte for byte,
    the signed transaction of its settlement's row, and that row is durably past
    [submitted].  Recovery after a crash therefore always knows what may have been
    sent. *)
Theorem sent_transactions_are_journaled w x :
  operating w → x ∈ wire w →
  ∃ r, settlements (db w) !! sent_settlement x = Some r ∧
    signed_bytes r = Some (sent_bytes x) ∧ past_submission (state r) = true.
Proof. intros (_ & Hw & _)%operating_inv Hx. by apply Hw. Qed.

(** C1: No payment is ever sent as two different transactions: two broadcasts, however
    far apart and by whatever task, whose settlements carry the same payment hash or
    the same authorization anchor are broadcasts of the same bytes for the same
    settlement. *)
Theorem no_payment_sent_twice w x y rx ry :
  operating w → x ∈ wire w → y ∈ wire w →
  settlements (db w) !! sent_settlement x = Some rx →
  settlements (db w) !! sent_settlement y = Some ry →
  payment_hash (claim rx) = payment_hash (claim ry) ∨
  (anchor_scope (claim rx) = anchor_scope (claim ry) ∧
   anchor_value (claim rx) = anchor_value (claim ry)) →
  x = y.
Proof.
  intros ([_ [Hh _ _ Ha _ _] _ _] & Hw & _)%operating_inv Hx Hy Hrx Hry Hsame.
  assert (sent_settlement x = sent_settlement y) as E.
  { destruct Hsame as [Eh | [Es Ev]].
    - eapply Hh; eauto; unfold key_payment_hash; by rewrite Eh.
    - eapply Ha; eauto; unfold key_anchor; by rewrite Es, Ev. }
  destruct (Hw x Hx) as (r1 & R1 & B1 & _), (Hw y Hy) as (r2 & R2 & B2 & _).
  destruct x as [i b], y as [j b']. cbn in *. simplify_eq. congruence.
Qed.

(** ** Fencing *)

Definition leads (w : World) : bool := Readiness.s_leadership (Readiness.snapshot (gates w)).

(** A step of an instance that is not the leader: it does not become one, and hands
    nothing to the chain. *)
Definition fenced (w w' : World) : Prop := leads w = false → leads w' = false ∧ wire w' = wire w.

#[local] Instance fenced_preorder : PreOrder fenced.
Proof.
  split; [done |]. intros a b c L1 L2 Ha. destruct (L1 Ha) as [Hb Eb], (L2 Hb) as [Hc Ec].
  split; [done | congruence].
Qed.

Lemma fenced_run_tx {A} (body : Tx (TxEnd (Result A StoreError))) : respects fenced (run_tx body).
Proof. apply respects_run_tx; [apply _ |]. by intros. Qed.
Lemma fenced_query {A} (f : Stmt A) : respects fenced (query f).
Proof. apply respects_query; [apply _ |]. by intros. Qed.
Lemma fenced_set_reconciliation b : respects fenced (set_reconciliation b).
Proof. by apply respects_modify. Qed.
Lemma fenced_set_relayer b : respects fenced (set_relayer b).
Proof. by apply respects_modify. Qed.
#[local] Hint Resolve fenced_run_tx fenced_query fenced_set_reconciliation fenced_set_relayer : respects.

(** Behind a gate that a follower finds shut, anything goes. *)
Lemma fenced_gate {A} (gate : World → bool) (a k : Proc World A) :
  (∀ w, gate w = true → leads w = true) → respects fenced a →
  respects fenced (let* open := gets gate in if negb open then a else k).
Proof.
  intros Hg Ha env n w o n' w' Hr Hrun Hl. unfold bind, gets in Hrun.
  destruct (gate w) eqn:E; [by rewrite (Hg w E) in Hl |]. by apply (Ha _ _ _ _ _ _ Hr Hrun).
Qed.

Lemma fenced_can_settle {A} (a k : Proc World A) :
  respects fenced a → respects fenced (let* open := can_settle in if negb open then a else k).
Proof.
  apply fenced_gate. intros w. unfold Readiness.can_settle, leads.
  destruct (Readiness.snapshot (gates w)); cbn. rewrite !andb_true_iff. tauto.
Qed.
Lemma fenced_can_broadcast {A} (a k : Proc World A) :
  respects fenced a →
  respects fenced (let* open := can_reconciliation_broadcast in if negb open then a else k).
Proof. apply fenced_gate. intros w. cbn. rewrite !andb_true_iff. unfold leads. tauto. Qed.

(** Walks through a process, stopping behind each gate. *)
Ltac fence :=
  repeat first
    [ apply fenced_can_settle | apply fenced_can_broadcast
    | solve [eauto with respects]
    | apply respects_bind; [typeclasses eauto | |]
    | apply respects_bind_ok; [typeclasses eauto | |]
    | apply respects_map_err; [typeclasses eauto |] | apply respects_timeout
    | progress intros
    | match goal with |- respects _ (match ?x with _ => _ end) => destruct x eqn:? end ].

Lemma fenced_awaiting id code : respects fenced (mark_awaiting_retry id code).
Proof. unfold mark_awaiting_retry. fence. Qed.
Lemma fenced_terminal e : respects fenced (mark_terminal e).
Proof. unfold mark_terminal. fence. Qed.
Lemma fenced_prepared_evm e : respects fenced (mark_prepared_evm e).
Proof. unfold mark_prepared_evm. fence. Qed.
Lemma fenced_raise id m : respects fenced (raise_required_confirmations id m).
Proof. unfold raise_required_confirmations. fence. Qed.
Lemma fenced_note id : respects fenced (note_reconciliation id).
Proof. unfold note_reconciliation. fence. Qed.
Lemma fenced_settlement id : respects fenced (settlement id).
Proof. unfold settlement. fence. Qed.
Lemma fenced_nonterminal : respects fenced nonterminal_settlements.
Proof. unfold nonterminal_settlements. fence. Qed.
#[local] Hint Resolve fenced_awaiting fenced_terminal fenced_prepared_evm fenced_raise fenced_note
  fenced_settlement fenced_nonterminal : respects.

Lemma fenced_quarantine a b c r m : respects fenced (quarantine_relayer a b c r m).
Proof. apply fenced_query. Qed.
Lemma fenced_retryable id code : respects fenced (retryable_service_failure id code).
Proof. unfold retryable_service_failure. fence. Qed.
Lemma fenced_terminalize e : respects fenced (terminalize e).
Proof. unfold terminalize. fence. Qed.
#[local] Hint Resolve fenced_quarantine fenced_retryable fenced_terminalize : respects.

Section engine.
Context (s : AppState).

Lemma fenced_head : respects fenced (fresh_signer_head s).
Proof. unfold fresh_signer_head, relayer_is_active. fence. Qed.
Lemma fenced_drift reason nonce : respects fenced (quarantine_after_drift s reason nonce).
Proof. unfold quarantine_after_drift. fence. Qed.
#[local] Hint Resolve fenced_head fenced_drift : respects.

(** *** The stages of the engine *)

Inductive Stage : Type :=
| SettleNear (id : N) (head : Chain.SignerHead) (prepared : Chain.Prepared)
    (submission : Chain.DurableSubmission) (payment : Chain.VerifiedPayment)
| SettleEvm (id : N) (prepared : Chain.Prepared) (submission : Chain.DurableSubmission)
    (payment : Chain.VerifiedPayment)
| ResendNear (record : Rec.SettlementRecord) (bytes hash : string)
| ResendEvm (record : Rec.SettlementRecord) (bytes hash : string) (nonce : N)
| Whole (t : Task).

Definition run_stage (g : Stage) : Proc World unit :=
  match g with
  | SettleNear id head prepared submission payment =>
      settle_prepared_near s id head prepared submission payment
  | SettleEvm id prepared submission payment => settle_prepared_evm s id prepared submission payment
  | ResendNear record bytes hash => discard (recover_unknown_near s record bytes hash)
  | ResendEvm record bytes hash nonce => discard (recover_unknown_evm s record bytes hash nonce)
  | Whole t => run_task s t
  end.

Lemma fenced_settle_near id head prepared submission payment :
  respects fenced (settle_prepared_near s id head prepared submission payment).
Proof. unfold settle_prepared_near, mark_prepared, mark_submitted. fence. Qed.
Lemma fenced_settle_evm id prepared submission payment :
  respects fenced (settle_prepared_evm s id prepared submission payment).
Proof. unfold settle_prepared_evm, mark_submitted. fence. Qed.
Lemma fenced_resend_near record bytes hash :
  respects fenced (recover_unknown_near s record bytes hash).
Proof.
  unfold recover_unknown_near, mark_submitted_if_prepared, mark_submitted, and_err, and_ok,
    terminal_protocol_failure. fence.
Qed.
Lemma fenced_resend_evm record bytes hash nonce :
  respects fenced (recover_unknown_evm s record bytes hash nonce).
Proof.
  unfold recover_unknown_evm, mark_submitted_if_prepared, mark_submitted, require_evm_recovery_balance,
    and_err. fence.
Qed.

Lemma fenced_lookup new : respects fenced (find_existing_for new).
Proof. unfold find_existing_for, find_existing_settlement. fence. Qed.
Lemma fenced_anchor a b : respects fenced (anchor_is_claimed a b).
Proof. unfold anchor_is_claimed. fence. Qed.
Lemma fenced_busy a b c : respects fenced (active_evm_signer_exists a b c).
Proof. unfold active_evm_signer_exists. fence. Qed.
#[local] Hint Resolve fenced_lookup fenced_anchor fenced_busy : respects.

Lemma fenced_exec call : respects fenced (exec call).
Proof.
  destruct call; apply discard_respects;
    unfold claim_settlement, claim_conflict, resume_awaiting_retry, mark_prepared, mark_submitted,
      upsert_relayer; fence.
Qed.

(** *** The handlers *)

Lemma fenced_process (f : World → Process) : respects fenced (modify (λ w, with_process (f w) w)).
Proof. by apply respects_modify. Qed.
Lemma fenced_spawn t : respects fenced (Http.spawn t).
Proof. apply fenced_process. Qed.
Lemma fenced_check prefix op limit : respects fenced (RateLimit.check prefix op limit).
Proof.
  assert (∀ m, respects fenced (modify (RateLimit.with_windows m))) by (intros m; apply fenced_process).
  unfold RateLimit.check. fence.
Qed.
Lemma fenced_poll polls id : respects fenced (Http.poll_terminal polls id).
Proof. induction polls; cbn; fence. Qed.
Lemma fenced_prior c i h f : respects fenced (Http.prior_settlement_response s c i h f).
Proof.
  pose proof fenced_poll.
  unfold Http.prior_settlement_response, Http.wait_for_terminal, find_existing_settlement. fence.
Qed.
#[local] Hint Resolve fenced_spawn fenced_check fenced_poll fenced_prior : respects.

Lemma fenced_claim new : respects fenced (claim_settlement new).
Proof. unfold claim_settlement, claim_conflict. fence. Qed.
Lemma fenced_resume retry : respects fenced (resume_awaiting_retry retry).
Proof. unfold resume_awaiting_retry. fence. Qed.
#[local] Hint Resolve fenced_claim fenced_resume : respects.

Lemma fenced_claim_and_wait client parsed fingerprint verified :
  respects fenced (Http.claim_and_wait s client parsed fingerprint verified).
Proof.
  assert (respects fenced (λ _ n w, (Done (Http.new_v4 n), n, w))).
  { intros env n w o n' w' _ [= <- <- <-]. done. }
  unfold Http.claim_and_wait, Http.conclude_claim, Http.resume, Http.spawn_settlement_worker,
    Http.wait_for_terminal.
  fence.
Qed.
Lemma fenced_unless_settled c i h f r : respects fenced (Http.unless_settled s c i h f r).
Proof. unfold Http.unless_settled, Http.prior_settlement_race_response. fence. Qed.
#[local] Hint Resolve fenced_claim_and_wait fenced_unless_settled : respects.

Lemma fenced_settle request : respects fenced (Http.settle s request).
Proof.
  assert (∀ f parsed hash client fingerprint,
    respects fenced (Http.facilitator_verify_gate s f parsed hash client fingerprint)).
  { assert (∀ (c : Proc World (Result Value unit)) t,
      respects fenced c → respects fenced (Retry.retry_while_transient c t))
      by (intros; by apply (Retry.respects_retry fenced)).
    intros. unfold Http.facilitator_verify_gate. fence. }
  assert (respects fenced (Http.admit_request s request OpSettle)).
  { apply HttpSpec.admit_respects; eauto with respects typeclass_instances. }
  unfold Http.settle, Http.settle_inner, Http.settle_protocol, Http.settle_fresh, Clients.payee_allowed.
  apply respects_bind; [apply _ | apply respects_timeout; fence | fence].
Qed.

Lemma fenced_verify request : respects fenced (Http.verify s request).
Proof.
  apply HttpSpec.verify_respects; eauto with respects typeclass_instances; [|done].
  intros. apply fenced_process.
Qed.

Lemma fenced_ready : respects fenced (Http.ready s).
Proof.
  assert (∀ l, respects fenced (Clients.migrations_applied l)) by (induction l as [|[]]; cbn; fence).
  assert (∀ b, respects fenced (modify (λ w, with_gates (Readiness.set_database b (gates w)) w)))
    by (intros; by apply respects_modify).
  unfold Http.ready, Clients.operationally_ready, Clients.ping, Clients.schema_compatible,
    Clients.authorization_scrub_marker, Clients.active_clients_have_payee_policy.
  fence.
Qed.

Lemma fenced_refresh : respects fenced (Probe.refresh_chain_readiness s).
Proof. by apply ProbeSpec.refresh_respects; [apply _ | ..]. Qed.

Lemma fenced_admin call : respects fenced (exec_admin call).
Proof.
  destruct call; cbn; unfold Clients.create_client, Clients.rotate_client_key, Clients.revoke_client,
    Clients.allow_payee, Clients.set_client_budget, Clients.touch_api_key; fence.
Qed.

Lemma fenced_recovery : respects fenced (reconcile s).
Proof. apply fenced_gate; [done | fence]. Qed.

End engine.

#[local] Instance fenced_restartable : StartupSpec.Restartable fenced.
Proof.
  split; [intros; apply fenced_query | intros; apply fenced_query | done | apply fenced_refresh].
Qed.

Lemma fenced_stage s g : respects fenced (run_stage s g).
Proof.
  destruct g as [| | | |[]]; cbn [run_stage run_task];
    eauto using fenced_settle_near, fenced_settle_evm, fenced_exec, discard_respects, fenced_preorder, fenced_resend_near,
      fenced_resend_evm, fenced_refresh, RouterSpec.serve_respects, fenced_settle, fenced_verify, fenced_ready, fenced_admin, fenced_recovery,
      StartupSpec.start_respects, fenced_restartable.
  - pose proof fenced_head. pose proof fenced_settle_near. pose proof fenced_settle_evm.
    unfold run_new_settlement. fence.
  - apply discard_respects, StartupSpec.reconcile_command_respects;
      [apply _ | apply _ | apply fenced_recovery | by apply respects_modify].
Qed.


(** ** Revocation *)

#[local] Instance clients_frames : Frame.Frames clients_step.
Proof.
  split; [apply _ | | intros; unfold clients_step; reflexivity..].
  intros w d []. by apply tables_step_frame.
Qed.

Lemma exec_clients call : respects clients_step (exec call).
Proof.
  destruct call; apply discard_respects;
    eauto using Frame.frame_claim, Frame.frame_resume, Frame.frame_awaiting_retry, Frame.frame_prepared,
      Frame.frame_prepared_evm, Frame.frame_raise, Frame.frame_submitted, Frame.frame_terminal,
      Frame.frame_note, Frame.frame_upsert, Frame.frame_quarantine, Frame.frame_settlement,
      Frame.frame_find_existing, Frame.frame_nonterminal, Frame.frame_relayer_is_active, clients_frames.
Qed.

Lemma refresh_clients s : respects clients_step (Probe.refresh_chain_readiness s).
Proof. apply ProbeSpec.refresh_respects; [apply _ | intros; unfold clients_step; reflexivity..]. Qed.

#[local] Instance clients_restartable : StartupSpec.Restartable clients_step.
Proof.
  split; [intros; apply Frame.frame_select, _ | intros; apply Frame.frame_upsert, _ | | apply refresh_clients].
  intros slots w. etrans; [apply Frame.frames_gates | apply Frame.frames_process].
Qed.

Lemma serve_clients s catalog i : respects clients_step (Router.serve s catalog i).
Proof.
  apply RouterSpec.serve_respects; [apply _ | | |];
    eauto using Frame.frame_settle, Frame.frame_verify, Frame.frame_ready, clients_frames.
Qed.

Lemma run_task_clients s t : respects clients_step (run_task s t).
Proof.
  destruct t; cbn [run_task];
    eauto using exec_clients, exec_admin_clients, refresh_clients, discard_respects, clients_step_preorder,
      serve_clients, Frame.frame_worker, Frame.frame_reconcile, clients_frames, StartupSpec.start_respects,
      clients_restartable.
  apply discard_respects, StartupSpec.reconcile_command_respects;
    [apply _ | apply _ | intros; apply Frame.frame_reconcile, _ | apply Frame.frame_set_gates, _].
Qed.

(** One task among others that keep the client tables. *)
Inductive client_step : relation World :=
| run_among s t env n w o n' w' :
    rely clients_step env → run_task s t env n w = (o, n', w') → client_step w w'.

Lemma client_steps w w' : rtc client_step w w' → clients_step w w'.
Proof.
  induction 1 as [|x y z [s t env n x' o n' y' Hr Ht] _ IH]; [reflexivity |].
  etrans; [by eapply run_task_clients | exact IH].
Qed.

(** C25: Revocation is final: once [revoke_client] has returned, no run of tasks -
    requests, workers, recovery passes, administration, finished, failed or killed -
    leads to a world in which any request authenticates as that client. *)
Theorem revocation_is_final id env n w b n1 w1 w2 a headers env' m r m' w3 :
  rely clients_step env → clients_inv (db w) → is_Some (api_clients (db w) !! id) →
  Clients.revoke_client id env n w = (Done (Ok b), n1, w1) →
  rtc client_step w1 w2 → rely clients_step env' →
  Auth.authenticate a headers env' m w2 = (Done (Ok r), m', w3) →
  Api.id (Auth.client r) ≠ id.
Proof.
  intros Hr Hinv Hc Hrevoke Hrun%client_steps Hr' Hauth.
  exact (revoked_client_locked_out _ _ _ _ _ _ _ _ _ _ _ _ _ _ _ Hr Hinv Hc Hrevoke Hrun Hr' Hauth).
Qed.

End tasks.



(** ** A concrete settlement, end to end *)

#[local] Existing Instances DemoService.http Demo.external DemoEvm.external ClientsSpec.demo_auth
  StartupSpec.demo_boot CatalogSpec.demo_catalog StartupSpec.demo_telemetry StartupSpec.demo_start RouterSpec.demo_router.
Abbreviation demo_app := DemoService.demo_app.
Abbreviation slow_app := DemoService.slow_app.
Abbreviation demo_world := DemoService.world.

Abbreviation demo_claim := DemoService.payment_claim.

(** The world after a task in a quiet environment. *)
Definition then_run (s : AppState) (w : World) (t : Task) : World :=
  (run_task s t (quiet_env World) 0%nat w).2.

Definition history (s : AppState) (l : list Task) : World := fold_left (then_run s) l demo_world.

Definition claim_then (l : list Task) : list Task := Store (CallClaim demo_claim) :: l.

Example demo_settles :
  let w := history demo_app (claim_then [Worker 1 "request"]) in
  (state <$> settlements (db w) !! 1) = Some Succeeded ∧ wire w = [MkSent 1 "outer"].
Proof. vm_compute. split; reflexivity. Qed.

(** Recovery resends what the worker sent. *)
Example slow_resends :
  let w := history slow_app (claim_then [Worker 1 "request"; Recovery]) in
  (state <$> settlements (db w) !! 1) = Some Submitted ∧
  wire w = [MkSent 1 "outer"; MkSent 1 "outer"].
Proof. vm_compute. split; reflexivity. Qed.

Lemma history_operating s l : operating (history s l).
Proof.
  exists demo_world; [vm_compute; split_and!; reflexivity |]. unfold history.
  generalize demo_world. induction l as [|t l IH]; intros w; cbn; [apply rtc_refl |].
  eapply rtc_l; [| apply IH]. unfold then_run.
  destruct (run_task s t (quiet_env World) 0%nat w) as [[o n'] w'] eqn:E.
  eapply run_one; [| exact E]. intros n x. reflexivity.
Qed.

(** The process dies at tick [k]; at tick 24 the transaction has left it and its
    outcome is not yet written. *)
Definition dies_at (k : nat) : Env World :=
  MkEnv (λ _ w, w) (λ n, if (n =? k)%nat then Crash else Up) (λ _, 0%Z).

Lemma engine_keeps_journal_witness :
  let w := history demo_app (claim_then []) in
  let w' := (run_task demo_app (Worker 1 "request") (dies_at 24) 0%nat w).2 in
  world_inv w' ∧ world_le w w'.
Proof.
  intros w w'.
  destruct (run_task demo_app (Worker 1 "request") (dies_at 24) 0%nat w) as [[o n'] w1] eqn:E.
  subst w'. apply (engine_keeps_journal demo_app (Worker 1 "request") (dies_at 24) 0%nat w o n' w1);
    [intros n x; reflexivity | | exact E].
  eapply operating_inv, history_operating.
Defined.

Example demo_book :
  let b := Contract.book_of (history demo_app (claim_then [Worker 1 "request"])) in
  Contract.sendable <$> (snd <$> Contract.entries b !! 1) = Some (Some "outer") ∧
  Contract.sent b = [MkSent 1 "outer"].
Proof. vm_compute. split; reflexivity. Qed.

Lemma service_refines_contract_witness :
  let w := history demo_app (claim_then []) in
  let w' := (run_task demo_app (Worker 1 "request") (dies_at 24) 0%nat w).2 in
  rtc Contract.contract_step (Contract.book_of w) (Contract.book_of w').
Proof.
  intros w w'.
  destruct (run_task demo_app (Worker 1 "request") (dies_at 24) 0%nat w) as [[o n'] w1] eqn:E.
  subst w'. apply (service_refines_contract demo_app (Worker 1 "request") (dies_at 24) 0%nat w o n' w1);
    [apply history_operating | intros n x; reflexivity | exact E].
Defined.

Lemma sent_transactions_are_journaled_witness :
  let w := history demo_app (claim_then [Worker 1 "request"]) in
  ∃ r, settlements (db w) !! 1 = Some r ∧ signed_bytes r = Some "outer" ∧
    past_submission (state r) = true.
Proof.
  intros w. apply (sent_transactions_are_journaled w (MkSent 1 "outer") (history_operating _ _)).
  unfold w. rewrite (proj2 demo_settles). by left.
Defined.

(** The worker sent, and recovery sent again: two broadcasts, one transaction. *)
Lemma no_payment_sent_twice_witness :
  ∃ x y, wire (history slow_app (claim_then [Worker 1 "request"; Recovery])) = [x; y] ∧ x = y.
Proof.
  pose proof (proj2 slow_resends) as Hw. cbn beta zeta in Hw. 
  set (w := history slow_app _) in *.
  exists (MkSent 1 "outer"), (MkSent 1 "outer"). split; [exact Hw |].
  destruct (settlements (db w) !! 1) as [r|] eqn:E; [| vm_compute in E; discriminate].
  apply (no_payment_sent_twice w (MkSent 1 "outer") (MkSent 1 "outer") r r
           (history_operating _ _)); try exact E; try (rewrite Hw; by left).
  by left.
Defined.

(** A worker that signed and then lost its leadership. *)
Definition signed_stage : Stage :=
  SettleNear 1
    (Chain.MkSignerHead 100 (Near.hash_to_string (Demo.hash32 "b")) 7 "relayer.near" "ed25519:relayer" 1000000)
    (Chain.MkPrepared "outer" (Near.hash_to_string (Demo.hash32 "t")) "relayer.near" "ed25519:relayer" 8
       (Chain.NearPrepared
          (Near.MkPreparedTransaction (Demo.hash32 "t") 8 "relayer.near" Demo.relayer_pk "outer")))
    (Chain.MkDurable "relayer.near" 8 "outer" (Near.hash_to_string (Demo.hash32 "t")) Chain.NearFinality)
    (Chain.MkVerified "alice.near" (Demo.hash32 "h")
       (Chain.MkRequirements "near:mainnet" "usdc.near" "shop.near" 2500 "2500")
       (Chain.NearVerified NearSpec.demo_payment)).

Example signed_stage_sends :
  wire (run_stage demo_app signed_stage (quiet_env World) 0%nat (history demo_app (claim_then []))).2
    = [MkSent 1 "outer"].
Proof. vm_compute. reflexivity. Qed.


(** The shop of [ClientsSpec] is revoked; a cafe is created, and shows its key. *)
Lemma revocation_is_final_witness : Api.id cafe ≠ 9.
Proof.
  apply (revocation_is_final 9 (quiet_env World) 0%nat shop_world true 4%nat revoked_world cafe_world
           DemoService.authenticator cafe_headers (quiet_env World) 0%nat
           (Auth.MkAuthenticated cafe (Auth.generated_prefix second_key)) 1%nat cafe_world).
  - apply quiet_rely, _.
  - exact shop_inv.
  - exists (MkClient "shop" "mainnet" true 1000 60 10). vm_compute. reflexivity.
  - vm_compute. reflexivity.
  - apply rtc_once, (run_among demo_app (Admin (AdminCreate cafe 2 (Auth.generated_prefix second_key)
        (Auth.generated_digest second_key))) (quiet_env World) 0%nat revoked_world (Done tt) 4%nat cafe_world);
      [apply quiet_rely, _ | vm_compute; reflexivity].
  - apply quiet_rely, _.
  - vm_compute. reflexivity.
Defined.

End ServiceSpec.
